(* ===== verification/_CoqProject ===== *)
-Q . S2P
Prelude.v
Platform.v
Frame.v
Codec.v
VersionVector.v
GCounter.v
PnCounter.v
LwwRegister.v
OrSet.v
Crdt.v
StatePath.v
StateRegistry.v
EventLog.v
Recovery.v
Resolution.v
Subscription.v
Observer.v
AckTracker.v
Fec.v
Freshness.v
Transport.v
Connection.v
Capability.v
Float64.v
FloatBounds.v
Congestion.v
AsyncTransport.v
Udp.v
OpHeap.v
Uring.v
Iocp.v
Dtls.v
CTransport.v
Dpdk.v
Routing.v
Relay.v
Peer.v
PeerSafety.v
PeerApi.v
CApi.v
Tools.v
Cli.v
PeerReplication.v
Streaming.v
Rendezvous.v
Demo.v
