(* ===== verification/Prelude.v ===== *)
(** * ROM: a verification development of the ProtoCol library

    ProtoCol is a C++ library that keeps named state regions replicated between
    peers.  A region holds a CRDT; a local write marks it dirty; [Peer::flush]
    collects the pending deltas, signs them and sends them in packets of frames;
    [Peer::poll] decodes a packet, checks signature and capability, and merges the
    delta into the receiver's region.  Around this core are acknowledgements,
    congestion control, error correction, routing, relays, recovery after a
    reconnect, subscriptions, a C interface, two command-line tools and a demo.

    This library models the program file by file and proves the properties that
    make each part correct and the composition of the parts safe.

    ** How the code is modelled

    Definitions are executable.  A buffer is a list of bytes, a byte and every other
    unsigned integer is a [Z], and an operation of the source that can leave its
    width is followed by [wrap].  Code that can reject its input or leave a buffer
    is in the result monad [res] of this file: [Ok], [Fail] (an early [return
    false]) or [Oob] (undefined behaviour: an access outside a buffer, a null or
    dangling pointer, a wrong cast, an overflowing cast of a double).  That [Oob]
    is not reached is a theorem of each component.  Doubles are the specification
    floats of the Standard Library.  [std::unordered_map] is a [gmap] with an
    iteration order the theorems quantify over (class [UnorderedIter]).  Clock
    readings are arguments; callbacks are logs of their calls.

    Third-party code is a type class with its documented laws and a concrete
    instance for the examples: [XxHash] (xxHash32, Platform.v), [Ed25519]
    (Monocypher signatures, Capability.v), [StdSort] ([std::sort], Routing.v),
    [MbedTls] (Dtls.v), [Dpdk] (Dpdk.v).  So is the operating system: [Inet] (address
    conversion, Transport.v), [Sockets] (Udp.v), [CompletionPorts] (Iocp.v).
    Interfaces of the program are classes as well: [WireFrame] (Frame.v) for the
    frame payloads, [Crdt] (Crdt.v) for the four replicated types, [Transport]
    (Transport.v) for every transport a peer can use, [AsyncOp] (OpHeap.v) for what two
    transports hand to the kernel.

    ** Files

    - Prelude.v: result monad, machine integers, byte buffers, tactics, the hint
      database [rom], association lists, hash-map iteration.
    - Platform.v: [util/platform.h], [util/hash], [util/clock]: byte order, hashes.
    - Frame.v: [wire/frame_types.h], [wire/frame]: enumerations and payloads.
    - Codec.v: [wire/packet], [wire/codec]: header, checksum, encoder, decoder.
    - VersionVector.v, GCounter.v, PnCounter.v, LwwRegister.v, OrSet.v, Crdt.v:
      [state/version_vector], [state/crdt/*]: the replicated types, their merge and
      wire formats, and the interface they implement.
    - StatePath.v, StateRegistry.v, EventLog.v, Resolution.v, Subscription.v,
      Observer.v: [state/*]: paths, regions, the event log, delta filters,
      credits, watches.
    - Recovery.v: [connection/recovery]: what a returning peer is sent.
    - AckTracker.v, Fec.v, Freshness.v: [reliability/*]: sequence numbers,
      selective acknowledgements, XOR parity, deadlines.
    - Float64.v, FloatBounds.v: double-precision arithmetic, its order, and bounds in
      units of a power of two that survive rounding.
    - Congestion.v: [reliability/congestion]: trendline, detector, rate control.
    - Transport.v: the transport interface, the loopback bus with its interleavings,
      the external transport.
    - AsyncTransport.v: [transport/async_transport]: the thread pool as a step
      relation over all schedules.
    - Udp.v: [transport/udp_transport]: sockets and who owns them.
    - OpHeap.v: who may touch an operation that is shared with the kernel, and the log of
      sends and of the callbacks made for them.  Uring.v, Iocp.v:
      [transport/iouring_transport], [transport/iocp_transport]: as step relations over
      all interleavings of users, threads and kernel.  The steps of the former have no
      guards the code does not have: calls that use the ring unbound or at once lead to
      [Oob], and its theorem is about runs that keep the contract.
    - Dtls.v: [transport/dtls_transport]: the session state machine around mbedTLS.
    - Dpdk.v: [transport/dpdk_transport]: Ethernet, IPv4 and UDP headers in packet
      buffers.
    - Connection.v: [connection/*]: the state machine of a connection, the
      handshake packets, the connection manager.
    - Capability.v: [security/*]: key pairs, tokens, the capability store.
    - Routing.v, Relay.v: [routing/*], [relay/*].
    - Peer.v: [peer.h], [peer.cpp]: every method, in a state-and-error monad over
      the whole peer.  PeerSafety.v: its invariant and a Hoare logic for the
      methods.  PeerApi.v: sequences of public calls.  PeerReplication.v: two peers.
    - Streaming.v: two peers whose loopback transports share a bus ([Duo]); [flush] at one
      and [poll] at the other.  Rendezvous.v: the threads of [connect] and [accept_from] as
      a step relation.  Demo.v: [examples/state_streaming_demo.cpp], the whole program.
    - CTransport.v, CApi.v: [protocoll.h], [protocoll_c_api.cpp]: handles into a heap
      in which transports share buses, wrap each other and are shared by peers.
    - Tools.v, Cli.v: [tools/protocoll_dump.cpp], [tools/protocoll_inspect.cpp]: what
      they print, their arguments and main programs.

    ** What the theorems show

    - No undefined behaviour: parsing any bytes (Codec.decoder_safe, Tools.dump_safe),
      any sequence of peer methods with any datagrams, up to a call of [connection] on a
      peer without one (PeerApi.peer_api_total), any sequence of C calls that keeps the contract, whatever transports it makes
      (CApi.capi_total), the main programs of the tools (Cli.dump_main_total,
      Cli.inspect_main_total, which also leaves no descriptor open), the casts of the
      congestion controller on timely traces (Congestion.congestion_bounds), packet
      buffers under any frames and sends below 65494 bytes (Dpdk.dpdk_run_safe).  Casts to a CRDT class are to the
      class the object has (StateRegistry.registry_typed).
    - Convergence: G-Counter and LWW register merges are maxima, so replicas that saw the
      same messages agree, on the counts (g_counter_convergence) and on the value with the
      largest stamp (lww_convergence); OR-Set merges compute the tag sets of their
      specification and additions win (or_set_merge_spec, or_set_add_wins).
    - End to end: the handshake ends and links the peers in every interleaving
      (rendezvous); deltas that fit a packet, sent by one peer, act on the other's registry
      as applying them in order (delta_end_to_end), and on an established link flush and
      poll replicate exactly the dirty regions (flush_poll_replicates), so a stream of
      writes whose timestamps advance is followed frame by frame (stream_tracks) and the
      demo prints what it should (demo_output); a region changes only through a frame signed
      by the key registered for its author (peer_poll_authentic), and under access
      control only with a capability (access_control_confines).
    - Round trips of the wire formats (codec_roundtrip, wire_structs_roundtrip,
      or_set_codec_roundtrip, recovery_request_roundtrip, capability_issue_verifies,
      dump_capture, hex_roundtrip, dpdk_roundtrip) and recovery of one lost packet of a
      full group, up to padding (fec_recovers_single_loss).
    - State machines: the connection lifecycle, with the moves that are not in the diagram
      of its header told apart, and the handshake, the controller's reaction to each signal, the DTLS session (dtls_session) and the end of its
      handshake (dtls_handshake_terminates), the detector's debouncing, the receive window as the
      set of the last 256 packets, across the wrap-around of packet numbers.
    - Concurrency: the loopback bus is a FIFO queue in every interleaving, from one removal
      of an endpoint to the next; the thread
      pool completes every job exactly once, keeps the order with one sender, and
      [stop] terminates under every schedule; until their [stop] returns the io_uring
      and the IOCP transport touch no deleted operation and report every send once
      (uring_sends_once, iocp_sends_once), and the [stop] of the latter terminates
      (iocp_stop_terminates); a UDP transport owns one descriptor (udp_owns_descriptor).
    - Decisions: token identifiers are fresh, attenuated tokens never exceed the
      permissions and the lifetime of their parent, routes are chosen by weight, the update
      for a batch of counter deltas is equivalent to its members, compaction loses nothing a
      later reader needs, credits bound what is delivered.

    Where a natural property fails, the failure is a theorem with a concrete
    input: or_set_order_divergence, lww_tie_divergence, build_ack_overreports,
    fec_duplicate_garbage, fec_short_packet, fec_flushed_group, attenuation_path_escape, route_announce_swapped,
    snapshot_bypasses_access_control, relay_source_irrelevant,
    congestion_cast_overflow, connect_poll_codes, flush_unconnected_code,
    dpdk_send_overflow, not_an_ip_frame, send_ignores_destination, stop_dangles,
    stop_forgets_sends, stop_waits, start_unbound, iocp_stop_dangles,
    iocp_restart_loses_worker, iocp_null_port, dtls_outlives_inner,
    broken_certificate_is_timeout, null_data_undefined, racing_send, limit_zero,
    steady_increase, port_is_cut, port_not_int, demo_stalls, half_open.

    ** Bounds and fuel

    The loop over the frames of a packet has the payload length as fuel, since a
    frame takes at least three bytes; running out would be [Oob], and
    [while_next_frame_spec] shows it does not happen.  Path splitting and the
    capture readers use the length of their input in the same way.  The loop of a
    DTLS handshake has fuel for its turns; the reading of the clock that passes the
    timeout bounds them.  The C interface has a bound on how many DTLS transports wrap
    each other, which its theorem quantifies over; the UDP loop of the inspector runs
    for the number of turns before the signal.  Decimal
    conversion has five digits for a port and twenty for a size.  Congestion
    traces are bounded by 41 s between updates and 42 s of round-trip time, the
    largest whole seconds for which a rate of 100 MB/s cannot overflow a 32-bit
    cast.  A frame of a stream has a position of at most 1200 bytes, so that its two
    signed deltas fit in one packet.  Everything else recurses on the data.

    ** Not modelled

    The Windows variants of the UDP calls and of the random source, the WebAssembly
    variants of the C interface, which return constants; the text of usage and error
    messages of the tools; the examples in other languages, benchmarks, tests, language
    bindings. *)
From stdpp Require Export prelude list gmap sorting.
From Stdlib Require Export ZArith Lia.
#[global] Open Scope Z_scope.

(** ** The result monad of code that touches buffers

    [Ok a]  : the code computed [a];
    [Fail]  : the code took an early [return false] (a rejected input);
    [Oob]   : the code read or wrote outside the buffer it was given, or
              dereferenced a null pointer (undefined behaviour in the source).
              That [Oob] is unreachable is a theorem of each component, never
              an assumption. *)
Inductive res (A : Type) : Type :=
| Ok (a : A)
| Fail
| Oob.
Arguments Ok {A} a.
Arguments Fail {A}.
Arguments Oob {A}.

Definition res_bind {A B} (m : res A) (k : A → res B) : res B :=
  match m with Ok a => k a | Fail => Fail | Oob => Oob end.

Declare Scope rom_scope.
Notation "'let!' x ':=' m 'in' k" := (res_bind m (fun x => k))
  (at level 10, x pattern, m at level 100, k at level 200,
   format "'[v' 'let!'  x  ':='  m  'in' '/' k ']'") : rom_scope.
#[global] Open Scope rom_scope.

(** [check b k]: the C++ idiom [if (!b) return false; k]. *)
Definition check_ {A} (b : bool) (k : res A) : res A := if b then k else Fail.

(** [or_else m d]: the caller's view of a callee that returned false. *)
Definition or_else {A} (m : res A) (d : A) : res A :=
  match m with Ok a => Ok a | Fail => Ok d | Oob => Oob end.

(** [res_opt m]: the [bool] result of a decoder with its out-parameter. *)
Definition res_opt {A} (m : res A) : res (option A) :=
  match m with Ok a => Ok (Some a) | Fail => Ok None | Oob => Oob end.

(** No out-of-bounds access on any path of [m]. *)
Definition safe {A} (m : res A) : Prop := m ≠ Oob.

Create HintDb rom.

Lemma safe_Ok {A} (a : A) : safe (Ok a).
Proof. done. Qed.
Lemma safe_Fail {A} : safe (@Fail A).
Proof. done. Qed.
Lemma safe_bind {A B} (m : res A) (k : A → res B) :
  safe m → (∀ a, m = Ok a → safe (k a)) → safe (res_bind m k).
Proof. destruct m; unfold safe; simpl; naive_solver. Qed.
Lemma safe_check {A} b (k : res A) : (b = true → safe k) → safe (check_ b k).
Proof. destruct b; simpl; eauto using safe_Fail. Qed.
Lemma safe_or_else {A} (m : res A) d : safe m → safe (or_else m d).
Proof. by destruct m. Qed.
Lemma safe_res_opt {A} (m : res A) : safe m → safe (res_opt m).
Proof. by destruct m. Qed.
#[export] Hint Resolve safe_Ok safe_Fail safe_or_else safe_res_opt : rom.

Lemma bind_Ok {A B} (m : res A) (k : A → res B) b :
  res_bind m k = Ok b ↔ ∃ a, m = Ok a ∧ k a = Ok b.
Proof. destruct m; naive_solver. Qed.
Lemma check_Ok {A} c (k : res A) a : check_ c k = Ok a ↔ c = true ∧ k = Ok a.
Proof. destruct c; naive_solver. Qed.
Lemma bind_assoc {A B C} (m : res A) (f : A → res B) (g : B → res C) :
  res_bind (res_bind m f) g = res_bind m (λ a, res_bind (f a) g).
Proof. by destruct m. Qed.

(** Split [let! x := m in k = Ok b] and [check_ c k = Ok b] hypotheses. *)
Ltac inv_ok :=
  repeat match goal with
  | H : res_bind _ _ = Ok _ |- _ =>
      let Hm := fresh "Hm" in apply bind_Ok in H as (? & Hm & H)
  | H : check_ _ _ = Ok _ |- _ =>
      let Hc := fresh "Hc" in apply check_Ok in H as (Hc & H)
  | H : Ok _ = Ok _ |- _ => injection H as H; subst
  | H : Fail = Ok _ |- _ => discriminate H
  | H : Oob = Ok _ |- _ => discriminate H
  end.

(** Walk through a monadic program proving [safe]. *)
Ltac safe_step :=
  first
    [ apply safe_bind; [| intros ? ?]
    | apply safe_check; intros ?
    | progress eauto with rom ].

(** ** Loops over a list in the result monad *)
Fixpoint res_foldl {A B} (f : B → A → res B) (acc : B) (l : list A) : res B :=
  match l with
  | [] => Ok acc
  | x :: l' => let! acc' := f acc x in res_foldl f acc' l'
  end.

Lemma res_foldl_safe {A B} (f : B → A → res B) l acc :
  (∀ acc x, x ∈ l → safe (f acc x)) → safe (res_foldl f acc l).
Proof.
  revert acc; induction l as [|x l IH]; intros acc Hf; simpl; [done|].
  apply safe_bind; [apply Hf; set_solver|].
  intros a _. apply IH. intros; apply Hf; set_solver.
Qed.

Lemma res_foldl_pure {A B} (f : B → A → res B) (g : B → A → B) l acc :
  (∀ acc x, x ∈ l → f acc x = Ok (g acc x)) →
  res_foldl f acc l = Ok (foldl g acc l).
Proof.
  revert acc; induction l as [|x l IH]; intros acc Hf; simpl; [done|].
  rewrite Hf by set_solver. simpl. apply IH. intros; apply Hf; set_solver.
Qed.

Lemma res_foldl_app {A B} (f : B → A → res B) l1 l2 acc :
  res_foldl f acc (l1 ++ l2) = let! a := res_foldl f acc l1 in res_foldl f a l2.
Proof.
  revert acc; induction l1 as [|x l1 IH]; intros acc; simpl; [done|].
  rewrite bind_assoc. destruct (f acc x); simpl; auto.
Qed.

(** ** Machine-width integers

    A [w]-bit unsigned integer is a [Z]; every arithmetic operation of the
    source that can leave the range is followed by [wrap w]. *)
Definition wrap (w z : Z) : Z := z mod 2 ^ w.
Abbreviation u8 := (wrap 8).
Abbreviation u16 := (wrap 16).
Abbreviation u32 := (wrap 32).
Abbreviation u64 := (wrap 64).

Definition is_u (w z : Z) : Prop := 0 ≤ z < 2 ^ w.
Abbreviation is_u8 := (is_u 8).
Abbreviation is_u16 := (is_u 16).
Abbreviation is_u32 := (is_u 32).
Abbreviation is_u64 := (is_u 64).

(** Two's-complement reading of a [w]-bit pattern ([static_cast<int32_t>]). *)
Definition signed (w z : Z) : Z :=
  let v := wrap w z in if v <? 2 ^ (w - 1) then v else v - 2 ^ w.
Abbreviation i32 := (signed 32).
Abbreviation i64 := (signed 64).

#[global] Instance is_u_dec w z : Decision (is_u w z).
Proof. unfold is_u; apply _. Defined.

Lemma wrap_is_u w z : 0 ≤ w → is_u w (wrap w z).
Proof. intros; apply Z.mod_pos_bound; lia. Qed.
Lemma wrap_id w z : is_u w z → wrap w z = z.
Proof. apply Z.mod_small. Qed.
Lemma wrap_wrap w z : 0 ≤ w → wrap w (wrap w z) = wrap w z.
Proof. intros; by apply wrap_id, wrap_is_u. Qed.
Lemma u8_is_u z : is_u8 (u8 z).
Proof. by apply wrap_is_u. Qed.
Lemma u16_is_u z : is_u16 (u16 z).
Proof. by apply wrap_is_u. Qed.
Lemma u32_is_u z : is_u32 (u32 z).
Proof. by apply wrap_is_u. Qed.
Lemma u64_is_u z : is_u64 (u64 z).
Proof. by apply wrap_is_u. Qed.
Lemma is_u_mono w w' z : 0 ≤ w ≤ w' → is_u w z → is_u w' z.
Proof.
  unfold is_u; intros Hw [? Hz]. split; [done|].
  pose proof (Z.pow_le_mono_r 2 w w'). lia.
Qed.
#[export] Hint Resolve u8_is_u u16_is_u u32_is_u u64_is_u : rom.

Lemma is_u_bits w z :
  0 ≤ w → 0 ≤ z → (∀ n, w ≤ n → Z.testbit z n = false) → is_u w z.
Proof.
  intros Hw Hz Hb. enough (z = wrap w z) as -> by (by apply wrap_is_u).
  apply Z.bits_inj'; intros n Hn. unfold wrap. rewrite Z.testbit_mod_pow2 by done.
  destruct (Z.ltb_spec n w); simpl; [done|]. by apply Hb.
Qed.
Lemma is_u_testbit w z n : is_u w z → w ≤ n → Z.testbit z n = false.
Proof.
  intros Hz Hn. destruct (decide (0 ≤ w)) as [Hw|].
  - rewrite <-(wrap_id w z Hz). unfold wrap. rewrite Z.testbit_mod_pow2 by done.
    by rewrite (proj2 (Z.ltb_ge n w)).
  - unfold is_u in Hz. rewrite Z.pow_neg_r in Hz by lia. lia.
Qed.
Lemma is_u_lxor w a b : 0 ≤ w → is_u w a → is_u w b → is_u w (Z.lxor a b).
Proof.
  intros Hw Ha Hb. apply is_u_bits; [done| |].
  - apply Z.lxor_nonneg. unfold is_u in *. lia.
  - intros n Hn. rewrite Z.lxor_spec, (is_u_testbit w a), (is_u_testbit w b) by done. done.
Qed.
Lemma is_u_lor w a b : 0 ≤ w → is_u w a → is_u w b → is_u w (Z.lor a b).
Proof.
  intros Hw Ha Hb. apply is_u_bits; [done| |].
  - apply Z.lor_nonneg. unfold is_u in *. lia.
  - intros n Hn. rewrite Z.lor_spec, (is_u_testbit w a), (is_u_testbit w b) by done. done.
Qed.

(** Expose the numeric bounds behind [is_u], [wrap] and [signed] to [lia]. *)
Ltac zify_u :=
  unfold is_u, wrap, signed in *;
  change (2 ^ 8) with 256 in *; change (2 ^ 16) with 65536 in *;
  change (2 ^ 32) with 4294967296 in *;
  change (2 ^ 64) with 18446744073709551616 in *;
  change (2 ^ (32 - 1)) with 2147483648 in *; change (2 ^ 31) with 2147483648 in *;
  change (2 ^ (64 - 1)) with 9223372036854775808 in *.
Ltac ulia := zify_u; Z.div_mod_to_equations; lia.

Lemma signed_id w z : 0 ≤ z < 2 ^ (w - 1) → signed w z = z.
Proof.
  intros Hz. destruct (decide (1 ≤ w)) as [Hw|Hw].
  - assert (2 ^ w = 2 * 2 ^ (w - 1)) as E by (rewrite <-Z.pow_succ_r by lia; f_equal; lia).
    unfold signed. rewrite wrap_id by (unfold is_u; lia). by rewrite (proj2 (Z.ltb_lt _ _)) by lia.
  - rewrite Z.pow_neg_r in Hz by lia. lia.
Qed.

(** Evaluate a decidable proposition about a concrete input. *)
Ltac by_decide :=
  match goal with |- ?P => apply (bool_decide_eq_true_1 P); vm_compute; reflexivity end.

(** ** Bytes and buffers *)
Abbreviation bytes := (list Z).
Abbreviation wf_bytes := (Forall is_u8).

(** [isxdigit] and the value the C conversions give a digit. *)
Definition xdigit (c : Z) : option Z :=
  if (48 <=? c) && (c <=? 57) then Some (c - 48)
  else if (97 <=? c) && (c <=? 102) then Some (c - 87)
  else if (65 <=? c) && (c <=? 70) then Some (c - 55) else None.

(** [memcpy(dst, buf + off, n)]: read [n] bytes at [off]. *)
Definition slice (buf : bytes) (off n : nat) : res bytes :=
  if decide (off + n ≤ length buf)%nat then Ok (take n (drop off buf)) else Oob.

(** [memcpy(buf + off, bs, len bs)]: overwrite in place. *)
Definition splice (buf : bytes) (off : nat) (bs : bytes) : bytes :=
  take off buf ++ bs ++ drop (off + length bs) buf.
Definition store (buf : bytes) (off : nat) (bs : bytes) : res bytes :=
  if decide (off + length bs ≤ length buf)%nat then Ok (splice buf off bs) else Oob.

Definition get8 (buf : bytes) (off : nat) : res Z :=
  match buf !! off with Some b => Ok b | None => Oob end.
Definition put8 (buf : bytes) (off : nat) (b : Z) : res bytes := store buf off [b].

Lemma slice_Ok buf off n :
  (off + n ≤ length buf)%nat → slice buf off n = Ok (take n (drop off buf)).
Proof. intros; unfold slice; by rewrite decide_True. Qed.
Lemma slice_safe buf off n : (off + n ≤ length buf)%nat → safe (slice buf off n).
Proof. intros; by rewrite slice_Ok. Qed.
Lemma slice_length buf off n bs : slice buf off n = Ok bs → length bs = n.
Proof.
  unfold slice; case_decide; intros [= <-].
  rewrite length_take, length_drop. lia.
Qed.
Lemma slice_mid p q r : slice (p ++ q ++ r) (length p) (length q) = Ok q.
Proof.
  rewrite slice_Ok by (rewrite !length_app; lia).
  by rewrite drop_app_length, take_app_length.
Qed.
Lemma slice_mid' p q r off n :
  off = length p → n = length q → slice (p ++ q ++ r) off n = Ok q.
Proof. intros -> ->. apply slice_mid. Qed.
Lemma slice_wf buf off n bs : wf_bytes buf → slice buf off n = Ok bs → wf_bytes bs.
Proof.
  intros Hwf. unfold slice; case_decide; intros [= <-].
  by apply Forall_take, Forall_drop.
Qed.

Lemma store_Ok buf off bs :
  (off + length bs ≤ length buf)%nat → store buf off bs = Ok (splice buf off bs).
Proof. intros; unfold store; by rewrite decide_True. Qed.
Lemma length_splice buf off bs :
  (off + length bs ≤ length buf)%nat → length (splice buf off bs) = length buf.
Proof.
  intros; unfold splice. rewrite !length_app, length_take, length_drop. lia.
Qed.
Lemma store_length buf off bs buf' :
  store buf off bs = Ok buf' → length buf' = length buf.
Proof. unfold store; case_decide; intros [= <-]. by apply length_splice. Qed.

Lemma get8_safe buf off : (off < length buf)%nat → safe (get8 buf off).
Proof.
  intros H. unfold get8. by destruct (lookup_lt_is_Some_2 buf off H) as [? ->].
Qed.
Lemma get8_wf buf off b : wf_bytes buf → get8 buf off = Ok b → is_u8 b.
Proof.
  unfold get8; intros Hwf. destruct (buf !! off) eqn:E; intros [= <-].
  by eapply Forall_lookup_1.
Qed.
Lemma get8_app_r p q off : get8 (p ++ q) (length p + off) = get8 q off.
Proof. unfold get8. rewrite lookup_app_r by lia. by replace (length p + off - length p)%nat with off by lia. Qed.

Lemma splice_full p q r bs :
  length bs = length q → splice (p ++ q ++ r) (length p) bs = p ++ bs ++ r.
Proof.
  intros Hl. unfold splice. rewrite take_app_length. f_equal; f_equal.
  rewrite Hl, <-length_app, app_assoc. apply drop_app_length.
Qed.

Lemma splice_lookup buf off bs i :
  (off + length bs ≤ length buf)%nat →
  splice buf off bs !! i =
    if decide (off ≤ i < off + length bs)%nat then bs !! (i - off)%nat else buf !! i.
Proof.
  intros H. unfold splice.
  assert (length (take off buf) = off) as Ht by (rewrite length_take; lia).
  case_decide as Hi.
  - rewrite lookup_app_r, Ht by lia. by rewrite lookup_app_l by lia.
  - destruct (decide (i < off)%nat).
    + rewrite lookup_app_l by lia. by rewrite lookup_take_lt by lia.
    + rewrite lookup_app_r, Ht by lia. rewrite lookup_app_r by lia.
      rewrite lookup_drop. f_equal. lia.
Qed.

(** Reading a buffer after a store: the stored bytes in the stored range, the
    old bytes in a disjoint one. *)
Lemma slice_splice_same buf off bs :
  (off + length bs ≤ length buf)%nat → slice (splice buf off bs) off (length bs) = Ok bs.
Proof.
  intros H. unfold splice.
  apply slice_mid'; [rewrite length_take; lia|done].
Qed.
Lemma slice_splice_disj buf off bs off' n :
  (off + length bs ≤ length buf)%nat →
  (off' + n ≤ off ∨ off + length bs ≤ off')%nat →
  slice (splice buf off bs) off' n = slice buf off' n.
Proof.
  intros H Hd. unfold slice. rewrite length_splice by done.
  case_decide as Hn; [|done]. f_equal. apply list_eq; intros i.
  destruct (decide (i < n)%nat).
  - rewrite !lookup_take_lt, !lookup_drop by lia.
    rewrite splice_lookup by done. rewrite decide_False by lia. done.
  - rewrite !lookup_take_ge by lia. done.
Qed.
Lemma get8_slice buf off :
  get8 buf off = let! l := slice buf off 1 in
                 match l with [b] => Ok b | _ => Oob end.
Proof.
  unfold get8, slice.
  destruct (buf !! off) eqn:E.
  - pose proof (lookup_lt_Some _ _ _ E).
    rewrite decide_True by lia. simpl. erewrite drop_S by done. done.
  - apply lookup_ge_None in E. case_decide; [lia|done].
Qed.

(** ** Iteration over [std::unordered_map]

    The order in which the C++ containers visit their entries is unspecified.
    The model takes it as a parameter: any order that visits every entry of the
    map exactly once. *)
Class UnorderedIter := {
  uiter : ∀ {A : Type}, gmap Z A → list (Z * A);
  uiter_perm : ∀ {A : Type} (m : gmap Z A), uiter m ≡ₚ map_to_list m
}.

#[export] Instance key_order_iter : UnorderedIter | 100 := {|
  uiter A m := map_to_list m;
  uiter_perm A m := Permutation_refl _
|}.

Section UnorderedIterFacts.
Context `{UnorderedIter} {A : Type}.
Implicit Types m : gmap Z A.

Lemma elem_of_uiter m k v : (k, v) ∈ uiter m ↔ m !! k = Some v.
Proof. rewrite uiter_perm. apply elem_of_map_to_list. Qed.
Lemma NoDup_fst_uiter m : NoDup (uiter m).*1.
Proof. rewrite uiter_perm. apply NoDup_fst_map_to_list. Qed.
Lemma NoDup_uiter m : NoDup (uiter m).
Proof. rewrite uiter_perm. apply NoDup_map_to_list. Qed.
Lemma uiter_nil m : uiter m = [] ↔ m = ∅.
Proof.
  rewrite <-map_to_list_empty_iff. split; intros E.
  - pose proof (uiter_perm m) as P. rewrite E in P.
    symmetry. by apply Permutation_nil_l.
  - apply Permutation_nil_r. by rewrite uiter_perm, E.
Qed.
Lemma uiter_length m : length (uiter m) = size m.
Proof. rewrite (uiter_perm m). apply length_map_to_list. Qed.
End UnorderedIterFacts.

(** ** Lists: the [find] loop over a vector of records, and keyed update *)
Section Assoc.
Context {E : Type} (key : E → Z).

(** [for (auto& e : entries) if (e.key == k) return &e; return nullptr;] *)
Fixpoint find_key (k : Z) (l : list E) : option E :=
  match l with
  | [] => None
  | e :: l' => if key e =? k then Some e else find_key k l'
  end.

(** The write through the pointer [find] returned: only the first match. *)
Fixpoint update_key (k : Z) (f : E → E) (l : list E) : list E :=
  match l with
  | [] => []
  | e :: l' => if key e =? k then f e :: l' else e :: update_key k f l'
  end.

Lemma find_key_Some k l e : find_key k l = Some e → e ∈ l ∧ key e = k.
Proof.
  induction l as [|x l IH]; simpl; [done|].
  destruct (Z.eqb_spec (key x) k); intros; simplify_eq; [set_solver|].
  destruct IH; [done|]. set_solver.
Qed.
Lemma find_key_None k l : find_key k l = None ↔ k ∉ key <$> l.
Proof.
  induction l as [|x l IH]; simpl; [set_solver|].
  destruct (Z.eqb_spec (key x) k) as [<-|]; [set_solver|].
  rewrite IH. set_solver.
Qed.
Lemma find_key_is_Some k l : is_Some (find_key k l) ↔ k ∈ key <$> l.
Proof.
  rewrite <-not_eq_None_Some, find_key_None. destruct (decide (k ∈ key <$> l)); tauto.
Qed.
Lemma find_key_app k l1 l2 :
  find_key k (l1 ++ l2) =
    match find_key k l1 with Some e => Some e | None => find_key k l2 end.
Proof. induction l1 as [|x l1 IH]; simpl; [done|]. by destruct (key x =? k). Qed.
Lemma find_key_elem l e : NoDup (key <$> l) → e ∈ l → find_key (key e) l = Some e.
Proof.
  induction l as [|x l IH]; [set_solver|]. simpl.
  intros [Hx Hnd]%NoDup_cons [->|He]%elem_of_cons.
  - by rewrite Z.eqb_refl.
  - destruct (Z.eqb_spec (key x) (key e)) as [Hk|]; [|by apply IH].
    destruct Hx. rewrite Hk. by apply list_elem_of_fmap_2.
Qed.

Lemma update_key_keys k f l :
  (∀ e, key (f e) = key e) → key <$> update_key k f l = key <$> l.
Proof.
  intros Hf. induction l as [|x l IH]; csimpl; [done|].
  destruct (key x =? k); csimpl; [by rewrite Hf|]. by rewrite IH.
Qed.
Lemma find_update_same k f l :
  (∀ e, key (f e) = key e) → find_key k (update_key k f l) = f <$> find_key k l.
Proof.
  intros Hf. induction l as [|x l IH]; simpl; [done|].
  destruct (key x =? k) eqn:Ek; simpl; [by rewrite Hf, Ek|]. by rewrite Ek.
Qed.
Lemma find_update_ne k k' f l :
  (∀ e, key (f e) = key e) → k ≠ k' → find_key k' (update_key k f l) = find_key k' l.
Proof.
  intros Hf Hk. induction l as [|x l IH]; simpl; [done|].
  destruct (Z.eqb_spec (key x) k); simpl.
  - rewrite Hf. by destruct (Z.eqb_spec (key x) k'); [lia|].
  - by rewrite IH.
Qed.
Lemma Forall_update_key (P : E → Prop) k f l :
  Forall P l → (∀ e, P e → key e = k → P (f e)) → Forall P (update_key k f l).
Proof.
  intros Hl Hf. induction Hl as [|x l Hx Hl IH]; simpl; [done|].
  destruct (Z.eqb_spec (key x) k); constructor; auto.
Qed.
Lemma NoDup_keys_snoc l e :
  NoDup (key <$> l) → key e ∉ key <$> l → NoDup (key <$> l ++ [e]).
Proof.
  intros Hl He. rewrite fmap_app, NoDup_app. split_and!; [done| |apply NoDup_singleton].
  intros x Hx. csimpl. rewrite list_elem_of_singleton. by intros ->.
Qed.
Lemma length_update_key k f l : length (update_key k f l) = length l.
Proof. induction l as [|x l IH]; simpl; [done|]. destruct (_ =? _); simpl; lia. Qed.
End Assoc.

(** ** Generic list facts the components share *)
Lemma Forall_foldl_inv {A B} (P : B → Prop) (f : B → A → B) l b :
  P b → (∀ b x, x ∈ l → P b → P (f b x)) → P (foldl f b l).
Proof.
  revert b; induction l as [|x l IH]; intros b Hb Hf; simpl; [done|].
  apply IH; [apply Hf; set_solver|]. intros; apply Hf; set_solver.
Qed.

Lemma list_filter_all {A} (P : A → Prop) `{∀ x, Decision (P x)} l :
  Forall P l → filter P l = l.
Proof.
  induction 1 as [|x l Hx Hl IH]; [done|]. by rewrite filter_cons_True, IH.
Qed.
Lemma list_filter_same_length {A} (P : A → Prop) `{∀ x, Decision (P x)} (l : list A) :
  length (filter P l) = length l → filter P l = l.
Proof.
  induction l as [|x l IH]; [done|]. rewrite filter_cons.
  pose proof (sublist_length _ _ (sublist_filter P l)) as Hs.
  case_decide; simpl; intros Hl; [f_equal; apply IH|]; lia.
Qed.
Lemma list_filter_none {A} (P : A → Prop) `{∀ x, Decision (P x)} (l : list A) :
  (∀ x, x ∈ l → ¬ P x) → filter P l = [].
Proof.
  induction l as [|x l IH]; intros Hl; [done|].
  rewrite filter_cons_False by (apply Hl; set_solver). apply IH. intros; apply Hl; set_solver.
Qed.
Lemma list_filter_fmap {A B} (P : B → Prop) `{∀ x, Decision (P x)} (f : A → B) (l : list A) :
  filter P (f <$> l) = f <$> filter (λ x, P (f x)) l.
Proof.
  induction l as [|x l IH]; [done|]. rewrite fmap_cons, !filter_cons, IH. by case_decide.
Qed.
Lemma list_filter_iff' {A} (P Q : A → Prop) `{∀ x, Decision (P x)} `{∀ x, Decision (Q x)}
    (l : list A) :
  Forall (λ x, P x ↔ Q x) l → filter P l = filter Q l.
Proof.
  induction 1 as [|x l Hx Hl IH]; [done|]. rewrite !filter_cons, IH.
  do 2 case_decide; tauto.
Qed.
Lemma elem_of_concat {A} (x : A) ls : x ∈ concat ls ↔ ∃ l, x ∈ l ∧ l ∈ ls.
Proof.
  rewrite list_elem_of_In, in_concat. setoid_rewrite list_elem_of_In. naive_solver.
Qed.
Lemma elem_of_zip_lookup {A B} (l : list A) (k : list B) i x y :
  l !! i = Some x → k !! i = Some y → (x, y) ∈ zip l k.
Proof.
  intros Hx Hy. apply list_elem_of_lookup. exists i. rewrite lookup_zip_with, Hx. cbn. by rewrite Hy.
Qed.
Lemma concat_fmap_perm {A B} (f : A → list B) l k :
  l ≡ₚ k → concat (f <$> l) ≡ₚ concat (f <$> k).
Proof.
  induction 1 as [|x l k _ IH|x y l|l1 l2 l3 _ IH1 _ IH2]; csimpl; [done|by rewrite IH| |by etrans].
  rewrite !app_assoc. by rewrite (Permutation_app_comm (f y) (f x)).
Qed.
Lemma Forall_list_filter {A} (Q P : A → Prop) `{∀ x, Decision (P x)} l :
  Forall Q l → Forall Q (filter P l).
Proof.
  rewrite !Forall_forall. intros HQ x [_ Hx]%list_elem_of_filter. by apply HQ.
Qed.
Lemma filter_filter_subset {A} (P Q : A → Prop) `{∀ x, Decision (P x)} `{∀ x, Decision (Q x)} (l : list A) :
  (∀ x, x ∈ l → Q x → P x) → filter Q (filter P l) = filter Q l.
Proof.
  induction l as [|x l IH]; [done|]. intros Hx. rewrite (filter_cons P x).
  assert (filter Q (filter P l) = filter Q l) as E by (apply IH; set_solver).
  case_decide as HP; rewrite !filter_cons; [by rewrite E|].
  case_decide as HQ; [|done]. destruct HP. apply Hx; set_solver.
Qed.

Lemma forallb_spec {A} (f : A → bool) l :
  forallb f l = true ↔ ∀ x, x ∈ l → f x = true.
Proof. rewrite List.forallb_forall. by setoid_rewrite list_elem_of_In. Qed.

Lemma list_snoc_inv {A} (l : list A) : l = [] ∨ ∃ l' x, l = l' ++ [x].
Proof. destruct l as [|x l'] using rev_ind; eauto. Qed.
