(* ===== verification/Platform.v ===== *)
(** * Byte order, hashing and clock helpers

    Models [include/protocoll/util/platform.h] (byte swapping and unaligned
    network-order reads and writes), [src/util/hash.cpp] (the two truncations of
    xxHash32) and [src/util/clock.cpp].  The swap-based readers and writers are
    proved equal to plain big-endian ones ([be16], [be32]), which is what every
    codec proof of the development then uses. *)
From S2P Require Import Prelude.

(** ** platform.h: byte swaps *)
Definition protocoll_bswap16 (v : Z) : Z :=
  Z.lor (Z.shiftl (Z.land v 255) 8) (Z.land (Z.shiftr v 8) 255).

Definition protocoll_bswap32 (v : Z) : Z :=
  Z.lor (Z.lor (Z.shiftl (Z.land v 255) 24)
               (Z.shiftl (Z.land (Z.shiftr v 8) 255) 16))
        (Z.lor (Z.shiftl (Z.land (Z.shiftr v 16) 255) 8)
               (Z.land (Z.shiftr v 24) 255)).

Definition host_to_net16 (v : Z) : Z := protocoll_bswap16 v.
Definition net_to_host16 (v : Z) : Z := protocoll_bswap16 v.
Definition host_to_net32 (v : Z) : Z := protocoll_bswap32 v.
Definition net_to_host32 (v : Z) : Z := protocoll_bswap32 v.

(** The object representation of an integer on the little-endian hosts the
    header assumes ("x86/x64 is little-endian, so we always swap"). *)
Fixpoint le_bytes (n : nat) (v : Z) : bytes :=
  match n with
  | O => []
  | S m => Z.land v 255 :: le_bytes m (Z.shiftr v 8)
  end.
Fixpoint le_value (bs : bytes) : Z :=
  match bs with
  | [] => 0
  | b :: bs' => Z.lor b (Z.shiftl (le_value bs') 8)
  end.

Definition read_u16 (p : bytes) (off : nat) : res Z :=
  let! v := slice p off 2 in Ok (net_to_host16 (le_value v)).
Definition read_u32 (p : bytes) (off : nat) : res Z :=
  let! v := slice p off 4 in Ok (net_to_host32 (le_value v)).
Definition write_u16 (p : bytes) (off : nat) (v : Z) : res bytes :=
  store p off (le_bytes 2 (host_to_net16 v)).
Definition write_u32 (p : bytes) (off : nat) (v : Z) : res bytes :=
  store p off (le_bytes 4 (host_to_net32 v)).

(** ** hash.cpp: xxHash is a third-party library *)
Class XxHash := {
  XXH32 : bytes → Z → Z;
  XXH32_range : ∀ data seed, is_u32 (XXH32 data seed)
}.

Section Hash.
Context `{XxHash}.
Definition xxhash16 (data : bytes) : Z := u16 (Z.land (XXH32 data 0) 65535).
Definition xxhash32 (data : bytes) : Z := XXH32 data 0.

Lemma xxhash16_is_u data : is_u16 (xxhash16 data).
Proof. apply u16_is_u. Qed.
Lemma xxhash32_is_u data : is_u32 (xxhash32 data).
Proof. apply XXH32_range. Qed.
End Hash.
#[export] Hint Resolve xxhash16_is_u xxhash32_is_u : rom.

(** A concrete hash function for the examples (not xxHash: a 32-bit
    multiply-and-add fold). *)
Definition toy_hash (data : bytes) (seed : Z) : Z :=
  foldl (λ h b, u32 (h * 31 + b + 7)) (u32 seed) data.
Lemma toy_hash_range data seed : is_u32 (toy_hash data seed).
Proof.
  unfold toy_hash. apply Forall_foldl_inv; [apply u32_is_u|].
  intros; apply u32_is_u.
Qed.
Definition toy_xxhash : XxHash := {| XXH32 := toy_hash; XXH32_range := toy_hash_range |}.

(** ** clock.cpp: [ns] is the steady clock's reading in nanoseconds *)
Definition now_us (ns : Z) : Z := u32 (Z.land (Z.quot ns 1000) 4294967295).

(** ** Big-endian reference forms *)
Definition be16 (v : Z) : bytes := [v / 256 mod 256; v mod 256].
Definition be32 (v : Z) : bytes :=
  [v / 16777216 mod 256; v / 65536 mod 256; v / 256 mod 256; v mod 256].

Lemma length_be16 v : length (be16 v) = 2%nat.
Proof. done. Qed.
Lemma length_be32 v : length (be32 v) = 4%nat.
Proof. done. Qed.
Lemma be16_wf v : wf_bytes (be16 v).
Proof. repeat constructor; ulia. Qed.
Lemma be32_wf v : wf_bytes (be32 v).
Proof. repeat constructor; ulia. Qed.
#[export] Hint Resolve be16_wf be32_wf : rom.

Lemma land_255 v : Z.land v 255 = v mod 256.
Proof. change 255 with (Z.ones 8). by rewrite Z.land_ones. Qed.
Lemma shiftr_8 v : Z.shiftr v 8 = v / 256.
Proof. by rewrite Z.shiftr_div_pow2. Qed.
Lemma lor_disjoint a b k : 0 ≤ k → 0 ≤ a < 2 ^ k → Z.lor a (Z.shiftl b k) = a + b * 2 ^ k.
Proof.
  intros Hk Ha. rewrite Z.shiftl_mul_pow2 by done.
  rewrite <-Z.lxor_lor, Z.add_nocarry_lxor; [done| |].
  all: apply Z.bits_inj'; intros n Hn; rewrite Z.land_spec, Z.bits_0.
  all: destruct (decide (n < k)).
  1,3: by rewrite Z.mul_pow2_bits_low, andb_false_r by lia.
  all: rewrite <-(Z.mod_small a (2 ^ k)) by done;
       by rewrite Z.mod_pow2_bits_high by lia.
Qed.

Lemma bswap16_spec v : protocoll_bswap16 v = v mod 256 * 256 + v / 256 mod 256.
Proof.
  unfold protocoll_bswap16. rewrite !land_255, shiftr_8, Z.lor_comm.
  rewrite lor_disjoint by ulia. lia.
Qed.
Lemma bswap32_spec v :
  protocoll_bswap32 v =
    v mod 256 * 16777216 + v / 256 mod 256 * 65536
    + v / 65536 mod 256 * 256 + v / 16777216 mod 256.
Proof.
  unfold protocoll_bswap32. rewrite !land_255.
  rewrite !Z.shiftr_div_pow2 by done.
  change (2 ^ 8) with 256; change (2 ^ 16) with 65536; change (2 ^ 24) with 16777216.
  rewrite <-Z.lor_assoc, Z.lor_comm.
  rewrite (Z.lor_comm (Z.shiftl (_ mod _) 8)), (lor_disjoint _ _ 8) by ulia.
  rewrite (Z.lor_comm (Z.shiftl _ 16)), (lor_disjoint _ _ 16) by ulia.
  rewrite (lor_disjoint _ _ 24) by ulia. lia.
Qed.

Lemma le_bytes_bswap16 v : le_bytes 2 (protocoll_bswap16 v) = be16 v.
Proof.
  cbn [le_bytes]. rewrite !land_255, shiftr_8, bswap16_spec.
  unfold be16. f_equal; [ulia|]. f_equal. ulia.
Qed.
Lemma le_bytes_bswap32 v : le_bytes 4 (protocoll_bswap32 v) = be32 v.
Proof.
  cbn [le_bytes]. rewrite !land_255, !shiftr_8, bswap32_spec. unfold be32.
  pose proof (Z.mod_pos_bound v 256 ltac:(lia)).
  pose proof (Z.mod_pos_bound (v / 256) 256 ltac:(lia)).
  pose proof (Z.mod_pos_bound (v / 65536) 256 ltac:(lia)).
  pose proof (Z.mod_pos_bound (v / 16777216) 256 ltac:(lia)).
  generalize dependent (v mod 256); generalize dependent (v / 256 mod 256).
  generalize dependent (v / 65536 mod 256); generalize dependent (v / 16777216 mod 256).
  intros a Ha b Hb c Hc d Hd.
  do 3 (f_equal; [Z.div_mod_to_equations; lia|]). f_equal. Z.div_mod_to_equations; lia.
Qed.

Lemma write_u16_be p off v : write_u16 p off v = store p off (be16 v).
Proof. unfold write_u16, host_to_net16. by rewrite le_bytes_bswap16. Qed.
Lemma write_u32_be p off v : write_u32 p off v = store p off (be32 v).
Proof. unfold write_u32, host_to_net32. by rewrite le_bytes_bswap32. Qed.

Lemma le_value_bound bs : wf_bytes bs → 0 ≤ le_value bs < 256 ^ Z.of_nat (length bs).
Proof.
  induction 1 as [|b bs Hb Hbs IH]; cbn [le_value length]; [lia|].
  rewrite lor_disjoint by (zify_u; lia).
  rewrite Nat2Z.inj_succ, Z.pow_succ_r by lia. zify_u. nia.
Qed.

Lemma net16_be a b :
  is_u8 a → is_u8 b → net_to_host16 (le_value [a; b]) = a * 256 + b.
Proof.
  intros Ha Hb. unfold net_to_host16. cbn [le_value].
  rewrite Z.shiftl_0_l, Z.lor_0_r, lor_disjoint by (zify_u; lia).
  rewrite bswap16_spec. ulia.
Qed.
Lemma net32_be a b c d :
  is_u8 a → is_u8 b → is_u8 c → is_u8 d →
  net_to_host32 (le_value [a; b; c; d]) = a * 16777216 + b * 65536 + c * 256 + d.
Proof.
  intros Ha Hb Hc Hd. unfold net_to_host32. cbn [le_value].
  rewrite Z.shiftl_0_l, Z.lor_0_r.
  rewrite (lor_disjoint c), (lor_disjoint b), (lor_disjoint a) by (zify_u; lia).
  rewrite bswap32_spec. zify_u.
  replace ((a + (b + (c + d * 256) * 256) * 256) mod 256) with a by (Z.div_mod_to_equations; lia).
  replace ((a + (b + (c + d * 256) * 256) * 256) / 256 mod 256) with b
    by (Z.div_mod_to_equations; lia).
  replace ((a + (b + (c + d * 256) * 256) * 256) / 65536 mod 256) with c
    by (Z.div_mod_to_equations; lia).
  replace ((a + (b + (c + d * 256) * 256) * 256) / 16777216 mod 256) with d
    by (Z.div_mod_to_equations; lia).
  done.
Qed.
Lemma net16_be16 v : is_u16 v → net_to_host16 (le_value (be16 v)) = v.
Proof. intros. unfold be16. rewrite net16_be by ulia. ulia. Qed.
Lemma net32_be32 v : is_u32 v → net_to_host32 (le_value (be32 v)) = v.
Proof. intros. unfold be32. rewrite net32_be by ulia. ulia. Qed.

(** Reads in bounds never fail; reads of well-formed bytes are in range. *)
Lemma read_u16_safe p off : (off + 2 ≤ length p)%nat → safe (read_u16 p off).
Proof. intros; unfold read_u16. by rewrite slice_Ok. Qed.
Lemma read_u32_safe p off : (off + 4 ≤ length p)%nat → safe (read_u32 p off).
Proof. intros; unfold read_u32. by rewrite slice_Ok. Qed.

Lemma read_u16_range p off v : wf_bytes p → read_u16 p off = Ok v → is_u16 v.
Proof.
  intros Hp H. unfold read_u16 in H. inv_ok.
  pose proof (slice_length _ _ _ _ Hm) as Hl.
  pose proof (slice_wf _ _ _ _ Hp Hm) as Hwf.
  destruct x as [|a [|b [|]]]; try discriminate.
  rewrite !Forall_cons in Hwf. destruct Hwf as (? & ? & _).
  rewrite net16_be by done. ulia.
Qed.
Lemma read_u32_range p off v : wf_bytes p → read_u32 p off = Ok v → is_u32 v.
Proof.
  intros Hp H. unfold read_u32 in H. inv_ok.
  pose proof (slice_length _ _ _ _ Hm) as Hl.
  pose proof (slice_wf _ _ _ _ Hp Hm) as Hwf.
  destruct x as [|a [|b [|c [|d [|]]]]]; try discriminate.
  rewrite !Forall_cons in Hwf. destruct Hwf as (? & ? & ? & ? & _).
  rewrite net32_be by done. ulia.
Qed.

(** Read after write, in place and across disjoint stores. *)
Lemma read_u16_splice p off v :
  (off + 2 ≤ length p)%nat → is_u16 v → read_u16 (splice p off (be16 v)) off = Ok v.
Proof.
  intros Hl Hv. unfold read_u16. change 2%nat with (length (be16 v)).
  rewrite slice_splice_same by done. cbn [res_bind]. by rewrite net16_be16.
Qed.
Lemma read_u32_splice p off v :
  (off + 4 ≤ length p)%nat → is_u32 v → read_u32 (splice p off (be32 v)) off = Ok v.
Proof.
  intros Hl Hv. unfold read_u32. change 4%nat with (length (be32 v)).
  rewrite slice_splice_same by done. cbn [res_bind]. by rewrite net32_be32.
Qed.
Lemma get8_splice p off b :
  (off + 1 ≤ length p)%nat → get8 (splice p off [b]) off = Ok b.
Proof.
  intros. rewrite get8_slice. change 1%nat with (length [b]).
  by rewrite slice_splice_same.
Qed.
Lemma read_u16_disj p off bs off' :
  (off + length bs ≤ length p)%nat → (off' + 2 ≤ off ∨ off + length bs ≤ off')%nat →
  read_u16 (splice p off bs) off' = read_u16 p off'.
Proof. intros. unfold read_u16. by rewrite slice_splice_disj. Qed.
Lemma read_u32_disj p off bs off' :
  (off + length bs ≤ length p)%nat → (off' + 4 ≤ off ∨ off + length bs ≤ off')%nat →
  read_u32 (splice p off bs) off' = read_u32 p off'.
Proof. intros. unfold read_u32. by rewrite slice_splice_disj. Qed.
Lemma get8_disj p off bs off' :
  (off + length bs ≤ length p)%nat → (off' + 1 ≤ off ∨ off + length bs ≤ off')%nat →
  get8 (splice p off bs) off' = get8 p off'.
Proof. intros. rewrite !get8_slice. by rewrite slice_splice_disj. Qed.

(** Reads inside a concatenation, for the vector-building encoders. *)
Lemma read_u16_mid p q v off :
  off = length p → is_u16 v → read_u16 (p ++ be16 v ++ q) off = Ok v.
Proof.
  intros -> Hv. unfold read_u16. rewrite (slice_mid' p (be16 v) q) by done.
  cbn [res_bind]. by rewrite net16_be16.
Qed.
Lemma read_u32_mid p q v off :
  off = length p → is_u32 v → read_u32 (p ++ be32 v ++ q) off = Ok v.
Proof.
  intros -> Hv. unfold read_u32. rewrite (slice_mid' p (be32 v) q) by done.
  cbn [res_bind]. by rewrite net32_be32.
Qed.
Lemma get8_mid p q b off : off = length p → get8 (p ++ b :: q) off = Ok b.
Proof. intros ->. unfold get8. by rewrite list_lookup_middle. Qed.

(** ** Reads and stores on a buffer given as a concatenation of fields

    Skipping a field of the buffer shifts the offset; the rewrite base [wire]
    walks a reader or a writer along the fields of a message. *)
Lemma slice_cons x l off n : slice (x :: l) (S off) n = slice l off n.
Proof. unfold slice. simpl. do 2 case_decide; auto; lia. Qed.
Lemma read_u16_cons x l off : read_u16 (x :: l) (S off) = read_u16 l off.
Proof. unfold read_u16. by rewrite slice_cons. Qed.
Lemma read_u32_cons x l off : read_u32 (x :: l) (S off) = read_u32 l off.
Proof. unfold read_u32. by rewrite slice_cons. Qed.
Lemma get8_cons x l off : get8 (x :: l) (S off) = get8 l off.
Proof. done. Qed.
Lemma get8_head b l : get8 (b :: l) 0 = Ok b.
Proof. done. Qed.
Lemma read_u16_head v l : is_u16 v → read_u16 (be16 v ++ l) 0 = Ok v.
Proof. intros. by apply (read_u16_mid []). Qed.
Lemma read_u32_head v l : is_u32 v → read_u32 (be32 v ++ l) 0 = Ok v.
Proof. intros. by apply (read_u32_mid []). Qed.

Lemma read_u16_skip16 v l off : read_u16 (be16 v ++ l) (S (S off)) = read_u16 l off.
Proof. unfold be16; simpl. by rewrite !read_u16_cons. Qed.
Lemma read_u16_skip32 v l off :
  read_u16 (be32 v ++ l) (S (S (S (S off)))) = read_u16 l off.
Proof. unfold be32; simpl. by rewrite !read_u16_cons. Qed.
Lemma read_u32_skip16 v l off : read_u32 (be16 v ++ l) (S (S off)) = read_u32 l off.
Proof. unfold be16; simpl. by rewrite !read_u32_cons. Qed.
Lemma read_u32_skip32 v l off :
  read_u32 (be32 v ++ l) (S (S (S (S off)))) = read_u32 l off.
Proof. unfold be32; simpl. by rewrite !read_u32_cons. Qed.
Lemma get8_skip16 v l off : get8 (be16 v ++ l) (S (S off)) = get8 l off.
Proof. done. Qed.
Lemma get8_skip32 v l off : get8 (be32 v ++ l) (S (S (S (S off)))) = get8 l off.
Proof. done. Qed.

Lemma store_head buf bs :
  (length bs ≤ length buf)%nat → store buf 0 bs = Ok (bs ++ drop (length bs) buf).
Proof. intros. by rewrite store_Ok. Qed.
Lemma store_cons x l off bs :
  store (x :: l) (S off) bs = let! r := store l off bs in Ok (x :: r).
Proof. unfold store. simpl. do 2 case_decide; simpl; auto; lia. Qed.
Lemma store_skip16 v l off bs :
  store (be16 v ++ l) (S (S off)) bs = let! r := store l off bs in Ok (be16 v ++ r).
Proof. unfold be16; simpl. rewrite !store_cons. by destruct (store l off bs). Qed.
Lemma store_skip32 v l off bs :
  store (be32 v ++ l) (S (S (S (S off)))) bs = let! r := store l off bs in Ok (be32 v ++ r).
Proof. unfold be32; simpl. rewrite !store_cons. by destruct (store l off bs). Qed.

Lemma slice_app_r A l o n : slice (A ++ l) (length A + o) n = slice l o n.
Proof.
  unfold slice. rewrite length_app, drop_app_add.
  do 2 case_decide; auto; lia.
Qed.
Lemma slice_app_l A l o n : (o + n ≤ length A)%nat → slice (A ++ l) o n = slice A o n.
Proof.
  intros. rewrite !slice_Ok by (rewrite ?length_app; lia). f_equal.
  rewrite drop_app_le by lia. by rewrite take_app_le by (rewrite length_drop; lia).
Qed.
Lemma store_app_r A l o bs :
  store (A ++ l) (length A + o) bs = let! r := store l o bs in Ok (A ++ r).
Proof.
  unfold store, splice. rewrite length_app.
  do 2 case_decide; simpl; try lia; try done. f_equal.
  rewrite take_app_add, <-Nat.add_assoc, drop_app_add. by rewrite <-app_assoc.
Qed.
Lemma store_app_0 A l bs :
  store (A ++ l) (length A) bs = let! r := store l 0 bs in Ok (A ++ r).
Proof. rewrite <-(store_app_r A l 0). by rewrite Nat.add_0_r. Qed.
Lemma slice_app_0 A l n : slice (A ++ l) (length A) n = slice l 0 n.
Proof. rewrite <-(slice_app_r A l 0). by rewrite Nat.add_0_r. Qed.
Lemma slice_all l n : n = length l → slice l 0 n = Ok l.
Proof. intros ->. rewrite slice_Ok by lia. by rewrite drop_0, firstn_all. Qed.

#[export] Hint Rewrite read_u16_cons read_u32_cons get8_cons get8_head
  read_u16_skip16 read_u16_skip32 read_u32_skip16 read_u32_skip32
  get8_skip16 get8_skip32 store_cons store_skip16 store_skip32
  write_u16_be write_u32_be length_be16 length_be32 @length_drop @drop_drop : wire.
#[export] Hint Rewrite read_u16_head read_u32_head using (solve [eauto with rom | lia]) : wire.
#[export] Hint Rewrite store_head
  using (autorewrite with wire; cbn [length]; rewrite ?length_drop; lia) : wire.

(** One pass of field-by-field simplification. *)
Ltac wire_simp :=
  unfold put8;
  repeat (autorewrite with wire; cbn [res_bind check_ length app plus];
          rewrite <-?app_assoc).

(** ** Arrays of fixed-width records

    The loop [for (e : entries) { write fields at buf + offset; offset += n; }]
    and its reading counterpart, which version vectors, counters and OR-set
    tags share. *)
Definition write_all {A} (put : bytes → nat → A → res bytes) (n : nat)
    (buf : bytes) (offset : nat) (l : list A) : res (bytes * nat) :=
  res_foldl (λ st e, let '(buf, offset) := st in
               let! buf := put buf offset e in Ok (buf, (offset + n)%nat)) (buf, offset) l.
Fixpoint read_all {A} (get : bytes → nat → res A) (n : nat)
    (buf : bytes) (offset : nat) (count : nat) : res (list A) :=
  match count with
  | O => Ok []
  | S c =>
      let! e := get buf offset in
      let! es := read_all get n buf (offset + n) c in
      Ok (e :: es)
  end.

Section RecordArray.
Context {A : Type} (put : bytes → nat → A → res bytes) (get : bytes → nat → res A).
Context (n : nat) (enc : A → bytes) (ok : A → Prop).
Hypothesis enc_length : ∀ a, length (enc a) = n.
Hypothesis put_enc : ∀ P R a, (n ≤ length R)%nat →
  put (P ++ R) (length P) a = Ok (P ++ enc a ++ drop n R).
Hypothesis get_enc : ∀ P R a, ok a → get (P ++ enc a ++ R) (length P) = Ok a.
Hypothesis get_safe : ∀ buf off, (off + n ≤ length buf)%nat → safe (get buf off).
Hypothesis get_ok : ∀ buf off a, wf_bytes buf → get buf off = Ok a → ok a.

Lemma length_encs (l : list A) : length (concat (enc <$> l)) = (length l * n)%nat.
Proof using enc_length.
  induction l as [|a l IH]; csimpl; [done|]. rewrite length_app, enc_length, IH. lia.
Qed.
Lemma write_all_spec l P R :
  (length l * n ≤ length R)%nat →
  write_all put n (P ++ R) (length P) l =
    Ok (P ++ concat (enc <$> l) ++ drop (length l * n) R, (length P + length l * n)%nat).
Proof using enc_length put_enc.
  unfold write_all. revert P R. induction l as [|a l IH]; intros P R Hl; csimpl.
  { by rewrite Nat.add_0_r. }
  simpl in Hl. rewrite put_enc by lia. cbn [res_bind].
  rewrite app_assoc. replace (length P + n)%nat with (length (P ++ enc a))
    by (rewrite length_app, enc_length; done).
  rewrite IH by (rewrite length_drop; lia).
  rewrite drop_drop, length_app, enc_length, <-!app_assoc.
  do 2 f_equal. lia.
Qed.
Lemma read_all_spec l P R :
  Forall ok l → read_all get n (P ++ concat (enc <$> l) ++ R) (length P) (length l) = Ok l.
Proof using enc_length get_enc.
  intros Hl. revert P. induction Hl as [|a l Ha Hl IH]; intros P; csimpl; [done|].
  rewrite <-app_assoc, get_enc by done. cbn [res_bind]. rewrite app_assoc.
  replace (length P + n)%nat with (length (P ++ enc a))
    by (rewrite length_app, enc_length; done).
  by rewrite IH.
Qed.
Lemma read_all_spec1 l b R :
  Forall ok l → read_all get n (b :: concat (enc <$> l) ++ R) 1 (length l) = Ok l.
Proof using enc_length get_enc. apply (read_all_spec l [b] R). Qed.
Lemma write_all_spec1 l b R :
  (length l * n ≤ length R)%nat →
  write_all put n (b :: R) 1 l =
    Ok (b :: concat (enc <$> l) ++ drop (length l * n) R, (1 + length l * n)%nat).
Proof using enc_length put_enc. apply (write_all_spec l [b] R). Qed.
Lemma read_all_safe buf off c :
  (off + c * n ≤ length buf)%nat → safe (read_all get n buf off c).
Proof using get_safe.
  revert off; induction c as [|c IH]; intros off Hl; simpl in *; [done|].
  apply safe_bind; [apply get_safe; lia|]. intros a _.
  apply safe_bind; [apply IH; lia|]. done.
Qed.
Lemma read_all_total buf off c :
  (off + c * n ≤ length buf)%nat → (∀ off, get buf off ≠ Fail) →
  ∃ l, read_all get n buf off c = Ok l ∧ length l = c.
Proof using get_safe.
  intros Hl Hf. revert off Hl; induction c as [|c IH]; intros off Hl; simpl in *; [by exists []|].
  destruct (get buf off) as [a| |] eqn:Ha.
  - destruct (IH (off + n)%nat) as (l & -> & Hll); [lia|]. exists (a :: l). simpl. auto.
  - by destruct (Hf off).
  - destruct (get_safe buf off); [lia|done].
Qed.
Lemma read_all_ok buf off c l :
  wf_bytes buf → read_all get n buf off c = Ok l → Forall ok l ∧ length l = c.
Proof using get_ok.
  intros Hwf. revert off l; induction c as [|c IH]; intros off l H; simpl in H; inv_ok; [done|].
  apply IH in Hm0 as [? ?]. split; [|simpl; lia]. constructor; eauto.
Qed.
End RecordArray.

Lemma encs_wf {A} (enc : A → bytes) l :
  (∀ a, wf_bytes (enc a)) → wf_bytes (concat (enc <$> l)).
Proof.
  intros He. induction l as [|a l IH]; [constructor|].
  rewrite fmap_cons. cbn [concat]. by apply Forall_app_2.
Qed.

(** Fields at an offset past a prefix. *)
Lemma read_u16_app_r P l o : read_u16 (P ++ l) (length P + o) = read_u16 l o.
Proof. unfold read_u16. by rewrite slice_app_r. Qed.
Lemma read_u32_app_r P l o : read_u32 (P ++ l) (length P + o) = read_u32 l o.
Proof. unfold read_u32. by rewrite slice_app_r. Qed.
Lemma read_u16_app_0 P l : read_u16 (P ++ l) (length P) = read_u16 l 0.
Proof. unfold read_u16. by rewrite slice_app_0. Qed.
Lemma read_u32_app_0 P l : read_u32 (P ++ l) (length P) = read_u32 l 0.
Proof. unfold read_u32. by rewrite slice_app_0. Qed.

(** The (u16, u32) record of version-vector entries and OR-set tags. *)
Lemma write_16_32 P R a b :
  (6 ≤ length R)%nat →
  (let! buf := write_u16 (P ++ R) (length P) a in write_u32 buf (length P + 2) b) =
    Ok (P ++ (be16 a ++ be32 b) ++ drop 6 R).
Proof.
  intros HR. rewrite write_u16_be, store_app_0, store_head by (rewrite length_be16; lia).
  cbn [res_bind]. rewrite write_u32_be, store_app_r, store_skip16.
  rewrite store_head by (rewrite length_be32, length_drop, length_be16; lia).
  cbn [res_bind]. by rewrite drop_drop, <-app_assoc.
Qed.
Lemma read_16_32 {B} (k : Z → Z → B) P R a b :
  is_u16 a → is_u32 b →
  (let! x := read_u16 (P ++ (be16 a ++ be32 b) ++ R) (length P) in
   let! y := read_u32 (P ++ (be16 a ++ be32 b) ++ R) (length P + 2) in Ok (k x y)) = Ok (k a b).
Proof.
  intros Ha Hb. rewrite read_u16_app_0, read_u32_app_r, <-app_assoc.
  by rewrite read_u16_head, read_u32_skip16, read_u32_head.
Qed.

(** ** Growing a [std::vector<uint8_t>]: [buf.resize(buf.size() + n)] *)
Definition resize (buf : bytes) (n : nat) : bytes := buf ++ replicate n 0.
Lemma write_u16_resize P n v :
  write_u16 (resize P (2 + n)) (length P) v = Ok (P ++ be16 v ++ replicate n 0).
Proof.
  unfold resize. rewrite write_u16_be, store_app_0, store_head
    by (rewrite length_replicate, length_be16; lia).
  cbn [res_bind]. rewrite length_be16, drop_replicate. cbn [Nat.add Nat.sub].
  by rewrite Nat.sub_0_r.
Qed.
