(* ===== verification/Frame.v ===== *)
(** * Wire constants, enumerations and typed frame payloads

    Models [include/protocoll/wire/frame_types.h], [include/protocoll/wire/frame.h]
    and [src/wire/frame.cpp].  Enumerations with a fixed underlying type accept
    every byte in C++, so each one has a [*_raw] constructor for the bytes that
    name no enumerator.  A frame payload is a record with its [encode] (a store
    into the caller's buffer) and [decode] (reads of the caller's buffer); the
    class [WireFrame] states what the codec template [add_typed_frame] and the
    peers rely on, and every frame type discharges it. *)
From S2P Require Import Prelude Platform.

(** ** frame_types.h *)
Inductive FrameType :=
| FT_STATE_DECLARE | FT_STATE_SNAPSHOT | FT_STATE_DELTA | FT_STATE_SUBSCRIBE
| FT_STATE_UNSUBSCRIBE | FT_CREDIT | FT_ACK | FT_NACK | FT_CAPABILITY_GRANT
| FT_CAPABILITY_REVOKE | FT_CLOCK_SYNC | FT_PING | FT_PONG | FT_CONNECT
| FT_ACCEPT | FT_CLOSE | FT_ROUTE_ANNOUNCE | FT_raw (b : Z).

Definition FrameType_to_u8 (t : FrameType) : Z :=
  match t with
  | FT_STATE_DECLARE => 1 | FT_STATE_SNAPSHOT => 2 | FT_STATE_DELTA => 3
  | FT_STATE_SUBSCRIBE => 4 | FT_STATE_UNSUBSCRIBE => 5 | FT_CREDIT => 6
  | FT_ACK => 7 | FT_NACK => 8 | FT_CAPABILITY_GRANT => 9
  | FT_CAPABILITY_REVOKE => 10 | FT_CLOCK_SYNC => 11 | FT_PING => 12
  | FT_PONG => 13 | FT_CONNECT => 14 | FT_ACCEPT => 15 | FT_CLOSE => 16
  | FT_ROUTE_ANNOUNCE => 17 | FT_raw b => b
  end.
Definition FrameType_of_u8 (b : Z) : FrameType :=
  match b with
  | 1 => FT_STATE_DECLARE | 2 => FT_STATE_SNAPSHOT | 3 => FT_STATE_DELTA
  | 4 => FT_STATE_SUBSCRIBE | 5 => FT_STATE_UNSUBSCRIBE | 6 => FT_CREDIT
  | 7 => FT_ACK | 8 => FT_NACK | 9 => FT_CAPABILITY_GRANT
  | 10 => FT_CAPABILITY_REVOKE | 11 => FT_CLOCK_SYNC | 12 => FT_PING
  | 13 => FT_PONG | 14 => FT_CONNECT | 15 => FT_ACCEPT | 16 => FT_CLOSE
  | 17 => FT_ROUTE_ANNOUNCE | _ => FT_raw b
  end.

Inductive PacketType := PT_DATA | PT_CONTROL | PT_HANDSHAKE | PT_raw (b : Z).
Definition PacketType_to_u8 (t : PacketType) : Z :=
  match t with PT_DATA => 1 | PT_CONTROL => 2 | PT_HANDSHAKE => 3 | PT_raw b => b end.
Definition PacketType_of_u8 (b : Z) : PacketType :=
  match b with 1 => PT_DATA | 2 => PT_CONTROL | 3 => PT_HANDSHAKE | _ => PT_raw b end.

Definition PROTOCOL_VERSION : Z := 1.
Definition FLAG_CHECKSUM : Z := 8.
Definition FLAG_COMPRESSED : Z := 4.
Definition FLAG_ENCRYPTED : Z := 2.
Definition FLAG_RESERVED : Z := 1.

Inductive Reliability := Rel_UNRELIABLE | Rel_BEST_EFFORT | Rel_RELIABLE | Rel_raw (b : Z).
Definition Reliability_to_u8 (r : Reliability) : Z :=
  match r with Rel_UNRELIABLE => 0 | Rel_BEST_EFFORT => 1 | Rel_RELIABLE => 2 | Rel_raw b => b end.
Definition Reliability_of_u8 (b : Z) : Reliability :=
  match b with 0 => Rel_UNRELIABLE | 1 => Rel_BEST_EFFORT | 2 => Rel_RELIABLE | _ => Rel_raw b end.

Inductive CrdtType :=
| CT_NONE | CT_LWW_REGISTER | CT_G_COUNTER | CT_PN_COUNTER | CT_OR_SET
| CT_MV_REGISTER | CT_RGA | CT_raw (b : Z).
Definition CrdtType_to_u8 (t : CrdtType) : Z :=
  match t with
  | CT_NONE => 0 | CT_LWW_REGISTER => 1 | CT_G_COUNTER => 2 | CT_PN_COUNTER => 3
  | CT_OR_SET => 4 | CT_MV_REGISTER => 5 | CT_RGA => 6 | CT_raw b => b
  end.
Definition CrdtType_of_u8 (b : Z) : CrdtType :=
  match b with
  | 0 => CT_NONE | 1 => CT_LWW_REGISTER | 2 => CT_G_COUNTER | 3 => CT_PN_COUNTER
  | 4 => CT_OR_SET | 5 => CT_MV_REGISTER | 6 => CT_RGA | _ => CT_raw b
  end.

Inductive CloseReason :=
| CR_NORMAL | CR_TIMEOUT | CR_PROTOCOL_ERROR | CR_AUTH_FAILURE | CR_GOING_AWAY | CR_raw (b : Z).
Definition CloseReason_to_u8 (r : CloseReason) : Z :=
  match r with
  | CR_NORMAL => 0 | CR_TIMEOUT => 1 | CR_PROTOCOL_ERROR => 2 | CR_AUTH_FAILURE => 3
  | CR_GOING_AWAY => 4 | CR_raw b => b
  end.
Definition CloseReason_of_u8 (b : Z) : CloseReason :=
  match b with
  | 0 => CR_NORMAL | 1 => CR_TIMEOUT | 2 => CR_PROTOCOL_ERROR | 3 => CR_AUTH_FAILURE
  | 4 => CR_GOING_AWAY | _ => CR_raw b
  end.

Definition PACKET_HEADER_SIZE : nat := 16.
Definition FRAME_HEADER_SIZE : nat := 3.
Definition MAX_PACKET_SIZE : nat := 1452.
Definition MAX_PAYLOAD_SIZE : nat := MAX_PACKET_SIZE - PACKET_HEADER_SIZE.
Definition CONNECT_MAGIC : Z := 1347571523. (* 0x50524F43 *)

#[global] Instance FrameType_eq_dec : EqDecision FrameType.
Proof. solve_decision. Defined.
#[global] Instance PacketType_eq_dec : EqDecision PacketType.
Proof. solve_decision. Defined.
#[global] Instance Reliability_eq_dec : EqDecision Reliability.
Proof. solve_decision. Defined.
#[global] Instance CrdtType_eq_dec : EqDecision CrdtType.
Proof. solve_decision. Defined.
#[global] Instance CloseReason_eq_dec : EqDecision CloseReason.
Proof. solve_decision. Defined.

(** A value of an enumeration the C++ type can hold: an enumerator, or a byte
    that names none. *)
Class ByteEnum (E : Type) := {
  to_u8 : E → Z;
  of_u8 : Z → E;
  to_of_u8 : ∀ b, to_u8 (of_u8 b) = b
}.
Definition enum_ok {E} `{ByteEnum E} (e : E) : Prop := is_u8 (to_u8 e) ∧ of_u8 (to_u8 e) = e.

(** Case analysis on the byte literals of an [of_u8] table. *)
Ltac byte_cases b :=
  destruct b as [|p|p]; try reflexivity;
  do 6 (try (destruct p as [p|p|]; try reflexivity)).

#[global, refine] Instance FrameType_ByteEnum : ByteEnum FrameType :=
  {| to_u8 := FrameType_to_u8; of_u8 := FrameType_of_u8 |}.
Proof. intros b. byte_cases b. Defined.
#[global, refine] Instance PacketType_ByteEnum : ByteEnum PacketType :=
  {| to_u8 := PacketType_to_u8; of_u8 := PacketType_of_u8 |}.
Proof. intros b. byte_cases b. Defined.
#[global, refine] Instance Reliability_ByteEnum : ByteEnum Reliability :=
  {| to_u8 := Reliability_to_u8; of_u8 := Reliability_of_u8 |}.
Proof. intros b. byte_cases b. Defined.
#[global, refine] Instance CrdtType_ByteEnum : ByteEnum CrdtType :=
  {| to_u8 := CrdtType_to_u8; of_u8 := CrdtType_of_u8 |}.
Proof. intros b. byte_cases b. Defined.
#[global, refine] Instance CloseReason_ByteEnum : ByteEnum CloseReason :=
  {| to_u8 := CloseReason_to_u8; of_u8 := CloseReason_of_u8 |}.
Proof. intros b. byte_cases b. Defined.

Lemma enum_ok_of {E} `{ByteEnum E} b : is_u8 b → enum_ok (of_u8 b).
Proof. unfold enum_ok. by rewrite to_of_u8. Qed.

(** ** What the codec template and the peers need of a frame payload *)
Class WireFrame (T : Type) := {
  WIRE_SIZE : nat;
  frame_ok : T → Prop;
  frame_bytes : T → bytes;
  frame_encode : T → bytes → res bytes;
  frame_decode : bytes → res T;
  frame_bytes_length : ∀ f, length (frame_bytes f) = WIRE_SIZE;
  frame_encode_short : ∀ f buf, (length buf < WIRE_SIZE)%nat → frame_encode f buf = Fail;
  frame_encode_Ok : ∀ f buf, (WIRE_SIZE ≤ length buf)%nat →
    frame_encode f buf = Ok (frame_bytes f ++ drop WIRE_SIZE buf);
  frame_decode_short : ∀ buf, (length buf < WIRE_SIZE)%nat → frame_decode buf = Fail;
  frame_decode_total : ∀ buf, (WIRE_SIZE ≤ length buf)%nat →
    ∃ f, frame_decode buf = Ok f ∧ (wf_bytes buf → frame_ok f);
  frame_decode_bytes : ∀ f rest, frame_ok f → frame_decode (frame_bytes f ++ rest) = Ok f
}.

(** ** FrameHeader *)
Record FrameHeader := { fh_type : FrameType; fh_length : Z }.
Definition FrameHeader_encode (h : FrameHeader) (buf : bytes) : res bytes :=
  check_ (FRAME_HEADER_SIZE <=? length buf)%nat (
  let! buf := put8 buf 0 (FrameType_to_u8 (fh_type h)) in
  write_u16 buf 1 (fh_length h)).
Definition FrameHeader_decode (buf : bytes) : res FrameHeader :=
  check_ (FRAME_HEADER_SIZE <=? length buf)%nat (
  let! t := get8 buf 0 in
  let! l := read_u16 buf 1 in
  Ok {| fh_type := FrameType_of_u8 t; fh_length := l |}).

(** ** ConnectFrame *)
Record ConnectFrame := { cf_magic : Z; cf_version : Z; cf_max_frame_size : Z }.
Definition ConnectFrame_encode (f : ConnectFrame) (buf : bytes) : res bytes :=
  check_ (7 <=? length buf)%nat (
  let! buf := write_u32 buf 0 (cf_magic f) in
  let! buf := put8 buf 4 (cf_version f) in
  write_u16 buf 5 (cf_max_frame_size f)).
Definition ConnectFrame_decode (buf : bytes) : res ConnectFrame :=
  check_ (7 <=? length buf)%nat (
  let! m := read_u32 buf 0 in
  let! v := get8 buf 4 in
  let! s := read_u16 buf 5 in
  Ok {| cf_magic := m; cf_version := v; cf_max_frame_size := s |}).

(** ** AcceptFrame *)
Record AcceptFrame := { af_assigned_conn_id : Z; af_server_timestamp_us : Z }.
Definition AcceptFrame_encode (f : AcceptFrame) (buf : bytes) : res bytes :=
  check_ (6 <=? length buf)%nat (
  let! buf := write_u16 buf 0 (af_assigned_conn_id f) in
  write_u32 buf 2 (af_server_timestamp_us f)).
Definition AcceptFrame_decode (buf : bytes) : res AcceptFrame :=
  check_ (6 <=? length buf)%nat (
  let! c := read_u16 buf 0 in
  let! t := read_u32 buf 2 in
  Ok {| af_assigned_conn_id := c; af_server_timestamp_us := t |}).

(** ** CloseFrame *)
Record CloseFrame := { clf_reason : CloseReason }.
Definition CloseFrame_encode (f : CloseFrame) (buf : bytes) : res bytes :=
  check_ (1 <=? length buf)%nat (put8 buf 0 (CloseReason_to_u8 (clf_reason f))).
Definition CloseFrame_decode (buf : bytes) : res CloseFrame :=
  check_ (1 <=? length buf)%nat (
  let! r := get8 buf 0 in
  Ok {| clf_reason := CloseReason_of_u8 r |}).

(** ** PingFrame ([PongFrame] is the same type) *)
Record PingFrame := { pf_ping_id : Z; pf_timestamp_us : Z }.
Definition PingFrame_encode (f : PingFrame) (buf : bytes) : res bytes :=
  check_ (8 <=? length buf)%nat (
  let! buf := write_u32 buf 0 (pf_ping_id f) in
  write_u32 buf 4 (pf_timestamp_us f)).
Definition PingFrame_decode (buf : bytes) : res PingFrame :=
  check_ (8 <=? length buf)%nat (
  let! i := read_u32 buf 0 in
  let! t := read_u32 buf 4 in
  Ok {| pf_ping_id := i; pf_timestamp_us := t |}).

(** ** AckFrame (base part; SACK ranges are separate values) *)
Record SackRange := { sr_start : Z; sr_end : Z }.
Record AckFrame := { ack_largest_acked : Z; ack_delay_us : Z; ack_sack_range_count : Z }.
Definition AckFrame_encode (f : AckFrame) (buf : bytes) : res bytes :=
  check_ (7 <=? length buf)%nat (
  let! buf := write_u32 buf 0 (ack_largest_acked f) in
  let! buf := write_u16 buf 4 (ack_delay_us f) in
  put8 buf 6 (ack_sack_range_count f)).
Definition AckFrame_decode (buf : bytes) : res AckFrame :=
  check_ (7 <=? length buf)%nat (
  let! l := read_u32 buf 0 in
  let! d := read_u16 buf 4 in
  let! n := get8 buf 6 in
  Ok {| ack_largest_acked := l; ack_delay_us := d; ack_sack_range_count := n |}).

(** ** StateDeclareFrame *)
Record StateDeclareFrame :=
  { dcl_path_hash : Z; dcl_crdt_type : CrdtType; dcl_reliability : Reliability }.
Definition StateDeclareFrame_encode (f : StateDeclareFrame) (buf : bytes) : res bytes :=
  check_ (6 <=? length buf)%nat (
  let! buf := write_u32 buf 0 (dcl_path_hash f) in
  let! buf := put8 buf 4 (CrdtType_to_u8 (dcl_crdt_type f)) in
  put8 buf 5 (Reliability_to_u8 (dcl_reliability f))).
Definition StateDeclareFrame_decode (buf : bytes) : res StateDeclareFrame :=
  check_ (6 <=? length buf)%nat (
  let! h := read_u32 buf 0 in
  let! c := get8 buf 4 in
  let! r := get8 buf 5 in
  Ok {| dcl_path_hash := h; dcl_crdt_type := CrdtType_of_u8 c;
        dcl_reliability := Reliability_of_u8 r |}).

(** ** StateDeltaFrame *)
Record StateDeltaFrame :=
  { sdf_path_hash : Z; sdf_crdt_type : CrdtType; sdf_reliability : Reliability;
    sdf_author_node_id : Z }.
Definition StateDeltaFrame_BASE_WIRE_SIZE : nat := 8.
Definition StateDeltaFrame_SIGNATURE_SIZE : nat := 64.
Definition StateDeltaFrame_MIN_WIRE_SIZE : nat :=
  StateDeltaFrame_BASE_WIRE_SIZE + StateDeltaFrame_SIGNATURE_SIZE.
Definition StateDeltaFrame_encode (f : StateDeltaFrame) (buf : bytes) : res bytes :=
  check_ (StateDeltaFrame_BASE_WIRE_SIZE <=? length buf)%nat (
  let! buf := write_u32 buf 0 (sdf_path_hash f) in
  let! buf := put8 buf 4 (CrdtType_to_u8 (sdf_crdt_type f)) in
  let! buf := put8 buf 5 (Reliability_to_u8 (sdf_reliability f)) in
  write_u16 buf 6 (sdf_author_node_id f)).
Definition StateDeltaFrame_decode (buf : bytes) : res StateDeltaFrame :=
  check_ (StateDeltaFrame_BASE_WIRE_SIZE <=? length buf)%nat (
  let! h := read_u32 buf 0 in
  let! c := get8 buf 4 in
  let! r := get8 buf 5 in
  let! a := read_u16 buf 6 in
  Ok {| sdf_path_hash := h; sdf_crdt_type := CrdtType_of_u8 c;
        sdf_reliability := Reliability_of_u8 r; sdf_author_node_id := a |}).

(** ** StateSnapshotFrame *)
Record StateSnapshotFrame :=
  { ssf_path_hash : Z; ssf_crdt_type : CrdtType; ssf_author_node_id : Z }.
Definition StateSnapshotFrame_BASE_WIRE_SIZE : nat := 7.
Definition StateSnapshotFrame_SIGNATURE_SIZE : nat := 64.
Definition StateSnapshotFrame_MIN_WIRE_SIZE : nat :=
  StateSnapshotFrame_BASE_WIRE_SIZE + StateSnapshotFrame_SIGNATURE_SIZE.
Definition StateSnapshotFrame_encode (f : StateSnapshotFrame) (buf : bytes) : res bytes :=
  check_ (StateSnapshotFrame_BASE_WIRE_SIZE <=? length buf)%nat (
  let! buf := write_u32 buf 0 (ssf_path_hash f) in
  let! buf := put8 buf 4 (CrdtType_to_u8 (ssf_crdt_type f)) in
  write_u16 buf 5 (ssf_author_node_id f)).
Definition StateSnapshotFrame_decode (buf : bytes) : res StateSnapshotFrame :=
  check_ (StateSnapshotFrame_BASE_WIRE_SIZE <=? length buf)%nat (
  let! h := read_u32 buf 0 in
  let! c := get8 buf 4 in
  let! a := read_u16 buf 5 in
  Ok {| ssf_path_hash := h; ssf_crdt_type := CrdtType_of_u8 c; ssf_author_node_id := a |}).

(** ** CapabilityRevokeFrame *)
Record CapabilityRevokeFrame := { crf_token_id : Z; crf_issuer_node_id : Z }.
Definition CapabilityRevokeFrame_encode (f : CapabilityRevokeFrame) (buf : bytes) : res bytes :=
  check_ (6 <=? length buf)%nat (
  let! buf := write_u32 buf 0 (crf_token_id f) in
  write_u16 buf 4 (crf_issuer_node_id f)).
Definition CapabilityRevokeFrame_decode (buf : bytes) : res CapabilityRevokeFrame :=
  check_ (6 <=? length buf)%nat (
  let! t := read_u32 buf 0 in
  let! i := read_u16 buf 4 in
  Ok {| crf_token_id := t; crf_issuer_node_id := i |}).

(** ** RouteAnnounceFrame *)
Record RouteAnnounceFrame := { raf_path_hash : Z; raf_announcing_node_id : Z }.
Definition RouteAnnounceFrame_encode (f : RouteAnnounceFrame) (buf : bytes) : res bytes :=
  check_ (6 <=? length buf)%nat (
  let! buf := write_u32 buf 0 (raf_path_hash f) in
  write_u16 buf 4 (raf_announcing_node_id f)).
Definition RouteAnnounceFrame_decode (buf : bytes) : res RouteAnnounceFrame :=
  check_ (6 <=? length buf)%nat (
  let! h := read_u32 buf 0 in
  let! a := read_u16 buf 4 in
  Ok {| raf_path_hash := h; raf_announcing_node_id := a |}).

(** ** Every frame payload is a [WireFrame] *)
Ltac sizes :=
  unfold StateSnapshotFrame_MIN_WIRE_SIZE, StateDeltaFrame_MIN_WIRE_SIZE,
    MAX_PAYLOAD_SIZE in *;
  unfold FRAME_HEADER_SIZE, PACKET_HEADER_SIZE, MAX_PACKET_SIZE,
    StateDeltaFrame_BASE_WIRE_SIZE, StateDeltaFrame_SIGNATURE_SIZE,
    StateSnapshotFrame_BASE_WIRE_SIZE, StateSnapshotFrame_SIGNATURE_SIZE in *.
Ltac short_frame :=
  intros; unfold check_; sizes;
  match goal with |- context [(?a <=? ?b)%nat] => destruct (Nat.leb_spec a b); [lia|done] end.
Ltac enough_frame :=
  unfold check_; sizes;
  match goal with |- context [(?a <=? ?b)%nat] => destruct (Nat.leb_spec a b); [|lia] end.
Ltac encode_frame :=
  intros; enough_frame; wire_simp; try done.
(** Expose the reads of a long enough buffer one by one. *)
Ltac decode_reads :=
  let buf := fresh "buf" in let Hl := fresh "Hl" in
  intros buf Hl; enough_frame;
  repeat match goal with
  | |- context [read_u32 buf ?o] =>
      let v := fresh "v" in let E := fresh "E" in
      destruct (read_u32 buf o) as [v| |] eqn:E;
      [ | by unfold read_u32, slice in E; case_decide
        | by exfalso; revert E; apply read_u32_safe; lia ]; cbn [res_bind]
  | |- context [read_u16 buf ?o] =>
      let v := fresh "v" in let E := fresh "E" in
      destruct (read_u16 buf o) as [v| |] eqn:E;
      [ | by unfold read_u16, slice in E; case_decide
        | by exfalso; revert E; apply read_u16_safe; lia ]; cbn [res_bind]
  | |- context [get8 buf ?o] =>
      let v := fresh "v" in let E := fresh "E" in
      destruct (get8 buf o) as [v| |] eqn:E;
      [ | by unfold get8 in E; case_match
        | by exfalso; revert E; apply get8_safe; lia ]; cbn [res_bind]
  end;
  eexists; split; [reflexivity|]; intros; cbn;
  repeat match goal with |- _ ∧ _ => split end.
Ltac decode_range :=
  first [ eapply read_u32_range; eassumption | eapply read_u16_range; eassumption
        | eapply get8_wf; eassumption
        | match goal with
          | |- enum_ok (_ ?v) =>
              first [ refine (enum_ok_of (E:=FrameType) v _) | refine (enum_ok_of (E:=CrdtType) v _)
                    | refine (enum_ok_of (E:=Reliability) v _)
                    | refine (enum_ok_of (E:=CloseReason) v _) ]
          end; eapply get8_wf; eassumption ].
Ltac decode_frame := decode_reads; decode_range.
Ltac roundtrip_frame :=
  intros [] rest Hok; cbn in Hok; destruct_and?;
  repeat match goal with H : enum_ok _ |- _ => destruct H end;
  unfold check_; match goal with |- context [(?a <=? ?b)%nat] => change (a <=? b)%nat with true end;
  cbn [fh_type fh_length cf_magic cf_version cf_max_frame_size af_assigned_conn_id
       af_server_timestamp_us clf_reason pf_ping_id pf_timestamp_us ack_largest_acked
       ack_delay_us ack_sack_range_count dcl_path_hash dcl_crdt_type dcl_reliability
       sdf_path_hash sdf_crdt_type sdf_reliability sdf_author_node_id ssf_path_hash
       ssf_crdt_type ssf_author_node_id crf_token_id crf_issuer_node_id
       raf_path_hash raf_announcing_node_id] in *;
  cbn [app]; wire_simp; try (f_equal; f_equal; done).

#[global, refine] Instance FrameHeader_WireFrame : WireFrame FrameHeader := {|
  WIRE_SIZE := FRAME_HEADER_SIZE;
  frame_ok f := enum_ok (fh_type f) ∧ is_u16 (fh_length f);
  frame_bytes f := FrameType_to_u8 (fh_type f) :: be16 (fh_length f);
  frame_encode := FrameHeader_encode; frame_decode := FrameHeader_decode |}.
Proof.
  - done.
  - unfold FrameHeader_encode. short_frame.
  - unfold FrameHeader_encode. encode_frame.
  - unfold FrameHeader_decode. short_frame.
  - unfold FrameHeader_decode. decode_frame.
  - unfold FrameHeader_decode. roundtrip_frame.
Defined.

#[global, refine] Instance ConnectFrame_WireFrame : WireFrame ConnectFrame := {|
  WIRE_SIZE := 7;
  frame_ok f := is_u32 (cf_magic f) ∧ is_u8 (cf_version f) ∧ is_u16 (cf_max_frame_size f);
  frame_bytes f := be32 (cf_magic f) ++ cf_version f :: be16 (cf_max_frame_size f);
  frame_encode := ConnectFrame_encode; frame_decode := ConnectFrame_decode |}.
Proof.
  - done.
  - unfold ConnectFrame_encode. short_frame.
  - unfold ConnectFrame_encode. encode_frame.
  - unfold ConnectFrame_decode. short_frame.
  - unfold ConnectFrame_decode. decode_frame.
  - unfold ConnectFrame_decode. roundtrip_frame.
Defined.

#[global, refine] Instance AcceptFrame_WireFrame : WireFrame AcceptFrame := {|
  WIRE_SIZE := 6;
  frame_ok f := is_u16 (af_assigned_conn_id f) ∧ is_u32 (af_server_timestamp_us f);
  frame_bytes f := be16 (af_assigned_conn_id f) ++ be32 (af_server_timestamp_us f);
  frame_encode := AcceptFrame_encode; frame_decode := AcceptFrame_decode |}.
Proof.
  - done.
  - unfold AcceptFrame_encode. short_frame.
  - unfold AcceptFrame_encode. encode_frame.
  - unfold AcceptFrame_decode. short_frame.
  - unfold AcceptFrame_decode. decode_frame.
  - unfold AcceptFrame_decode. roundtrip_frame.
Defined.

#[global, refine] Instance CloseFrame_WireFrame : WireFrame CloseFrame := {|
  WIRE_SIZE := 1;
  frame_ok f := enum_ok (clf_reason f);
  frame_bytes f := [CloseReason_to_u8 (clf_reason f)];
  frame_encode := CloseFrame_encode; frame_decode := CloseFrame_decode |}.
Proof.
  - done.
  - unfold CloseFrame_encode. short_frame.
  - unfold CloseFrame_encode. encode_frame.
  - unfold CloseFrame_decode. short_frame.
  - unfold CloseFrame_decode. decode_frame.
  - unfold CloseFrame_decode. roundtrip_frame.
Defined.

#[global, refine] Instance PingFrame_WireFrame : WireFrame PingFrame := {|
  WIRE_SIZE := 8;
  frame_ok f := is_u32 (pf_ping_id f) ∧ is_u32 (pf_timestamp_us f);
  frame_bytes f := be32 (pf_ping_id f) ++ be32 (pf_timestamp_us f);
  frame_encode := PingFrame_encode; frame_decode := PingFrame_decode |}.
Proof.
  - done.
  - unfold PingFrame_encode. short_frame.
  - unfold PingFrame_encode. encode_frame.
  - unfold PingFrame_decode. short_frame.
  - unfold PingFrame_decode. decode_frame.
  - unfold PingFrame_decode. roundtrip_frame.
Defined.

#[global, refine] Instance AckFrame_WireFrame : WireFrame AckFrame := {|
  WIRE_SIZE := 7;
  frame_ok f := is_u32 (ack_largest_acked f) ∧ is_u16 (ack_delay_us f) ∧ is_u8 (ack_sack_range_count f);
  frame_bytes f := be32 (ack_largest_acked f) ++ be16 (ack_delay_us f) ++ [ack_sack_range_count f];
  frame_encode := AckFrame_encode; frame_decode := AckFrame_decode |}.
Proof.
  - done.
  - unfold AckFrame_encode. short_frame.
  - unfold AckFrame_encode. encode_frame.
  - unfold AckFrame_decode. short_frame.
  - unfold AckFrame_decode. decode_frame.
  - unfold AckFrame_decode. roundtrip_frame.
Defined.

#[global, refine] Instance StateDeclareFrame_WireFrame : WireFrame StateDeclareFrame := {|
  WIRE_SIZE := 6;
  frame_ok f := is_u32 (dcl_path_hash f) ∧ enum_ok (dcl_crdt_type f) ∧ enum_ok (dcl_reliability f);
  frame_bytes f := be32 (dcl_path_hash f) ++ [CrdtType_to_u8 (dcl_crdt_type f); Reliability_to_u8 (dcl_reliability f)];
  frame_encode := StateDeclareFrame_encode; frame_decode := StateDeclareFrame_decode |}.
Proof.
  - done.
  - unfold StateDeclareFrame_encode. short_frame.
  - unfold StateDeclareFrame_encode. encode_frame.
  - unfold StateDeclareFrame_decode. short_frame.
  - unfold StateDeclareFrame_decode. decode_frame.
  - unfold StateDeclareFrame_decode. roundtrip_frame.
Defined.

#[global, refine] Instance StateDeltaFrame_WireFrame : WireFrame StateDeltaFrame := {|
  WIRE_SIZE := StateDeltaFrame_BASE_WIRE_SIZE;
  frame_ok f := is_u32 (sdf_path_hash f) ∧ enum_ok (sdf_crdt_type f) ∧ enum_ok (sdf_reliability f)
    ∧ is_u16 (sdf_author_node_id f);
  frame_bytes f := be32 (sdf_path_hash f) ++ CrdtType_to_u8 (sdf_crdt_type f)
    :: Reliability_to_u8 (sdf_reliability f) :: be16 (sdf_author_node_id f);
  frame_encode := StateDeltaFrame_encode; frame_decode := StateDeltaFrame_decode |}.
Proof.
  - done.
  - unfold StateDeltaFrame_encode. short_frame.
  - unfold StateDeltaFrame_encode. encode_frame.
  - unfold StateDeltaFrame_decode. short_frame.
  - unfold StateDeltaFrame_decode. decode_frame.
  - unfold StateDeltaFrame_decode. roundtrip_frame.
Defined.

#[global, refine] Instance StateSnapshotFrame_WireFrame : WireFrame StateSnapshotFrame := {|
  WIRE_SIZE := StateSnapshotFrame_BASE_WIRE_SIZE;
  frame_ok f := is_u32 (ssf_path_hash f) ∧ enum_ok (ssf_crdt_type f) ∧ is_u16 (ssf_author_node_id f);
  frame_bytes f := be32 (ssf_path_hash f) ++ CrdtType_to_u8 (ssf_crdt_type f) :: be16 (ssf_author_node_id f);
  frame_encode := StateSnapshotFrame_encode; frame_decode := StateSnapshotFrame_decode |}.
Proof.
  - done.
  - unfold StateSnapshotFrame_encode. short_frame.
  - unfold StateSnapshotFrame_encode. encode_frame.
  - unfold StateSnapshotFrame_decode. short_frame.
  - unfold StateSnapshotFrame_decode. decode_frame.
  - unfold StateSnapshotFrame_decode. roundtrip_frame.
Defined.

#[global, refine] Instance CapabilityRevokeFrame_WireFrame : WireFrame CapabilityRevokeFrame := {|
  WIRE_SIZE := 6;
  frame_ok f := is_u32 (crf_token_id f) ∧ is_u16 (crf_issuer_node_id f);
  frame_bytes f := be32 (crf_token_id f) ++ be16 (crf_issuer_node_id f);
  frame_encode := CapabilityRevokeFrame_encode; frame_decode := CapabilityRevokeFrame_decode |}.
Proof.
  - done.
  - unfold CapabilityRevokeFrame_encode. short_frame.
  - unfold CapabilityRevokeFrame_encode. encode_frame.
  - unfold CapabilityRevokeFrame_decode. short_frame.
  - unfold CapabilityRevokeFrame_decode. decode_frame.
  - unfold CapabilityRevokeFrame_decode. roundtrip_frame.
Defined.

#[global, refine] Instance RouteAnnounceFrame_WireFrame : WireFrame RouteAnnounceFrame := {|
  WIRE_SIZE := 6;
  frame_ok f := is_u32 (raf_path_hash f) ∧ is_u16 (raf_announcing_node_id f);
  frame_bytes f := be32 (raf_path_hash f) ++ be16 (raf_announcing_node_id f);
  frame_encode := RouteAnnounceFrame_encode; frame_decode := RouteAnnounceFrame_decode |}.
Proof.
  - done.
  - unfold RouteAnnounceFrame_encode. short_frame.
  - unfold RouteAnnounceFrame_encode. encode_frame.
  - unfold RouteAnnounceFrame_decode. short_frame.
  - unfold RouteAnnounceFrame_decode. decode_frame.
  - unfold RouteAnnounceFrame_decode. roundtrip_frame.
Defined.
