(* ===== verification/Codec.v ===== *)
(** * Packets: header, encoder and decoder

    Models [include/protocoll/wire/packet.h], [src/wire/packet.cpp],
    [include/protocoll/wire/codec.h] and [src/wire/codec.cpp].  The encoder is
    its fixed buffer with a cursor, the decoder a view of the received bytes
    with a frame cursor.  [parse_frames] is the reference parser the decoder's
    [next_frame] loop is proved to implement, and [codec_roundtrip] the end to
    end statement: what is added to an encoder is what a decoder iterates. *)
From S2P Require Import Prelude Platform Frame.

(** ** PacketHeader *)
Record PacketHeader := {
  ph_version : Z; ph_flags : Z; ph_packet_type : PacketType; ph_connection_id : Z;
  ph_packet_number : Z; ph_timestamp_us : Z; ph_payload_length : Z; ph_checksum : Z }.

Definition make_version_flags (version flags : Z) : Z :=
  u8 (Z.lor (Z.shiftl version 4) (Z.land flags 15)).

Definition PacketHeader_encode (h : PacketHeader) (buf : bytes) : res bytes :=
  check_ (PACKET_HEADER_SIZE <=? length buf)%nat (
  let! buf := put8 buf 0 (make_version_flags (ph_version h) (ph_flags h)) in
  let! buf := put8 buf 1 (PacketType_to_u8 (ph_packet_type h)) in
  let! buf := write_u16 buf 2 (ph_connection_id h) in
  let! buf := write_u32 buf 4 (ph_packet_number h) in
  let! buf := write_u32 buf 8 (ph_timestamp_us h) in
  let! buf := write_u16 buf 12 (ph_payload_length h) in
  write_u16 buf 14 (ph_checksum h)).

Definition PacketHeader_decode (buf : bytes) : res PacketHeader :=
  check_ (PACKET_HEADER_SIZE <=? length buf)%nat (
  let! vf := get8 buf 0 in
  let! pt := get8 buf 1 in
  let! cid := read_u16 buf 2 in
  let! pn := read_u32 buf 4 in
  let! ts := read_u32 buf 8 in
  let! pl := read_u16 buf 12 in
  let! ck := read_u16 buf 14 in
  Ok {| ph_version := Z.land (Z.shiftr vf 4) 15; ph_flags := Z.land vf 15;
        ph_packet_type := PacketType_of_u8 pt; ph_connection_id := cid;
        ph_packet_number := pn; ph_timestamp_us := ts; ph_payload_length := pl;
        ph_checksum := ck |}).

Section Codec.
Context `{XxHash}.

(** [PacketHeader::compute_checksum]: xor of the hash of the header with its
    checksum field zeroed and the hash of the payload. *)
Definition compute_checksum (packet_buf : bytes) (total_len : nat) : res Z :=
  if (total_len <? PACKET_HEADER_SIZE)%nat then Ok 0 else
  let! tmp := slice packet_buf 0 PACKET_HEADER_SIZE in
  let tmp := <[15%nat := 0]> (<[14%nat := 0]> tmp) in
  let h1 := xxhash16 tmp in
  if (PACKET_HEADER_SIZE <? total_len)%nat then
    let! payload := slice packet_buf PACKET_HEADER_SIZE (total_len - PACKET_HEADER_SIZE) in
    let h2 := xxhash16 payload in
    Ok (Z.lxor h1 h2)
  else Ok h1.

(** ** PacketEncoder *)
Record PacketEncoder := {
  pe_buf : bytes; pe_cursor : nat; pe_packet_type : PacketType; pe_connection_id : Z;
  pe_packet_number : Z; pe_timestamp_us : Z; pe_flags : Z }.

Definition PacketEncoder_new : PacketEncoder :=
  {| pe_buf := replicate MAX_PACKET_SIZE 0; pe_cursor := PACKET_HEADER_SIZE;
     pe_packet_type := PT_DATA; pe_connection_id := 0; pe_packet_number := 0;
     pe_timestamp_us := 0; pe_flags := FLAG_CHECKSUM |}.

Definition set_packet_type (e : PacketEncoder) (t : PacketType) : PacketEncoder :=
  {| pe_buf := pe_buf e; pe_cursor := pe_cursor e; pe_packet_type := t;
     pe_connection_id := pe_connection_id e; pe_packet_number := pe_packet_number e;
     pe_timestamp_us := pe_timestamp_us e; pe_flags := pe_flags e |}.
Definition set_connection_id (e : PacketEncoder) (c : Z) : PacketEncoder :=
  {| pe_buf := pe_buf e; pe_cursor := pe_cursor e; pe_packet_type := pe_packet_type e;
     pe_connection_id := c; pe_packet_number := pe_packet_number e;
     pe_timestamp_us := pe_timestamp_us e; pe_flags := pe_flags e |}.
Definition set_packet_number (e : PacketEncoder) (n : Z) : PacketEncoder :=
  {| pe_buf := pe_buf e; pe_cursor := pe_cursor e; pe_packet_type := pe_packet_type e;
     pe_connection_id := pe_connection_id e; pe_packet_number := n;
     pe_timestamp_us := pe_timestamp_us e; pe_flags := pe_flags e |}.
Definition set_timestamp (e : PacketEncoder) (t : Z) : PacketEncoder :=
  {| pe_buf := pe_buf e; pe_cursor := pe_cursor e; pe_packet_type := pe_packet_type e;
     pe_connection_id := pe_connection_id e; pe_packet_number := pe_packet_number e;
     pe_timestamp_us := t; pe_flags := pe_flags e |}.
Definition with_buffer (e : PacketEncoder) (buf : bytes) (cursor : nat) : PacketEncoder :=
  {| pe_buf := buf; pe_cursor := cursor; pe_packet_type := pe_packet_type e;
     pe_connection_id := pe_connection_id e; pe_packet_number := pe_packet_number e;
     pe_timestamp_us := pe_timestamp_us e; pe_flags := pe_flags e |}.

(** [payload] is [None] for a null pointer. *)
Definition add_frame (e : PacketEncoder) (type : FrameType) (payload : option bytes)
    (payload_len : Z) : res PacketEncoder :=
  let n := Z.to_nat payload_len in
  let needed := (FRAME_HEADER_SIZE + n)%nat in
  check_ (negb (MAX_PACKET_SIZE <? pe_cursor e + needed)%nat) (
  let! buf := put8 (pe_buf e) (pe_cursor e) (FrameType_to_u8 type) in
  let! buf := write_u16 buf (pe_cursor e + 1) payload_len in
  let cursor := (pe_cursor e + FRAME_HEADER_SIZE)%nat in
  let! buf := match payload with
              | Some p => if 0 <? payload_len then
                            let! src := slice p 0 n in store buf cursor src
                          else Ok buf
              | None => Ok buf
              end in
  Ok (with_buffer e buf (cursor + n))).

(** The template [add_typed_frame]: encode into a 256-byte scratch buffer, then
    append its first [WIRE_SIZE] bytes. *)
Definition add_typed_frame {T} `{WireFrame T} (e : PacketEncoder) (type : FrameType)
    (frame : T) : res PacketEncoder :=
  let! buf := frame_encode frame (replicate 256 0) in
  add_frame e type (Some buf) (u16 (Z.of_nat WIRE_SIZE)).

Definition finalize (e : PacketEncoder) : res (bytes * PacketEncoder) :=
  let payload_len := u16 (Z.of_nat (pe_cursor e - PACKET_HEADER_SIZE)) in
  let hdr := {| ph_version := PROTOCOL_VERSION; ph_flags := pe_flags e;
                ph_packet_type := pe_packet_type e; ph_connection_id := pe_connection_id e;
                ph_packet_number := pe_packet_number e; ph_timestamp_us := pe_timestamp_us e;
                ph_payload_length := payload_len; ph_checksum := 0 |} in
  let! hd := slice (pe_buf e) 0 PACKET_HEADER_SIZE in
  let! hd := or_else (PacketHeader_encode hdr hd) hd in
  let! buf := store (pe_buf e) 0 hd in
  let! cksum := compute_checksum buf (pe_cursor e) in
  let! buf := write_u16 buf 14 cksum in
  let! result := slice buf 0 (pe_cursor e) in
  Ok (result, with_buffer e (replicate MAX_PACKET_SIZE 0) PACKET_HEADER_SIZE).

Definition payload_size (e : PacketEncoder) : nat := pe_cursor e - PACKET_HEADER_SIZE.
Definition remaining (e : PacketEncoder) : nat := MAX_PACKET_SIZE - pe_cursor e.

(** ** PacketDecoder *)
Record Frame := { fr_header : FrameHeader; fr_payload : bytes }.

Record PacketDecoder := {
  pd_header : PacketHeader; pd_data : option bytes; pd_data_len : nat; pd_frame_cursor : nat }.

Definition PacketDecoder_new : PacketDecoder :=
  {| pd_header := {| ph_version := 0; ph_flags := 0; ph_packet_type := PT_raw 0;
                     ph_connection_id := 0; ph_packet_number := 0; ph_timestamp_us := 0;
                     ph_payload_length := 0; ph_checksum := 0 |};
     pd_data := None; pd_data_len := 0; pd_frame_cursor := 0 |}.

(** The header field is overwritten even when the length check then fails. *)
Definition parse (d : PacketDecoder) (data : bytes) : res (PacketDecoder * bool) :=
  if (length data <? PACKET_HEADER_SIZE)%nat then Ok (d, false) else
  let! h := res_opt (PacketHeader_decode data) in
  match h with
  | None => Ok (d, false)
  | Some h =>
      let expected := (PACKET_HEADER_SIZE + Z.to_nat (ph_payload_length h))%nat in
      if (length data <? expected)%nat
      then Ok ({| pd_header := h; pd_data := pd_data d; pd_data_len := pd_data_len d;
                  pd_frame_cursor := pd_frame_cursor d |}, false)
      else Ok ({| pd_header := h; pd_data := Some data; pd_data_len := expected;
                  pd_frame_cursor := 0 |}, true)
  end.

Definition next_frame (d : PacketDecoder) : res (PacketDecoder * option Frame) :=
  let payload_start := PACKET_HEADER_SIZE in
  let payload_end := (payload_start + Z.to_nat (ph_payload_length (pd_header d)))%nat in
  let abs_pos := (payload_start + pd_frame_cursor d)%nat in
  if (payload_end <? abs_pos + FRAME_HEADER_SIZE)%nat then Ok (d, None) else
  match pd_data d with
  | None => Oob
  | Some data =>
      let! view := slice data abs_pos (payload_end - abs_pos) in
      let! fh := res_opt (FrameHeader_decode view) in
      match fh with
      | None => Ok (d, None)
      | Some fh =>
          let len := Z.to_nat (fh_length fh) in
          if (payload_end <? abs_pos + FRAME_HEADER_SIZE + len)%nat then Ok (d, None) else
          let! payload := slice data (abs_pos + FRAME_HEADER_SIZE) len in
          Ok ({| pd_header := pd_header d; pd_data := pd_data d; pd_data_len := pd_data_len d;
                 pd_frame_cursor := pd_frame_cursor d + (FRAME_HEADER_SIZE + len) |},
              Some {| fr_header := fh; fr_payload := payload |})
      end
  end.

Definition reset_frame_cursor (d : PacketDecoder) : PacketDecoder :=
  {| pd_header := pd_header d; pd_data := pd_data d; pd_data_len := pd_data_len d;
     pd_frame_cursor := 0 |}.

Definition verify_checksum (d : PacketDecoder) : res bool :=
  match pd_data d with
  | None => Ok false
  | Some data =>
      let! computed := compute_checksum data (pd_data_len d) in
      Ok (computed =? ph_checksum (pd_header d))
  end.

(** The client loop [while (dec.next_frame(frame)) body]; the body says whether
    to go on ([true]) or to return from the enclosing function.  Running out of
    fuel is [Oob]: [while_next_frame_spec] shows that it never happens. *)
Fixpoint while_next_frame {S} (fuel : nat) (body : S → Frame → res (S * bool))
    (d : PacketDecoder) (s : S) : res S :=
  match fuel with
  | O => Oob
  | Datatypes.S fuel' =>
      let! (d', f) := next_frame d in
      match f with
      | None => Ok s
      | Some f =>
          let! (s', go) := body s f in
          if go then while_next_frame fuel' body d' s' else Ok s'
      end
  end.
(** Every frame takes at least three bytes of the payload. *)
Definition frame_fuel (d : PacketDecoder) : nat := S (Z.to_nat (ph_payload_length (pd_header d))).

(** ** Reference parser of a payload *)
Fixpoint parse_frames_fuel (fuel : nat) (payload : bytes) : list Frame :=
  match fuel with
  | O => []
  | S fuel' =>
      match FrameHeader_decode payload with
      | Ok fh =>
          let len := Z.to_nat (fh_length fh) in
          if (FRAME_HEADER_SIZE + len <=? length payload)%nat then
            {| fr_header := fh; fr_payload := take len (drop FRAME_HEADER_SIZE payload) |}
            :: parse_frames_fuel fuel' (drop (FRAME_HEADER_SIZE + len) payload)
          else []
      | _ => []
      end
  end.
Definition parse_frames (payload : bytes) : list Frame :=
  parse_frames_fuel (S (length payload)) payload.

(** The wire image of one frame. *)
Definition frame_wire (f : Frame) : bytes :=
  FrameType_to_u8 (fh_type (fr_header f)) :: be16 (fh_length (fr_header f)) ++ fr_payload f.
Definition frame_wf (f : Frame) : Prop :=
  enum_ok (fh_type (fr_header f)) ∧ is_u16 (fh_length (fr_header f))
  ∧ length (fr_payload f) = Z.to_nat (fh_length (fr_header f)).
Definition mk_frame (t : FrameType) (payload : bytes) : Frame :=
  {| fr_header := {| fh_type := t; fh_length := Z.of_nat (length payload) |};
     fr_payload := payload |}.
End Codec.

(** ** The header is a [WireFrame] *)
Lemma make_version_flags_spec v f :
  is_u 4 v → is_u 4 f → make_version_flags v f = v * 16 + f.
Proof.
  intros Hv Hf. unfold make_version_flags. rewrite Z.lor_comm.
  change 15 with (Z.ones 4). rewrite Z.land_ones by lia.
  rewrite lor_disjoint by (pose proof (Z.mod_pos_bound f (2 ^ 4)); lia).
  unfold is_u, wrap in *. rewrite Z.mod_small, (Z.mod_small f) by
    (rewrite ?(Z.mod_small f) by lia; lia). lia.
Qed.
Lemma version_of_flags v f :
  is_u 4 v → is_u 4 f → Z.land (Z.shiftr (v * 16 + f) 4) 15 = v.
Proof.
  intros Hv Hf. change 15 with (Z.ones 4).
  rewrite Z.land_ones, Z.shiftr_div_pow2 by lia.
  unfold is_u in *. change (2 ^ 4) with 16 in *. Z.div_mod_to_equations; lia.
Qed.
Lemma flags_of_flags v f : is_u 4 v → is_u 4 f → Z.land (v * 16 + f) 15 = f.
Proof.
  intros Hv Hf. change 15 with (Z.ones 4). rewrite Z.land_ones by lia.
  unfold is_u in *. change (2 ^ 4) with 16 in *. Z.div_mod_to_equations; lia.
Qed.
Lemma land_15_is_u z : is_u 4 (Z.land z 15).
Proof. change 15 with (Z.ones 4). rewrite Z.land_ones by lia. by apply wrap_is_u. Qed.

#[global, refine] Instance PacketHeader_WireFrame : WireFrame PacketHeader := {|
  WIRE_SIZE := PACKET_HEADER_SIZE;
  frame_ok f := is_u 4 (ph_version f) ∧ is_u 4 (ph_flags f) ∧ enum_ok (ph_packet_type f)
    ∧ is_u16 (ph_connection_id f) ∧ is_u32 (ph_packet_number f) ∧ is_u32 (ph_timestamp_us f)
    ∧ is_u16 (ph_payload_length f) ∧ is_u16 (ph_checksum f);
  frame_bytes f := make_version_flags (ph_version f) (ph_flags f)
    :: PacketType_to_u8 (ph_packet_type f) :: be16 (ph_connection_id f)
    ++ be32 (ph_packet_number f) ++ be32 (ph_timestamp_us f)
    ++ be16 (ph_payload_length f) ++ be16 (ph_checksum f);
  frame_encode := PacketHeader_encode; frame_decode := PacketHeader_decode |}.
Proof.
  - done.
  - unfold PacketHeader_encode. short_frame.
  - unfold PacketHeader_encode. encode_frame.
  - unfold PacketHeader_decode. short_frame.
  - unfold PacketHeader_decode. decode_reads; try apply land_15_is_u; [|decode_range..].
    match goal with |- enum_ok (_ ?v) => refine (enum_ok_of (E:=PacketType) v _) end.
    eapply get8_wf; eassumption.
  - unfold PacketHeader_decode. intros [v fl pt c pn ts pl ck] rest Hok.
    destruct Hok as (? & ? & [? Hpt] & ? & ? & ? & ? & ?).
    cbn [ph_version ph_flags ph_packet_type ph_connection_id ph_packet_number ph_timestamp_us
         ph_payload_length ph_checksum to_u8 of_u8 PacketType_ByteEnum app] in *.
    rewrite make_version_flags_spec by done.
    unfold check_; match goal with |- context [(?a <=? ?b)%nat] =>
      change (a <=? b)%nat with true end.
    wire_simp. rewrite version_of_flags, flags_of_flags by done. by rewrite Hpt.
Defined.

(** ** The decoder implements the reference parser *)
Section DecoderFacts.
Context `{XxHash}.

Lemma FrameHeader_decode_range buf fh :
  wf_bytes buf → FrameHeader_decode buf = Ok fh → 0 ≤ fh_length fh.
Proof.
  intros Hwf Hd. destruct (decide (FRAME_HEADER_SIZE ≤ length buf)%nat) as [Hl|Hl].
  - destruct (frame_decode_total (T:=FrameHeader) buf) as (f & Hf & Hok); [done|].
    simpl in Hf. rewrite Hd in Hf. injection Hf as <-.
    destruct (Hok Hwf) as [_ Hr]. apply Hr.
  - pose proof (frame_decode_short (T:=FrameHeader) buf) as Hs. simpl in Hs.
    rewrite Hd in Hs. discriminate Hs. lia.
Qed.

Lemma parse_frames_fuel_enough fuel1 fuel2 p :
  (length p < fuel1)%nat → (length p < fuel2)%nat →
  parse_frames_fuel fuel1 p = parse_frames_fuel fuel2 p.
Proof.
  revert fuel2 p; induction fuel1 as [|n IH]; intros [|m] p H1 H2; try lia.
  cbn [parse_frames_fuel]. destruct (FrameHeader_decode p) as [fh| |]; [|done..].
  destruct (Nat.leb_spec (FRAME_HEADER_SIZE + Z.to_nat (fh_length fh)) (length p)); [|done].
  cbv zeta. f_equal. apply IH; rewrite length_drop; sizes; lia.
Qed.

Lemma parse_frames_unfold p :
  parse_frames p =
    match FrameHeader_decode p with
    | Ok fh =>
        let len := Z.to_nat (fh_length fh) in
        if (FRAME_HEADER_SIZE + len <=? length p)%nat then
          {| fr_header := fh; fr_payload := take len (drop FRAME_HEADER_SIZE p) |}
          :: parse_frames (drop (FRAME_HEADER_SIZE + len) p)
        else []
    | _ => []
    end.
Proof.
  unfold parse_frames at 1. cbn [parse_frames_fuel].
  destruct (FrameHeader_decode p) as [fh| |]; [|done..].
  destruct (Nat.leb_spec (FRAME_HEADER_SIZE + Z.to_nat (fh_length fh)) (length p)); [|done].
  cbv zeta. f_equal. apply parse_frames_fuel_enough; rewrite length_drop; sizes; lia.
Qed.

Lemma parse_frames_app f p :
  frame_wf f → parse_frames (frame_wire f ++ p) = f :: parse_frames p.
Proof.
  intros (Ht & Hl & Hp). rewrite parse_frames_unfold.
  assert (FrameHeader_decode (frame_wire f ++ p) = Ok (fr_header f)) as ->.
  { unfold frame_wire.
    pose proof (frame_decode_bytes (T:=FrameHeader) (fr_header f) (fr_payload f ++ p)) as Hd.
    simpl in Hd. simpl. rewrite <-Hd by done. done. }
  cbv zeta. rewrite <-Hp. unfold frame_wire.
  rewrite (proj2 (Nat.leb_le _ _)) by (simpl; rewrite ?length_app; sizes; lia).
  unfold FRAME_HEADER_SIZE. simpl. rewrite drop_0. rewrite take_app_length.
  rewrite drop_app_length. f_equal. by destruct f.
Qed.

Lemma parse_frames_concat fs :
  Forall frame_wf fs → parse_frames (concat (frame_wire <$> fs)) = fs.
Proof.
  induction 1 as [|f fs Hf Hfs IH]; [done|].
  rewrite fmap_cons. cbn [concat]. by rewrite parse_frames_app, IH.
Qed.

(** A decoder positioned on a packet, and the payload it has not read yet. *)
Definition dec_ok (d : PacketDecoder) (data : bytes) : Prop :=
  pd_data d = Some data ∧
  pd_data_len d = (PACKET_HEADER_SIZE + Z.to_nat (ph_payload_length (pd_header d)))%nat ∧
  (pd_data_len d ≤ length data)%nat ∧
  (pd_frame_cursor d ≤ Z.to_nat (ph_payload_length (pd_header d)))%nat.
Definition dec_rest (d : PacketDecoder) (data : bytes) : bytes :=
  drop (pd_frame_cursor d)
    (take (Z.to_nat (ph_payload_length (pd_header d))) (drop PACKET_HEADER_SIZE data)).
Definition advance (d : PacketDecoder) (n : nat) : PacketDecoder :=
  {| pd_header := pd_header d; pd_data := pd_data d; pd_data_len := pd_data_len d;
     pd_frame_cursor := pd_frame_cursor d + n |}.

Lemma length_dec_rest d data :
  dec_ok d data →
  length (dec_rest d data) =
    (Z.to_nat (ph_payload_length (pd_header d)) - pd_frame_cursor d)%nat.
Proof.
  intros (_ & Hlen & Hle & Hc). unfold dec_rest.
  rewrite length_drop, length_take, length_drop. sizes. lia.
Qed.

Lemma slice_dec_rest d data o n :
  dec_ok d data → (o + n ≤ length (dec_rest d data))%nat →
  slice data (PACKET_HEADER_SIZE + pd_frame_cursor d + o) n = slice (dec_rest d data) o n.
Proof.
  intros Hd Hn. pose proof (length_dec_rest d data Hd) as HL.
  destruct Hd as (_ & Hlen & Hle & Hc).
  rewrite !slice_Ok by (sizes; lia). f_equal. unfold dec_rest.
  apply list_eq; intros i. destruct (decide (i < n)%nat).
  - rewrite !lookup_take_lt by lia. rewrite !lookup_drop, lookup_take_lt by (sizes; lia).
    rewrite lookup_drop. f_equal. sizes. lia.
  - by rewrite !lookup_take_ge by lia.
Qed.

(** One [next_frame] step against the reference parser. *)
Lemma next_frame_spec d data :
  dec_ok d data →
  next_frame d =
    match parse_frames (dec_rest d data) with
    | [] => Ok (d, None)
    | f :: _ => Ok (advance d (FRAME_HEADER_SIZE + Z.to_nat (fh_length (fr_header f))), Some f)
    end.
Proof.
  intros Hd. pose proof (length_dec_rest d data Hd) as HL.
  pose proof Hd as (Hdata & Hlen & Hle & Hc).
  unfold next_frame. rewrite parse_frames_unfold, Hdata.
  set (n := Z.to_nat (ph_payload_length (pd_header d))) in *.
  destruct (Nat.ltb_spec (PACKET_HEADER_SIZE + n)
              (PACKET_HEADER_SIZE + pd_frame_cursor d + FRAME_HEADER_SIZE)) as [Hs|Hs].
  { pose proof (frame_decode_short (T:=FrameHeader) (dec_rest d data)) as Hf.
    simpl in Hf. rewrite Hf by (sizes; lia). done. }
  replace (PACKET_HEADER_SIZE + pd_frame_cursor d)%nat
    with (PACKET_HEADER_SIZE + pd_frame_cursor d + 0)%nat at 1 by lia.
  rewrite slice_dec_rest, slice_all by (done || sizes; lia). cbn [res_bind].
  destruct (frame_decode_total (T:=FrameHeader) (dec_rest d data)) as (fh & Hfh & _);
    [simpl; sizes; lia|]. simpl in Hfh. rewrite Hfh. cbn [res_opt res_bind].
  set (len := Z.to_nat (fh_length fh)).
  destruct (Nat.ltb_spec (PACKET_HEADER_SIZE + n)
              (PACKET_HEADER_SIZE + pd_frame_cursor d + FRAME_HEADER_SIZE + len)) as [Hb|Hb].
  - by rewrite (proj2 (Nat.leb_gt _ _)) by (sizes; lia).
  - rewrite (proj2 (Nat.leb_le _ _)) by (sizes; lia).
    rewrite slice_dec_rest, slice_Ok by (done || sizes; lia). by rewrite <-Hdata.
Qed.

Lemma advance_dec_ok d data f fs :
  dec_ok d data → parse_frames (dec_rest d data) = f :: fs →
  let d' := advance d (FRAME_HEADER_SIZE + Z.to_nat (fh_length (fr_header f))) in
  dec_ok d' data ∧ parse_frames (dec_rest d' data) = fs
  ∧ (length (dec_rest d' data) < length (dec_rest d data))%nat.
Proof.
  intros Hd Hp. pose proof (length_dec_rest d data Hd) as HL.
  pose proof Hd as (Hdata & Hlen & Hle & Hc).
  rewrite parse_frames_unfold in Hp.
  destruct (FrameHeader_decode _) as [fh| |]; [|done..]. cbv zeta in Hp.
  destruct (Nat.leb_spec (FRAME_HEADER_SIZE + Z.to_nat (fh_length fh))
              (length (dec_rest d data))) as [Hb|]; [|done].
  injection Hp as <- <-. cbn [fr_header].
  assert (dec_ok (advance d (FRAME_HEADER_SIZE + Z.to_nat (fh_length fh))) data) as Hd'.
  { repeat split; simpl; try done. sizes. lia. }
  split; [done|]. rewrite (length_dec_rest _ _ Hd'). split.
  - unfold dec_rest, advance. simpl. by rewrite drop_drop.
  - simpl. sizes. lia.
Qed.

(** The client loop over the frames a packet holds, without the decoder. *)
Fixpoint run_frames {S} (body : S → Frame → res (S * bool)) (s : S) (fs : list Frame) : res S :=
  match fs with
  | [] => Ok s
  | f :: fs' =>
      let! (s', go) := body s f in if go then run_frames body s' fs' else Ok s'
  end.

Lemma while_next_frame_fuel {S} fuel (body : S → Frame → res (S * bool)) d data s :
  dec_ok d data → (length (dec_rest d data) < fuel)%nat →
  while_next_frame fuel body d s = run_frames body s (parse_frames (dec_rest d data)).
Proof.
  revert d s; induction fuel as [|fuel IH]; intros d s Hd Hf; [lia|].
  cbn [while_next_frame]. rewrite (next_frame_spec d data Hd).
  destruct (parse_frames (dec_rest d data)) as [|f fs] eqn:Hp; [done|].
  cbn [res_bind run_frames]. destruct (body s f) as [[s' go]| |]; [|done..].
  cbn [res_bind]. destruct go; [|done].
  destruct (advance_dec_ok d data f fs Hd Hp) as (Hd' & <- & Hlt).
  apply IH; [done|]. lia.
Qed.

(** A successful [parse] leaves the decoder at the first frame of the payload. *)
Lemma parse_true d data d' :
  parse d data = Ok (d', true) →
  dec_ok d' data ∧ pd_frame_cursor d' = 0%nat ∧ PacketHeader_decode data = Ok (pd_header d')
  ∧ dec_rest d' data =
      take (Z.to_nat (ph_payload_length (pd_header d'))) (drop PACKET_HEADER_SIZE data).
Proof.
  unfold parse. destruct (Nat.ltb_spec (length data) PACKET_HEADER_SIZE); [done|].
  destruct (PacketHeader_decode data) as [h| |] eqn:E; cbn [res_opt res_bind]; [|done..].
  destruct (Nat.ltb_spec (length data)
    (PACKET_HEADER_SIZE + Z.to_nat (ph_payload_length h))); [done|].
  intros [= <-]. unfold dec_ok, dec_rest; simpl. split_and!; try done; lia.
Qed.

Lemma parse_safe d data : safe (parse d data).
Proof.
  unfold parse. destruct (Nat.ltb_spec (length data) PACKET_HEADER_SIZE); [done|].
  destruct (frame_decode_total (T:=PacketHeader) data) as (h & Hh & _); [done|].
  simpl in Hh. rewrite Hh. cbn [res_opt res_bind]. by case_match.
Qed.

Lemma parse_Ok d data : ∃ d' ok, parse d data = Ok (d', ok).
Proof.
  pose proof (parse_safe d data) as Hs.
  destruct (parse d data) as [[d' ok]| |] eqn:Hp; [by eauto|exfalso|done].
  revert Hp. unfold parse. repeat case_match; try done.
  destruct (PacketHeader_decode data); cbn [res_opt res_bind]; [case_match|..]; done.
Qed.

(** The loop terminates, reads only the payload, and visits the frames of the
    reference parse. *)
Lemma while_next_frame_spec {S} (body : S → Frame → res (S * bool)) d d0 data s :
  parse d0 data = Ok (d, true) →
  while_next_frame (frame_fuel d) body d s =
    run_frames body s (parse_frames
      (take (Z.to_nat (ph_payload_length (pd_header d))) (drop PACKET_HEADER_SIZE data))).
Proof.
  intros Hp. destruct (parse_true _ _ _ Hp) as (Hd & Hc & _ & <-).
  apply while_next_frame_fuel; [done|].
  rewrite (length_dec_rest _ _ Hd). unfold frame_fuel. lia.
Qed.

Lemma compute_checksum_safe buf n :
  (n ≤ length buf)%nat → safe (compute_checksum buf n).
Proof.
  intros Hn. unfold compute_checksum.
  destruct (Nat.ltb_spec n PACKET_HEADER_SIZE); [done|].
  rewrite slice_Ok by (sizes; lia). cbn [res_bind].
  destruct (Nat.ltb_spec PACKET_HEADER_SIZE n); [|done].
  by rewrite slice_Ok by (sizes; lia).
Qed.

Lemma verify_checksum_safe d data : dec_ok d data → safe (verify_checksum d).
Proof.
  intros (Hd & Hl & Hle & _). unfold verify_checksum. rewrite Hd.
  apply safe_bind; [by apply compute_checksum_safe|done].
Qed.

Lemma verify_checksum_Ok d data : dec_ok d data → ∃ b, verify_checksum d = Ok b.
Proof.
  intros Hd. pose proof (verify_checksum_safe _ _ Hd) as Hv. destruct Hd as (Hdd & Hl & Hle & _).
  revert Hv. unfold verify_checksum. rewrite Hdd.
  destruct (compute_checksum data (pd_data_len d)) eqn:E; intros Hv; [eexists; done| |done].
  exfalso. revert E. unfold compute_checksum, slice. repeat case_match; done.
Qed.

(** Every frame the parser yields carries exactly [length] payload bytes, and
    frames of a well-formed payload are well-formed. *)
Lemma parse_frames_wf p f :
  wf_bytes p → f ∈ parse_frames p → frame_wf f ∧ wf_bytes (fr_payload f).
Proof.
  remember (length p) as n eqn:Hn. revert p Hn.
  induction (lt_wf n) as [n _ IH]; intros p -> Hwf.
  rewrite parse_frames_unfold.
  destruct (decide (FRAME_HEADER_SIZE ≤ length p)%nat) as [Hl|Hl].
  2: { pose proof (frame_decode_short (T:=FrameHeader) p) as Hs. simpl in Hs.
       rewrite Hs by lia. set_solver. }
  destruct (frame_decode_total (T:=FrameHeader) p) as (fh & Hfh & Hok); [done|].
  simpl in Hfh. rewrite Hfh. cbv zeta. specialize (Hok Hwf). destruct Hok as [Ht Hr].
  destruct (Nat.leb_spec (FRAME_HEADER_SIZE + Z.to_nat (fh_length fh)) (length p));
    [|set_solver].
  intros [->|Hin]%elem_of_cons.
  - unfold frame_wf; cbn [fr_header fr_payload]. split_and!; try done.
    + rewrite length_take, length_drop. lia.
    + by apply Forall_take, Forall_drop.
  - eapply IH; [|done| |exact Hin].
    + rewrite length_drop. sizes. lia.
    + by apply Forall_drop.
Qed.
End DecoderFacts.

(** ** The encoder builds the frames' wire images *)
Section EncoderFacts.
Context `{XxHash}.

(** The encoder's buffer holds [payload] after a 16-byte header slot. *)
Definition enc_ok (e : PacketEncoder) (payload : bytes) : Prop :=
  ∃ hd tail, pe_buf e = hd ++ payload ++ tail ∧ length hd = PACKET_HEADER_SIZE
    ∧ length (pe_buf e) = MAX_PACKET_SIZE ∧ pe_cursor e = (PACKET_HEADER_SIZE + length payload)%nat.
Definition enc_fields (e : PacketEncoder) : PacketType * Z * Z * Z * Z :=
  (pe_packet_type e, pe_connection_id e, pe_packet_number e, pe_timestamp_us e, pe_flags e).

Lemma enc_ok_reset e : enc_ok (with_buffer e (replicate MAX_PACKET_SIZE 0) PACKET_HEADER_SIZE) [].
Proof.
  exists (replicate PACKET_HEADER_SIZE 0), (replicate MAX_PAYLOAD_SIZE 0).
  split_and!; done.
Qed.
Lemma enc_ok_new : enc_ok PacketEncoder_new [].
Proof. exact (enc_ok_reset PacketEncoder_new). Qed.
Lemma enc_ok_size e p : enc_ok e p → payload_size e = length p.
Proof. intros (hd & tl & _ & _ & _ & Hc). unfold payload_size. rewrite Hc. lia. Qed.
Lemma enc_ok_bound e p : enc_ok e p → (PACKET_HEADER_SIZE + length p ≤ MAX_PACKET_SIZE)%nat.
Proof.
  intros (hd & tl & Hb & Hh & Hl & _). rewrite Hb, !length_app in Hl. lia.
Qed.
Lemma enc_ok_set_type e p t : enc_ok e p → enc_ok (set_packet_type e t) p.
Proof. intros (hd & tl & ?). by exists hd, tl. Qed.
Lemma enc_ok_set_conn e p c : enc_ok e p → enc_ok (set_connection_id e c) p.
Proof. intros (hd & tl & ?). by exists hd, tl. Qed.
Lemma enc_ok_set_num e p n : enc_ok e p → enc_ok (set_packet_number e n) p.
Proof. intros (hd & tl & ?). by exists hd, tl. Qed.
Lemma enc_ok_set_ts e p t : enc_ok e p → enc_ok (set_timestamp e t) p.
Proof. intros (hd & tl & ?). by exists hd, tl. Qed.
#[local] Hint Resolve enc_ok_set_type enc_ok_set_conn enc_ok_set_num enc_ok_set_ts enc_ok_new : rom.

Lemma add_frame_full e p t src n :
  enc_ok e p → (MAX_PACKET_SIZE < PACKET_HEADER_SIZE + length p + 3 + Z.to_nat n)%nat →
  add_frame e t src n = Fail.
Proof.
  intros (hd & tl & _ & _ & _ & Hc) Hlt. unfold add_frame. rewrite Hc.
  rewrite (proj2 (Nat.ltb_lt _ _)) by (sizes; lia). done.
Qed.

Lemma add_frame_Ok e p t q rest :
  enc_ok e p → (PACKET_HEADER_SIZE + length p + 3 + length q ≤ MAX_PACKET_SIZE)%nat →
  ∃ buf c, add_frame e t (Some (q ++ rest)) (Z.of_nat (length q)) = Ok (with_buffer e buf c)
    ∧ enc_ok (with_buffer e buf c) (p ++ frame_wire (mk_frame t q)).
Proof.
  intros (hd & tl & Hb & Hh & Hl & Hc) Hle. unfold add_frame. rewrite Nat2Z.id.
  rewrite (proj2 (Nat.ltb_ge _ _)) by (sizes; lia). cbn [negb check_].
  assert (length tl = MAX_PACKET_SIZE - (PACKET_HEADER_SIZE + length p))%nat as Htl.
  { rewrite Hb, !length_app in Hl. lia. }
  rewrite Hb, app_assoc. unfold put8.
  assert (pe_cursor e = length (hd ++ p)) as Hcur by (rewrite length_app; lia).
  rewrite Hcur. rewrite store_app_0, store_head by (simpl; sizes; lia). cbn [res_bind].
  rewrite write_u16_be, store_app_r. cbn [length app].
  rewrite store_cons, store_head by (rewrite length_drop; simpl; sizes; lia).
  cbn [res_bind]. rewrite drop_drop.
  assert (∀ x, (if 0 <? Z.of_nat (length q) then
     let! src := slice (q ++ rest) 0 (length q) in
     store ((hd ++ p) ++ x :: be16 (Z.of_nat (length q)) ++ drop (1 + length (be16 (Z.of_nat (length q)))) tl)
       (length (hd ++ p) + FRAME_HEADER_SIZE) src
     else Ok ((hd ++ p) ++ x :: be16 (Z.of_nat (length q)) ++ drop (1 + length (be16 (Z.of_nat (length q)))) tl))
     = Ok ((hd ++ p) ++ x :: be16 (Z.of_nat (length q)) ++ q ++ drop (3 + length q) tl)) as Hst.
  { intros x. destruct (Z.ltb_spec 0 (Z.of_nat (length q))) as [Hq|Hq].
    - rewrite slice_app_l, slice_all by lia. cbn [res_bind].
      rewrite store_app_r. unfold FRAME_HEADER_SIZE.
      rewrite store_cons, store_skip16, store_head by (rewrite length_drop; simpl; sizes; lia).
      cbn [res_bind]. by rewrite drop_drop.
    - assert (q = []) as -> by (destruct q; [done|simpl in *; lia]). done. }
  rewrite Hst. cbn [res_bind]. eexists _, _; split; [done|].
  exists hd, (drop (3 + length q) tl). cbn [with_buffer pe_buf pe_cursor]. split_and!.
  - unfold frame_wire, mk_frame; cbn [fr_header fr_payload fh_type fh_length].
    by rewrite <-!app_assoc; cbn [app]; rewrite <-!app_assoc.
  - done.
  - rewrite !length_app; cbn [length]; rewrite !length_app, length_drop.
    rewrite length_be16. sizes. lia.
  - rewrite !length_app. unfold frame_wire, mk_frame; cbn [fr_header fr_payload length].
    rewrite length_app, length_be16. sizes. lia.
Qed.

(** ** The packet [finalize] returns *)
Definition enc_header (e : PacketEncoder) (payload : bytes) (ck : Z) : PacketHeader :=
  {| ph_version := PROTOCOL_VERSION; ph_flags := pe_flags e;
     ph_packet_type := pe_packet_type e; ph_connection_id := pe_connection_id e;
     ph_packet_number := pe_packet_number e; ph_timestamp_us := pe_timestamp_us e;
     ph_payload_length := Z.of_nat (length payload); ph_checksum := ck |}.
Definition checksum_of (hd payload : bytes) : Z :=
  match payload with
  | [] => xxhash16 hd
  | _ => Z.lxor (xxhash16 hd) (xxhash16 payload)
  end.
Definition packet_header (e : PacketEncoder) (payload : bytes) : PacketHeader :=
  enc_header e payload (checksum_of (frame_bytes (enc_header e payload 0)) payload).
Definition packet_bytes (e : PacketEncoder) (payload : bytes) : bytes :=
  frame_bytes (packet_header e payload) ++ payload.

Lemma checksum_of_is_u hd p : is_u16 (checksum_of hd p).
Proof. destruct p; [apply u16_is_u|]. apply is_u_lxor; [done|apply u16_is_u..]. Qed.

(** The checksum ignores the two checksum bytes of the header. *)
Lemma compute_checksum_spec e p ck rest :
  compute_checksum (frame_bytes (enc_header e p ck) ++ p ++ rest)
    (PACKET_HEADER_SIZE + length p)
  = Ok (checksum_of (frame_bytes (enc_header e p 0)) p).
Proof.
  unfold compute_checksum. rewrite (proj2 (Nat.ltb_ge _ _)) by lia.
  rewrite slice_app_l, slice_all by done. cbn [res_bind].
  assert (<[15%nat:=0]> (<[14%nat:=0]> (frame_bytes (enc_header e p ck)))
          = frame_bytes (enc_header e p 0)) as -> by done.
  destruct p as [|b p].
  - by rewrite (proj2 (Nat.ltb_ge _ _)) by (cbn [length]; lia).
  - rewrite (proj2 (Nat.ltb_lt _ _)) by (cbn [length]; lia).
    replace (PACKET_HEADER_SIZE + length (b :: p) - PACKET_HEADER_SIZE)%nat
      with (length (b :: p)) by lia.
    change PACKET_HEADER_SIZE with (length (frame_bytes (enc_header e (b :: p) ck))).
    by rewrite slice_app_0, slice_app_l, slice_all by lia.
Qed.

Lemma write_checksum e p ck rest :
  write_u16 (frame_bytes (enc_header e p 0) ++ rest) 14 ck
  = Ok (frame_bytes (enc_header e p ck) ++ rest).
Proof.
  cbn [frame_bytes PacketHeader_WireFrame enc_header ph_version ph_flags ph_packet_type
    ph_connection_id ph_packet_number ph_timestamp_us ph_payload_length ph_checksum].
  rewrite write_u16_be. cbn [app]. rewrite <-!app_assoc.
  rewrite !store_cons, store_skip16, !store_skip32, store_skip16.
  rewrite store_head by (rewrite length_app, !length_be16; lia). done.
Qed.

Lemma finalize_Ok e p :
  enc_ok e p →
  finalize e = Ok (packet_bytes e p,
                   with_buffer e (replicate MAX_PACKET_SIZE 0) PACKET_HEADER_SIZE).
Proof.
  intros He. pose proof (enc_ok_bound _ _ He) as Hbd.
  destruct He as (hd & tl & Hb & Hh & Hl & Hc). unfold finalize. rewrite Hb, Hc.
  replace (PACKET_HEADER_SIZE + length p - PACKET_HEADER_SIZE)%nat with (length p) by lia.
  rewrite (wrap_id 16 (Z.of_nat (length p))) by (sizes; zify_u; lia).
  rewrite slice_app_l, slice_all by lia. cbn [res_bind].
  change {| ph_version := PROTOCOL_VERSION |} with (enc_header e p 0).
  pose proof (frame_encode_Ok (T:=PacketHeader) (enc_header e p 0) hd) as Henc.
  cbn [frame_encode PacketHeader_WireFrame WIRE_SIZE] in Henc.
  rewrite Henc by lia. cbn [or_else res_bind].
  rewrite drop_ge, app_nil_r by lia.
  rewrite store_head by (rewrite !length_app; simpl; sizes; lia). cbn [res_bind].
  change (length (frame_bytes (enc_header e p 0))) with PACKET_HEADER_SIZE.
  rewrite <-Hh, drop_app_length. rewrite Hh. rewrite compute_checksum_spec. cbn [res_bind].
  rewrite write_checksum. cbn [res_bind].
  rewrite app_assoc, slice_app_l, slice_all by (rewrite ?length_app; done). done.
Qed.

Definition enc_fields_ok (e : PacketEncoder) : Prop :=
  enum_ok (pe_packet_type e) ∧ is_u16 (pe_connection_id e) ∧ is_u32 (pe_packet_number e)
  ∧ is_u32 (pe_timestamp_us e) ∧ is_u 4 (pe_flags e).

Lemma packet_header_ok e p :
  enc_fields_ok e → (length p ≤ MAX_PAYLOAD_SIZE)%nat → frame_ok (packet_header e p).
Proof.
  intros (? & ? & ? & ? & ?) Hp. cbn [frame_ok PacketHeader_WireFrame packet_header enc_header
    ph_version ph_flags ph_packet_type ph_connection_id ph_packet_number ph_timestamp_us
    ph_payload_length ph_checksum].
  split_and!; try done.
  - sizes. zify_u. lia.
  - apply checksum_of_is_u.
Qed.

(** Parsing a finalized packet gives back the header fields and the payload. *)
Lemma parse_packet e p :
  enc_fields_ok e → (length p ≤ MAX_PAYLOAD_SIZE)%nat →
  ∃ d, parse PacketDecoder_new (packet_bytes e p) = Ok (d, true)
    ∧ pd_header d = packet_header e p ∧ verify_checksum d = Ok true
    ∧ take (Z.to_nat (ph_payload_length (pd_header d)))
        (drop PACKET_HEADER_SIZE (packet_bytes e p)) = p.
Proof.
  intros Hf Hp. pose proof (packet_header_ok e p Hf Hp) as Hok. unfold parse.
  assert (length (packet_bytes e p) = PACKET_HEADER_SIZE + length p)%nat as Hlen.
  { unfold packet_bytes. by rewrite length_app. }
  rewrite (proj2 (Nat.ltb_ge _ _)) by lia.
  pose proof (frame_decode_bytes (packet_header e p) p Hok) as Hd.
  cbn [frame_decode PacketHeader_WireFrame] in Hd. fold (packet_bytes e p) in Hd.
  change (PacketHeader_decode (packet_bytes e p) = Ok (packet_header e p)) in Hd.
  rewrite Hd. cbn [res_opt res_bind].
  change (ph_payload_length (packet_header e p)) with (Z.of_nat (length p)).
  rewrite Nat2Z.id, (proj2 (Nat.ltb_ge _ _)) by lia.
  eexists; split; [done|]. cbn [pd_header]. split; [done|]. split.
  - unfold verify_checksum. cbn [pd_data pd_data_len pd_header].
    pose proof (compute_checksum_spec e p (ph_checksum (packet_header e p)) []) as Hck.
    rewrite app_nil_r in Hck. fold (packet_bytes e p) in Hck.
    change (frame_bytes (enc_header e p (ph_checksum (packet_header e p))) ++ p)
      with (packet_bytes e p) in Hck.
    rewrite Hck. cbn [res_bind packet_header enc_header ph_checksum]. by rewrite Z.eqb_refl.
  - change (ph_payload_length (packet_header e p)) with (Z.of_nat (length p)).
    rewrite Nat2Z.id. unfold packet_bytes.
    change PACKET_HEADER_SIZE with (length (frame_bytes (packet_header e p))).
    by rewrite drop_app_length, firstn_all.
Qed.
End EncoderFacts.

(** ** Theorems *)
Section CodecTheorems.
Context `{XxHash}.

(** A fresh encoder with the four header fields set, as the senders set them. *)
Definition encoder (t : PacketType) (conn num ts : Z) : PacketEncoder :=
  set_timestamp (set_packet_number (set_connection_id
    (set_packet_type PacketEncoder_new t) conn) num) ts.
Definition add_all (e : PacketEncoder) (fs : list (FrameType * bytes)) : res PacketEncoder :=
  res_foldl (λ e f, add_frame e f.1 (Some f.2) (Z.of_nat (length f.2))) e fs.
Definition wire_size_of (fs : list (FrameType * bytes)) : nat :=
  sum_list ((λ f, FRAME_HEADER_SIZE + length f.2)%nat <$> fs).
Definition collect_frames (d : PacketDecoder) : res (list Frame) :=
  while_next_frame (frame_fuel d) (λ acc f, Ok (acc ++ [f], true)) d [].
Definition wires (fs : list (FrameType * bytes)) : bytes :=
  concat ((λ f, frame_wire (mk_frame f.1 f.2)) <$> fs).

Lemma wire_size_of_cons t q fs :
  wire_size_of ((t, q) :: fs) = (FRAME_HEADER_SIZE + length q + wire_size_of fs)%nat.
Proof. done. Qed.

Lemma add_all_Ok fs e p :
  enc_ok e p → (PACKET_HEADER_SIZE + length p + wire_size_of fs ≤ MAX_PACKET_SIZE)%nat →
  ∃ buf c, add_all e fs = Ok (with_buffer e buf c) ∧ enc_ok (with_buffer e buf c) (p ++ wires fs).
Proof.
  revert e p; induction fs as [|[t q] fs IH]; intros e p He Hle.
  { exists (pe_buf e), (pe_cursor e). unfold wires. rewrite app_nil_r. by destruct e. }
  rewrite wire_size_of_cons in Hle.
  destruct (add_frame_Ok e p t q [] He) as (buf & c & Hadd & He'); [sizes; lia|].
  rewrite app_nil_r in Hadd. unfold add_all. cbn [res_foldl fst snd]. rewrite Hadd.
  cbn [res_bind]. edestruct IH as (buf' & c' & Hadd' & He''); [exact He'| |].
  { rewrite length_app. unfold frame_wire, mk_frame; cbn [fr_header fr_payload fh_type
      fh_length length]. rewrite length_app, length_be16. sizes. lia. }
  exists buf', c'. unfold wires. rewrite fmap_cons. cbn [concat fst snd].
  rewrite app_assoc. split; [exact Hadd'|exact He''].
Qed.

Lemma run_frames_collect acc fs :
  run_frames (λ acc f, Ok (acc ++ [f], true)) acc fs = Ok (acc ++ fs).
Proof.
  revert acc; induction fs as [|f fs IH]; intros acc; simpl; [by rewrite app_nil_r|].
  rewrite IH. by rewrite <-app_assoc.
Qed.

Lemma collect_frames_spec d0 d data :
  parse d0 data = Ok (d, true) →
  collect_frames d = Ok (parse_frames
    (take (Z.to_nat (ph_payload_length (pd_header d))) (drop PACKET_HEADER_SIZE data))).
Proof.
  intros Hp. unfold collect_frames. rewrite (while_next_frame_spec _ _ _ _ _ Hp).
  apply run_frames_collect.
Qed.

Lemma length_wires fs : length (wires fs) = wire_size_of fs.
Proof.
  induction fs as [|[t q] fs IH]; [done|]. unfold wires. rewrite fmap_cons. cbn [concat].
  rewrite length_app. fold (wires fs). rewrite IH, wire_size_of_cons.
  unfold frame_wire; cbn [fst snd mk_frame fr_header fr_payload length app].
  rewrite length_app, length_be16. sizes. lia.
Qed.

Lemma parse_frames_wires fs :
  Forall (λ f, enum_ok f.1) fs → (wire_size_of fs ≤ MAX_PAYLOAD_SIZE)%nat →
  parse_frames (wires fs) = (λ f, mk_frame f.1 f.2) <$> fs.
Proof.
  intros Hok Hle. unfold wires.
  rewrite (list_fmap_compose (λ f : FrameType * bytes, mk_frame f.1 f.2) frame_wire).
  apply parse_frames_concat.
  apply Forall_fmap. induction Hok as [|[t q] fs Ht Hfs IH]; constructor.
  - rewrite wire_size_of_cons in Hle. unfold frame_wf, mk_frame; simpl in *.
    split_and!; [done|sizes; zify_u; lia|lia].
  - apply IH. rewrite wire_size_of_cons in Hle. lia.
Qed.

(** C9: Codec round trip.  Frames that fit in one packet are all accepted by a
    fresh encoder; the packet it finalizes is parsed by a decoder, passes the
    checksum, carries the header fields that were set, and its [next_frame] loop
    yields exactly the added frames, in order, and then stops. *)
Theorem codec_roundtrip t conn num ts fs :
  enum_ok t → is_u16 conn → is_u32 num → is_u32 ts →
  Forall (λ f, enum_ok f.1) fs → (wire_size_of fs ≤ MAX_PAYLOAD_SIZE)%nat →
  ∃ e pkt e' d,
    add_all (encoder t conn num ts) fs = Ok e ∧ finalize e = Ok (pkt, e') ∧
    length pkt = (PACKET_HEADER_SIZE + wire_size_of fs)%nat ∧ payload_size e' = 0%nat ∧
    parse PacketDecoder_new pkt = Ok (d, true) ∧ verify_checksum d = Ok true ∧
    ph_version (pd_header d) = PROTOCOL_VERSION ∧ ph_flags (pd_header d) = FLAG_CHECKSUM ∧
    ph_packet_type (pd_header d) = t ∧ ph_connection_id (pd_header d) = conn ∧
    ph_packet_number (pd_header d) = num ∧ ph_timestamp_us (pd_header d) = ts ∧
    collect_frames d = Ok ((λ f, mk_frame f.1 f.2) <$> fs).
Proof.
  intros Ht Hc Hn Hts Hfs Hsz.
  assert (enc_ok (encoder t conn num ts) []) as He.
  { by apply enc_ok_set_ts, enc_ok_set_num, enc_ok_set_conn, enc_ok_set_type, enc_ok_new. }
  destruct (add_all_Ok fs _ [] He) as (buf & c & Hadd & He'); [sizes; simpl; lia|].
  set (e := with_buffer _ buf c) in *. simpl in He'.
  destruct (parse_packet e (wires fs)) as (d & Hp & Hh & Hv & Hpl).
  { repeat split; simpl; try apply Ht; try apply Hc; try apply Hn; try apply Hts; done. }
  { by rewrite length_wires. }
  exists e, (packet_bytes e (wires fs)), (with_buffer e (replicate MAX_PACKET_SIZE 0) 16), d.
  rewrite Hh. split_and!; try done.
  - by apply finalize_Ok.
  - unfold packet_bytes. by rewrite length_app, length_wires.
  - rewrite (collect_frames_spec _ _ _ Hp), Hpl. by rewrite parse_frames_wires.
Qed.

(** C10: Parsing is memory safe and terminating.  On every byte string the parser
    and the checksum read only inside the buffer; when the header is accepted the
    frame loop stops, reads only inside the payload, and every frame it yields is
    well-formed and carries exactly the number of bytes its header announces. *)
Theorem decoder_safe data :
  wf_bytes data →
  ∃ d ok, parse PacketDecoder_new data = Ok (d, ok) ∧
    (ok = true → (∃ b, verify_checksum d = Ok b) ∧
      ∃ fs, collect_frames d = Ok fs ∧ Forall frame_wf fs ∧ Forall (λ f, wf_bytes (fr_payload f)) fs
        ∧ (PACKET_HEADER_SIZE + Z.to_nat (ph_payload_length (pd_header d)) ≤ length data)%nat).
Proof.
  intros Hwf. destruct (parse_Ok PacketDecoder_new data) as (d & ok & Hp).
  exists d, ok. split; [done|]. intros ->.
  pose proof (parse_true _ _ _ Hp) as (Hd & _ & _ & _). split.
  { by apply verify_checksum_Ok with data. }
  eexists. split; [by apply collect_frames_spec with (1 := Hp)|].
  assert (wf_bytes (take (Z.to_nat (ph_payload_length (pd_header d)))
            (drop PACKET_HEADER_SIZE data))) as Hwf'.
  { by apply Forall_take, Forall_drop. }
  split_and!.
  - apply Forall_forall. intros f Hf. by apply (parse_frames_wf _ f Hwf').
  - apply Forall_forall. intros f Hf. by apply (parse_frames_wf _ f Hwf').
  - destruct Hd as (_ & Hl & Hle & _). lia.
Qed.
End CodecTheorems.

(** ** A packet that carries one typed frame *)
Section TypedPacket.
Context `{XxHash} {T : Type} `{WireFrame T}.

Definition typed_frame (ft : FrameType) (f : T) : Frame := mk_frame ft (frame_bytes f).

Lemma typed_packet_bytes t conn num ts ft (f : T) :
  (WIRE_SIZE ≤ 256)%nat →
  ∃ e pkt, or_else (add_typed_frame (encoder t conn num ts) ft f) (encoder t conn num ts) = Ok e ∧
    (∃ e', finalize e = Ok (pkt, e')) ∧
    pkt = packet_bytes (encoder t conn num ts) (frame_wire (typed_frame ft f)).
Proof.
  intros Hw.
  assert (enc_ok (encoder t conn num ts) []) as He.
  { by apply enc_ok_set_ts, enc_ok_set_num, enc_ok_set_conn, enc_ok_set_type, enc_ok_new. }
  unfold add_typed_frame. rewrite frame_encode_Ok by (rewrite length_replicate; done).
  cbn [res_bind]. rewrite (wrap_id 16) by (zify_u; lia). 
  replace (Z.of_nat WIRE_SIZE) with (Z.of_nat (length (frame_bytes f)))
    by (by rewrite frame_bytes_length).
  destruct (add_frame_Ok (encoder t conn num ts) [] ft (frame_bytes f)
              (drop WIRE_SIZE (replicate 256 0)) He) as (buf & c & Hadd & He').
  { rewrite frame_bytes_length. sizes. cbn [length]. lia. }
  rewrite Hadd. cbn [or_else]. eexists _, _. split; [done|]. split.
  - eexists. by apply finalize_Ok.
  - done.
Qed.

(** What a receiver finds in it. *)
Lemma typed_packet_parse t conn num ts ft (f : T) :
  enum_ok t → is_u16 conn → is_u32 num → is_u32 ts → enum_ok ft → (WIRE_SIZE ≤ 256)%nat →
  let pkt := packet_bytes (encoder t conn num ts) (frame_wire (typed_frame ft f)) in
  ∃ d, parse PacketDecoder_new pkt = Ok (d, true) ∧ verify_checksum d = Ok true ∧
    pd_header d = packet_header (encoder t conn num ts) (frame_wire (typed_frame ft f)) ∧
    ∀ {S} (body : S → Frame → res (S * bool)) s,
      while_next_frame (frame_fuel d) body d s = run_frames body s [typed_frame ft f].
Proof.
  intros Ht Hc Hn Hts Hft Hw pkt.
  assert (length (frame_wire (typed_frame ft f)) = 3 + WIRE_SIZE)%nat as Hl.
  { unfold frame_wire, typed_frame, mk_frame; simpl. by rewrite frame_bytes_length. }
  destruct (parse_packet (encoder t conn num ts) (frame_wire (typed_frame ft f)))
    as (d & Hp & Hh & Hv & Hpl).
  { by repeat split; try apply Ht; try apply Hc; try apply Hn; try apply Hts. }
  { rewrite Hl. sizes. lia. }
  exists d. split_and!; try done.
  intros S body s. rewrite (while_next_frame_spec body _ _ _ s Hp), Hpl.
  rewrite <-(app_nil_r (frame_wire _)), parse_frames_app; [done|].
  split_and!; simpl; rewrite ?frame_bytes_length; [done|zify_u; lia|lia].
Qed.
End TypedPacket.

(** ** Typed payloads *)
Definition wire_roundtrip (T : Type) `{WireFrame T} : Prop :=
  (∀ f buf, frame_ok f → (WIRE_SIZE ≤ length buf)%nat →
     ∃ buf', frame_encode f buf = Ok buf' ∧ length buf' = length buf ∧
       drop WIRE_SIZE buf' = drop WIRE_SIZE buf ∧ frame_decode buf' = Ok f) ∧
  (∀ buf, wf_bytes buf → (WIRE_SIZE ≤ length buf)%nat →
     ∃ f, frame_decode buf = Ok f ∧ frame_ok f) ∧
  (∀ f buf, (length buf < WIRE_SIZE)%nat → frame_encode f buf = Fail ∧ frame_decode buf = Fail).

Lemma wire_roundtrip_intro (T : Type) `{WireFrame T} : wire_roundtrip T.
Proof.
  split_and!.
  - intros f buf Hok Hl. rewrite frame_encode_Ok by done. eexists; split; [done|].
    pose proof (frame_bytes_length f) as Hb. split_and!.
    + rewrite length_app, length_drop. lia.
    + by rewrite <-Hb at 1; rewrite drop_app_length.
    + by apply frame_decode_bytes.
  - intros buf Hwf Hl. destruct (frame_decode_total buf Hl) as (f & ? & ?). eauto.
  - intros f buf Hl. split; [by apply frame_encode_short|by apply frame_decode_short].
Qed.

(** Every fixed-layout wire structure (packet header, frame header and the ten
    typed payloads) survives encode-then-decode with all its fields, touches only
    its own bytes of the buffer, decodes every long enough buffer to in-range
    fields, and rejects buffers that are too short instead of overrunning them. *)
Theorem wire_structs_roundtrip :
  wire_roundtrip PacketHeader ∧ wire_roundtrip FrameHeader ∧ wire_roundtrip ConnectFrame ∧
  wire_roundtrip AcceptFrame ∧ wire_roundtrip CloseFrame ∧ wire_roundtrip PingFrame ∧
  wire_roundtrip AckFrame ∧ wire_roundtrip StateDeclareFrame ∧ wire_roundtrip StateDeltaFrame ∧
  wire_roundtrip StateSnapshotFrame ∧ wire_roundtrip CapabilityRevokeFrame ∧
  wire_roundtrip RouteAnnounceFrame.
Proof. split_and!; apply wire_roundtrip_intro. Qed.

(** ** Concrete packets *)
Lemma codec_roundtrip_witness :
  let fs := [(FT_PING, [1; 2; 3]); (FT_STATE_DELTA, [])] in
  ∃ e pkt e' d,
    @add_all (encoder PT_DATA 7 8 9) fs = Ok e ∧ @finalize toy_xxhash e = Ok (pkt, e') ∧
    parse PacketDecoder_new pkt = Ok (d, true) ∧
    collect_frames d = Ok ((λ f, mk_frame f.1 f.2) <$> fs).
Proof.
  intros fs. destruct (@codec_roundtrip toy_xxhash PT_DATA 7 8 9 fs)
    as (e & pkt & e' & d & H1 & H2 & _ & _ & H3 & _ & _ & _ & _ & _ & _ & _ & H4).
  - split; by_decide.
  - by_decide.
  - by_decide.
  - by_decide.
  - repeat constructor; by_decide.
  - by_decide.
  - exists e, pkt, e', d. exact (conj H1 (conj H2 (conj H3 H4))).
Defined.
(** A header that announces more payload than there is. *)
Lemma decoder_safe_witness :
  let data := [24; 2; 0; 1; 0; 0; 0; 5; 0; 0; 0; 0; 255; 255; 0; 0; 1] in
  ∃ d ok, parse PacketDecoder_new data = Ok (d, ok) ∧
    (ok = true → (∃ b, @verify_checksum toy_xxhash d = Ok b) ∧
      ∃ fs, collect_frames d = Ok fs ∧ Forall frame_wf fs ∧ Forall (λ f, wf_bytes (fr_payload f)) fs
        ∧ (PACKET_HEADER_SIZE + Z.to_nat (ph_payload_length (pd_header d)) ≤ length data)%nat).
Proof. apply (@decoder_safe toy_xxhash). by_decide. Defined.
