(* ===== verification/VersionVector.v ===== *)
(** * Version vectors

    Models [include/protocoll/state/version_vector.h] and
    [src/state/version_vector.cpp]: a vector of (node, sequence) entries with a
    linear search.  The abstract view of a vector is the function [vv_get]; on
    vectors without duplicate nodes the comparison operators are the pointwise
    order and [merge] is its least upper bound. *)
From S2P Require Import Prelude Platform.

Record VersionEntry := { ve_node_id : Z; ve_sequence : Z }.
Record VersionVector := { vv_entries : list VersionEntry }.

#[global] Instance VersionEntry_eq_dec : EqDecision VersionEntry.
Proof. solve_decision. Defined.
#[global] Instance VersionVector_eq_dec : EqDecision VersionVector.
Proof. solve_decision. Defined.

Definition vv_empty : VersionVector := {| vv_entries := [] |}.
Definition vv_find (v : VersionVector) (node : Z) : option VersionEntry :=
  find_key ve_node_id node (vv_entries v).

(** [increment] returns the new sequence number with the updated vector. *)
Definition vv_increment (v : VersionVector) (node : Z) : VersionVector * Z :=
  match vv_find v node with
  | Some e =>
      let s := u32 (ve_sequence e + 1) in
      ({| vv_entries := update_key ve_node_id node
            (λ e, {| ve_node_id := ve_node_id e; ve_sequence := s |}) (vv_entries v) |}, s)
  | None =>
      ({| vv_entries := vv_entries v ++ [{| ve_node_id := node; ve_sequence := 1 |}] |}, 1)
  end.

Definition vv_get (v : VersionVector) (node : Z) : Z :=
  match vv_find v node with Some e => ve_sequence e | None => 0 end.

Definition vv_set (v : VersionVector) (node seq : Z) : VersionVector :=
  match vv_find v node with
  | Some _ =>
      {| vv_entries := update_key ve_node_id node
           (λ e, {| ve_node_id := ve_node_id e; ve_sequence := seq |}) (vv_entries v) |}
  | None => {| vv_entries := vv_entries v ++ [{| ve_node_id := node; ve_sequence := seq |}] |}
  end.

(** The loop body of [merge]: one entry of the other vector. *)
Definition vv_merge_entry (v : VersionVector) (oe : VersionEntry) : VersionVector :=
  match vv_find v (ve_node_id oe) with
  | Some e =>
      {| vv_entries := update_key ve_node_id (ve_node_id oe)
           (λ e, {| ve_node_id := ve_node_id e;
                    ve_sequence := Z.max (ve_sequence e) (ve_sequence oe) |}) (vv_entries v) |}
  | None => {| vv_entries := vv_entries v ++ [oe] |}
  end.
Definition vv_merge (v other : VersionVector) : VersionVector :=
  foldl vv_merge_entry v (vv_entries other).

Definition vv_dominates (v other : VersionVector) : bool :=
  forallb (λ oe, negb (vv_get v (ve_node_id oe) <? ve_sequence oe)) (vv_entries other).
Definition vv_concurrent_with (v other : VersionVector) : bool :=
  negb (vv_dominates v other) && negb (vv_dominates other v).
Definition vv_eqb (v other : VersionVector) : bool :=
  forallb (λ e, vv_get other (ve_node_id e) =? ve_sequence e) (vv_entries v) &&
  forallb (λ e, vv_get v (ve_node_id e) =? ve_sequence e) (vv_entries other).
Definition vv_less_than (v other : VersionVector) : bool :=
  vv_dominates other v && negb (vv_eqb v other).

Definition vv_wire_size (v : VersionVector) : nat := (1 + length (vv_entries v) * 6)%nat.

(** One wire entry: node (2 bytes) and sequence (4 bytes). *)
Definition vv_write_entry (buf : bytes) (offset : nat) (e : VersionEntry) : res bytes :=
  let! buf := write_u16 buf offset (ve_node_id e) in
  write_u32 buf (offset + 2) (ve_sequence e).
Definition vv_read_entry (buf : bytes) (offset : nat) : res VersionEntry :=
  let! node := read_u16 buf offset in
  let! seq := read_u32 buf (offset + 2) in
  Ok {| ve_node_id := node; ve_sequence := seq |}.

Definition vv_encode (v : VersionVector) (buf : bytes) : res bytes :=
  check_ (vv_wire_size v <=? length buf)%nat (
  let! buf := put8 buf 0 (u8 (Z.of_nat (length (vv_entries v)))) in
  let! (buf, _) := write_all vv_write_entry 6 buf 1 (vv_entries v) in
  Ok buf).

Definition vv_decode (buf : bytes) : res VersionVector :=
  check_ (1 <=? length buf)%nat (
  let! count := get8 buf 0 in
  let needed := (1 + Z.to_nat count * 6)%nat in
  check_ (needed <=? length buf)%nat (
  let! es := read_all vv_read_entry 6 buf 1 (Z.to_nat count) in
  Ok {| vv_entries := es |})).

(** ** Invariant *)
Definition vv_ok (v : VersionVector) : Prop :=
  NoDup (ve_node_id <$> vv_entries v) ∧
  Forall (λ e, is_u16 (ve_node_id e) ∧ is_u32 (ve_sequence e)) (vv_entries v).
#[global] Instance vv_ok_dec v : Decision (vv_ok v).
Proof. unfold vv_ok; apply _. Defined.
Definition vv_le (v w : VersionVector) : Prop := ∀ n, vv_get v n ≤ vv_get w n.

Lemma vv_get_nonneg v n : vv_ok v → 0 ≤ vv_get v n.
Proof.
  intros [_ Hr]. unfold vv_get, vv_find. destruct (find_key _ _ _) eqn:E; [|lia].
  apply find_key_Some in E as [E _]. rewrite Forall_forall in Hr.
  apply Hr in E. unfold is_u in *. lia.
Qed.
Lemma vv_get_elem v e : vv_ok v → e ∈ vv_entries v → vv_get v (ve_node_id e) = ve_sequence e.
Proof.
  intros [Hnd _] He. unfold vv_get, vv_find. by rewrite (find_key_elem ve_node_id _ e Hnd He).
Qed.

Lemma vv_dominates_spec v w : vv_ok v → vv_ok w → vv_dominates v w = true ↔ vv_le w v.
Proof.
  intros Hv Hw. unfold vv_dominates. rewrite forallb_spec. split.
  - intros Hd n. unfold vv_get at 1, vv_find. destruct (find_key _ _ _) as [e|] eqn:E.
    + apply find_key_Some in E as [He <-]. apply Hd in He.
      destruct (Z.ltb_spec (vv_get v (ve_node_id e)) (ve_sequence e)); naive_solver lia.
    + by apply vv_get_nonneg.
  - intros Hle e He. rewrite <-(vv_get_elem w e Hw He).
    by rewrite (proj2 (Z.ltb_ge _ _)).
Qed.

Lemma vv_not_dominates v w :
  vv_ok v → vv_ok w → vv_dominates v w = false ↔ ∃ n, vv_get v n < vv_get w n.
Proof.
  intros Hv Hw. split.
  - intros Hd. unfold vv_dominates in Hd.
    assert (∃ e, e ∈ vv_entries w ∧ vv_get v (ve_node_id e) < ve_sequence e) as (e & He & Hlt).
    { clear -Hd. induction (vv_entries w) as [|e l IH]; simpl in Hd; [done|].
      apply andb_false_iff in Hd as [Hd|Hd].
      - apply negb_false_iff, Z.ltb_lt in Hd. exists e. set_solver.
      - destruct (IH Hd) as (x & ? & ?). exists x. set_solver. }
    exists (ve_node_id e). by rewrite (vv_get_elem w e).
  - intros [n Hn]. apply not_true_is_false. rewrite vv_dominates_spec by done.
    intros Hle. specialize (Hle n). lia.
Qed.

Lemma vv_eqb_spec v w : vv_ok v → vv_ok w → vv_eqb v w = true ↔ ∀ n, vv_get v n = vv_get w n.
Proof.
  intros Hv Hw. unfold vv_eqb. rewrite andb_true_iff, !forallb_spec. split.
  - intros [H1 H2] n.
    destruct (vv_find v n) as [e|] eqn:Ev; [|destruct (vv_find w n) as [e|] eqn:Ew].
    + apply find_key_Some in Ev as [He <-]. apply H1 in He as Hq.
      apply Z.eqb_eq in Hq. rewrite Hq. by apply vv_get_elem.
    + apply find_key_Some in Ew as [He <-]. apply H2 in He as Hq.
      apply Z.eqb_eq in Hq. rewrite Hq. symmetry. by apply vv_get_elem.
    + unfold vv_get. by rewrite Ev, Ew.
  - intros Heq. split; intros e He; apply Z.eqb_eq.
    + rewrite <-Heq. by apply vv_get_elem.
    + rewrite Heq. by apply vv_get_elem.
Qed.

Lemma vv_merge_entry_get v oe n :
  vv_get (vv_merge_entry v oe) n =
    if ve_node_id oe =? n then
      match vv_find v n with Some e => Z.max (ve_sequence e) (ve_sequence oe)
                           | None => ve_sequence oe end
    else vv_get v n.
Proof.
  unfold vv_merge_entry, vv_get. destruct (Z.eqb_spec (ve_node_id oe) n) as [<-|Hn].
  - destruct (vv_find v (ve_node_id oe)) as [e|] eqn:E; unfold vv_find in *; simpl.
    + rewrite find_update_same by done. by rewrite E.
    + rewrite find_key_app, E. simpl. by rewrite Z.eqb_refl.
  - destruct (vv_find v (ve_node_id oe)) as [e|] eqn:E; unfold vv_find in *; simpl.
    + by rewrite find_update_ne by done.
    + rewrite find_key_app. destruct (find_key _ n _); [done|]. simpl.
      by rewrite (proj2 (Z.eqb_neq _ _)).
Qed.

Lemma vv_merge_entry_ok v oe :
  vv_ok v → is_u16 (ve_node_id oe) → is_u32 (ve_sequence oe) → vv_ok (vv_merge_entry v oe).
Proof.
  intros [Hnd Hr] H1 H2. unfold vv_merge_entry.
  destruct (vv_find v (ve_node_id oe)) as [e|] eqn:E; unfold vv_find in *; split; simpl.
  - by rewrite update_key_keys by done.
  - clear E Hnd. induction Hr as [|x l Hx Hl IH]; simpl; [done|].
    destruct (_ =? _); constructor; simpl; auto. unfold is_u in *. lia.
  - apply find_key_None in E. rewrite fmap_app, NoDup_app. split_and!; [done| |].
    + intros x Hx. simpl. rewrite list_elem_of_singleton. by intros ->.
    + apply NoDup_singleton.
  - by apply Forall_app; split; [|constructor].
Qed.

Lemma vv_merge_ok v w : vv_ok v → vv_ok w → vv_ok (vv_merge v w).
Proof.
  intros Hv [_ Hw]. unfold vv_merge. revert v Hv.
  induction Hw as [|e l [H1 H2] Hl IH]; intros v Hv; simpl; [done|].
  apply IH. by apply vv_merge_entry_ok.
Qed.

Lemma vv_merge_get v w n :
  vv_ok v → vv_ok w → vv_get (vv_merge v w) n = Z.max (vv_get v n) (vv_get w n).
Proof.
  intros Hv [Hnd Hr]. unfold vv_merge. unfold vv_get at 3, vv_find.
  revert v Hv Hnd. induction Hr as [|e l [H1 H2] Hl IH]; intros v Hv Hnd; simpl.
  { pose proof (vv_get_nonneg v n Hv). lia. }
  apply NoDup_cons in Hnd as [Hni Hnd].
  rewrite IH by (done || by apply vv_merge_entry_ok).
  rewrite vv_merge_entry_get. destruct (Z.eqb_spec (ve_node_id e) n) as [<-|]; [|done].
  rewrite (proj2 (find_key_None ve_node_id _ _) Hni).
  pose proof (vv_get_nonneg v (ve_node_id e) Hv) as Hg. revert Hg. unfold vv_get.
  destruct (vv_find v (ve_node_id e)); unfold is_u in *; lia.
Qed.

Lemma vv_increment_ok v n : vv_ok v → is_u16 n → vv_ok (vv_increment v n).1.
Proof.
  intros [Hnd Hr] Hn. unfold vv_increment.
  destruct (vv_find v n) as [e|] eqn:E; unfold vv_find in *; split; simpl.
  - by rewrite update_key_keys by done.
  - clear E Hnd. induction Hr as [|x l Hx Hl IH]; simpl; [done|].
    destruct (_ =? _); constructor; simpl; auto. split; [apply Hx|apply u32_is_u].
  - apply find_key_None in E. rewrite fmap_app, NoDup_app. split_and!; [done| |].
    + intros x Hx. simpl. rewrite list_elem_of_singleton. by intros ->.
    + apply NoDup_singleton.
  - apply Forall_app; split; [done|]. repeat constructor; simpl; try apply Hn; done.
Qed.
Lemma vv_increment_get v n m :
  vv_get (vv_increment v n).1 m = if n =? m then u32 (vv_get v n + 1) else vv_get v m.
Proof.
  unfold vv_increment, vv_get. destruct (Z.eqb_spec n m) as [<-|Hn].
  - destruct (vv_find v n) as [e|] eqn:E; unfold vv_find in *; simpl.
    + rewrite find_update_same by done. by rewrite E.
    + rewrite find_key_app, E. simpl. by rewrite Z.eqb_refl.
  - destruct (vv_find v n) as [e|] eqn:E; unfold vv_find in *; simpl.
    + by rewrite find_update_ne by done.
    + rewrite find_key_app. destruct (find_key _ m _); [done|]. simpl.
      by rewrite (proj2 (Z.eqb_neq _ _)).
Qed.

(** ** Wire format *)
Definition vv_entry_bytes (e : VersionEntry) : bytes :=
  be16 (ve_node_id e) ++ be32 (ve_sequence e).
Definition vv_bytes (v : VersionVector) : bytes :=
  u8 (Z.of_nat (length (vv_entries v))) :: concat (vv_entry_bytes <$> vv_entries v).

Lemma vv_encode_Ok v buf :
  (vv_wire_size v ≤ length buf)%nat →
  vv_encode v buf = Ok (vv_bytes v ++ drop (vv_wire_size v) buf).
Proof.
  intros Hl. unfold vv_encode. rewrite (proj2 (Nat.leb_le _ _) Hl). cbn [check_].
  unfold vv_wire_size in *. unfold put8. rewrite store_head by (simpl; lia). cbn [res_bind length app].
  rewrite (write_all_spec1 vv_write_entry 6 vv_entry_bytes (λ e, eq_refl)
             (λ P R e, write_16_32 P R _ _)) by (rewrite length_drop; lia).
  cbn [res_bind]. by rewrite drop_drop.
Qed.

Lemma vv_read_entry_enc P R e :
  is_u16 (ve_node_id e) ∧ is_u32 (ve_sequence e) →
  vv_read_entry (P ++ vv_entry_bytes e ++ R) (length P) = Ok e.
Proof.
  intros [H1 H2]. destruct e as [n s].
  apply (read_16_32 (λ n s, {| ve_node_id := n; ve_sequence := s |})); done.
Qed.
Lemma vv_read_entry_safe buf off : (off + 6 ≤ length buf)%nat → safe (vv_read_entry buf off).
Proof.
  intros. apply safe_bind; [apply read_u16_safe; lia|]. intros.
  apply safe_bind; [apply read_u32_safe; lia|]. done.
Qed.

Lemma vv_decode_safe buf : safe (vv_decode buf).
Proof.
  unfold vv_decode. apply safe_check; intros H1%Nat.leb_le.
  apply safe_bind; [apply get8_safe; lia|]. intros c _.
  apply safe_check; intros H2%Nat.leb_le.
  apply safe_bind; [|done]. eapply read_all_safe; [apply vv_read_entry_safe|lia].
Qed.
Lemma vv_decode_bytes v R :
  vv_ok v → (length (vv_entries v) ≤ 255)%nat → vv_decode (vv_bytes v ++ R) = Ok v.
Proof.
  intros [_ Hr] Hn. unfold vv_decode, vv_bytes. cbn [app get8].
  rewrite wrap_id by (zify_u; lia). rewrite get8_head. cbn [length Nat.leb check_ res_bind].
  rewrite Nat2Z.id.
  rewrite (proj2 (Nat.leb_le _ _)) by
    (simpl; rewrite length_app, (length_encs 6 vv_entry_bytes (λ e, eq_refl)); lia).
  cbn [check_].
  rewrite (read_all_spec1 vv_read_entry 6 vv_entry_bytes _ (λ e, eq_refl) vv_read_entry_enc)
    by done.
  by destruct v.
Qed.

(** ** The claims *)

(** On vectors without duplicate nodes (which every operation keeps) the
    four comparison operators decide the pointwise order of the sequence
    numbers, and [merge] computes the least upper bound in that order: it
    dominates both arguments and is dominated by every vector that does. *)
Theorem version_vector_lattice (v w : VersionVector) :
  vv_ok v → vv_ok w →
  vv_ok (vv_merge v w) ∧
  (∀ n, vv_get (vv_merge v w) n = Z.max (vv_get v n) (vv_get w n)) ∧
  vv_dominates (vv_merge v w) v = true ∧ vv_dominates (vv_merge v w) w = true ∧
  (∀ u, vv_ok u → vv_dominates u v = true → vv_dominates u w = true →
        vv_dominates u (vv_merge v w) = true) ∧
  (vv_dominates v w = true ↔ ∀ n, vv_get w n ≤ vv_get v n) ∧
  (vv_eqb v w = true ↔ vv_dominates v w = true ∧ vv_dominates w v = true) ∧
  (vv_less_than v w = true ↔ vv_dominates w v = true ∧ ∃ n, vv_get v n < vv_get w n) ∧
  (vv_concurrent_with v w = true ↔
     (∃ n, vv_get v n < vv_get w n) ∧ ∃ m, vv_get w m < vv_get v m).
Proof.
  intros Hv Hw. pose proof (vv_merge_ok v w Hv Hw) as Hm.
  pose proof (λ n, vv_merge_get v w n Hv Hw) as Hg.
  assert (∀ a b, vv_ok a → vv_ok b →
    vv_dominates a b = false ↔ ∃ n, vv_get a n < vv_get b n) as Hnd.
  { intros a b Ha Hb. apply vv_not_dominates; done. }
  split_and!; try done.
  - apply vv_dominates_spec; [done..|]. intros n. rewrite Hg. lia.
  - apply vv_dominates_spec; [done..|]. intros n. rewrite Hg. lia.
  - intros u Hu H1 H2. apply vv_dominates_spec in H1, H2; [|done..].
    apply vv_dominates_spec; [done..|]. intros n. rewrite Hg.
    specialize (H1 n); specialize (H2 n). lia.
  - by apply vv_dominates_spec.
  - rewrite vv_eqb_spec, !vv_dominates_spec by done. unfold vv_le. split.
    + intros He. split; intros n; rewrite He; lia.
    + intros [H1 H2] n. specialize (H1 n); specialize (H2 n). lia.
  - unfold vv_less_than. rewrite andb_true_iff, negb_true_iff.
    split; intros [H1 H2]; split; try done.
    + apply Hnd; [done..|]. destruct (vv_dominates v w) eqn:E; [|done].
      rewrite <-H2. symmetry. apply vv_eqb_spec; [done..|]. intros n.
      apply vv_dominates_spec in H1, E; [|done..]. specialize (H1 n); specialize (E n). lia.
    + destruct H2 as [n Hn]. apply not_true_is_false. rewrite vv_eqb_spec by done.
      intros He. rewrite He in Hn. lia.
  - unfold vv_concurrent_with. by rewrite andb_true_iff, !negb_true_iff, !Hnd.
Qed.
Definition vv_sample (l : list (Z * Z)) : VersionVector :=
  foldl (λ v p, vv_set v p.1 p.2) vv_empty l.
Lemma version_vector_lattice_witness :
  vv_concurrent_with (vv_sample [(1, 4); (2, 9)]) (vv_sample [(2, 10); (1, 3)]) = true ∧
  (vv_concurrent_with (vv_sample [(1, 4); (2, 9)]) (vv_sample [(2, 10); (1, 3)]) = true ↔
     (∃ n, vv_get (vv_sample [(1, 4); (2, 9)]) n < vv_get (vv_sample [(2, 10); (1, 3)]) n) ∧
     ∃ m, vv_get (vv_sample [(2, 10); (1, 3)]) m < vv_get (vv_sample [(1, 4); (2, 9)]) m).
Proof.
  split; [reflexivity|].
  apply (version_vector_lattice (vv_sample [(1, 4); (2, 9)]) (vv_sample [(2, 10); (1, 3)])).
  - by_decide.
  - by_decide.
Defined.

(** a version vector of at most 255 entries encoded into any buffer large
    enough for it decodes back to itself, bytes past the encoding are left
    alone, a buffer that is too small is refused, and [decode] reads no byte
    outside its buffer whatever the buffer holds. *)
Theorem version_vector_roundtrip (v : VersionVector) (buf : bytes) :
  vv_ok v → (length (vv_entries v) ≤ 255)%nat →
  safe (vv_decode buf) ∧
  ((length buf < vv_wire_size v)%nat → vv_encode v buf = Fail) ∧
  ((vv_wire_size v ≤ length buf)%nat →
   ∃ out, vv_encode v buf = Ok out ∧ length out = length buf ∧
          drop (vv_wire_size v) out = drop (vv_wire_size v) buf ∧ vv_decode out = Ok v).
Proof.
  intros Hv Hn. split; [apply vv_decode_safe|]. split.
  - intros Hl. unfold vv_encode. by rewrite (proj2 (Nat.leb_gt _ _) Hl).
  - intros Hl. rewrite vv_encode_Ok by done. eexists; split; [done|].
    assert (length (vv_bytes v) = vv_wire_size v) as Hlen.
    { unfold vv_bytes, vv_wire_size. cbn [length].
      by rewrite (length_encs 6 vv_entry_bytes (λ e, eq_refl)). }
    split_and!.
    + rewrite length_app, length_drop, Hlen. lia.
    + rewrite <-Hlen at 1. apply drop_app_length.
    + by apply vv_decode_bytes.
Qed.
Lemma version_vector_roundtrip_witness :
  ∃ out, vv_encode (vv_sample [(1, 4); (2, 9)]) (replicate 20 0) = Ok out ∧
         length out = 20%nat ∧ drop 13 out = replicate 7 0 ∧
         vv_decode out = Ok (vv_sample [(1, 4); (2, 9)]).
Proof.
  apply (version_vector_roundtrip (vv_sample [(1, 4); (2, 9)]) (replicate 20 0)).
  - by_decide.
  - by_decide.
  - by_decide.
Defined.
