(* ===== verification/GCounter.v ===== *)
(** * G-Counter

    Models [include/protocoll/state/crdt/g_counter.h] and
    [src/state/crdt/g_counter.cpp].  The abstract view of a counter is the
    partial map [gc_get] from nodes to counts; [merge] is proved to be the
    pointwise maximum on it, whatever bytes arrive. *)
From S2P Require Import Prelude Platform.

Record GCounterEntry := { ge_node_id : Z; ge_count : Z }.
Record GCounter := { gc_node_id : Z; gc_entries : list GCounterEntry; gc_dirty : bool }.

#[global] Instance GCounterEntry_eq_dec : EqDecision GCounterEntry.
Proof. solve_decision. Defined.
#[global] Instance GCounter_eq_dec : EqDecision GCounter.
Proof. solve_decision. Defined.

Definition gc_ENTRY_WIRE_SIZE : nat := 10.

Definition gc_default : GCounter := {| gc_node_id := 0; gc_entries := []; gc_dirty := false |}.
Definition gc_new (node_id : Z) : GCounter :=
  {| gc_node_id := node_id; gc_entries := [{| ge_node_id := node_id; ge_count := 0 |}];
     gc_dirty := false |}.

Definition gc_find (c : GCounter) (node_id : Z) : option GCounterEntry :=
  find_key ge_node_id node_id (gc_entries c).
Definition gc_set_count (n : Z) (e : GCounterEntry) : GCounterEntry :=
  {| ge_node_id := ge_node_id e; ge_count := n |}.

Definition gc_increment (c : GCounter) (amount : Z) : GCounter :=
  {| gc_node_id := gc_node_id c;
     gc_entries :=
       match gc_find c (gc_node_id c) with
       | Some e => update_key ge_node_id (gc_node_id c)
                     (gc_set_count (u64 (ge_count e + amount))) (gc_entries c)
       | None => gc_entries c ++ [{| ge_node_id := gc_node_id c; ge_count := amount |}]
       end;
     gc_dirty := true |}.

Definition gc_value (c : GCounter) : Z :=
  foldl (λ sum e, u64 (sum + ge_count e)) 0 (gc_entries c).
Definition gc_local_count (c : GCounter) : Z :=
  match gc_find c (gc_node_id c) with Some e => ge_count e | None => 0 end.

(** The body of the merge loop after the entry's fields are read. *)
Definition gc_merge_entry (st : GCounter * bool) (w : GCounterEntry) : GCounter * bool :=
  let '(c, changed) := st in
  match gc_find c (ge_node_id w) with
  | Some e =>
      if ge_count e <? ge_count w then
        ({| gc_node_id := gc_node_id c;
            gc_entries := update_key ge_node_id (ge_node_id w)
                            (gc_set_count (ge_count w)) (gc_entries c);
            gc_dirty := gc_dirty c |}, true)
      else (c, changed)
  | None =>
      ({| gc_node_id := gc_node_id c; gc_entries := gc_entries c ++ [w];
          gc_dirty := gc_dirty c |}, true)
  end.
Definition gc_read_entry (data : bytes) (offset : nat) : res GCounterEntry :=
  let! nid := read_u16 data offset in
  let! hi := read_u32 data (offset + 2) in
  let! lo := read_u32 data (offset + 6) in
  Ok {| ge_node_id := nid; ge_count := Z.lor (Z.shiftl hi 32) lo |}.
Definition gc_merge (c : GCounter) (data : bytes) : res (GCounter * bool) :=
  if (length data <? 1)%nat then Ok (c, false) else
  let! count := get8 data 0 in
  if (length data <? 1 + Z.to_nat count * gc_ENTRY_WIRE_SIZE)%nat then Ok (c, false) else
  let! es := read_all gc_read_entry gc_ENTRY_WIRE_SIZE data 1 (Z.to_nat count) in
  Ok (foldl gc_merge_entry (c, false) es).

Definition gc_write_entry (buf : bytes) (offset : nat) (e : GCounterEntry) : res bytes :=
  let! buf := write_u16 buf offset (ge_node_id e) in
  let! buf := write_u32 buf (offset + 2) (u32 (Z.shiftr (ge_count e) 32)) in
  write_u32 buf (offset + 6) (u32 (Z.land (ge_count e) 4294967295)).
Definition gc_snapshot (c : GCounter) : res bytes :=
  let buf := replicate (1 + length (gc_entries c) * gc_ENTRY_WIRE_SIZE) 0 in
  let! buf := put8 buf 0 (u8 (Z.of_nat (length (gc_entries c)))) in
  let! (buf, _) := write_all gc_write_entry gc_ENTRY_WIRE_SIZE buf 1 (gc_entries c) in
  Ok buf.
Definition gc_delta (c : GCounter) : res (GCounter * bytes) :=
  if negb (gc_dirty c) then Ok (c, []) else
  let c := {| gc_node_id := gc_node_id c; gc_entries := gc_entries c; gc_dirty := false |} in
  match gc_find c (gc_node_id c) with
  | None => Ok (c, [])
  | Some e =>
      let buf := replicate (1 + gc_ENTRY_WIRE_SIZE) 0 in
      let! buf := put8 buf 0 1 in
      let! buf := gc_write_entry buf 1 e in
      Ok (c, buf)
  end.
Definition gc_has_pending_delta (c : GCounter) : bool := gc_dirty c.

(** ** Invariant and abstract view *)
Definition gc_entry_ok (e : GCounterEntry) : Prop := is_u16 (ge_node_id e) ∧ is_u64 (ge_count e).
Definition gc_ok (c : GCounter) : Prop :=
  is_u16 (gc_node_id c) ∧ NoDup (ge_node_id <$> gc_entries c) ∧ Forall gc_entry_ok (gc_entries c).
#[global] Instance gc_ok_dec c : Decision (gc_ok c).
Proof. unfold gc_ok, gc_entry_ok; apply _. Defined.

Definition gc_get (c : GCounter) (n : Z) : option Z := ge_count <$> gc_find c n.

(** Join of two optional counts: the larger one, or the only one. *)
Definition omax (a b : option Z) : option Z := union_with (λ x y, Some (Z.max x y)) a b.
(** What a list of entries says about node [n]. *)
Definition entries_get (n : Z) (es : list GCounterEntry) : option Z :=
  foldl (λ acc e, if ge_node_id e =? n then omax acc (Some (ge_count e)) else acc) None es.

Lemma omax_comm a b : omax a b = omax b a.
Proof. destruct a, b; cbn; try done. by rewrite Z.max_comm. Qed.
Lemma omax_assoc a b c : omax a (omax b c) = omax (omax a b) c.
Proof. destruct a, b, c; cbn; try done. by rewrite Z.max_assoc. Qed.
Lemma omax_idemp a : omax a a = a.
Proof. destruct a; cbn; [|done]. by rewrite Z.max_id. Qed.
Lemma omax_None_l a : omax None a = a.
Proof. by destruct a. Qed.
Lemma omax_None_r a : omax a None = a.
Proof. by destruct a. Qed.

(** A join that ends where it started never moved. *)
Lemma omax_squeeze a b c : omax (omax a b) c = a → omax a b = a.
Proof. destruct a, b, c; cbn; intros [=]; f_equal; lia. Qed.

Lemma entries_get_acc n es acc :
  foldl (λ acc e, if ge_node_id e =? n then omax acc (Some (ge_count e)) else acc) acc es =
  omax acc (entries_get n es).
Proof.
  unfold entries_get. revert acc. induction es as [|e es IH] using rev_ind; intros acc.
  - by rewrite omax_None_r.
  - rewrite !foldl_snoc, IH. destruct (_ =? n); [|done]. by rewrite omax_assoc.
Qed.
Lemma entries_get_cons n e es :
  entries_get n (e :: es) =
    omax (if ge_node_id e =? n then Some (ge_count e) else None) (entries_get n es).
Proof.
  unfold entries_get at 1. cbn [foldl]. rewrite entries_get_acc.
  by destruct (ge_node_id e =? n).
Qed.
(** Without duplicates the join over the list is the entry itself. *)
Lemma entries_get_find n es :
  NoDup (ge_node_id <$> es) → entries_get n es = ge_count <$> find_key ge_node_id n es.
Proof.
  induction es as [|e es IH]; csimpl; [done|]. intros [Hn Hnd]%NoDup_cons.
  rewrite entries_get_cons, IH by done. destruct (Z.eqb_spec (ge_node_id e) n) as [<-|];
    [|by destruct (find_key ge_node_id n es)].
  by rewrite (proj2 (find_key_None ge_node_id _ _) Hn).
Qed.

(** ** Merge is the pointwise maximum *)
Lemma gc_merge_entry_get c ch w n :
  gc_get (gc_merge_entry (c, ch) w).1 n =
    omax (gc_get c n) (if ge_node_id w =? n then Some (ge_count w) else None).
Proof.
  unfold gc_merge_entry, gc_get. destruct (gc_find c (ge_node_id w)) as [e|] eqn:E.
  - destruct (Z.ltb_spec (ge_count e) (ge_count w)); cbn [fst].
    + unfold gc_find in *; simpl. destruct (Z.eqb_spec (ge_node_id w) n) as [<-|].
      * rewrite find_update_same, E by done. cbn. f_equal. lia.
      * by rewrite find_update_ne, omax_None_r by done.
    + destruct (Z.eqb_spec (ge_node_id w) n) as [<-|]; [|by rewrite omax_None_r].
      rewrite E. cbn. f_equal. lia.
  - unfold gc_find in *; simpl. rewrite find_key_app. simpl.
    destruct (Z.eqb_spec (ge_node_id w) n) as [<-|]; [by rewrite E|].
    rewrite omax_None_r. by destruct (find_key _ n _).
Qed.

Lemma gc_merge_entry_ok c ch w :
  gc_ok c → gc_entry_ok w → gc_ok (gc_merge_entry (c, ch) w).1.
Proof.
  intros (Hn & Hnd & Hr) Hw. unfold gc_merge_entry.
  destruct (gc_find c (ge_node_id w)) as [e|] eqn:E; [destruct (_ <? _)|]; [| |]; try done.
  - split_and!; simpl; [done|by rewrite update_key_keys|].
    apply Forall_update_key; [done|]. intros x [Hx _] Hk. split; simpl; [done|apply Hw].
  - apply find_key_None in E. split_and!; simpl; [done| |by apply Forall_app; split; [|constructor]].
    by apply NoDup_keys_snoc.
Qed.

(** The changed flag of one entry: set exactly when the view changes. *)
Lemma gc_merge_entry_flag c ch w :
  (gc_merge_entry (c, ch) w).2 = true ↔
    ch = true ∨ gc_get (gc_merge_entry (c, ch) w).1 (ge_node_id w) ≠ gc_get c (ge_node_id w).
Proof.
  rewrite gc_merge_entry_get, Z.eqb_refl. unfold gc_merge_entry, gc_get.
  destruct (gc_find c (ge_node_id w)) as [e|]; [|naive_solver].
  cbn. destruct (Z.ltb_spec (ge_count e) (ge_count w)); simpl.
  - split; [|done]. intros _. right. intros [=]. lia.
  - split; [by left|]. intros [?|Hc]; [done|]. destruct Hc. f_equal. lia.
Qed.

Lemma gc_merge_entries_spec es c ch :
  gc_ok c → Forall gc_entry_ok es →
  let '(c', ch') := foldl gc_merge_entry (c, ch) es in
  gc_ok c' ∧ gc_node_id c' = gc_node_id c ∧ gc_dirty c' = gc_dirty c ∧
  (∀ n, gc_get c' n = omax (gc_get c n) (entries_get n es)) ∧
  (ch' = true ↔ ch = true ∨ ∃ n, gc_get c' n ≠ gc_get c n).
Proof.
  intros Hc Hes. revert c ch Hc.
  induction Hes as [|w es Hw Hes IH]; intros c ch Hc.
  { simpl. split_and!; try done; [intros; by rewrite omax_None_r|naive_solver]. }
  cbn [foldl]. pose proof (gc_merge_entry_ok c ch w Hc Hw) as Hc1.
  pose proof (gc_merge_entry_get c ch w) as Hg1. pose proof (gc_merge_entry_flag c ch w) as Hf1.
  assert (gc_node_id (gc_merge_entry (c, ch) w).1 = gc_node_id c ∧
          gc_dirty (gc_merge_entry (c, ch) w).1 = gc_dirty c) as [Hi1 Hd1].
  { unfold gc_merge_entry. destruct (gc_find _ _); [destruct (_ <? _)|]; done. }
  destruct (gc_merge_entry (c, ch) w) as [c1 ch1]. simpl in *.
  specialize (IH c1 ch1 Hc1). destruct (foldl gc_merge_entry (c1, ch1) es) as [c' ch'].
  destruct IH as (Hok & Hi & Hd & Hg & Hf). split_and!; [done|congruence|congruence| |].
  - intros n. by rewrite Hg, Hg1, entries_get_cons, omax_assoc.
  - rewrite Hf, Hf1. split.
    + intros [[?|H]|[n H]]; [by left|right|right].
      * exists (ge_node_id w). intros He. apply H. rewrite Hg1.
        rewrite Hg, Hg1 in He. by apply omax_squeeze in He.
      * exists n. intros He. apply H. rewrite Hg, Hg1 in He. rewrite Hg, Hg1, He.
        symmetry. by apply omax_squeeze in He.
    + intros [Hch|[n H]]; [by left; left|].
      destruct (decide (gc_get c' n = gc_get c1 n)) as [He|]; [|by right; exists n].
      left. right. rewrite He, Hg1 in H. rewrite Hg1, Z.eqb_refl.
      destruct (Z.eqb_spec (ge_node_id w) n); [by subst|].
      by rewrite omax_None_r in H.
Qed.

(** ** Wire format *)
Definition gc_entry_bytes (e : GCounterEntry) : bytes :=
  be16 (ge_node_id e) ++ be32 (u32 (Z.shiftr (ge_count e) 32)) ++
  be32 (u32 (Z.land (ge_count e) 4294967295)).
Lemma length_gc_entry_bytes e : length (gc_entry_bytes e) = gc_ENTRY_WIRE_SIZE.
Proof. done. Qed.

Lemma gc_write_entry_enc P R e :
  (gc_ENTRY_WIRE_SIZE ≤ length R)%nat →
  gc_write_entry (P ++ R) (length P) e = Ok (P ++ gc_entry_bytes e ++ drop gc_ENTRY_WIRE_SIZE R).
Proof.
  unfold gc_ENTRY_WIRE_SIZE. intros HR. unfold gc_write_entry.
  rewrite <-bind_assoc, write_16_32 by lia. cbn [res_bind]. rewrite <-app_assoc.
  rewrite write_u32_be, store_app_r, store_skip16, store_skip32, store_head
    by (rewrite length_be32, length_drop; lia).
  cbn [res_bind]. unfold gc_entry_bytes. rewrite drop_drop, length_be32. cbn [Nat.add].
  by rewrite <-!app_assoc.
Qed.
Lemma u64_halves c :
  is_u64 c →
  Z.lor (Z.shiftl (u32 (Z.shiftr c 32)) 32) (u32 (Z.land c 4294967295)) = c.
Proof.
  intros Hc. change 4294967295 with (Z.ones 32). rewrite Z.land_ones, Z.shiftr_div_pow2 by done.
  rewrite Z.lor_comm, lor_disjoint by (try done; apply (u32_is_u (c mod 2 ^ 32))).
  ulia.
Qed.
Lemma gc_read_entry_enc P R e :
  gc_entry_ok e → gc_read_entry (P ++ gc_entry_bytes e ++ R) (length P) = Ok e.
Proof.
  intros [H1 H2]. unfold gc_read_entry, gc_entry_bytes.
  rewrite read_u16_app_0, !read_u32_app_r, <-!app_assoc.
  wire_simp. rewrite u64_halves by done. by destruct e.
Qed.
Lemma gc_read_entry_safe data off :
  (off + gc_ENTRY_WIRE_SIZE ≤ length data)%nat → safe (gc_read_entry data off).
Proof.
  unfold gc_ENTRY_WIRE_SIZE. intros. apply safe_bind; [apply read_u16_safe; lia|]. intros.
  apply safe_bind; [apply read_u32_safe; lia|]. intros.
  apply safe_bind; [apply read_u32_safe; lia|]. done.
Qed.
Lemma gc_read_entry_ok data off e : wf_bytes data → gc_read_entry data off = Ok e → gc_entry_ok e.
Proof.
  intros Hd H. unfold gc_read_entry in H. inv_ok.
  apply read_u16_range in Hm; [|done]. apply read_u32_range in Hm0, Hm1; [|done..].
  split; simpl; [done|]. rewrite Z.lor_comm, lor_disjoint by (try done; ulia). ulia.
Qed.
Lemma gc_read_entry_no_fail data off : gc_read_entry data off ≠ Fail.
Proof.
  unfold gc_read_entry, read_u16, read_u32, slice. repeat case_decide; done.
Qed.

(** The entries a message carries (none when it is malformed). *)
Definition gc_wire (data : bytes) : list GCounterEntry :=
  match get8 data 0 with
  | Ok count =>
      if (length data <? 1 + Z.to_nat count * gc_ENTRY_WIRE_SIZE)%nat then [] else
      match read_all gc_read_entry gc_ENTRY_WIRE_SIZE data 1 (Z.to_nat count) with
      | Ok es => es | _ => [] end
  | _ => []
  end.

Lemma gc_merge_wire c data :
  gc_merge c data = Ok (foldl gc_merge_entry (c, false) (gc_wire data)).
Proof.
  unfold gc_merge, gc_wire. destruct data as [|b data]; [done|].
  change (length (b :: data) <? 1)%nat with false. rewrite get8_head. cbn [res_bind].
  destruct (Nat.ltb_spec (length (b :: data)) (1 + Z.to_nat b * gc_ENTRY_WIRE_SIZE)) as [|Hl];
    [done|].
  destruct (read_all_total gc_read_entry gc_ENTRY_WIRE_SIZE gc_read_entry_safe (b :: data) 1
              (Z.to_nat b)) as (es & -> & _); [done|apply gc_read_entry_no_fail|done].
Qed.
Lemma gc_wire_ok data : wf_bytes data → Forall gc_entry_ok (gc_wire data).
Proof.
  intros Hd. unfold gc_wire. destruct (get8 data 0); try done. destruct (_ <? _)%nat; [done|].
  destruct (read_all _ _ _ _ _) eqn:E; try done.
  by apply (read_all_ok gc_read_entry gc_ENTRY_WIRE_SIZE gc_entry_ok gc_read_entry_ok) in E as [? _].
Qed.

Definition gc_bytes (es : list GCounterEntry) : bytes :=
  u8 (Z.of_nat (length es)) :: concat (gc_entry_bytes <$> es).
Lemma gc_wire_bytes es R :
  Forall gc_entry_ok es → (length es ≤ 255)%nat → gc_wire (gc_bytes es ++ R) = es.
Proof.
  intros Hes Hn. unfold gc_wire, gc_bytes. cbn [app]. rewrite get8_head.
  rewrite wrap_id by (zify_u; lia). rewrite Nat2Z.id.
  rewrite (proj2 (Nat.ltb_ge _ _)) by (cbn [length]; rewrite length_app,
    (length_encs gc_ENTRY_WIRE_SIZE gc_entry_bytes length_gc_entry_bytes); lia).
  by rewrite (read_all_spec1 gc_read_entry gc_ENTRY_WIRE_SIZE gc_entry_bytes _
       length_gc_entry_bytes gc_read_entry_enc).
Qed.
Lemma gc_bytes_wf es : wf_bytes (gc_bytes es).
Proof.
  constructor; [apply u8_is_u|]. apply encs_wf. intros e. unfold gc_entry_bytes.
  apply Forall_app_2; [apply be16_wf|]. apply Forall_app_2; apply be32_wf.
Qed.
Lemma gc_snapshot_Ok c : gc_snapshot c = Ok (gc_bytes (gc_entries c)).
Proof.
  unfold gc_snapshot, put8. rewrite store_head by (rewrite length_replicate; simpl; lia).
  cbn [res_bind length app]. rewrite (write_all_spec1 gc_write_entry gc_ENTRY_WIRE_SIZE
    gc_entry_bytes length_gc_entry_bytes gc_write_entry_enc)
    by (rewrite length_drop, length_replicate; lia).
  cbn [res_bind]. rewrite drop_drop. rewrite (drop_ge (replicate _ _))
    by (rewrite length_replicate; lia). by rewrite app_nil_r.
Qed.
Definition gc_clean (c : GCounter) : GCounter :=
  {| gc_node_id := gc_node_id c; gc_entries := gc_entries c; gc_dirty := false |}.
Lemma gc_delta_Ok c :
  gc_delta c = Ok (if gc_dirty c then
                     (gc_clean c, match gc_find c (gc_node_id c) with
                                  | Some e => gc_bytes [e] | None => [] end)
                   else (c, [])).
Proof.
  unfold gc_delta. destruct (gc_dirty c); [|done]. cbn [negb].
  unfold gc_find at 1; cbn [gc_entries gc_node_id]. fold (gc_find c (gc_node_id c)).
  destruct (gc_find c (gc_node_id c)) as [e|]; [|done].
  unfold put8. rewrite store_head by (rewrite length_replicate; simpl; lia). cbn [res_bind].
  apply bind_Ok. eexists. split; [apply (gc_write_entry_enc [1])|done].
  rewrite length_drop, length_replicate. unfold gc_ENTRY_WIRE_SIZE. simpl. lia.
Qed.

(** ** The total is a function of the abstract view *)
Lemma gc_value_sum c : gc_value c = u64 (foldr Z.add 0 (ge_count <$> gc_entries c)).
Proof.
  unfold gc_value. assert (∀ a, foldl (λ sum e, u64 (sum + ge_count e)) (u64 a) (gc_entries c) =
    u64 (a + foldr Z.add 0 (ge_count <$> gc_entries c))) as H; [|apply (H 0)].
  induction (gc_entries c) as [|e l IH]; intros a; csimpl; [f_equal; lia|].
  transitivity (foldl (λ sum e, u64 (sum + ge_count e)) (u64 (a + ge_count e)) l).
  - f_equal. unfold wrap. by rewrite Z.add_mod_idemp_l.
  - rewrite IH. f_equal. lia.
Qed.
Lemma gc_get_Some c n x :
  gc_ok c → gc_get c n = Some x ↔ {| ge_node_id := n; ge_count := x |} ∈ gc_entries c.
Proof.
  intros (_ & Hnd & _). unfold gc_get, gc_find. rewrite fmap_Some. split.
  - intros ([n' x'] & [He Hk]%find_key_Some & ->). simpl in *. by subst.
  - intros He. exists {| ge_node_id := n; ge_count := x |}. split; [|done].
    by apply (find_key_elem ge_node_id _ {| ge_node_id := n; ge_count := x |}).
Qed.
Lemma gc_value_ext c d :
  gc_ok c → gc_ok d → (∀ n, gc_get c n = gc_get d n) → gc_value c = gc_value d.
Proof.
  intros Hc Hd Heq. rewrite !gc_value_sum. f_equal.
  apply (foldr_permutation_proper (=)); [solve_proper|intros; lia|].
  apply fmap_Permutation, NoDup_Permutation.
  - by eapply NoDup_fmap_1, Hc.
  - by eapply NoDup_fmap_1, Hd.
  - intros [n x]. rewrite <-!gc_get_Some by done. by rewrite Heq.
Qed.

(** ** Increment *)
Lemma gc_increment_find c a :
  gc_ok c → is_u64 a →
  gc_find (gc_increment c a) (gc_node_id c) =
    Some {| ge_node_id := gc_node_id c; ge_count := u64 (gc_local_count c + a) |}.
Proof.
  intros Hc Ha. unfold gc_increment, gc_local_count.
  destruct (gc_find c (gc_node_id c)) as [e|] eqn:E; unfold gc_find in *; simpl.
  - rewrite find_update_same, E by done. cbn. unfold gc_set_count.
    apply find_key_Some in E as [_ ->]. done.
  - rewrite find_key_app, E. simpl. rewrite Z.eqb_refl. by rewrite wrap_id.
Qed.
Lemma gc_increment_local c a :
  gc_ok c → is_u64 a → gc_local_count (gc_increment c a) = u64 (gc_local_count c + a).
Proof.
  intros Hc Ha. unfold gc_local_count at 1.
  change (gc_node_id (gc_increment c a)) with (gc_node_id c).
  by rewrite gc_increment_find.
Qed.
Lemma gc_increment_ok c a : gc_ok c → is_u64 a → gc_ok (gc_increment c a).
Proof.
  intros (Hi & Hnd & Hr) Ha. unfold gc_increment.
  destruct (gc_find c (gc_node_id c)) as [e|] eqn:E; split_and!; simpl; try done.
  - by rewrite update_key_keys.
  - apply Forall_update_key; [done|]. intros x [Hx _] _. split; [done|apply u64_is_u].
  - apply find_key_None in E. by apply NoDup_keys_snoc.
  - apply Forall_app; split; [done|]. apply Forall_singleton. by split.
Qed.
Lemma sum_update_key k f l e :
  find_key ge_node_id k l = Some e →
  foldr Z.add 0 (ge_count <$> update_key ge_node_id k f l) =
    foldr Z.add 0 (ge_count <$> l) - ge_count e + ge_count (f e).
Proof.
  induction l as [|x l IH]; simpl; [done|]. destruct (ge_node_id x =? k); csimpl.
  - intros [= <-]. lia.
  - intros H. rewrite IH by done. lia.
Qed.
Lemma gc_increment_value c a : gc_value (gc_increment c a) = u64 (gc_value c + a).
Proof.
  rewrite !gc_value_sum. unfold gc_increment. cbn [gc_entries].
  destruct (gc_find c (gc_node_id c)) as [e|] eqn:E.
  - rewrite (sum_update_key _ _ _ e) by done. cbn [gc_set_count ge_count].
    generalize (foldr Z.add 0 (ge_count <$> gc_entries c)). intros z. ulia.
  - rewrite fmap_app, foldr_app. csimpl. rewrite Z.add_0_r.
    assert (∀ l, foldr Z.add a l = foldr Z.add 0 l + a) as ->.
    { induction l as [|y l IH]; simpl; [done|]. rewrite IH. lia. }
    unfold wrap. by rewrite Z.add_mod_idemp_l.
Qed.

(** ** Receiving messages *)
Definition gc_receive (c : GCounter) (msgs : list bytes) : res GCounter :=
  res_foldl (λ c m, let! (c, _) := gc_merge c m in Ok c) c msgs.
Definition ojoin (l : list (option Z)) : option Z := foldr omax None l.

Lemma gc_receive_get c msgs :
  gc_ok c → Forall (Forall is_u8) msgs →
  ∃ c', gc_receive c msgs = Ok c' ∧ gc_ok c' ∧
    ∀ n, gc_get c' n = omax (gc_get c n) (ojoin ((λ m, entries_get n (gc_wire m)) <$> msgs)).
Proof.
  intros Hc Hm. revert c Hc. induction Hm as [|m msgs Hm Hms IH]; intros c Hc.
  { exists c. split_and!; [done..|]. intros. by rewrite omax_None_r. }
  unfold gc_receive. cbn [res_foldl]. rewrite gc_merge_wire. cbn [res_bind].
  pose proof (gc_merge_entries_spec (gc_wire m) c false Hc (gc_wire_ok m Hm)) as H.
  destruct (foldl _ _ _) as [c1 ch]. destruct H as (Hc1 & _ & _ & Hg & _).
  destruct (IH c1 Hc1) as (c' & He & Hc' & Hg'). exists c'. split_and!; [done..|].
  intros n. rewrite Hg', Hg. csimpl. by rewrite omax_assoc.
Qed.

(** The join of a list depends on its elements only, not on order or
    multiplicity. *)
Lemma ojoin_absorb x l : x ∈ l → omax x (ojoin l) = ojoin l.
Proof.
  induction l as [|y l IH]; [set_solver|]. intros [->|H]%elem_of_cons; cbn [ojoin foldr].
  - by rewrite omax_assoc, omax_idemp.
  - rewrite omax_assoc, (omax_comm x y), <-omax_assoc. f_equal. by apply IH.
Qed.
Lemma ojoin_subset l1 l2 : (∀ x, x ∈ l1 → x ∈ l2) → omax (ojoin l1) (ojoin l2) = ojoin l2.
Proof.
  induction l1 as [|x l1 IH]; intros Hs; [apply omax_None_l|].
  change (ojoin (x :: l1)) with (omax x (ojoin l1)).
  rewrite <-omax_assoc. rewrite IH by set_solver. apply ojoin_absorb. set_solver.
Qed.
Lemma ojoin_ext l1 l2 : (∀ x, x ∈ l1 ↔ x ∈ l2) → ojoin l1 = ojoin l2.
Proof.
  intros H. rewrite <-(ojoin_subset l2 l1) by apply H.
  rewrite omax_comm. apply ojoin_subset, H.
Qed.

(** ** The claims *)

(** [merge] accepts any byte string: it never reads outside it, keeps the
    counter well formed, makes every node's count the maximum of the local
    count and of the counts the message carries for that node (a malformed
    message carries none), and returns true exactly when some count changed. *)
Theorem g_counter_merge_join (c : GCounter) (data : bytes) :
  gc_ok c → wf_bytes data →
  ∃ c' changed, gc_merge c data = Ok (c', changed) ∧ gc_ok c' ∧
    gc_node_id c' = gc_node_id c ∧ gc_has_pending_delta c' = gc_has_pending_delta c ∧
    (∀ n, gc_get c' n = omax (gc_get c n) (entries_get n (gc_wire data))) ∧
    (changed = true ↔ ∃ n, gc_get c' n ≠ gc_get c n).
Proof.
  intros Hc Hd. rewrite gc_merge_wire.
  pose proof (gc_merge_entries_spec (gc_wire data) c false Hc (gc_wire_ok _ Hd)) as H.
  destruct (foldl _ _ _) as [c' ch]. destruct H as (Hok & Hi & Hdi & Hg & Hf).
  exists c', ch. split_and!; try done. rewrite Hf. naive_solver.
Qed.
Lemma g_counter_merge_join_witness :
  ∃ c' changed, gc_merge (gc_new 1) [1; 0;2; 0;0;0;0; 0;0;1;7] = Ok (c', changed) ∧ gc_ok c' ∧
    gc_node_id c' = 1 ∧ gc_has_pending_delta c' = false ∧
    (∀ n, gc_get c' n = omax (gc_get (gc_new 1) n)
            (entries_get n (gc_wire [1; 0;2; 0;0;0;0; 0;0;1;7]))) ∧
    (changed = true ↔ ∃ n, gc_get c' n ≠ gc_get (gc_new 1) n).
Proof. apply (g_counter_merge_join (gc_new 1)); by_decide. Defined.


(** [increment] adds to the total (modulo 2^64) and marks the counter
    dirty; the next [delta] clears the mark and, merged by any replica, raises
    that replica's count of this node to at least the local one and touches no
    other node; [snapshot] of at most 255 entries transfers every count. *)
Theorem g_counter_replication (c d : GCounter) (amount : Z) :
  gc_ok c → gc_ok d → is_u64 amount → (length (gc_entries c) ≤ 255)%nat →
  let c1 := gc_increment c amount in
  gc_ok c1 ∧ gc_has_pending_delta c1 = true ∧
  gc_local_count c1 = u64 (gc_local_count c + amount) ∧
  gc_value c1 = u64 (gc_value c + amount) ∧
  (∃ c2 bs d' ch, gc_delta c1 = Ok (c2, bs) ∧ gc_has_pending_delta c2 = false ∧
     gc_entries c2 = gc_entries c1 ∧ gc_merge d bs = Ok (d', ch) ∧
     ∀ n, gc_get d' n = if n =? gc_node_id c
                        then omax (gc_get d n) (Some (gc_local_count c1)) else gc_get d n) ∧
  (∃ bs d' ch, gc_snapshot c = Ok bs ∧ gc_merge d bs = Ok (d', ch) ∧
     ∀ n, gc_get d' n = omax (gc_get d n) (gc_get c n)).
Proof.
  intros Hc Hd Ha Hn c1. assert (gc_ok c1) as Hc1 by by apply gc_increment_ok.
  pose proof (gc_increment_find c amount Hc Ha) as Hf. fold c1 in Hf.
  split_and!; try done.
  - by apply gc_increment_local.
  - by apply gc_increment_value.
  - rewrite gc_delta_Ok. change (gc_dirty c1) with true. cbv iota.
    change (gc_node_id c1) with (gc_node_id c). rewrite Hf.
    set (e := {| ge_node_id := _; ge_count := _ |}) in *.
    assert (gc_entry_ok e) as He by (split; [apply Hc|apply u64_is_u]).
    do 2 eexists. rewrite gc_merge_wire, <-(app_nil_r (gc_bytes [e])).
    rewrite gc_wire_bytes by first [by apply Forall_singleton | simpl; lia].
    pose proof (gc_merge_entries_spec [e] d false Hd ltac:(by constructor)) as H.
    destruct (foldl _ _ _) as [d' ch]. destruct H as (_ & _ & _ & Hg & _).
    exists d', ch. split_and!; try done. intros n. unfold c1 at 1.
    rewrite Hg, gc_increment_local, entries_get_cons by done.
    rewrite Z.eqb_sym. cbn [ge_node_id e]. by destruct (n =? gc_node_id c); rewrite !omax_None_r.
  - rewrite gc_snapshot_Ok. eexists. rewrite gc_merge_wire, <-(app_nil_r (gc_bytes _)).
    destruct Hc as (Hi & Hnd & Hr). rewrite gc_wire_bytes by done.
    pose proof (gc_merge_entries_spec (gc_entries c) d false Hd Hr) as H.
    destruct (foldl _ _ _) as [d' ch]. destruct H as (_ & _ & _ & Hg & _).
    exists d', ch. split_and!; try done. intros n. rewrite Hg. f_equal.
    by apply entries_get_find.
Qed.
Lemma g_counter_replication_witness :
  gc_value (gc_increment (gc_new 1) 5) = 5 ∧
  ∃ bs d' ch, gc_snapshot (gc_new 1) = Ok bs ∧ gc_merge (gc_new 2) bs = Ok (d', ch) ∧
     ∀ n, gc_get d' n = omax (gc_get (gc_new 2) n) (gc_get (gc_new 1) n).
Proof.
  destruct (g_counter_replication (gc_new 1) (gc_new 2) 5) as (_ & _ & _ & H & _ & H2);
    [by_decide..|]. split; [exact H|exact H2].
Defined.
