(* ===== verification/PnCounter.v ===== *)
(** * PN-Counter

    Models [include/protocoll/state/crdt/pn_counter.h] and
    [src/state/crdt/pn_counter.cpp]: two G-counters and a wire format that
    concatenates theirs. *)
From S2P Require Import Prelude Platform GCounter.

Record PnCounter := { pn_p : GCounter; pn_n : GCounter }.
#[global] Instance PnCounter_eq_dec : EqDecision PnCounter.
Proof. solve_decision. Defined.

Definition pn_new (node_id : Z) : PnCounter := {| pn_p := gc_new node_id; pn_n := gc_new node_id |}.
Definition pn_increment (c : PnCounter) (amount : Z) : PnCounter :=
  {| pn_p := gc_increment (pn_p c) amount; pn_n := pn_n c |}.
Definition pn_decrement (c : PnCounter) (amount : Z) : PnCounter :=
  {| pn_p := pn_p c; pn_n := gc_increment (pn_n c) amount |}.

(** [static_cast<int64_t>(p) - static_cast<int64_t>(n)]: a signed subtraction,
    undefined when the difference leaves the [int64_t] range. *)
Definition pn_value (c : PnCounter) : res Z :=
  let v := i64 (gc_value (pn_p c)) - i64 (gc_value (pn_n c)) in
  if (- 2 ^ 63 <=? v) && (v <? 2 ^ 63) then Ok v else Oob.

Definition pn_has_pending_delta (c : PnCounter) : bool :=
  gc_has_pending_delta (pn_p c) || gc_has_pending_delta (pn_n c).

Definition pn_merge (c : PnCounter) (data : bytes) : res (PnCounter * bool) :=
  if (length data <? 2)%nat then Ok (c, false) else
  let! p_count := get8 data 0 in
  let p_size := (1 + Z.to_nat p_count * gc_ENTRY_WIRE_SIZE)%nat in
  if (length data <? p_size + 1)%nat then Ok (c, false) else
  let! p_data := slice data 0 p_size in
  let! (p, changed_p) := gc_merge (pn_p c) p_data in
  let! n_data := slice data p_size (length data - p_size) in
  let! (n, changed_n) := gc_merge (pn_n c) n_data in
  Ok ({| pn_p := p; pn_n := n |}, changed_p || changed_n).

Definition pn_snapshot (c : PnCounter) : res bytes :=
  let! p_snap := gc_snapshot (pn_p c) in
  let! n_snap := gc_snapshot (pn_n c) in
  Ok (p_snap ++ n_snap).
Definition pn_delta (c : PnCounter) : res (PnCounter * bytes) :=
  let half g := if gc_has_pending_delta g then gc_delta g
                else let! s := gc_snapshot g in Ok (g, s) in
  let! (p, p_part) := half (pn_p c) in
  let! (n, n_part) := half (pn_n c) in
  Ok ({| pn_p := p; pn_n := n |}, p_part ++ n_part).

Definition pn_ok (c : PnCounter) : Prop := gc_ok (pn_p c) ∧ gc_ok (pn_n c).
#[global] Instance pn_ok_dec c : Decision (pn_ok c).
Proof. unfold pn_ok; apply _. Defined.

(** The entries a message carries for each half. *)
Definition pn_wire (data : bytes) : list GCounterEntry * list GCounterEntry :=
  match data with
  | b :: _ :: _ =>
      let p_size := (1 + Z.to_nat b * gc_ENTRY_WIRE_SIZE)%nat in
      if (length data <? p_size + 1)%nat then ([], [])
      else (gc_wire (take p_size data), gc_wire (drop p_size data))
  | _ => ([], [])
  end.

Lemma pn_merge_wire c data :
  pn_merge c data =
    Ok ({| pn_p := (foldl gc_merge_entry (pn_p c, false) (pn_wire data).1).1;
           pn_n := (foldl gc_merge_entry (pn_n c, false) (pn_wire data).2).1 |},
        (foldl gc_merge_entry (pn_p c, false) (pn_wire data).1).2 ||
        (foldl gc_merge_entry (pn_n c, false) (pn_wire data).2).2).
Proof.
  unfold pn_merge, pn_wire. destruct data as [|b [|b' data]]; [by destruct c..|].
  change (length (b :: b' :: data) <? 2)%nat with false. rewrite get8_head. cbn [res_bind].
  destruct (Nat.ltb_spec (length (b :: b' :: data))
    (1 + Z.to_nat b * gc_ENTRY_WIRE_SIZE + 1)) as [|Hl]; [by destruct c|].
  rewrite slice_Ok by lia. cbn [res_bind fst snd]. rewrite gc_merge_wire, drop_0. cbn [res_bind].
  destruct (foldl gc_merge_entry (pn_p c, false) _) as [p chp].
  rewrite slice_Ok by lia. cbn [res_bind]. rewrite gc_merge_wire. cbn [res_bind].
  rewrite (take_ge (drop _ _)) by (rewrite length_drop; lia).
  by destruct (foldl gc_merge_entry (pn_n c, false) _) as [n chn].
Qed.
Lemma pn_wire_ok data :
  wf_bytes data → Forall gc_entry_ok (pn_wire data).1 ∧ Forall gc_entry_ok (pn_wire data).2.
Proof.
  intros Hd. unfold pn_wire. destruct data as [|b [|b' data]]; [done..|].
  destruct (_ <? _)%nat; [done|]. split; apply gc_wire_ok; [by apply Forall_take|by apply Forall_drop].
Qed.
Lemma gc_bytes_length es : length (gc_bytes es) = (1 + length es * gc_ENTRY_WIRE_SIZE)%nat.
Proof.
  unfold gc_bytes. cbn [length].
  by rewrite (length_encs gc_ENTRY_WIRE_SIZE gc_entry_bytes length_gc_entry_bytes).
Qed.
Lemma pn_wire_bytes ps ns :
  Forall gc_entry_ok ps → Forall gc_entry_ok ns →
  (length ps ≤ 255)%nat → (length ns ≤ 255)%nat →
  pn_wire (gc_bytes ps ++ gc_bytes ns) = (ps, ns).
Proof.
  intros Hp Hn Lp Ln. pose proof (gc_bytes_length ps) as Bp.
  unfold pn_wire. destruct (gc_bytes ps ++ gc_bytes ns) as [|b [|b' l]] eqn:E; [done|..].
  { apply (f_equal length) in E. rewrite length_app, !gc_bytes_length in E. simpl in E. lia. }
  assert (b = Z.of_nat (length ps)) as ->.
  { unfold gc_bytes in E. injection E as E _. rewrite <-E. apply wrap_id. zify_u. lia. }
  rewrite <-E, Nat2Z.id, <-Bp.
  rewrite (proj2 (Nat.ltb_ge _ _)) by (rewrite length_app, (gc_bytes_length ns); lia).
  rewrite take_app_length, drop_app_length.
  rewrite <-(app_nil_r (gc_bytes ps)), <-(app_nil_r (gc_bytes ns)).
  by rewrite !gc_wire_bytes.
Qed.

(** Entries a half of [delta] carries. *)
Definition pn_half_entries (g : GCounter) : list GCounterEntry :=
  if gc_dirty g then match gc_find g (gc_node_id g) with Some e => [e] | None => [] end
  else gc_entries g.

(** ** The claims *)

(** [merge] is safe on arbitrary bytes and joins each half with the counts
    the corresponding part of the message carries; it returns true exactly when
    a count of either half changed. *)
Theorem pn_counter_merge_join (c : PnCounter) (data : bytes) :
  pn_ok c → wf_bytes data →
  ∃ c' changed, pn_merge c data = Ok (c', changed) ∧ pn_ok c' ∧
    (∀ n, gc_get (pn_p c') n = omax (gc_get (pn_p c) n) (entries_get n (pn_wire data).1)) ∧
    (∀ n, gc_get (pn_n c') n = omax (gc_get (pn_n c) n) (entries_get n (pn_wire data).2)) ∧
    (changed = true ↔ ∃ n, gc_get (pn_p c') n ≠ gc_get (pn_p c) n ∨
                           gc_get (pn_n c') n ≠ gc_get (pn_n c) n).
Proof.
  intros [Hp Hn] Hd. rewrite pn_merge_wire. destruct (pn_wire_ok data Hd) as [Wp Wn].
  pose proof (gc_merge_entries_spec _ _ false Hp Wp) as H1.
  pose proof (gc_merge_entries_spec _ _ false Hn Wn) as H2.
  destruct (foldl _ (pn_p c, false) _) as [p chp], (foldl _ (pn_n c, false) _) as [n chn].
  destruct H1 as (? & _ & _ & ? & F1), H2 as (? & _ & _ & ? & F2).
  do 2 eexists. split; [done|]. cbn [fst snd pn_p pn_n]. split_and!; try done.
  rewrite orb_true_iff, F1, F2. naive_solver.
Qed.
Lemma pn_counter_merge_join_witness :
  ∃ c' changed, pn_merge (pn_new 1) [0; 1; 0;2; 0;0;0;0; 0;0;1;7] = Ok (c', changed) ∧ pn_ok c' ∧
    (∀ n, gc_get (pn_p c') n = omax (gc_get (pn_p (pn_new 1)) n)
            (entries_get n (pn_wire [0; 1; 0;2; 0;0;0;0; 0;0;1;7]).1)) ∧
    (∀ n, gc_get (pn_n c') n = omax (gc_get (pn_n (pn_new 1)) n)
            (entries_get n (pn_wire [0; 1; 0;2; 0;0;0;0; 0;0;1;7]).2)) ∧
    (changed = true ↔ ∃ n, gc_get (pn_p c') n ≠ gc_get (pn_p (pn_new 1)) n ∨
                           gc_get (pn_n c') n ≠ gc_get (pn_n (pn_new 1)) n).
Proof. apply (pn_counter_merge_join (pn_new 1)); by_decide. Defined.

(** what [snapshot] and [delta] put on the wire. A snapshot merged by
    another replica transfers every count of both halves; [delta] sends, for
    each half, the own entry when the half changed and the whole half
    otherwise, so it is never empty, even with no pending change. *)
Theorem pn_counter_replication (c d : PnCounter) :
  pn_ok c → pn_ok d →
  (length (gc_entries (pn_p c)) ≤ 255)%nat → (length (gc_entries (pn_n c)) ≤ 255)%nat →
  (∃ bs d' ch, pn_snapshot c = Ok bs ∧ pn_merge d bs = Ok (d', ch) ∧
     ∀ n, gc_get (pn_p d') n = omax (gc_get (pn_p d) n) (gc_get (pn_p c) n) ∧
          gc_get (pn_n d') n = omax (gc_get (pn_n d) n) (gc_get (pn_n c) n)) ∧
  (pn_has_pending_delta c = false →
     ∃ bs, pn_snapshot c = Ok bs ∧ bs ≠ [] ∧ pn_delta c = Ok (c, bs)) ∧
  (gc_find (pn_p c) (gc_node_id (pn_p c)) ≠ None →
   gc_find (pn_n c) (gc_node_id (pn_n c)) ≠ None →
   ∃ c' bs d' ch, pn_delta c = Ok (c', bs) ∧ pn_has_pending_delta c' = false ∧
     pn_merge d bs = Ok (d', ch) ∧
     ∀ n, gc_get (pn_p d') n =
            omax (gc_get (pn_p d) n) (entries_get n (pn_half_entries (pn_p c))) ∧
          gc_get (pn_n d') n =
            omax (gc_get (pn_n d) n) (entries_get n (pn_half_entries (pn_n c)))).
Proof.
  intros (Hp & Hn) [Dp Dn] Lp Ln.
  assert (∀ ps ns, Forall gc_entry_ok ps → Forall gc_entry_ok ns →
    (length ps ≤ 255)%nat → (length ns ≤ 255)%nat →
    ∃ d' ch, pn_merge d (gc_bytes ps ++ gc_bytes ns) = Ok (d', ch) ∧ ∀ n,
      gc_get (pn_p d') n = omax (gc_get (pn_p d) n) (entries_get n ps) ∧
      gc_get (pn_n d') n = omax (gc_get (pn_n d) n) (entries_get n ns)) as Hm.
  { intros ps ns Fp Fn Kp Kn. rewrite pn_merge_wire, pn_wire_bytes by done. cbn [fst snd].
    pose proof (gc_merge_entries_spec ps _ false Dp Fp) as H1.
    pose proof (gc_merge_entries_spec ns _ false Dn Fn) as H2.
    destruct (foldl _ (pn_p d, false) _), (foldl _ (pn_n d, false) _).
    do 2 eexists. split; [done|]. intros n. split; [apply H1|apply H2]. }
  destruct Hp as (Pi & Pnd & Pr), Hn as (Ni & Nnd & Nr). split_and!.
  - unfold pn_snapshot. rewrite !gc_snapshot_Ok. cbn [res_bind].
    destruct (Hm _ _ Pr Nr Lp Ln) as (d' & ch & He & Hg). exists (gc_bytes (gc_entries (pn_p c)) ++
      gc_bytes (gc_entries (pn_n c))), d', ch. split_and!; [done..|]. intros n.
    destruct (Hg n) as [-> ->]. by rewrite !entries_get_find.
  - intros [E1 E2]%orb_false_iff. unfold pn_snapshot, pn_delta.
    rewrite E1, E2, !gc_snapshot_Ok. cbn [res_bind]. eexists. split; [done|].
    split; [done|]. by destruct c.
  - intros Fp Fn.
    assert (∀ g, gc_find g (gc_node_id g) ≠ None →
      (if gc_has_pending_delta g then gc_delta g else let! s := gc_snapshot g in Ok (g, s)) =
      Ok (gc_clean g, gc_bytes (pn_half_entries g))) as Hh.
    { intros g Hg. unfold gc_has_pending_delta, pn_half_entries.
      rewrite gc_delta_Ok, gc_snapshot_Ok. destruct (gc_dirty g) eqn:Eg.
      - by destruct (gc_find g _).
      - destruct g; simpl in *. by subst. }
    unfold pn_delta. cbv zeta. rewrite !Hh by done. cbn [res_bind].
    assert (∀ g, Forall gc_entry_ok (gc_entries g) → (length (gc_entries g) ≤ 255)%nat →
      Forall gc_entry_ok (pn_half_entries g) ∧ (length (pn_half_entries g) ≤ 255)%nat) as Hb.
    { intros g Hg Hl. unfold pn_half_entries. destruct (gc_dirty g); [|done].
      destruct (gc_find g _) as [e|] eqn:Ee; [|split; [done|simpl; lia]].
      apply find_key_Some in Ee as [He _]. rewrite Forall_singleton. simpl.
      split; [by eapply Forall_forall in Hg|lia]. }
    destruct (Hb _ Pr Lp), (Hb _ Nr Ln).
    destruct (Hm (pn_half_entries (pn_p c)) (pn_half_entries (pn_n c))) as (d' & ch & He & Hg);
      [done..|]. eexists _, _, d', ch. split_and!; done.
Qed.
Lemma pn_counter_replication_witness :
  ∃ bs, pn_snapshot (pn_new 1) = Ok bs ∧ bs ≠ [] ∧ pn_delta (pn_new 1) = Ok (pn_new 1, bs).
Proof. apply (pn_counter_replication (pn_new 1) (pn_new 2)); by_decide. Defined.
