(* ===== verification/LwwRegister.v ===== *)
(** * LWW-Register

    Models [include/protocoll/state/crdt/lww_register.h] and
    [src/state/crdt/lww_register.cpp].  A register is a stamped value; the
    stamp is the pair (timestamp, node) under the lexicographic order. *)
From S2P Require Import Prelude Platform.

Record LwwRegister := {
  lww_value : bytes; lww_timestamp : Z; lww_node_id : Z; lww_dirty : bool
}.
#[global] Instance LwwRegister_eq_dec : EqDecision LwwRegister.
Proof. solve_decision. Defined.

Definition lww_HEADER_SIZE : nat := 6.

Definition lww_new (node_id : Z) : LwwRegister :=
  {| lww_value := []; lww_timestamp := 0; lww_node_id := node_id; lww_dirty := false |}.

Definition lww_set (r : LwwRegister) (data : bytes) (timestamp_us : Z) : LwwRegister :=
  {| lww_value := data; lww_timestamp := timestamp_us; lww_node_id := lww_node_id r;
     lww_dirty := true |}.
Definition lww_empty (r : LwwRegister) : bool :=
  bool_decide (lww_value r = []) && (lww_timestamp r =? 0).

Definition lww_incoming_wins (r : LwwRegister) (ts node : Z) : bool :=
  if lww_timestamp r <? ts then true
  else (ts =? lww_timestamp r) && (lww_node_id r <? node).

Definition lww_merge (r : LwwRegister) (data : bytes) : res (LwwRegister * bool) :=
  if (length data <? lww_HEADER_SIZE)%nat then Ok (r, false) else
  let! ts := read_u32 data 0 in
  let! node := read_u16 data 4 in
  if lww_incoming_wins r ts node then
    let! v := slice data lww_HEADER_SIZE (length data - lww_HEADER_SIZE) in
    Ok ({| lww_value := v; lww_timestamp := ts; lww_node_id := node;
           lww_dirty := lww_dirty r |}, true)
  else Ok (r, false).

Definition lww_encode_state (r : LwwRegister) : res bytes :=
  let buf := replicate (lww_HEADER_SIZE + length (lww_value r)) 0 in
  let! buf := write_u32 buf 0 (lww_timestamp r) in
  let! buf := write_u16 buf 4 (lww_node_id r) in
  if bool_decide (lww_value r = []) then Ok buf
  else store buf lww_HEADER_SIZE (lww_value r).
Definition lww_snapshot (r : LwwRegister) : res bytes := lww_encode_state r.
Definition lww_delta (r : LwwRegister) : res (LwwRegister * bytes) :=
  if negb (lww_dirty r) then Ok (r, []) else
  let r := {| lww_value := lww_value r; lww_timestamp := lww_timestamp r;
              lww_node_id := lww_node_id r; lww_dirty := false |} in
  let! bs := lww_encode_state r in Ok (r, bs).
Definition lww_has_pending_delta (r : LwwRegister) : bool := lww_dirty r.

Definition lww_ok (r : LwwRegister) : Prop :=
  is_u32 (lww_timestamp r) ∧ is_u16 (lww_node_id r) ∧ wf_bytes (lww_value r).
#[global] Instance lww_ok_dec r : Decision (lww_ok r).
Proof. unfold lww_ok; apply _. Defined.

(** ** Abstract view: a stamped value *)
Definition stamped : Type := Z * Z * bytes.
Definition lww_view (r : LwwRegister) : stamped := (lww_timestamp r, lww_node_id r, lww_value r).
Definition stamp_lt (a b : stamped) : bool :=
  let '(t1, n1, _) := a in let '(t2, n2, _) := b in
  (t1 <? t2) || ((t2 =? t1) && (n1 <? n2)).
Definition stamp_max (a b : stamped) : stamped := if stamp_lt a b then b else a.

(** The stamped value a message carries. *)
Definition lww_wire (data : bytes) : option stamped :=
  match read_u32 data 0, read_u16 data 4 with
  | Ok ts, Ok node => Some (ts, node, drop lww_HEADER_SIZE data)
  | _, _ => None
  end.
Definition lww_view_merge (a : stamped) (m : option stamped) : stamped :=
  match m with Some b => stamp_max a b | None => a end.

Lemma read_u32_Ok p off : (off + 4 ≤ length p)%nat → ∃ v, read_u32 p off = Ok v.
Proof. intros. unfold read_u32. rewrite slice_Ok by done. cbn. eauto. Qed.
Lemma read_u16_Ok p off : (off + 2 ≤ length p)%nat → ∃ v, read_u16 p off = Ok v.
Proof. intros. unfold read_u16. rewrite slice_Ok by done. cbn. eauto. Qed.
Lemma read_u16_Oob p off : (length p < off + 2)%nat → read_u16 p off = Oob.
Proof. intros. unfold read_u16, slice. by rewrite decide_False by lia. Qed.

Lemma lww_merge_view r data :
  ∃ r' ch, lww_merge r data = Ok (r', ch) ∧
    lww_view r' = lww_view_merge (lww_view r) (lww_wire data) ∧
    lww_dirty r' = lww_dirty r ∧
    ch = match lww_wire data with Some w => stamp_lt (lww_view r) w | None => false end.
Proof.
  unfold lww_merge, lww_wire, lww_HEADER_SIZE.
  destruct (Nat.ltb_spec (length data) 6) as [Hl|Hl].
  - exists r, false. rewrite (read_u16_Oob data 4) by lia. by destruct (read_u32 data 0).
  - destruct (read_u32_Ok data 0) as [ts ->]; [lia|].
    destruct (read_u16_Ok data 4) as [node ->]; [lia|]. cbn [res_bind lww_view_merge].
    unfold stamp_max, stamp_lt, lww_incoming_wins, lww_view.
    rewrite slice_Ok by lia. rewrite take_ge by (rewrite length_drop; lia). cbn [res_bind].
    destruct (lww_timestamp r <? ts); cbn [orb]; [by do 2 eexists|].
    destruct (_ && _); by do 2 eexists.
Qed.
Lemma lww_wire_ok data ts node v :
  wf_bytes data → lww_wire data = Some (ts, node, v) →
  is_u32 ts ∧ is_u16 node ∧ wf_bytes v.
Proof.
  intros Hd. unfold lww_wire. destruct (read_u32 data 0) eqn:E1; [|done..].
  destruct (read_u16 data 4) eqn:E2; intros [= <- <- <-].
  apply read_u32_range in E1; [|done]. apply read_u16_range in E2; [|done].
  split_and!; [done..|by apply Forall_drop].
Qed.
Lemma lww_merge_ok r data r' ch :
  lww_ok r → wf_bytes data → lww_merge r data = Ok (r', ch) → lww_ok r'.
Proof.
  intros Hr Hd Hm. destruct (lww_merge_view r data) as (r1 & ch1 & He & Hv & _).
  rewrite Hm in He. injection He as <- _. unfold lww_view_merge, lww_view in Hv.
  unfold lww_ok. destruct (lww_wire data) as [[[ts node] v]|] eqn:E;
    [|by injection Hv as -> -> ->].
  apply lww_wire_ok in E; [|done]. unfold stamp_max in Hv. destruct Hr as (? & ? & ?), E as (? & ? & ?).
  destruct (stamp_lt _ _); injection Hv as -> -> ->; done.
Qed.

Definition lww_bytes (r : LwwRegister) : bytes :=
  be32 (lww_timestamp r) ++ be16 (lww_node_id r) ++ lww_value r.
Lemma lww_encode_state_Ok r : lww_encode_state r = Ok (lww_bytes r).
Proof.
  unfold lww_encode_state, lww_bytes, lww_HEADER_SIZE. set (z := replicate _ 0).
  assert (length z = 6 + length (lww_value r))%nat as Hz by apply length_replicate.
  rewrite write_u32_be, store_head by (rewrite length_be32; lia). cbn [res_bind].
  rewrite write_u16_be, store_skip32, store_head
    by (rewrite length_be16, length_drop, length_be32; lia). cbn [res_bind].
  rewrite drop_drop, length_be32, length_be16. cbn [Nat.add]. case_bool_decide as Hv.
  - rewrite Hv in *. by rewrite drop_ge by (rewrite Hz; simpl; lia).
  - rewrite store_skip32, store_skip16, store_head by (rewrite length_drop; lia). cbn [res_bind].
    rewrite drop_drop, drop_ge by lia. by rewrite app_nil_r.
Qed.
Lemma lww_wire_bytes r : lww_ok r → lww_wire (lww_bytes r) = Some (lww_view r).
Proof.
  intros (Ht & Hn & _). unfold lww_wire, lww_bytes.
  rewrite read_u32_head, read_u16_skip32, read_u16_head by done. done.
Qed.
Lemma lww_bytes_wf r : lww_ok r → wf_bytes (lww_bytes r).
Proof. intros (_ & _ & ?). repeat apply Forall_app_2; auto with rom. Qed.

(** ** Order facts *)
Lemma stamp_lt_trans a b c : stamp_lt a b = true → stamp_lt b c = true → stamp_lt a c = true.
Proof.
  destruct a as [[??]?], b as [[??]?], c as [[??]?]. unfold stamp_lt.
  rewrite !orb_true_iff, !andb_true_iff, !Z.ltb_lt, !Z.eqb_eq. lia.
Qed.
Lemma stamp_lt_asym a b : stamp_lt a b = true → stamp_lt b a = true → False.
Proof.
  destruct a as [[??]?], b as [[??]?]. unfold stamp_lt.
  rewrite !orb_true_iff, !andb_true_iff, !Z.ltb_lt, !Z.eqb_eq. lia.
Qed.
(** [S] never holds two values under one stamp. *)
Definition stamps_unique (S : stamped → Prop) : Prop :=
  ∀ a b, S a → S b → stamp_lt a b = false → stamp_lt b a = false → a = b.

Lemma stamp_max_cases a b : stamp_max a b = a ∨ stamp_max a b = b.
Proof. unfold stamp_max. destruct (stamp_lt a b); auto. Qed.
Lemma stamp_max_ge a b : stamp_lt (stamp_max a b) a = false ∧ stamp_lt (stamp_max a b) b = false.
Proof.
  unfold stamp_max. destruct (stamp_lt a b) eqn:E; split; try done.
  all: apply not_true_is_false; intros H; by eapply stamp_lt_asym.
Qed.
Lemma stamp_ge_trans a b c :
  stamp_lt b a = false → stamp_lt c b = false → stamp_lt c a = false.
Proof.
  destruct a as [[??]?], b as [[??]?], c as [[??]?]. unfold stamp_lt.
  rewrite !orb_false_iff, !andb_false_iff, !Z.ltb_ge, !Z.eqb_neq. lia.
Qed.

(** Folding [merge] over messages keeps a maximal element of what was seen. *)
Lemma lww_fold_max a ms :
  let r := foldl lww_view_merge a ms in
  (r = a ∨ Some r ∈ ms) ∧ stamp_lt r a = false ∧ (∀ b, Some b ∈ ms → stamp_lt r b = false).
Proof.
  revert a. induction ms as [|m ms IH]; intros a; simpl.
  { split_and!; [by left| |set_solver]. apply not_true_is_false. intros H.
    by eapply stamp_lt_asym. }
  destruct (IH (lww_view_merge a m)) as (H1 & H2 & H3). destruct m as [b|]; simpl in *.
  - destruct (stamp_max_ge a b) as [G1 G2]. split_and!.
    + destruct H1 as [->|]; [|set_solver]. destruct (stamp_max_cases a b) as [->| ->]; set_solver.
    + by eapply stamp_ge_trans.
    + intros x [[= ->]|Hx]%elem_of_cons; [by eapply stamp_ge_trans|by apply H3].
  - split_and!; [set_solver|done|]. intros x [?|Hx]%elem_of_cons; [done|by apply H3].
Qed.

Definition lww_receive (r : LwwRegister) (msgs : list bytes) : res LwwRegister :=
  res_foldl (λ r m, let! (r, _) := lww_merge r m in Ok r) r msgs.
Lemma lww_receive_view r msgs :
  ∃ r', lww_receive r msgs = Ok r' ∧
        lww_view r' = foldl lww_view_merge (lww_view r) (lww_wire <$> msgs).
Proof.
  revert r. induction msgs as [|m msgs IH]; intros r; [by exists r|].
  unfold lww_receive. cbn [res_foldl]. destruct (lww_merge_view r m) as (r1 & ch & -> & Hv & _).
  cbn [res_bind]. destruct (IH r1) as (r' & He & Hv'). exists r'. split; [done|].
  csimpl. by rewrite Hv', Hv.
Qed.

(** ** The claims *)

(** [merge] is total and safe on arbitrary bytes: a message shorter than
    the header leaves the register alone, any other replaces the stamped value
    exactly when its (timestamp, node) stamp is lexicographically greater, and
    the returned flag says whether it did; snapshot and delta carry the stamp
    and the value unchanged, and delta clears the pending mark. *)
Theorem lww_merge_max (r s : LwwRegister) (data : bytes) :
  lww_ok r → lww_ok s → wf_bytes data →
  (∃ r' ch, lww_merge r data = Ok (r', ch) ∧ lww_ok r' ∧
     lww_view r' = lww_view_merge (lww_view r) (lww_wire data) ∧
     lww_has_pending_delta r' = lww_has_pending_delta r ∧
     ch = match lww_wire data with Some w => stamp_lt (lww_view r) w | None => false end) ∧
  (∃ bs s' ch, lww_snapshot r = Ok bs ∧ lww_merge s bs = Ok (s', ch) ∧
     lww_view s' = stamp_max (lww_view s) (lww_view r)) ∧
  (lww_has_pending_delta r = true → ∃ r' bs, lww_delta r = Ok (r', bs) ∧
     lww_snapshot r = Ok bs ∧ lww_view r' = lww_view r ∧ lww_has_pending_delta r' = false).
Proof.
  intros Hr Hs Hd. split_and!.
  - destruct (lww_merge_view r data) as (r' & ch & He & ? & ? & ?). exists r', ch.
    split_and!; try done. exact (lww_merge_ok r data r' ch Hr Hd He).
  - unfold lww_snapshot. rewrite lww_encode_state_Ok.
    destruct (lww_merge_view s (lww_bytes r)) as (s' & ch & He & Hv & _).
    exists (lww_bytes r), s', ch. split_and!; try done. by rewrite Hv, lww_wire_bytes.
  - unfold lww_has_pending_delta, lww_delta, lww_snapshot. intros ->. cbn [negb].
    rewrite !lww_encode_state_Ok. cbn [res_bind]. do 2 eexists. split_and!; reflexivity.
Qed.
Lemma lww_merge_max_witness :
  ∃ bs s' ch, lww_snapshot (lww_set (lww_new 3) [7; 8] 10) = Ok bs ∧
     lww_merge (lww_set (lww_new 1) [5] 10) bs = Ok (s', ch) ∧
     lww_view s' = stamp_max (lww_view (lww_set (lww_new 1) [5] 10))
                             (lww_view (lww_set (lww_new 3) [7; 8] 10)).
Proof.
  apply (lww_merge_max (lww_set (lww_new 3) [7; 8] 10) (lww_set (lww_new 1) [5] 10) []);
    by_decide.
Defined.

Lemma stamp_le_view r ts node value :
  stamp_lt (lww_view r) (ts, node, value) = false →
  ts < lww_timestamp r ∨ ts = lww_timestamp r ∧ node ≤ lww_node_id r.
Proof. unfold stamp_lt, lww_view. rewrite orb_false_iff, andb_false_iff, !Z.ltb_ge, Z.eqb_neq. lia. Qed.
(** C12: replicas converge. Two registers that start equal and receive the same
    set of messages, in any order and with duplications, hold the same stamped
    value, provided no two different values were ever written under one stamp.
    It is the initial one or one that a message carried, and none of these has a
    larger stamp: a later timestamp, or the same one and a larger node. *)
Theorem lww_convergence (r : LwwRegister) (l1 l2 : list bytes) :
  (∀ m, m ∈ l1 ↔ m ∈ l2) →
  stamps_unique (λ v, v = lww_view r ∨ Some v ∈ lww_wire <$> l1) →
  ∃ r1 r2, lww_receive r l1 = Ok r1 ∧ lww_receive r l2 = Ok r2 ∧ lww_view r1 = lww_view r2 ∧
    (lww_view r1 = lww_view r ∨ Some (lww_view r1) ∈ lww_wire <$> l1) ∧
    ∀ ts node value, lww_view r = (ts, node, value) ∨ Some (ts, node, value) ∈ lww_wire <$> l1 →
      ts < lww_timestamp r1 ∨ ts = lww_timestamp r1 ∧ node ≤ lww_node_id r1.
Proof.
  intros Hl Hu. destruct (lww_receive_view r l1) as (r1 & -> & H1).
  destruct (lww_receive_view r l2) as (r2 & -> & H2). exists r1, r2. split; [done|]. split; [done|].
  destruct (lww_fold_max (lww_view r) (lww_wire <$> l1)) as (A1 & B1 & C1).
  destruct (lww_fold_max (lww_view r) (lww_wire <$> l2)) as (A2 & B2 & C2).
  rewrite <-H1 in *. rewrite <-H2 in *.
  assert (∀ x, x ∈ lww_wire <$> l1 ↔ x ∈ lww_wire <$> l2) as Hx by set_solver.
  split; [apply Hu|split; [done|]].
  - destruct A1; auto.
  - destruct A2 as [|A2]; [auto|]. right. by apply Hx.
  - destruct A2 as [->|A2]; [done|]. by apply C1, Hx.
  - destruct A1 as [->|A1]; [done|]. by apply C2, Hx.
  - intros ts node value Hv. apply (stamp_le_view r1 ts node value).
    destruct Hv as [<-|Hv]; [done|by apply C1].
Qed.
Lemma lww_convergence_witness :
  let m1 := [0;0;0;9; 0;1; 65] in let m2 := [0;0;0;9; 0;2; 66] in
  ∃ r1 r2, lww_receive (lww_new 7) [m1; m2] = Ok r1 ∧ lww_receive (lww_new 7) [m2; m1; m2] = Ok r2 ∧
    lww_view r1 = lww_view r2 ∧
    (lww_view r1 = lww_view (lww_new 7) ∨ Some (lww_view r1) ∈ lww_wire <$> [m1; m2]) ∧
    ∀ ts node value, lww_view (lww_new 7) = (ts, node, value) ∨ Some (ts, node, value) ∈ lww_wire <$> [m1; m2] →
      ts < lww_timestamp r1 ∨ ts = lww_timestamp r1 ∧ node ≤ lww_node_id r1.
Proof.
  apply (lww_convergence (lww_new 7)).
  - intros m. rewrite !elem_of_cons, elem_of_nil. tauto.
  - intros a b Ha Hb. cbn in Ha, Hb. rewrite !elem_of_cons, elem_of_nil in Ha, Hb.
    destruct Ha as [->|[[= ->]|[[= ->]|[]]]], Hb as [->|[[= ->]|[[= ->]|[]]]];
      vm_compute; congruence.
Defined.

(** [merge] overwrites the register's own node id with the winner's, and
    [set] then stamps local writes with it. Two nodes that wrote different
    values at the same time can so carry the same stamp; after exchanging their
    snapshots both keep their own value, and the replicas have diverged. *)
Theorem lww_tie_divergence :
  ∃ (a b : LwwRegister) (ma mb : bytes),
    (let b0 := lww_set (lww_new 2) [1] 1 in
     b = lww_set b0 [66] 5 ∧
     ∃ m a1, lww_snapshot b0 = Ok m ∧ lww_merge (lww_new 1) m = Ok (a1, true) ∧
             a = lww_set a1 [65] 5) ∧
    lww_snapshot a = Ok ma ∧ lww_snapshot b = Ok mb ∧
    lww_merge a mb = Ok (a, false) ∧ lww_merge b ma = Ok (b, false) ∧
    lww_value a ≠ lww_value b.
Proof.
  do 4 eexists. split.
  { split; [reflexivity|]. do 2 eexists. split; [vm_compute; reflexivity|].
    split; [vm_compute; reflexivity|reflexivity]. }
  split_and!; vm_compute; reflexivity || congruence.
Qed.
