(* ===== verification/OrSet.v ===== *)
(** * OR-Set

    Models [include/protocoll/state/crdt/or_set.h] and
    [src/state/crdt/or_set.cpp].  [std::map<ElemKey, std::set<OrSetTag>>] is a
    [gmap] from byte strings to [gset]s of tags; the two ordered containers are
    visited in key order ([map_sorted], [tags_sorted]), which the wire format
    exposes. *)
From S2P Require Import Prelude Platform.

(** [OrSetTag]: (node_id, sequence), globally unique per addition. *)
Abbreviation OrSetTag := (Z * Z)%type.
Definition tag_lt (a b : OrSetTag) : bool :=
  if negb (a.1 =? b.1) then a.1 <? b.1 else a.2 <? b.2.
Definition tag_le (a b : OrSetTag) : Prop := tag_lt b a = false.
#[global] Instance tag_le_dec a b : Decision (tag_le a b).
Proof. unfold tag_le; apply _. Defined.

(** [operator<] of [std::vector<uint8_t>]: lexicographic. *)
Fixpoint bytes_lt (a b : bytes) : bool :=
  match a, b with
  | _, [] => false
  | [], _ :: _ => true
  | x :: a', y :: b' => if x <? y then true else if y <? x then false else bytes_lt a' b'
  end.
Definition key_le {V} (a b : bytes * V) : Prop := bytes_lt b.1 a.1 = false.
#[global] Instance key_le_dec {V} (a b : bytes * V) : Decision (key_le a b).
Proof. unfold key_le; apply _. Defined.

Definition tags_sorted (t : gset OrSetTag) : list OrSetTag := merge_sort tag_le (elements t).
Definition map_sorted {V} (m : gmap bytes V) : list (bytes * V) := merge_sort key_le (map_to_list m).

Abbreviation TagMap := (gmap bytes (gset OrSetTag)).
(** [m[key]]: the tags of a key, a fresh empty set when it is absent. *)
Definition tags_of (m : TagMap) (k : bytes) : gset OrSetTag := default ∅ (m !! k).

Record OrSet := {
  os_node_id : Z; os_seq : Z; os_entries : TagMap;
  os_dirty : bool; os_pending_adds : TagMap; os_pending_removes : gset OrSetTag
}.
#[global] Instance OrSet_eq_dec : EqDecision OrSet.
Proof. solve_decision. Defined.

Definition os_new (node_id : Z) : OrSet :=
  {| os_node_id := node_id; os_seq := 0; os_entries := ∅; os_dirty := false;
     os_pending_adds := ∅; os_pending_removes := ∅ |}.

(** [next_tag] followed by the insertions of [add]. *)
Definition os_next_tag (s : OrSet) : OrSetTag := (os_node_id s, u32 (os_seq s + 1)).
Definition os_add (s : OrSet) (key : bytes) : OrSet :=
  let tag := os_next_tag s in
  {| os_node_id := os_node_id s; os_seq := tag.2;
     os_entries := <[key := tags_of (os_entries s) key ∪ {[tag]}]> (os_entries s);
     os_dirty := true;
     os_pending_adds := <[key := tags_of (os_pending_adds s) key ∪ {[tag]}]> (os_pending_adds s);
     os_pending_removes := os_pending_removes s |}.

Definition os_remove (s : OrSet) (key : bytes) : OrSet * bool :=
  match os_entries s !! key with
  | None => (s, false)
  | Some tags =>
      if bool_decide (tags = ∅) then (s, false) else
      ({| os_node_id := os_node_id s; os_seq := os_seq s;
          os_entries := delete key (os_entries s);
          os_dirty := true; os_pending_adds := os_pending_adds s;
          os_pending_removes := os_pending_removes s ∪ tags |}, true)
  end.

Definition os_contains (s : OrSet) (key : bytes) : bool :=
  match os_entries s !! key with Some tags => negb (bool_decide (tags = ∅)) | None => false end.
Definition os_elements (s : OrSet) : list bytes :=
  (filter (λ kt, kt.2 ≠ ∅) (map_sorted (os_entries s))).*1.
Definition os_size (s : OrSet) : nat :=
  length (filter (λ kt, kt.2 ≠ ∅) (map_sorted (os_entries s))).

(** ** Wire format *)
Definition os_write_tag (buf : bytes) (off : nat) (t : OrSetTag) : res bytes :=
  let! buf := write_u16 buf off t.1 in write_u32 buf (off + 2) t.2.
Definition os_read_tag (data : bytes) (off : nat) : res OrSetTag :=
  let! nid := read_u16 data off in
  let! seq := read_u32 data (off + 2) in
  Ok (nid, seq).

(** One entry of [encode_entries]; entries without tags are skipped. *)
Definition os_encode_entry (buf : bytes) (kt : bytes * gset OrSetTag) : res bytes :=
  let '(key, tags) := kt in
  if bool_decide (tags = ∅) then Ok buf else
  let epos := length buf in
  let buf := resize buf (2 + length key) in
  let! buf := write_u16 buf epos (u16 (Z.of_nat (length key))) in
  let! buf := (if bool_decide (key = []) then Ok buf else store buf (epos + 2) key) in
  let tpos := length buf in
  let buf := resize buf (1 + size tags * 6) in
  let! buf := put8 buf tpos (u8 (Z.of_nat (size tags))) in
  let! (buf, _) := write_all os_write_tag 6 buf (tpos + 1) (tags_sorted tags) in
  Ok buf.
Definition os_encode_entries (entries : TagMap) (tombstones : gset OrSetTag) (buf : bytes)
    : res bytes :=
  let entry_count :=
    u16 (Z.of_nat (length (filter (λ kt, kt.2 ≠ ∅) (map_sorted entries)))) in
  let pos := length buf in
  let buf := resize buf 2 in
  let! buf := write_u16 buf pos entry_count in
  let! buf := res_foldl os_encode_entry buf (map_sorted entries) in
  let rpos := length buf in
  let buf := resize buf (2 + size tombstones * 6) in
  let! buf := write_u16 buf rpos (u16 (Z.of_nat (size tombstones))) in
  let! (buf, _) := write_all os_write_tag 6 buf (rpos + 2) (tags_sorted tombstones) in
  Ok buf.

Fixpoint os_decode_loop (n : nat) (data : bytes) (off : nat) (out : TagMap) : res (TagMap * nat) :=
  match n with
  | O => Ok (out, off)
  | S n' =>
      check_ (off + 2 <=? length data)%nat (
      let! elem_len := read_u16 data off in
      let off := (off + 2)%nat in
      check_ (off + Z.to_nat elem_len <=? length data)%nat (
      let! key := slice data off (Z.to_nat elem_len) in
      let off := (off + Z.to_nat elem_len)%nat in
      check_ (off + 1 <=? length data)%nat (
      let! tag_count := get8 data off in
      let off := (off + 1)%nat in
      check_ (off + Z.to_nat tag_count * 6 <=? length data)%nat (
      let! tags := read_all os_read_tag 6 data off (Z.to_nat tag_count) in
      os_decode_loop n' data (off + Z.to_nat tag_count * 6)
        (<[key := tags_of out key ∪ list_to_set tags]> out)))))
  end.
Definition os_decode_entries (data : bytes) : res (TagMap * gset OrSetTag) :=
  check_ (2 <=? length data)%nat (
  let! entry_count := read_u16 data 0 in
  let! (entries, off) := os_decode_loop (Z.to_nat entry_count) data 2 ∅ in
  check_ (off + 2 <=? length data)%nat (
  let! tomb_count := read_u16 data off in
  let off := (off + 2)%nat in
  check_ (off + Z.to_nat tomb_count * 6 <=? length data)%nat (
  let! tombs := read_all os_read_tag 6 data off (Z.to_nat tomb_count) in
  Ok (entries, list_to_set tombs)))).

(** ** Merge, in the four passes of the source *)
Definition os_apply_tombstones (m : TagMap) (tombs : gset OrSetTag) : TagMap * bool :=
  ((λ tags, tags ∖ tombs) <$> m,
   existsb (λ kt, negb (size (kt.2 ∖ tombs) =? size kt.2)%nat) (map_sorted m)).
Definition os_add_incoming (tombs : gset OrSetTag) (st : TagMap * bool)
    (kt : bytes * gset OrSetTag) : TagMap * bool :=
  let '(m, changed) := st in
  let '(key, tags) := kt in
  let local := tags_of m key in
  let fresh := tags ∖ tombs in
  (<[key := local ∪ fresh]> m, changed || negb (bool_decide (fresh ⊆ local))).
Definition os_cleanup (st : TagMap * bool) : TagMap * bool :=
  let '(m, changed) := st in
  (filter (λ kt, kt.2 ≠ ∅) m,
   changed || existsb (λ kt, bool_decide (kt.2 = ∅)) (map_sorted m)).
Definition os_max_seq (node seq : Z) (m : TagMap) : Z :=
  foldl (λ seq t, if (t.1 =? node) && (seq <? t.2) then t.2 else seq) seq
    (concat ((λ kt, tags_sorted kt.2) <$> map_sorted m)).
Definition os_merge (s : OrSet) (data : bytes) : res (OrSet * bool) :=
  match os_decode_entries data with
  | Oob => Oob
  | Fail => Ok (s, false)
  | Ok (inc, tombs) =>
      let st := os_apply_tombstones (os_entries s) tombs in
      let st := foldl (os_add_incoming tombs) st (map_sorted inc) in
      let '(m, changed) := os_cleanup st in
      Ok ({| os_node_id := os_node_id s;
             os_seq := os_max_seq (os_node_id s) (os_seq s) inc;
             os_entries := m; os_dirty := os_dirty s;
             os_pending_adds := os_pending_adds s;
             os_pending_removes := os_pending_removes s |}, changed)
  end.

Definition os_snapshot (s : OrSet) : res bytes := os_encode_entries (os_entries s) ∅ [].
Definition os_delta (s : OrSet) : res (OrSet * bytes) :=
  if negb (os_dirty s) then Ok (s, []) else
  let! buf := os_encode_entries (os_pending_adds s) (os_pending_removes s) [] in
  Ok ({| os_node_id := os_node_id s; os_seq := os_seq s; os_entries := os_entries s;
         os_dirty := false; os_pending_adds := ∅; os_pending_removes := ∅ |}, buf).
Definition os_has_pending_delta (s : OrSet) : bool := os_dirty s.

(** ** Well-formedness *)
Definition tag_ok (t : OrSetTag) : Prop := is_u16 t.1 ∧ is_u32 t.2.
Definition tagmap_ok (m : TagMap) : Prop :=
  map_Forall (λ k tags, wf_bytes k ∧ tags ≠ ∅ ∧ set_Forall tag_ok tags) m.
(** Own tags were issued by this replica's counter. *)
Definition own_tags_le (node seq : Z) (m : TagMap) : Prop :=
  map_Forall (λ _ tags, set_Forall (λ t, t.1 = node → t.2 ≤ seq) tags) m.
Definition os_ok (s : OrSet) : Prop :=
  is_u16 (os_node_id s) ∧ is_u32 (os_seq s) ∧ tagmap_ok (os_entries s) ∧
  tagmap_ok (os_pending_adds s) ∧ set_Forall tag_ok (os_pending_removes s) ∧
  own_tags_le (os_node_id s) (os_seq s) (os_entries s).
#[global] Instance tag_ok_dec t : Decision (tag_ok t).
Proof. unfold tag_ok; apply _. Defined.
#[global] Instance os_ok_dec s : Decision (os_ok s).
Proof. unfold os_ok, tagmap_ok, own_tags_le; apply _. Defined.
(** The counts and lengths fit the wire format's fields. *)
Definition tagmap_fits (m : TagMap) : Prop :=
  is_u16 (Z.of_nat (size m)) ∧
  map_Forall (λ k tags, is_u16 (Z.of_nat (length k)) ∧ is_u8 (Z.of_nat (size tags))) m.
#[global] Instance tagmap_fits_dec m : Decision (tagmap_fits m).
Proof. unfold tagmap_fits; apply _. Defined.

(** ** Ordered iteration visits every entry once *)
Lemma tags_sorted_perm t : tags_sorted t ≡ₚ elements t.
Proof. apply merge_sort_Permutation. Qed.
Lemma elem_of_tags_sorted t x : x ∈ tags_sorted t ↔ x ∈ t.
Proof. by rewrite tags_sorted_perm, elem_of_elements. Qed.
Lemma tags_sorted_length t : length (tags_sorted t) = size t.
Proof. by rewrite tags_sorted_perm. Qed.
Lemma tags_sorted_set t : list_to_set (tags_sorted t) = t.
Proof. apply set_eq. intros x. by rewrite elem_of_list_to_set, elem_of_tags_sorted. Qed.
Lemma map_sorted_perm {V} (m : gmap bytes V) : map_sorted m ≡ₚ map_to_list m.
Proof. apply merge_sort_Permutation. Qed.
Lemma elem_of_map_sorted {V} (m : gmap bytes V) k v : (k, v) ∈ map_sorted m ↔ m !! k = Some v.
Proof. by rewrite map_sorted_perm, elem_of_map_to_list. Qed.
Lemma map_sorted_length {V} (m : gmap bytes V) : length (map_sorted m) = size m.
Proof. rewrite map_sorted_perm. apply length_map_to_list. Qed.
Lemma map_sorted_NoDup {V} (m : gmap bytes V) : NoDup (map_sorted m).*1.
Proof. rewrite map_sorted_perm. apply NoDup_fst_map_to_list. Qed.
Lemma map_sorted_to_map {V} (m : gmap bytes V) : list_to_map (map_sorted m) = m.
Proof.
  rewrite <-(list_to_map_to_list m) at 2.
  apply list_to_map_proper; [apply map_sorted_NoDup|apply map_sorted_perm].
Qed.

(** ** Encoding *)
Definition tag_bytes (t : OrSetTag) : bytes := be16 t.1 ++ be32 t.2.
Definition os_entry_bytes (kt : bytes * gset OrSetTag) : bytes :=
  be16 (u16 (Z.of_nat (length kt.1))) ++ kt.1 ++
  [u8 (Z.of_nat (size kt.2))] ++ concat (tag_bytes <$> tags_sorted kt.2).
Definition os_bytes (m : TagMap) (T : gset OrSetTag) : bytes :=
  be16 (u16 (Z.of_nat (size m))) ++ concat (os_entry_bytes <$> map_sorted m) ++
  be16 (u16 (Z.of_nat (size T))) ++ concat (tag_bytes <$> tags_sorted T).

Lemma os_write_tags P n l :
  n = (length l * 6)%nat →
  write_all os_write_tag 6 (P ++ replicate n 0) (length P) l =
    Ok (P ++ concat (tag_bytes <$> l), (length P + n)%nat).
Proof.
  intros ->. rewrite (write_all_spec os_write_tag 6 tag_bytes (λ t, eq_refl)
    (λ P R t, write_16_32 P R t.1 t.2)) by (by rewrite length_replicate).
  by rewrite drop_replicate, Nat.sub_diag, app_nil_r.
Qed.
Lemma os_write_tombstones P n v l :
  n = (length l * 6)%nat →
  (let! buf := write_u16 (resize P (2 + n)) (length P) v in
   let! (buf, _) := write_all os_write_tag 6 buf (length P + 2) l in Ok buf) =
    Ok (P ++ be16 v ++ concat (tag_bytes <$> l)).
Proof.
  intros Hn. rewrite write_u16_resize. cbn [res_bind]. rewrite app_assoc.
  replace (length P + 2)%nat with (length (P ++ be16 v)) by (by rewrite length_app).
  rewrite os_write_tags by done. cbn [res_bind]. by rewrite <-app_assoc.
Qed.
Lemma os_encode_entry_Ok buf k tags :
  tags ≠ ∅ → os_encode_entry buf (k, tags) = Ok (buf ++ os_entry_bytes (k, tags)).
Proof.
  intros Ht. unfold os_encode_entry. rewrite bool_decide_false by done.
  rewrite write_u16_resize. cbn [res_bind].
  set (l2 := be16 _).
  assert ((if bool_decide (k = []) then Ok (buf ++ l2 ++ replicate (length k) 0)
           else store (buf ++ l2 ++ replicate (length k) 0) (length buf + 2) k) =
          Ok (buf ++ l2 ++ k)) as ->.
  { case_bool_decide as Hk; [by subst|].
    replace (length buf + 2)%nat with (length (buf ++ l2)) by (rewrite length_app; done).
    rewrite app_assoc, store_app_0, store_head by (rewrite length_replicate; lia).
    cbn [res_bind]. by rewrite drop_replicate, Nat.sub_diag, app_nil_r, <-app_assoc. }
  cbn [res_bind]. unfold resize, put8.
  rewrite store_app_0, store_head by (rewrite length_replicate; simpl; lia).
  cbn [res_bind]. rewrite drop_replicate. cbn [length Nat.sub Nat.add]. rewrite Nat.sub_0_r.
  rewrite app_assoc. set (P := (buf ++ l2 ++ k) ++ _).
  replace (length (buf ++ l2 ++ k) + 1)%nat with (length P) by (unfold P; rewrite !length_app; done).
  rewrite os_write_tags by (rewrite tags_sorted_length; lia).
  cbn [res_bind]. unfold P, os_entry_bytes, l2. by rewrite <-!app_assoc.
Qed.
Lemma os_encode_loop_Ok l b :
  Forall (λ kt : bytes * gset OrSetTag, kt.2 ≠ ∅) l →
  res_foldl os_encode_entry b l = Ok (b ++ concat (os_entry_bytes <$> l)).
Proof.
  intros Hl. revert b. induction Hl as [|[k t] l Ht Hl IH]; intros b.
  - by rewrite app_nil_r.
  - cbn [res_foldl]. rewrite os_encode_entry_Ok by done. cbn [res_bind]. rewrite IH.
    rewrite fmap_cons. cbn [concat]. by rewrite <-app_assoc.
Qed.
Lemma os_encode_entries_Ok m T buf :
  tagmap_ok m → os_encode_entries m T buf = Ok (buf ++ os_bytes m T).
Proof.
  intros Hm. unfold os_encode_entries.
  assert (Forall (λ kt, kt.2 ≠ ∅) (map_sorted m)) as Hne.
  { apply Forall_forall. intros [k t] Hk%elem_of_map_sorted. by apply Hm in Hk as (_ & ? & _). }
  rewrite list_filter_all by done. rewrite map_sorted_length.
  rewrite (write_u16_resize buf 0). cbn [res_bind replicate]. rewrite app_nil_r.
  set (l2 := be16 _).
  rewrite os_encode_loop_Ok by done.
  cbn [res_bind]. rewrite os_write_tombstones by (by rewrite tags_sorted_length).
  unfold os_bytes, l2. by rewrite <-!app_assoc.
Qed.

(** ** Decoding *)
Lemma os_read_tag_enc P R t :
  tag_ok t → os_read_tag (P ++ tag_bytes t ++ R) (length P) = Ok t.
Proof. intros [H1 H2]. destruct t as [n s]. by apply (read_16_32 (λ n s, (n, s))). Qed.
Lemma os_read_tag_safe buf off : (off + 6 ≤ length buf)%nat → safe (os_read_tag buf off).
Proof.
  intros. apply safe_bind; [apply read_u16_safe; lia|]. intros.
  apply safe_bind; [apply read_u32_safe; lia|]. done.
Qed.
Lemma os_read_tag_ok buf off t : wf_bytes buf → os_read_tag buf off = Ok t → tag_ok t.
Proof.
  intros Hb H. unfold os_read_tag in H. inv_ok.
  apply read_u16_range in Hm; [|done]. apply read_u32_range in Hm0; done.
Qed.

(** [out.entries[key].insert(tags.begin(), tags.end())] *)
Definition tagmap_join (m : TagMap) (kt : bytes * gset OrSetTag) : TagMap :=
  <[kt.1 := tags_of m kt.1 ∪ kt.2]> m.
Lemma tagmap_join_lookup m l k :
  NoDup l.*1 →
  foldl tagmap_join m l !! k =
    match (list_to_map l : TagMap) !! k with
    | Some t => Some (tags_of m k ∪ t)
    | None => m !! k
    end.
Proof.
  revert m. induction l as [|[k' t] l IH]; intros m Hnd; [done|].
  csimpl in Hnd. apply NoDup_cons in Hnd as [Hk Hnd]. cbn [foldl]. rewrite IH by done.
  simpl. unfold tagmap_join, tags_of; simpl. destruct (decide (k' = k)) as [->|].
  - rewrite (not_elem_of_list_to_map_1 l k) by done. by rewrite !lookup_insert_eq.
  - by rewrite !lookup_insert_ne by done.
Qed.
Lemma tagmap_join_empty (m : TagMap) : foldl tagmap_join ∅ (map_sorted m) = m.
Proof.
  apply map_eq. intros k. rewrite tagmap_join_lookup, map_sorted_to_map by apply map_sorted_NoDup.
  unfold tags_of. rewrite lookup_empty. destruct (m !! k); [|done]. simpl.
  f_equal. set_solver.
Qed.

Lemma os_decode_step n P R k tags out :
  is_u16 (Z.of_nat (length k)) → is_u8 (Z.of_nat (size tags)) → set_Forall tag_ok tags →
  os_decode_loop (S n) (P ++ os_entry_bytes (k, tags) ++ R) (length P) out =
  os_decode_loop n (P ++ os_entry_bytes (k, tags) ++ R)
    (length (P ++ os_entry_bytes (k, tags))) (tagmap_join out (k, tags)).
Proof.
  intros Hk Ht Hok. unfold os_entry_bytes. cbn [fst snd os_decode_loop].
  rewrite !wrap_id by done.
  set (v := be16 _). set (tb := concat _).
  set (c := Z.of_nat (size tags)). set (data := P ++ _).
  assert (length v = 2%nat) as Lv by done.
  assert (length tb = (size tags * 6)%nat) as Lt.
  { unfold tb. by rewrite (length_encs 6 tag_bytes (λ t, eq_refl)), tags_sorted_length. }
  assert (length data = length P + (2 + (length k + (1 + (size tags * 6 + length R)))))%nat as Ld.
  { unfold data. rewrite !length_app, Lv, Lt. simpl. lia. }
  rewrite (proj2 (Nat.leb_le _ _)) by lia. cbn [check_].
  assert (read_u16 data (length P) = Ok (Z.of_nat (length k))) as ->.
  { unfold data, v. rewrite <-app_assoc. apply read_u16_mid; done. }
  cbn [res_bind]. rewrite Nat2Z.id, (proj2 (Nat.leb_le _ _)) by lia. cbn [check_].
  assert (slice data (length P + 2) (length k) = Ok k) as ->.
  { unfold data. rewrite <-!app_assoc. rewrite (app_assoc P v).
    apply slice_mid'; [by rewrite length_app, Lv|done]. }
  cbn [res_bind]. rewrite (proj2 (Nat.leb_le _ _)) by lia. cbn [check_].
  assert (get8 data (length P + 2 + length k) = Ok c) as ->.
  { unfold data. rewrite <-!app_assoc, (app_assoc P v), (app_assoc (P ++ v) k). cbn [app].
    apply get8_mid. rewrite !length_app, Lv. lia. }
  cbn [res_bind]. unfold c. rewrite Nat2Z.id, (proj2 (Nat.leb_le _ _)) by lia. cbn [check_].
  assert (read_all os_read_tag 6 data (length P + 2 + length k + 1) (size tags) =
          Ok (tags_sorted tags)) as ->.
  { unfold data. rewrite <-!app_assoc.
    rewrite (app_assoc P v), (app_assoc (P ++ v) k), (app_assoc ((P ++ v) ++ k) [_]).
    replace (length P + 2 + length k + 1)%nat with (length (((P ++ v) ++ k) ++ [Z.of_nat (size tags)]))
      by (rewrite !length_app, Lv; done).
    rewrite <-(tags_sorted_length tags) at 2.
    apply (read_all_spec os_read_tag 6 tag_bytes tag_ok (λ t, eq_refl) os_read_tag_enc).
    apply Forall_forall. intros t Hin%elem_of_tags_sorted. by apply Hok. }
  cbn [res_bind]. rewrite tags_sorted_set. unfold tagmap_join. cbn [fst snd].
  f_equal. rewrite !length_app, Lv, Lt. simpl. lia.
Qed.

Lemma os_decode_loop_bytes l P R out :
  Forall (λ kt : bytes * gset OrSetTag, is_u16 (Z.of_nat (length kt.1)) ∧ is_u8 (Z.of_nat (size kt.2)) ∧
                                        set_Forall tag_ok kt.2) l →
  os_decode_loop (length l) (P ++ concat (os_entry_bytes <$> l) ++ R) (length P) out =
    Ok (foldl tagmap_join out l, length (P ++ concat (os_entry_bytes <$> l))).
Proof.
  intros Hl. revert P out. induction Hl as [|[k t] l (H1 & H2 & H3) Hl IH]; intros P out.
  { simpl. by rewrite app_nil_r. }
  rewrite fmap_cons. cbn [concat length foldl]. rewrite <-!app_assoc.
  rewrite os_decode_step by done. rewrite app_assoc, IH. by rewrite <-!app_assoc.
Qed.
Lemma os_decode_bytes m T :
  tagmap_ok m → set_Forall tag_ok T → tagmap_fits m → is_u16 (Z.of_nat (size T)) →
  os_decode_entries (os_bytes m T) = Ok (m, T).
Proof.
  intros Hm HT [Hs Hf] Ht. unfold os_decode_entries, os_bytes.
  rewrite !wrap_id by done.
  rewrite (proj2 (Nat.leb_le _ _)) by (rewrite length_app, length_be16; lia). cbn [check_].
  rewrite read_u16_head by done. cbn [res_bind]. rewrite Nat2Z.id.
  rewrite <-(map_sorted_length m) at 1.
  set (v := be16 (Z.of_nat (size m))). change 2%nat with (length v) at 1.
  rewrite os_decode_loop_bytes.
  2:{ apply Forall_forall. intros [k t] Hk%elem_of_map_sorted.
      destruct (Hf _ _ Hk), (Hm _ _ Hk) as (_ & _ & ?). done. }
  cbn [res_bind]. rewrite tagmap_join_empty.
  set (E := concat (os_entry_bytes <$> map_sorted m)). set (tb := concat _).
  assert (length tb = (size T * 6)%nat) as Lt.
  { unfold tb. by rewrite (length_encs 6 tag_bytes (λ t, eq_refl)), tags_sorted_length. }
  rewrite app_assoc. set (P := v ++ E).
  rewrite (proj2 (Nat.leb_le _ _)) by (rewrite !length_app, length_be16; lia). cbn [check_].
  rewrite read_u16_mid by done. cbn [res_bind]. rewrite Nat2Z.id.
  rewrite (proj2 (Nat.leb_le _ _)) by (rewrite !length_app, length_be16, Lt; lia). cbn [check_].
  rewrite app_assoc. replace (length P + 2)%nat with (length (P ++ be16 (Z.of_nat (size T))))
    by (by rewrite length_app).
  rewrite <-(tags_sorted_length T) at 3. rewrite <-(app_nil_r tb). unfold tb.
  rewrite (read_all_spec os_read_tag 6 tag_bytes tag_ok (λ t, eq_refl) os_read_tag_enc).
  - cbn [res_bind]. by rewrite tags_sorted_set.
  - apply Forall_forall. intros t Hin%elem_of_tags_sorted. by apply HT.
Qed.

(** ** Arbitrary input *)
Lemma os_decode_loop_safe n data off out : safe (os_decode_loop n data off out).
Proof.
  revert off out. induction n as [|n IH]; intros off out; [done|]. cbn [os_decode_loop].
  apply safe_check; intros H1%Nat.leb_le.
  apply safe_bind; [by apply read_u16_safe|]. intros el _.
  apply safe_check; intros H2%Nat.leb_le.
  apply safe_bind; [by apply slice_safe|]. intros k _.
  apply safe_check; intros H3%Nat.leb_le.
  apply safe_bind; [apply get8_safe; lia|]. intros tc _.
  apply safe_check; intros H4%Nat.leb_le.
  apply safe_bind; [by apply (read_all_safe _ 6 os_read_tag_safe)|]. intros. apply IH.
Qed.
Lemma os_decode_safe data : safe (os_decode_entries data).
Proof.
  unfold os_decode_entries. apply safe_check; intros H1%Nat.leb_le.
  apply safe_bind; [by apply read_u16_safe|]. intros ec _.
  apply safe_bind; [apply os_decode_loop_safe|]. intros [m off] _.
  apply safe_check; intros H2%Nat.leb_le.
  apply safe_bind; [by apply read_u16_safe|]. intros tc _.
  apply safe_check; intros H3%Nat.leb_le.
  apply safe_bind; [by apply (read_all_safe _ 6 os_read_tag_safe)|]. done.
Qed.

Definition tagmap_raw_ok (m : TagMap) : Prop :=
  map_Forall (λ k tags, wf_bytes k ∧ set_Forall tag_ok tags) m.
Lemma os_decode_loop_ok n data off out m off' :
  wf_bytes data → tagmap_raw_ok out →
  os_decode_loop n data off out = Ok (m, off') → tagmap_raw_ok m.
Proof.
  intros Hd. revert off out. induction n as [|n IH]; intros off out Ho H.
  { simpl in H. by simplify_eq. }
  cbn [os_decode_loop] in H. inv_ok.
  apply (read_all_ok _ 6 tag_ok os_read_tag_ok) in Hm2 as [Ht _]; [|done].
  eapply IH in H; [done|]. apply map_Forall_insert_2; [|done].
  split; [by eapply slice_wf|]. intros t [Hin|Hin]%elem_of_union.
  - unfold tags_of in Hin. destruct (out !! _) as [ts|] eqn:E; [|set_solver].
    by apply (proj2 (Ho _ _ E)).
  - rewrite elem_of_list_to_set in Hin. by eapply Forall_forall in Ht.
Qed.
Lemma os_decode_ok data m T :
  wf_bytes data → os_decode_entries data = Ok (m, T) → tagmap_raw_ok m ∧ set_Forall tag_ok T.
Proof.
  intros Hd H. unfold os_decode_entries in H. inv_ok. destruct x0 as [m' off]. inv_ok.
  simplify_eq. split.
  - eapply os_decode_loop_ok in Hm0; [done..|]. apply map_Forall_empty.
  - apply (read_all_ok _ 6 tag_ok os_read_tag_ok) in Hm2 as [Ht _]; [|done].
    intros t Hin%elem_of_list_to_set. by eapply Forall_forall in Ht.
Qed.

(** ** The passes of merge on the abstract view [tags_of] *)
Lemma tags_of_fmap m T k : tags_of ((λ tags, tags ∖ T) <$> m) k = tags_of m k ∖ T.
Proof. unfold tags_of. rewrite lookup_fmap. destruct (m !! k); set_solver. Qed.
Lemma tags_of_filter (m : TagMap) k : tags_of (filter (λ kt, kt.2 ≠ ∅) m) k = tags_of m k.
Proof.
  unfold tags_of. rewrite map_lookup_filter. destruct (m !! k) as [t|]; [|done]. simpl.
  destruct (decide (t = ∅)) as [->|].
  - by rewrite option_guard_False by naive_solver.
  - by rewrite option_guard_True by naive_solver.
Qed.
Lemma os_add_incoming_fst (T : gset OrSetTag) (st : TagMap * bool) l :
  (foldl (os_add_incoming T) st l).1 = foldl tagmap_join st.1 (prod_map id (.∖ T) <$> l).
Proof.
  revert st. induction l as [|[k t] l IH]; intros [m ch]; [done|]. csimpl. by rewrite IH.
Qed.
Lemma os_add_incoming_tags (T : gset OrSetTag) (st : TagMap * bool) (inc : TagMap) k :
  tags_of (foldl (os_add_incoming T) st (map_sorted inc)).1 k =
    tags_of st.1 k ∪ tags_of inc k ∖ T.
Proof.
  rewrite os_add_incoming_fst. unfold tags_of at 1. rewrite tagmap_join_lookup.
  - rewrite list_to_map_fmap, map_sorted_to_map, lookup_fmap. unfold tags_of.
    destruct (inc !! k); simpl; set_solver.
  - rewrite <-list_fmap_compose. apply map_sorted_NoDup.
Qed.
Lemma os_merge_tags s data inc T :
  os_decode_entries data = Ok (inc, T) →
  ∃ s' ch, os_merge s data = Ok (s', ch) ∧
    (∀ k, tags_of (os_entries s') k = (tags_of (os_entries s) k ∪ tags_of inc k) ∖ T) ∧
    map_Forall (λ _ tags, tags ≠ ∅) (os_entries s') ∧
    os_node_id s' = os_node_id s ∧ os_seq s' = os_max_seq (os_node_id s) (os_seq s) inc ∧
    os_dirty s' = os_dirty s ∧ os_pending_adds s' = os_pending_adds s ∧
    os_pending_removes s' = os_pending_removes s.
Proof.
  intros Hd. unfold os_merge. rewrite Hd. destruct (foldl _ _ _) as [m ch] eqn:E.
  cbn [os_cleanup]. do 2 eexists. split; [done|]. cbn [os_entries]. split_and!; try done.
  - intros k. rewrite tags_of_filter.
    change m with (m, ch).1. rewrite <-E, os_add_incoming_tags. cbn [os_apply_tombstones fst].
    rewrite tags_of_fmap. set_solver.
  - intros k t [_ Ht]%map_lookup_filter_Some. done.
Qed.

(** Two maps without empty tag sets are equal when their views are. *)
Lemma tagmap_ext (m1 m2 : TagMap) :
  map_Forall (λ _ tags, tags ≠ ∅) m1 → map_Forall (λ _ tags, tags ≠ ∅) m2 →
  (∀ k, tags_of m1 k = tags_of m2 k) → m1 = m2.
Proof.
  intros H1 H2 Heq. apply map_eq. intros k. specialize (Heq k). unfold tags_of in Heq.
  destruct (m1 !! k) eqn:E1, (m2 !! k) eqn:E2; simpl in *; try done.
  - by subst.
  - by apply H1 in E1.
  - by apply H2 in E2.
Qed.
Lemma os_contains_tags s k : os_contains s k = true ↔ tags_of (os_entries s) k ≠ ∅.
Proof.
  unfold os_contains, tags_of. destruct (os_entries s !! k); simpl; [|done].
  by rewrite negb_true_iff, bool_decide_eq_false.
Qed.

Lemma os_max_seq_spec node seq m :
  seq ≤ os_max_seq node seq m ∧
  (∀ k t, t ∈ tags_of m k → t.1 = node → t.2 ≤ os_max_seq node seq m) ∧
  (os_max_seq node seq m = seq ∨ ∃ k t, t ∈ tags_of m k ∧ t.2 = os_max_seq node seq m).
Proof.
  unfold os_max_seq. set (l := concat _).
  assert (∀ t, t ∈ l ↔ ∃ k, t ∈ tags_of m k) as Hl.
  { intros t. unfold l. rewrite elem_of_concat. split.
    - intros (ts & Ht & ([k tags] & -> & Hk)%list_elem_of_fmap). exists k. unfold tags_of.
      apply elem_of_map_sorted in Hk. rewrite Hk. by apply elem_of_tags_sorted.
    - intros (k & Hk). unfold tags_of in Hk. destruct (m !! k) as [ts|] eqn:E; [|set_solver].
      exists (tags_sorted ts). split; [by apply elem_of_tags_sorted|].
      apply list_elem_of_fmap. exists (k, ts). split; [done|]. by apply elem_of_map_sorted. }
  assert (∀ l seq, let r := foldl (λ seq t, if (t.1 =? node) && (seq <? t.2) then t.2 else seq) seq l in
    seq ≤ r ∧ (∀ t : OrSetTag, t ∈ l → t.1 = node → t.2 ≤ r) ∧ (r = seq ∨ ∃ t, t ∈ l ∧ t.2 = r)) as Hf.
  { clear. induction l as [|t l IH]; intros seq; simpl; [split_and!; [lia|set_solver|auto]|].
    destruct (IH (if (t.1 =? node) && (seq <? t.2) then t.2 else seq)) as (H1 & H2 & H3).
    destruct ((t.1 =? node) && (seq <? t.2)) eqn:E.
    - apply andb_true_iff in E as [E1%Z.eqb_eq E2%Z.ltb_lt]. split_and!; [lia| |].
      + intros x [->|Hx]%elem_of_cons ?; [lia|by apply H2].
      + destruct H3 as [->|(x & ? & ?)]; right; [exists t|exists x]; set_solver.
    - apply andb_false_iff in E. split_and!; [lia| |].
      + intros x [->|Hx]%elem_of_cons Hn; [|by apply H2].
        destruct E as [E%Z.eqb_neq|E%Z.ltb_ge]; [done|lia].
      + destruct H3 as [->|(x & ? & ?)]; [auto|right; exists x; set_solver]. }
  destruct (Hf l seq) as (H1 & H2 & H3). split_and!; [done| |].
  - intros k t Ht. apply H2, Hl. eauto.
  - destruct H3 as [->|(t & [k Hk]%Hl & ?)]; eauto.
Qed.

(** ** Invariant preservation *)
Lemma tags_of_ok m k t : tagmap_raw_ok m → t ∈ tags_of m k → wf_bytes k ∧ tag_ok t.
Proof.
  unfold tags_of. intros Hm Ht. destruct (m !! k) as [ts|] eqn:E; [|set_solver].
  destruct (Hm _ _ E) as [? Hts]. split; [done|by apply Hts].
Qed.
Lemma tagmap_ok_raw m : tagmap_ok m → tagmap_raw_ok m.
Proof. intros Hm k ts E. by destruct (Hm k ts E) as (? & _ & ?). Qed.
Lemma tagmap_ok_nonempty m : tagmap_ok m → map_Forall (λ _ tags, tags ≠ ∅) m.
Proof. intros Hm k ts E. by destruct (Hm k ts E) as (_ & ? & _). Qed.
Lemma own_tags_le_tags node seq m :
  own_tags_le node seq m ↔ ∀ k t, t ∈ tags_of m k → t.1 = node → t.2 ≤ seq.
Proof.
  split.
  - intros H k t Ht. unfold tags_of in Ht. destruct (m !! k) as [ts|] eqn:E; [|set_solver].
    by apply (H _ _ E).
  - intros H k ts E t Ht. apply (H k). unfold tags_of. by rewrite E.
Qed.
Lemma tagmap_ok_intro m :
  map_Forall (λ _ tags, tags ≠ ∅) m →
  (∀ k t, t ∈ tags_of m k → wf_bytes k ∧ tag_ok t) → tagmap_ok m.
Proof.
  intros Hne H k ts E. specialize (H k). unfold tags_of in H. rewrite E in H. simpl in H.
  split_and!; [|by eapply Hne|].
  - apply Hne in E. apply set_choose_L in E as [t Ht]. by apply (H t).
  - intros t Ht. by apply H.
Qed.

Lemma os_merge_ok s data s' ch :
  os_ok s → wf_bytes data → os_merge s data = Ok (s', ch) → os_ok s'.
Proof.
  intros (Hn & Hq & He & Hp & Hr & Ho) Hd Hm.
  destruct (os_decode_entries data) as [[inc T]| |] eqn:E.
  - destruct (os_merge_tags s data inc T E)
      as (s1 & ch1 & Hm1 & Ht & Hne & Hni & Hsq & _ & Hpa & Hpr).
    rewrite Hm in Hm1. injection Hm1 as <- <-.
    apply os_decode_ok in E as [Hinc _]; [|done].
    destruct (os_max_seq_spec (os_node_id s) (os_seq s) inc) as (M1 & M2 & M3).
    unfold os_ok. rewrite Hpa, Hpr, Hni, Hsq. split_and!; try done.
    + destruct M3 as [->|(k & t & Hk & <-)]; [done|]. by apply (tags_of_ok _ _ _ Hinc) in Hk as [_ [_ ?]].
    + apply tagmap_ok_intro; [done|]. intros k t Hk. rewrite Ht in Hk.
      apply elem_of_difference in Hk as [[Hk|Hk]%elem_of_union _].
      * by apply (tags_of_ok (os_entries s)); [apply tagmap_ok_raw|].
      * by apply (tags_of_ok inc).
    + apply own_tags_le_tags. intros k t Hk Hown. rewrite Ht in Hk.
      apply elem_of_difference in Hk as [[Hk|Hk]%elem_of_union _].
      * pose proof (proj1 (own_tags_le_tags _ _ _) Ho k t Hk Hown). lia.
      * by apply (M2 k).
  - unfold os_merge in Hm. rewrite E in Hm. by simplify_eq.
  - by destruct (os_decode_safe data).
Qed.

Lemma tags_of_insert (m : TagMap) k t k' :
  tags_of (<[k := t]> m) k' = if decide (k = k') then t else tags_of m k'.
Proof.
  unfold tags_of. case_decide; subst; [by rewrite lookup_insert_eq|by rewrite lookup_insert_ne].
Qed.
Lemma tagmap_ok_insert m k t :
  tagmap_ok m → wf_bytes k → tag_ok t → tagmap_ok (<[k := tags_of m k ∪ {[t]}]> m).
Proof.
  intros Hm Hk Ht. apply map_Forall_insert_2; [|done]. split_and!; [done|set_solver|].
  intros x [Hx| ->%elem_of_singleton]%elem_of_union; [|done].
  by apply (tags_of_ok m k x (tagmap_ok_raw m Hm)).
Qed.
(** A new tag is new: no entry of this replica carries it, as long as the
    sequence counter has not wrapped. *)
Lemma os_next_tag_fresh s k :
  os_ok s → os_seq s < 2 ^ 32 - 1 → os_next_tag s ∉ tags_of (os_entries s) k.
Proof.
  intros (_ & Hq & _ & _ & _ & Ho) Hlt Hin.
  pose proof (proj1 (own_tags_le_tags _ _ _) Ho _ _ Hin eq_refl) as H. simpl in H.
  rewrite wrap_id in H by (zify_u; lia). lia.
Qed.
Lemma os_add_ok s k :
  os_ok s → wf_bytes k → os_seq s < 2 ^ 32 - 1 → os_ok (os_add s k).
Proof.
  intros (Hn & Hq & He & Hp & Hr & Ho) Hk Hlt. unfold os_ok, os_add; cbn [os_node_id os_seq
    os_entries os_pending_adds os_pending_removes].
  assert (tag_ok (os_next_tag s)) as Ht by (split; [done|apply u32_is_u]).
  split_and!; try done; [by apply Ht|by apply tagmap_ok_insert..|].
  apply own_tags_le_tags. intros k' t. rewrite tags_of_insert. simpl.
  rewrite wrap_id by (zify_u; lia). pose proof (proj1 (own_tags_le_tags _ _ _) Ho) as Hown.
  case_decide as Hkk.
  - intros [Hin| ->%elem_of_singleton]%elem_of_union Heq.
    + specialize (Hown _ _ Hin Heq). lia.
    + simpl. rewrite wrap_id by (zify_u; lia). lia.
  - intros Hin Heq. specialize (Hown _ _ Hin Heq). lia.
Qed.
Lemma os_remove_ok s k : os_ok s → os_ok (os_remove s k).1.
Proof.
  intros Hs. unfold os_remove. destruct (os_entries s !! k) as [tags|] eqn:E; [|done].
  case_bool_decide; [done|]. destruct Hs as (Hn & Hq & He & Hp & Hr & Ho).
  unfold os_ok; simpl. split_and!; try done.
  - by apply map_Forall_delete.
  - intros t [Ht|Ht]%elem_of_union; [by apply Hr|]. destruct (He _ _ E) as (_ & _ & Hts). by apply Hts.
  - by apply map_Forall_delete.
Qed.

Lemma set_eq_size_difference (X Y : gset OrSetTag) : size (X ∖ Y) = size X → X ∖ Y = X.
Proof.
  intros H. apply set_subseteq_size_eq; [set_solver|lia].
Qed.

(** The changed flag never misses a change. *)
Lemma os_add_incoming_flag T st l k :
  (foldl (os_add_incoming T) st l).2 = false →
  st.2 = false ∧ tags_of (foldl (os_add_incoming T) st l).1 k = tags_of st.1 k.
Proof.
  revert st. induction l as [|[k' t] l IH]; intros [m ch] H; [done|]. cbn [foldl] in *.
  apply IH in H as [H Heq]. rewrite Heq. cbn in H. apply orb_false_iff in H as [-> H].
  split; [done|]. cbn. rewrite tags_of_insert.
  apply negb_false_iff, bool_decide_eq_true in H. case_decide; subst; set_solver.
Qed.
Lemma os_merge_unchanged s data s' :
  os_ok s → os_merge s data = Ok (s', false) → os_entries s' = os_entries s.
Proof.
  intros (_ & _ & He & _) Hm. unfold os_merge in Hm.
  destruct (os_decode_entries data) as [[inc T]| |] eqn:E; simplify_eq; [|done].
  destruct (os_merge_tags s data inc T E) as (s1 & ch1 & Hm1 & Ht & Hne & _).
  unfold os_merge in Hm1. rewrite E in Hm1.
  destruct (foldl _ _ _) as [m ch] eqn:Ef. cbn [os_cleanup] in *. simplify_eq.
  cbn [os_entries] in *. apply tagmap_ext; [done|by apply tagmap_ok_nonempty|].
  intros k. rewrite tags_of_filter.
  match goal with H : _ || _ = false |- _ => apply orb_false_iff in H as [-> _] end.
  pose proof (os_add_incoming_flag T (os_apply_tombstones (os_entries s) T) (map_sorted inc) k) as Hf.
  rewrite Ef in Hf. destruct (Hf eq_refl) as [Hfl Heq]. cbn [fst] in Heq. rewrite Heq.
  cbn [os_apply_tombstones fst snd] in Hfl |- *. rewrite tags_of_fmap. unfold tags_of.
  destruct (os_entries s !! k) as [ts|] eqn:Ek; simpl; [|set_solver].
  apply elem_of_map_sorted in Ek. apply set_eq_size_difference.
  assert (existsb (λ kt : bytes * gset OrSetTag, negb (size (kt.2 ∖ T) =? size kt.2)%nat)
            (map_sorted (os_entries s)) ≠ true) as Hx by congruence.
  rewrite existsb_exists in Hx.
  destruct (Nat.eqb_spec (size (ts ∖ T)) (size ts)) as [|Hns]; [done|].
  destruct Hx. exists (k, ts). split; [by apply list_elem_of_In|]. simpl.
  by rewrite (proj2 (Nat.eqb_neq _ _)).
Qed.

(** ** Sending *)
Definition os_clean (s : OrSet) : OrSet :=
  {| os_node_id := os_node_id s; os_seq := os_seq s; os_entries := os_entries s;
     os_dirty := false; os_pending_adds := ∅; os_pending_removes := ∅ |}.
Lemma os_delta_Ok s :
  os_ok s → os_dirty s = true →
  os_delta s = Ok (os_clean s, os_bytes (os_pending_adds s) (os_pending_removes s)).
Proof.
  intros (_ & _ & _ & Hp & _ & _) Hd. unfold os_delta. rewrite Hd. cbn [negb].
  by rewrite os_encode_entries_Ok.
Qed.

(** The delta of a single removal carries the observed tags as tombstones. *)
Lemma os_remove_wire a e :
  os_ok a → os_pending_adds a = ∅ → os_pending_removes a = ∅ →
  is_u16 (Z.of_nat (size (tags_of (os_entries a) e))) → os_contains a e = true →
  ∃ a1 da, os_remove a e = (a1, true) ∧ os_contains a1 e = false ∧
    os_delta a1 = Ok (os_clean a1, da) ∧
    os_decode_entries da = Ok (∅, tags_of (os_entries a) e).
Proof.
  intros Ha Pa Ra Hsz Hc. pose proof (os_remove_ok a e Ha) as Ha1.
  unfold os_remove, os_contains, tags_of in *.
  destruct (os_entries a !! e) as [ts|] eqn:Ea; [|done]. simpl in Hsz |- *.
  rewrite (bool_decide_false (ts = ∅)) in Ha1 |- * by (intros ->; by rewrite bool_decide_true in Hc).
  do 2 eexists. split; [done|]. split; [simpl; by rewrite lookup_delete_eq|].
  split; [by apply os_delta_Ok|]. simpl. rewrite Pa, Ra, (left_id_L ∅ (∪)).
  destruct Ha as (_ & _ & Hm & _), (Hm _ _ Ea) as (_ & _ & ?).
  apply os_decode_bytes; done.
Qed.
(** The delta of a single addition carries the element with its fresh tag. *)
Lemma os_add_wire b e :
  os_ok b → wf_bytes e → os_seq b < 2 ^ 32 - 1 → is_u16 (Z.of_nat (length e)) →
  os_pending_adds b = ∅ → os_pending_removes b = ∅ →
  ∃ db, os_delta (os_add b e) = Ok (os_clean (os_add b e), db) ∧
    os_decode_entries db = Ok ({[e := {[os_next_tag b]}]}, ∅).
Proof.
  intros Hb He Hseq Hle Pb Rb. pose proof (os_add_ok b e Hb He Hseq) as Hb1.
  eexists. split; [by apply os_delta_Ok|].
  destruct Hb1 as (_ & _ & _ & Hp & Hr & _). simpl in *. rewrite Pb, Rb in *.
  replace (tags_of ∅ e) with (∅ : gset OrSetTag) in * by done.
  rewrite (left_id_L ∅ (∪)), insert_empty in *. apply os_decode_bytes; try done.
  split; [by rewrite map_size_singleton|]. apply map_Forall_singleton.
  by rewrite size_singleton.
Qed.

(** ** The claims *)

(** C13: [merge] is safe on arbitrary bytes. A message that does not parse leaves
    the set alone; a parsed one gives every element exactly the union of local
    and incoming tags minus the message's tombstones, keeps the invariant (no
    empty tag set, no own tag above the local counter) and never reports
    "unchanged" when the entries changed. *)
Theorem or_set_merge_spec (s : OrSet) (data : bytes) :
  os_ok s → wf_bytes data →
  safe (os_merge s data) ∧
  (os_decode_entries data = Fail → os_merge s data = Ok (s, false)) ∧
  (∀ inc tombs, os_decode_entries data = Ok (inc, tombs) →
     ∃ s' changed, os_merge s data = Ok (s', changed) ∧ os_ok s' ∧
       (∀ k, tags_of (os_entries s') k =
             (tags_of (os_entries s) k ∪ tags_of inc k) ∖ tombs) ∧
       (∀ k, os_contains s' k = true ↔ tags_of (os_entries s') k ≠ ∅) ∧
       (changed = false → os_entries s' = os_entries s)).
Proof.
  intros Hs Hd. split_and!.
  - unfold os_merge. pose proof (os_decode_safe data) as H.
    destruct (os_decode_entries data) as [[inc T]| |]; [|done|done].
    by destruct (os_cleanup _).
  - intros E. unfold os_merge. by rewrite E.
  - intros inc T E. destruct (os_merge_tags s data inc T E) as (s' & ch & Hm & Ht & _).
    exists s', ch. split_and!; try done.
    + by eapply os_merge_ok.
    + intros k. apply os_contains_tags.
    + intros ->. by eapply os_merge_unchanged.
Qed.
Lemma or_set_merge_spec_witness :
  safe (os_merge (os_add (os_new 1) [65]) [0;0; 0;1; 0;1; 0;0;0;1]) ∧
  os_contains (os_add (os_new 1) [65]) [65] = true ∧
  (let! (s', _) := os_merge (os_add (os_new 1) [65]) [0;0; 0;1; 0;1; 0;0;0;1] in
   Ok (os_contains s' [65])) = Ok false.
Proof.
  split; [apply (or_set_merge_spec (os_add (os_new 1) [65])); by_decide|].
  split; vm_compute; reflexivity.
Defined.

(** the wire format loses nothing: for a tag map and a tombstone set whose
    counts fit the format's fields, [decode_entries] inverts [encode_entries];
    hence a snapshot merged by any replica adds exactly the sender's tags. *)
Theorem or_set_codec_roundtrip (s r : OrSet) (T : gset OrSetTag) :
  os_ok s → tagmap_fits (os_entries s) → set_Forall tag_ok T → is_u16 (Z.of_nat (size T)) →
  (∃ bs, os_encode_entries (os_entries s) T [] = Ok bs ∧
         os_decode_entries bs = Ok (os_entries s, T)) ∧
  (∃ bs r' ch, os_snapshot s = Ok bs ∧ os_merge r bs = Ok (r', ch) ∧
     ∀ k, tags_of (os_entries r') k = tags_of (os_entries r) k ∪ tags_of (os_entries s) k).
Proof.
  intros (_ & _ & He & _) Hf HT Hs. split.
  - rewrite os_encode_entries_Ok by done. eexists; split; [done|]. by apply os_decode_bytes.
  - unfold os_snapshot. rewrite os_encode_entries_Ok by done. cbn [app].
    assert (os_decode_entries (os_bytes (os_entries s) ∅) = Ok (os_entries s, ∅)) as E.
    { apply os_decode_bytes; try done. }
    destruct (os_merge_tags r _ _ _ E) as (r' & ch & Hm & Ht & _).
    exists (os_bytes (os_entries s) ∅), r', ch. split_and!; [done..|]. intros k. rewrite Ht.
    set_solver.
Qed.
Lemma or_set_codec_roundtrip_witness :
  ∃ bs, os_encode_entries (os_entries (os_add (os_add (os_new 1) [65]) [66; 67])) {[(2, 3)]} [] = Ok bs ∧
        os_decode_entries bs = Ok (os_entries (os_add (os_add (os_new 1) [65]) [66; 67]), {[(2, 3)]}).
Proof.
  apply (or_set_codec_roundtrip (os_add (os_add (os_new 1) [65]) [66; 67]) (os_new 2) {[(2, 3)]});
    by_decide.
Defined.

(** C14: add wins over a concurrent remove, through the bytes on the wire. A
    removes an element it has observed while B, whose own tags A knows only as
    far as B issued them, adds it again; B merging A's delta still contains the
    element, and so does A after merging B's delta. *)
Theorem or_set_add_wins (a b : OrSet) (e : bytes) :
  os_ok a → os_ok b → wf_bytes e →
  os_seq b < 2 ^ 32 - 1 → is_u16 (Z.of_nat (length e)) →
  os_pending_adds a = ∅ → os_pending_removes a = ∅ →
  os_pending_adds b = ∅ → os_pending_removes b = ∅ →
  (∀ t, t ∈ tags_of (os_entries a) e → t.1 = os_node_id b → t.2 ≤ os_seq b) →
  is_u16 (Z.of_nat (size (tags_of (os_entries a) e))) → os_contains a e = true →
  ∃ a1 a2 da b2 db a3 b3 cha chb,
    os_remove a e = (a1, true) ∧ os_contains a1 e = false ∧
    os_delta a1 = Ok (a2, da) ∧ os_delta (os_add b e) = Ok (b2, db) ∧
    os_merge b2 da = Ok (b3, chb) ∧ os_contains b3 e = true ∧
    os_merge a2 db = Ok (a3, cha) ∧ os_contains a3 e = true.
Proof.
  intros Ha Hb He Hseq Hle Pa Ra Pb Rb Hcau Hsz Hc.
  pose proof (os_next_tag_fresh b e Hb Hseq) as Hfresh. set (t := os_next_tag b) in *.
  assert (t ∉ tags_of (os_entries a) e) as Hta.
  { intros Hin. apply Hcau in Hin; [|done]. simpl in Hin.
    rewrite wrap_id in Hin by (destruct Hb as (_ & ? & _); zify_u; lia). lia. }
  destruct (os_remove_wire a e) as (a1 & da & Hr & Hc1 & Hda & Eda); [done..|].
  destruct (os_add_wire b e) as (db & Hdb & Edb); [done..|].
  destruct (os_merge_tags (os_clean a1) _ _ _ Edb) as (a3 & cha & Hm3 & Ht3 & _).
  destruct (os_merge_tags (os_clean (os_add b e)) _ _ _ Eda) as (b3 & chb & Hmb & Htb & _).
  exists a1, (os_clean a1), da, (os_clean (os_add b e)), db, a3, b3, cha, chb.
  split_and!; try done; apply os_contains_tags.
  - rewrite Htb. simpl. rewrite tags_of_insert, decide_True by done. fold t. set_solver.
  - rewrite Ht3. unfold tags_of at 2. rewrite lookup_singleton_eq. set_solver.
Qed.
Lemma or_set_add_wins_witness :
  let a := os_add (os_new 1) [65] in
  let a := {| os_node_id := 1; os_seq := os_seq a; os_entries := os_entries a; os_dirty := false;
              os_pending_adds := ∅; os_pending_removes := ∅ |} in
  ∃ a1 a2 da b2 db a3 b3 cha chb,
    os_remove a [65] = (a1, true) ∧ os_contains a1 [65] = false ∧
    os_delta a1 = Ok (a2, da) ∧ os_delta (os_add (os_new 2) [65]) = Ok (b2, db) ∧
    os_merge b2 da = Ok (b3, chb) ∧ os_contains b3 [65] = true ∧
    os_merge a2 db = Ok (a3, cha) ∧ os_contains a3 [65] = true.
Proof.
  intros a a'. apply (or_set_add_wins a' (os_new 2)); try by_decide.
Defined.

(** removals are not remembered. Two replicas that receive the same two
    deltas of one sender, an addition and its later removal, in different
    orders end in different states: the one that sees the removal first keeps
    the removed element for good. *)
Theorem or_set_order_divergence :
  (let! (s1, d_add) := os_delta (os_add (os_new 1) [65]) in
   let! (s2, d_rem) := os_delta (os_remove s1 [65]).1 in
   let! (x, _) := os_merge (os_new 2) d_add in
   let! (in_order, _) := os_merge x d_rem in
   let! (y, _) := os_merge (os_new 2) d_rem in
   let! (swapped, _) := os_merge y d_add in
   Ok (os_contains s2 [65], os_contains in_order [65], os_contains swapped [65])) =
  Ok (false, false, true).
Proof. vm_compute. reflexivity. Qed.
