(* ===== verification/Crdt.v ===== *)
(** * The CRDT interface

    Models [include/protocoll/state/crdt/crdt.h]: the abstract class is a type
    class whose laws are what the registry, the peer and the relay rely on, and
    the four concrete CRDTs are its instances.  [CrdtValue] is the
    [std::unique_ptr<Crdt>] the registry stores; its operations are the virtual
    calls. *)
From S2P Require Import Prelude Platform Frame GCounter PnCounter LwwRegister OrSet.

Class Crdt (S : Type) := {
  crdt_merge : S → bytes → res (S * bool);
  crdt_snapshot : S → res bytes;
  crdt_delta : S → res (S * bytes);
  crdt_has_pending_delta : S → bool;
  crdt_ok : S → Prop;
  crdt_merge_total : ∀ s data, crdt_ok s → wf_bytes data →
    ∃ s' ch, crdt_merge s data = Ok (s', ch) ∧ crdt_ok s' ∧
             crdt_has_pending_delta s' = crdt_has_pending_delta s;
  crdt_snapshot_total : ∀ s, crdt_ok s → ∃ bs, crdt_snapshot s = Ok bs ∧ wf_bytes bs;
  crdt_delta_total : ∀ s, crdt_ok s →
    ∃ s' bs, crdt_delta s = Ok (s', bs) ∧ crdt_ok s' ∧ wf_bytes bs ∧
             crdt_has_pending_delta s' = false ∧ crdt_snapshot s' = crdt_snapshot s
}.

#[global, refine] Instance GCounter_Crdt : Crdt GCounter := {|
  crdt_merge := gc_merge; crdt_snapshot := gc_snapshot; crdt_delta := gc_delta;
  crdt_has_pending_delta := gc_has_pending_delta; crdt_ok := gc_ok |}.
Proof.
  - intros c data Hc Hd. rewrite gc_merge_wire.
    pose proof (gc_merge_entries_spec (gc_wire data) c false Hc (gc_wire_ok _ Hd)) as H.
    destruct (foldl _ _ _) as [c' ch]. destruct H as (? & _ & ? & _). eauto.
  - intros c Hc. rewrite gc_snapshot_Ok. eauto using gc_bytes_wf.
  - intros c Hc. rewrite gc_delta_Ok. destruct (gc_dirty c) eqn:E.
    + do 2 eexists. split; [done|]. split; [by destruct c|].
      split; [destruct (gc_find c _); [apply gc_bytes_wf|done]|].
      split; [done|]. by rewrite !gc_snapshot_Ok.
    + by do 2 eexists.
Defined.

#[global, refine] Instance PnCounter_Crdt : Crdt PnCounter := {|
  crdt_merge := pn_merge; crdt_snapshot := pn_snapshot; crdt_delta := pn_delta;
  crdt_has_pending_delta := pn_has_pending_delta; crdt_ok := pn_ok |}.
Proof.
  - intros c data [Hp Hn] Hd. rewrite pn_merge_wire. destruct (pn_wire_ok data Hd) as [Wp Wn].
    pose proof (gc_merge_entries_spec _ _ false Hp Wp) as H1.
    pose proof (gc_merge_entries_spec _ _ false Hn Wn) as H2.
    destruct (foldl _ (pn_p c, false) _), (foldl _ (pn_n c, false) _).
    destruct H1 as (? & _ & E1 & _), H2 as (? & _ & E2 & _). do 2 eexists. split; [done|].
    split; [by split|]. unfold pn_has_pending_delta, gc_has_pending_delta. simpl. by rewrite E1, E2.
  - intros c Hc. unfold pn_snapshot. rewrite !gc_snapshot_Ok. eexists. split; [done|].
    apply Forall_app_2; apply gc_bytes_wf.
  - intros c [Hp Hn].
    assert (∀ g, gc_ok g → ∃ g' bs,
      (if gc_has_pending_delta g then gc_delta g else let! s := gc_snapshot g in Ok (g, s)) =
      Ok (g', bs) ∧ gc_ok g' ∧ wf_bytes bs ∧ gc_dirty g' = false ∧
      gc_entries g' = gc_entries g) as Hh.
    { intros g Hg. unfold gc_has_pending_delta. rewrite gc_delta_Ok, gc_snapshot_Ok.
      destruct (gc_dirty g) eqn:E; do 2 eexists.
      - split; [done|]. split; [by destruct g|]. split; [|done].
        destruct (gc_find g _); [apply gc_bytes_wf|done].
      - split; [done|]. split; [done|]. split; [apply gc_bytes_wf|done]. }
    destruct (Hh _ Hp) as (p & bp & Ep & ? & ? & Dp & Sp).
    destruct (Hh _ Hn) as (n & bn & En & ? & ? & Dn & Sn).
    exists {| pn_p := p; pn_n := n |}, (bp ++ bn). unfold pn_delta. cbv zeta. rewrite Ep, En.
    split; [done|]. split; [by split|]. split; [by apply Forall_app_2|].
    unfold pn_has_pending_delta, gc_has_pending_delta, pn_snapshot. simpl.
    rewrite Dp, Dn, !gc_snapshot_Ok, Sp, Sn. done.
Defined.

#[global, refine] Instance LwwRegister_Crdt : Crdt LwwRegister := {|
  crdt_merge := lww_merge; crdt_snapshot := lww_snapshot; crdt_delta := lww_delta;
  crdt_has_pending_delta := lww_has_pending_delta; crdt_ok := lww_ok |}.
Proof.
  - intros r data Hr Hd. destruct (lww_merge_view r data) as (r' & ch & He & _ & ? & _).
    exists r', ch. split_and!; [done| |done]. exact (lww_merge_ok r data r' ch Hr Hd He).
  - intros r Hr. unfold lww_snapshot. rewrite lww_encode_state_Ok. eauto using lww_bytes_wf.
  - intros r Hr. unfold lww_delta, lww_snapshot. destruct (lww_dirty r) eqn:E; cbn [negb].
    + rewrite !lww_encode_state_Ok. do 2 eexists. split; [done|]. split; [by destruct r|].
      split; [by apply (lww_bytes_wf r)|]. split; [done|]. by rewrite lww_encode_state_Ok.
    + by do 2 eexists.
Defined.

Lemma os_bytes_wf m T : tagmap_ok m → wf_bytes (os_bytes m T).
Proof.
  intros Hm. unfold os_bytes. apply Forall_app_2; [apply be16_wf|].
  assert (∀ l, wf_bytes (concat (tag_bytes <$> l))) as Ht.
  { intros l. apply encs_wf. intros t. apply Forall_app_2; [apply be16_wf|apply be32_wf]. }
  apply Forall_app_2; [|apply Forall_app_2; [apply be16_wf|apply Ht]].
  apply Forall_concat, Forall_fmap, Forall_forall. intros [k tags] Hk%elem_of_map_sorted.
  destruct (Hm _ _ Hk) as (? & _ & _). unfold compose, os_entry_bytes. cbn [fst snd].
  apply Forall_app_2; [apply be16_wf|]. apply Forall_app_2; [done|].
  apply Forall_cons; split; [apply u8_is_u|apply Ht].
Qed.
#[global, refine] Instance OrSet_Crdt : Crdt OrSet := {|
  crdt_merge := os_merge; crdt_snapshot := os_snapshot; crdt_delta := os_delta;
  crdt_has_pending_delta := os_has_pending_delta; crdt_ok := os_ok |}.
Proof.
  - intros s data Hs Hd. destruct (os_decode_entries data) as [[inc T]| |] eqn:E.
    + destruct (os_merge_tags s data inc T E) as (s' & ch & Hm & _ & _ & _ & _ & ? & _).
      exists s', ch. split_and!; [done| |done]. exact (os_merge_ok s data s' ch Hs Hd Hm).
    + exists s, false. unfold os_merge. by rewrite E.
    + by destruct (os_decode_safe data).
  - intros s (_ & _ & He & _). unfold os_snapshot. rewrite os_encode_entries_Ok by done.
    eexists. split; [done|]. by apply os_bytes_wf.
  - intros s Hs. destruct (os_dirty s) eqn:E.
    + rewrite os_delta_Ok by done. destruct Hs as (? & ? & ? & ? & ? & ?). do 2 eexists.
      split; [done|]. split; [unfold os_ok; simpl; split_and!; done|].
      split; [by apply os_bytes_wf|done].
    + unfold os_delta. rewrite E. by do 2 eexists.
Defined.

(** ** [std::unique_ptr<Crdt>]: one of the four classes, with virtual dispatch *)
Inductive CrdtValue :=
| CV_Lww (r : LwwRegister)
| CV_GCounter (c : GCounter)
| CV_PnCounter (c : PnCounter)
| CV_OrSet (s : OrSet).
#[global] Instance CrdtValue_eq_dec : EqDecision CrdtValue.
Proof. solve_decision. Defined.

Definition cv_type (v : CrdtValue) : CrdtType :=
  match v with
  | CV_Lww _ => CT_LWW_REGISTER | CV_GCounter _ => CT_G_COUNTER
  | CV_PnCounter _ => CT_PN_COUNTER | CV_OrSet _ => CT_OR_SET
  end.
Definition wrap_fst {A B C} (f : A → B) (m : res (A * C)) : res (B * C) :=
  let! (a, c) := m in Ok (f a, c).

Definition cv_merge (v : CrdtValue) (data : bytes) : res (CrdtValue * bool) :=
  match v with
  | CV_Lww r => wrap_fst CV_Lww (lww_merge r data)
  | CV_GCounter c => wrap_fst CV_GCounter (gc_merge c data)
  | CV_PnCounter c => wrap_fst CV_PnCounter (pn_merge c data)
  | CV_OrSet s => wrap_fst CV_OrSet (os_merge s data)
  end.
Definition cv_snapshot (v : CrdtValue) : res bytes :=
  match v with
  | CV_Lww r => lww_snapshot r | CV_GCounter c => gc_snapshot c
  | CV_PnCounter c => pn_snapshot c | CV_OrSet s => os_snapshot s
  end.
Definition cv_delta (v : CrdtValue) : res (CrdtValue * bytes) :=
  match v with
  | CV_Lww r => wrap_fst CV_Lww (lww_delta r)
  | CV_GCounter c => wrap_fst CV_GCounter (gc_delta c)
  | CV_PnCounter c => wrap_fst CV_PnCounter (pn_delta c)
  | CV_OrSet s => wrap_fst CV_OrSet (os_delta s)
  end.
Definition cv_has_pending_delta (v : CrdtValue) : bool :=
  match v with
  | CV_Lww r => lww_has_pending_delta r | CV_GCounter c => gc_has_pending_delta c
  | CV_PnCounter c => pn_has_pending_delta c | CV_OrSet s => os_has_pending_delta s
  end.
Definition cv_ok (v : CrdtValue) : Prop :=
  match v with
  | CV_Lww r => lww_ok r | CV_GCounter c => gc_ok c
  | CV_PnCounter c => pn_ok c | CV_OrSet s => os_ok s
  end.
#[global] Instance cv_ok_dec v : Decision (cv_ok v).
Proof. destruct v; simpl; apply _. Defined.

(** The laws of the sum follow from the laws of the class it holds. *)
#[global, refine] Instance CrdtValue_Crdt : Crdt CrdtValue := {|
  crdt_merge := cv_merge; crdt_snapshot := cv_snapshot; crdt_delta := cv_delta;
  crdt_has_pending_delta := cv_has_pending_delta; crdt_ok := cv_ok |}.
Proof.
  - intros v data Hv Hd. destruct v as [x|x|x|x]; simpl in *;
      pose proof (crdt_merge_total x data) as H; destruct (H Hv Hd) as (x' & ch & He & ? & ?); simpl in He; rewrite He;
      do 2 eexists; (split; [reflexivity|done]).
  - intros v Hv. destruct v as [x|x|x|x]; pose proof (crdt_snapshot_total x) as H; exact (H Hv).
  - intros v Hv. destruct v as [x|x|x|x]; simpl in *;
      pose proof (crdt_delta_total x) as H; destruct (H Hv) as (x' & bs & He & ? & ? & ? & ?); simpl in He; rewrite He;
      do 2 eexists; (split; [reflexivity|done]).
Defined.

Lemma wrap_fst_Ok {A B C} (f : A → B) (m : res (A * C)) b c :
  wrap_fst f m = Ok (b, c) ↔ ∃ a, m = Ok (a, c) ∧ b = f a.
Proof.
  destruct m as [[a c']| |]; cbn; [|naive_solver..].
  split; [intros [= <- <-]; eauto|]. by intros (a' & [= -> ->] & ->).
Qed.
Lemma cv_merge_type v data v' ch : cv_merge v data = Ok (v', ch) → cv_type v' = cv_type v.
Proof. by destruct v; intros (? & _ & ->)%wrap_fst_Ok. Qed.
Lemma cv_delta_type v v' bs : cv_delta v = Ok (v', bs) → cv_type v' = cv_type v.
Proof. by destruct v; intros (? & _ & ->)%wrap_fst_Ok. Qed.
