(* ===== verification/StatePath.v ===== *)
(** * State paths

    Models [include/protocoll/state/state_path.h] and
    [src/state/state_path.cpp]: parsing of a path into segments, the xxHash32 of
    the whole path, wildcard matching and prefixes.  Strings are byte lists. *)
From S2P Require Import Prelude Platform.

Definition SLASH : Z := 47.
Definition STAR : bytes := [42].

Record StatePath := { sp_path : bytes; sp_hash : Z; sp_segments : list bytes }.
#[global] Instance StatePath_eq_dec : EqDecision StatePath.
Proof. solve_decision. Defined.

(** [sv.find('/')] *)
Fixpoint sv_find_slash (sv : bytes) : option nat :=
  match sv with
  | [] => None
  | c :: sv' => if c =? SLASH then Some O else S <$> sv_find_slash sv'
  end.
(** The [while (!sv.empty())] loop; every round consumes at least one byte. *)
Fixpoint sp_split (fuel : nat) (sv : bytes) : list bytes :=
  match fuel with
  | O => []
  | S f =>
      match sv with
      | [] => []
      | _ =>
          match sv_find_slash sv with
          | None => [sv]
          | Some pos => take pos sv :: sp_split f (drop (pos + 1) sv)
          end
      end
  end.
Definition sp_strip_leading (sv : bytes) : bytes :=
  match sv with c :: sv' => if c =? SLASH then sv' else sv | [] => [] end.
Definition sp_strip_trailing (sv : bytes) : bytes :=
  match last sv with
  | Some c => if c =? SLASH then take (length sv - 1) sv else sv
  | None => sv
  end.
Definition sp_parse_segments (path : bytes) : list bytes :=
  let sv := sp_strip_trailing (sp_strip_leading path) in
  sp_split (S (length sv)) sv.

Definition sp_default : StatePath := {| sp_path := []; sp_hash := 0; sp_segments := [] |}.
Definition sp_empty (p : StatePath) : bool := bool_decide (sp_path p = []).

(** [matches]: segment counts agree and each pattern segment is [*] or equal. *)
Definition sp_matches (p pattern : StatePath) : bool :=
  if negb (length (sp_segments pattern) =? length (sp_segments p))%nat then false else
  forallb (λ ps, bool_decide (ps.1 = STAR) || bool_decide (ps.1 = ps.2))
    (zip (sp_segments pattern) (sp_segments p)).
Definition sp_is_prefix_of (p other : StatePath) : bool :=
  if (length (sp_segments other) <? length (sp_segments p))%nat then false else
  forallb (λ ps, bool_decide (ps.1 = ps.2)) (zip (sp_segments p) (sp_segments other)).
Definition sp_eqb (p o : StatePath) : bool :=
  (sp_hash p =? sp_hash o) && bool_decide (sp_path p = sp_path o).

Section Hash.
Context `{XxHash}.
Definition sp_new (path : bytes) : StatePath :=
  {| sp_path := path; sp_hash := xxhash32 path; sp_segments := sp_parse_segments path |}.
(** Copy and move keep the string and the hash and parse again. *)
Definition sp_copy (o : StatePath) : StatePath :=
  {| sp_path := sp_path o; sp_hash := sp_hash o; sp_segments := sp_parse_segments (sp_path o) |}.
End Hash.

(** ** Parsing *)
Definition segment_ok (s : bytes) : Prop := s ≠ [] ∧ SLASH ∉ s.
#[global] Instance segment_ok_dec s : Decision (segment_ok s).
Proof. unfold segment_ok; apply _. Defined.
(** Segments joined by slashes. *)
Fixpoint sp_join (segs : list bytes) : bytes :=
  match segs with
  | [] => []
  | [s] => s
  | s :: segs' => s ++ SLASH :: sp_join segs'
  end.

Lemma sv_find_slash_None s : SLASH ∉ s → sv_find_slash s = None.
Proof.
  induction s as [|c s IH]; [done|]. intros Hn. simpl.
  destruct (Z.eqb_spec c SLASH); [set_solver|]. rewrite IH by set_solver. done.
Qed.
Lemma sv_find_slash_app s t : SLASH ∉ s → sv_find_slash (s ++ SLASH :: t) = Some (length s).
Proof.
  induction s as [|c s IH]; [done|]. intros Hn. simpl.
  destruct (Z.eqb_spec c SLASH); [set_solver|]. rewrite IH by set_solver. done.
Qed.
Lemma sp_split_join segs fuel :
  Forall segment_ok segs → (length (sp_join segs) < fuel)%nat → sp_split fuel (sp_join segs) = segs.
Proof.
  intros Hs. revert fuel. induction Hs as [|s segs [Hne Hns] Hs IH]; intros fuel Hf.
  { by destruct fuel. }
  destruct fuel as [|fuel]; [lia|]. destruct segs as [|s2 segs].
  - simpl. destruct s as [|c s]; [done|]. by rewrite sv_find_slash_None.
  - set (t := sp_join (s2 :: segs)) in *. change (sp_join (s :: s2 :: segs)) with (s ++ SLASH :: t) in *.
    cbn [sp_split]. destruct (s ++ SLASH :: t) as [|c l] eqn:E; [by destruct s|]. rewrite <-E in *.
    rewrite sv_find_slash_app, take_app_length by done. f_equal.
    rewrite length_app in Hf. simpl in Hf.
    rewrite cons_middle, app_assoc, drop_app_length' by (rewrite length_app; done).
    apply IH. lia.
Qed.
Lemma sp_join_ends segs :
  segs ≠ [] → Forall segment_ok segs →
  (∃ c, head (sp_join segs) = Some c ∧ c ≠ SLASH) ∧ (∃ c, last (sp_join segs) = Some c ∧ c ≠ SLASH).
Proof.
  intros Hne Hs. induction Hs as [|s segs [Hn Hns] Hs IH]; [done|].
  destruct segs as [|s2 segs].
  - simpl. split.
    + destruct s as [|c s]; [done|]. exists c. set_solver.
    + destruct (list_snoc_inv s) as [->|(s' & c & ->)]; [done|].
      exists c. rewrite last_snoc. set_solver.
  - destruct IH as [_ (c & Hl & Hc)]; [done|]. set (t := sp_join (s2 :: segs)) in *.
    change (sp_join (s :: s2 :: segs)) with (s ++ SLASH :: t). split.
    + destruct s as [|c' s]; [done|]. exists c'. set_solver.
    + exists c. rewrite last_app_cons, last_cons, Hl. done.
Qed.

Lemma sp_strip_leading_no l c : head l = Some c → c ≠ SLASH → sp_strip_leading l = l.
Proof.
  destruct l as [|x l]; [done|]. simpl. intros [= ->] Hc. by rewrite (proj2 (Z.eqb_neq _ _)).
Qed.
Lemma sp_strip_trailing_no l c : last l = Some c → c ≠ SLASH → sp_strip_trailing l = l.
Proof. intros Hl Hc. unfold sp_strip_trailing. rewrite Hl. by rewrite (proj2 (Z.eqb_neq _ _)). Qed.
Lemma sp_strip_trailing_slash l : sp_strip_trailing (l ++ [SLASH]) = l.
Proof.
  unfold sp_strip_trailing. rewrite last_snoc, Z.eqb_refl, length_app. simpl.
  replace (length l + 1 - 1)%nat with (length l) by lia. apply take_app_length.
Qed.

(** ** The claims *)

(** a path written as non-empty segments joined by slashes, with or without
    a leading and a trailing slash, parses to exactly those segments, and a
    copied or moved path parses to the same. *)
Theorem state_path_parse `{XxHash} (segs : list bytes) (lead trail : bool) :
  segs ≠ [] → Forall segment_ok segs →
  let path := (if lead then [SLASH] else []) ++ sp_join segs ++ (if trail then [SLASH] else []) in
  sp_segments (sp_new path) = segs ∧ sp_copy (sp_new path) = sp_new path.
Proof.
  intros Hne Hs path. split; [|done]. unfold sp_new, sp_parse_segments. cbn [sp_segments].
  destruct (sp_join_ends segs Hne Hs) as [(h & Hh & Hhs) (c & Hl & Hc)].
  assert (sp_strip_leading path = sp_join segs ++ (if trail then [SLASH] else [])) as ->.
  { unfold path. destruct lead; [done|]. cbn [app]. apply (sp_strip_leading_no _ h); [|done].
    by rewrite head_app, Hh. }
  assert (sp_strip_trailing (sp_join segs ++ (if trail then [SLASH] else [])) = sp_join segs) as ->.
  { destruct trail; [apply sp_strip_trailing_slash|]. rewrite app_nil_r.
    by apply (sp_strip_trailing_no _ c). }
  apply sp_split_join; [done|lia].
Qed.
Lemma state_path_parse_witness :
  let path := [SLASH] ++ sp_join [[97; 98]; [99]] ++ [SLASH] in
  sp_segments (@sp_new toy_xxhash path) = [[97; 98]; [99]] ∧
  sp_copy (@sp_new toy_xxhash path) = @sp_new toy_xxhash path.
Proof. apply (@state_path_parse toy_xxhash [[97; 98]; [99]] true true); by_decide. Defined.

(** [matches] holds exactly when path and pattern have equally many
    segments and every pattern segment is the wildcard or equals the path's;
    [is_prefix_of] is the prefix order on segments; [operator==] is equality of
    the path strings. *)
Theorem state_path_matching `{XxHash} (p q : bytes) :
  (sp_matches (sp_new p) (sp_new q) = true ↔
     Forall2 (λ pat seg, pat = STAR ∨ pat = seg)
       (sp_segments (sp_new q)) (sp_segments (sp_new p))) ∧
  (sp_is_prefix_of (sp_new p) (sp_new q) = true ↔
     sp_segments (sp_new p) `prefix_of` sp_segments (sp_new q)) ∧
  (sp_eqb (sp_new p) (sp_new q) = true ↔ p = q).
Proof.
  unfold sp_matches, sp_is_prefix_of, sp_eqb.
  generalize (sp_segments (sp_new p)) (sp_segments (sp_new q)). intros ps qs. split_and!.
  - destruct (Nat.eqb_spec (length qs) (length ps)) as [Hl|Hl]; cbn [negb].
    + rewrite forallb_spec. split.
      * intros Hf. apply Forall2_same_length_lookup_2; [done|]. intros i x y Hx Hy.
        specialize (Hf (x, y)). rewrite orb_true_iff, !bool_decide_eq_true in Hf. apply Hf.
        by eapply elem_of_zip_lookup.
      * intros Hf [x y] (i & Hi)%list_elem_of_lookup.
        apply lookup_zip_with_Some in Hi as (x' & y' & [= -> ->] & Hx & Hy).
        rewrite orb_true_iff, !bool_decide_eq_true.
        exact (Forall2_lookup_lr _ _ _ _ _ _ Hf Hx Hy).
    + split; [done|]. by intros ?%Forall2_length.
  - destruct (Nat.ltb_spec (length qs) (length ps)) as [Hl|Hl].
    + split; [done|]. intros ?%prefix_length. lia.
    + rewrite forallb_spec. split.
      * intros Hf. exists (drop (length ps) qs). rewrite <-(take_drop (length ps) qs) at 1. f_equal.
        apply list_eq. intros i. destruct (decide (i < length ps)%nat) as [Hi|Hi].
        -- rewrite lookup_take_lt by done. destruct (lookup_lt_is_Some_2 ps i Hi) as [x Hx].
           destruct (lookup_lt_is_Some_2 qs i ltac:(lia)) as [y Hy].
           specialize (Hf (x, y)). rewrite bool_decide_eq_true in Hf. rewrite Hx, Hy. f_equal.
           symmetry. by eapply Hf, elem_of_zip_lookup.
        -- rewrite lookup_take_ge, lookup_ge_None_2 by lia. done.
      * intros [l ->] [x y] (i & Hi)%list_elem_of_lookup.
        apply lookup_zip_with_Some in Hi as (x' & y' & [= -> ->] & Hx & Hy).
        rewrite bool_decide_eq_true. simpl. rewrite lookup_app_l in Hy by (by eapply lookup_lt_Some).
        congruence.
  - rewrite andb_true_iff, Z.eqb_eq, bool_decide_eq_true. simpl. naive_solver.
Qed.
