(* ===== verification/StateRegistry.v ===== *)
(** * State registry

    Models [include/protocoll/state/state_registry.h] and
    [src/state/state_registry.cpp]: the map from path hashes to declared
    regions, dispatch of incoming deltas to the region's CRDT with the update
    callback, and the collection of pending deltas.  The update callback is
    modelled by the list of its invocations. *)
From S2P Require Import Prelude Platform Frame VersionVector GCounter PnCounter LwwRegister.
From S2P Require Import OrSet Crdt StatePath.

Record StateRegion := {
  rg_path : StatePath; rg_crdt_type : CrdtType; rg_reliability : Reliability;
  rg_crdt : CrdtValue; rg_version : VersionVector
}.
#[global] Instance StateRegion_eq_dec : EqDecision StateRegion.
Proof. solve_decision. Defined.
Record StateRegistry := {
  sr_node_id : Z; sr_regions : gmap Z StateRegion; sr_on_update : bool
}.
Record PendingDelta := {
  pd_path_hash : Z; pd_crdt_type : CrdtType; pd_reliability : Reliability; pd_data : bytes
}.
(** One invocation of the update callback: path and snapshot bytes. *)
Abbreviation UpdateEvent := (StatePath * bytes)%type.

Definition sreg_new (node_id : Z) : StateRegistry :=
  {| sr_node_id := node_id; sr_regions := ∅; sr_on_update := false |}.
Definition sreg_set_update_callback (r : StateRegistry) : StateRegistry :=
  {| sr_node_id := sr_node_id r; sr_regions := sr_regions r; sr_on_update := true |}.
Definition sreg_create_crdt (node_id : Z) (type : CrdtType) : option CrdtValue :=
  match type with
  | CT_LWW_REGISTER => Some (CV_Lww (lww_new node_id))
  | CT_G_COUNTER => Some (CV_GCounter (gc_new node_id))
  | CT_PN_COUNTER => Some (CV_PnCounter (pn_new node_id))
  | CT_OR_SET => Some (CV_OrSet (os_new node_id))
  | _ => None
  end.
Definition sreg_set_regions (r : StateRegistry) (m : gmap Z StateRegion) : StateRegistry :=
  {| sr_node_id := sr_node_id r; sr_regions := m; sr_on_update := sr_on_update r |}.
Definition rg_set_crdt (g : StateRegion) (v : CrdtValue) : StateRegion :=
  {| rg_path := rg_path g; rg_crdt_type := rg_crdt_type g; rg_reliability := rg_reliability g;
     rg_crdt := v; rg_version := rg_version g |}.
Definition rg_bump_version (node : Z) (g : StateRegion) : StateRegion :=
  {| rg_path := rg_path g; rg_crdt_type := rg_crdt_type g; rg_reliability := rg_reliability g;
     rg_crdt := rg_crdt g; rg_version := (vv_increment (rg_version g) node).1 |}.

Definition sreg_declare (r : StateRegistry) (path : StatePath) (type : CrdtType) (rel : Reliability)
    : StateRegistry * bool :=
  match sr_regions r !! sp_hash path with
  | Some _ => (r, false)
  | None =>
      match sreg_create_crdt (sr_node_id r) type with
      | None => (r, false)
      | Some crdt =>
          (sreg_set_regions r
             (<[sp_hash path := {| rg_path := sp_copy path; rg_crdt_type := type;
                                   rg_reliability := rel; rg_crdt := crdt;
                                   rg_version := vv_empty |}]> (sr_regions r)), true)
      end
  end.
Definition sreg_get (r : StateRegistry) (path_hash : Z) : option StateRegion :=
  sr_regions r !! path_hash.
Definition sreg_region_count (r : StateRegistry) : nat := size (sr_regions r).

Definition sreg_apply_delta (r : StateRegistry) (path_hash : Z) (data : bytes)
    : res (StateRegistry * bool * list UpdateEvent) :=
  match sreg_get r path_hash with
  | None => Ok (r, false, [])
  | Some region =>
      let! (crdt, changed) := cv_merge (rg_crdt region) data in
      let r' := sreg_set_regions r (<[path_hash := rg_set_crdt region crdt]> (sr_regions r)) in
      if changed && sr_on_update r then
        let! snap := cv_snapshot crdt in
        Ok (r', changed, [(rg_path region, snap)])
      else Ok (r', changed, [])
  end.
Definition sreg_apply_snapshot := sreg_apply_delta.

(** The body of the [collect_deltas] loop, for one region. *)
Definition sreg_collect_one (st : gmap Z StateRegion * list PendingDelta) (hr : Z * StateRegion)
    : res (gmap Z StateRegion * list PendingDelta) :=
  let '(m, deltas) := st in
  let '(hash, region) := hr in
  if cv_has_pending_delta (rg_crdt region) then
    let! (crdt, d) := cv_delta (rg_crdt region) in
    let m := <[hash := rg_set_crdt region crdt]> m in
    if bool_decide (d = []) then Ok (m, deltas)
    else Ok (m, deltas ++ [{| pd_path_hash := hash; pd_crdt_type := rg_crdt_type region;
                              pd_reliability := rg_reliability region; pd_data := d |}])
  else Ok (m, deltas).
Definition sreg_collect_deltas `{UnorderedIter} (r : StateRegistry)
    : res (StateRegistry * list PendingDelta) :=
  let! (m, deltas) := res_foldl sreg_collect_one (sr_regions r, []) (uiter (sr_regions r)) in
  Ok (sreg_set_regions r m, deltas).

(** ** Invariant *)
Definition region_ok (hash : Z) (g : StateRegion) : Prop :=
  sp_hash (rg_path g) = hash ∧ is_u32 hash ∧ rg_crdt_type g = cv_type (rg_crdt g) ∧
  cv_ok (rg_crdt g).
Definition sreg_ok (r : StateRegistry) : Prop :=
  is_u16 (sr_node_id r) ∧ map_Forall region_ok (sr_regions r).
#[global] Instance region_ok_dec h g : Decision (region_ok h g).
Proof. unfold region_ok; apply _. Defined.
#[global] Instance sreg_ok_dec r : Decision (sreg_ok r).
Proof. unfold sreg_ok; apply _. Defined.

Lemma sreg_create_crdt_ok n t v :
  is_u16 n → sreg_create_crdt n t = Some v → cv_ok v ∧ cv_type v = t.
Proof.
  assert (∀ c, c = gc_new n → is_u16 n → gc_ok c) as Hg.
  { intros c -> Hn. split_and!; [done|apply NoDup_singleton|].
    apply Forall_singleton. split; [done|]. by apply (bool_decide_eq_true_1 (is_u64 0)). }
  intros Hn. destruct t; intros [= <-]; (split; [|done]); simpl.
  - split_and!; [by apply (bool_decide_eq_true_1 (is_u32 0))|done|done].
  - by apply Hg.
  - split; by apply Hg.
  - split_and!; simpl; try done; apply map_Forall_empty.
Qed.
Lemma sreg_declare_ok r p t rel :
  sreg_ok r → is_u32 (sp_hash p) → sreg_ok (sreg_declare r p t rel).1.
Proof.
  intros [Hn Hr] Hp. unfold sreg_declare. destruct (_ !! _); [done|].
  destruct (sreg_create_crdt _ _) as [v|] eqn:E; [|done].
  destruct (sreg_create_crdt_ok _ _ _ Hn E) as [Hv Ht].
  split; [done|]. simpl. apply map_Forall_insert_2; [|done]. by split_and!.
Qed.

(** The laws of [Crdt CrdtValue], in terms of the virtual calls. *)
Lemma cv_merge_total v data :
  cv_ok v → wf_bytes data →
  ∃ v' ch, cv_merge v data = Ok (v', ch) ∧ cv_ok v' ∧
           cv_has_pending_delta v' = cv_has_pending_delta v.
Proof. exact (crdt_merge_total v data). Qed.
Lemma cv_snapshot_total v : cv_ok v → ∃ bs, cv_snapshot v = Ok bs ∧ wf_bytes bs.
Proof. exact (crdt_snapshot_total v). Qed.
Lemma cv_delta_total v :
  cv_ok v →
  ∃ v' bs, cv_delta v = Ok (v', bs) ∧ cv_ok v' ∧ wf_bytes bs ∧
           cv_has_pending_delta v' = false ∧ cv_snapshot v' = cv_snapshot v.
Proof. exact (crdt_delta_total v). Qed.

Lemma sreg_apply_delta_total r h data :
  sreg_ok r → wf_bytes data →
  ∃ r' ch ev, sreg_apply_delta r h data = Ok (r', ch, ev) ∧ sreg_ok r' ∧
    (∀ h', h' ≠ h → sreg_get r' h' = sreg_get r h').
Proof.
  intros [Hn Hr] Hd. unfold sreg_apply_delta. destruct (sreg_get r h) as [g|] eqn:E.
  2:{ exists r, false, []. by split_and!. }
  destruct (Hr h g E) as (Hh & Hu & Ht & Hv).
  destruct (cv_merge_total (rg_crdt g) data Hv Hd) as (v & ch & Hm & Hv' & _). rewrite Hm. cbn [res_bind].
  assert (sreg_ok (sreg_set_regions r (<[h := rg_set_crdt g v]> (sr_regions r)))) as Hok.
  { split; [done|]. apply map_Forall_insert_2; [|done].
    split_and!; simpl; try done. by rewrite Ht, (cv_merge_type _ _ _ _ Hm). }
  assert (∀ h', h' ≠ h → sreg_get (sreg_set_regions r (<[h := rg_set_crdt g v]> (sr_regions r))) h' =
    sreg_get r h') as Hf.
  { intros h' Hne. unfold sreg_get. simpl. by rewrite lookup_insert_ne. }
  destruct (ch && sr_on_update r).
  - destruct (cv_snapshot_total v Hv') as (bs & -> & _). by do 3 eexists.
  - by do 3 eexists.
Qed.

(** ** Collection *)
Definition region_delta (g : StateRegion) : option (CrdtValue * bytes) :=
  if cv_has_pending_delta (rg_crdt g) then
    match cv_delta (rg_crdt g) with Ok vd => Some vd | _ => None end
  else None.
Definition region_after (g : StateRegion) : StateRegion :=
  match region_delta g with Some (v, _) => rg_set_crdt g v | None => g end.
Definition region_pending (hash : Z) (g : StateRegion) : list PendingDelta :=
  match region_delta g with
  | Some (_, d) => if bool_decide (d = []) then [] else
      [{| pd_path_hash := hash; pd_crdt_type := rg_crdt_type g;
          pd_reliability := rg_reliability g; pd_data := d |}]
  | None => []
  end.

Lemma sreg_collect_one_spec m ds h g :
  cv_ok (rg_crdt g) → m !! h = Some g →
  sreg_collect_one (m, ds) (h, g) = Ok (<[h := region_after g]> m, ds ++ region_pending h g).
Proof.
  intros Hv Hm. unfold sreg_collect_one, region_after, region_pending, region_delta.
  destruct (cv_has_pending_delta (rg_crdt g)).
  - destruct (cv_delta_total _ Hv) as (v & d & -> & _). cbn [res_bind].
    case_bool_decide; [by rewrite app_nil_r|done].
  - by rewrite app_nil_r, insert_id.
Qed.
Lemma sreg_collect_loop l m ds :
  NoDup l.*1 → Forall (λ hg, cv_ok (rg_crdt hg.2) ∧ m !! hg.1 = Some hg.2) l →
  ∃ m', res_foldl sreg_collect_one (m, ds) l =
    Ok (m', ds ++ concat ((λ hg, region_pending hg.1 hg.2) <$> l)) ∧
    ∀ h, m' !! h = if decide (h ∈ l.*1) then region_after <$> m !! h else m !! h.
Proof.
  revert m ds. induction l as [|[h g] l IH]; intros m ds Hnd Hl.
  { exists m. by rewrite app_nil_r. }
  csimpl in Hnd. apply NoDup_cons in Hnd as [Hni Hnd]. apply Forall_cons in Hl as [[Hv Hm] Hl].
  cbn [res_foldl]. rewrite sreg_collect_one_spec by done. cbn [res_bind].
  destruct (IH (<[h := region_after g]> m) (ds ++ region_pending h g)) as (m' & He & Hg); [done| |].
  { apply Forall_forall. intros [h' g'] Hin. eapply Forall_forall in Hl as [? ?]; [|done].
    split; [done|]. rewrite lookup_insert_ne; [done|]. intros ->.
    destruct Hni. apply list_elem_of_fmap. by exists (h', g'). }
  exists m'. rewrite He. csimpl. rewrite app_assoc. split; [done|].
  intros h'. rewrite Hg. destruct (decide (h = h')) as [->|Hne].
  - rewrite decide_False by done. rewrite lookup_insert_eq, decide_True by set_solver.
    simpl in Hm. by rewrite Hm.
  - rewrite lookup_insert_ne by done.
    destruct (decide (h' ∈ l.*1)); [by rewrite decide_True by set_solver|].
    by rewrite decide_False by set_solver.
Qed.

(** ** The claims *)

(** C15: [declare] succeeds exactly for an undeclared path of one of the four
    implemented CRDT types and then adds one fresh region of that type and
    nothing else; [apply_delta] never leaves its buffers, changes only the
    region it names and that region's CRDT exactly as [merge] does, returns
    merge's flag, and invokes the update callback, with the region's path and
    its new snapshot, exactly when the flag is set and a callback is
    installed. *)
Theorem registry_dispatch (r : StateRegistry) (p : StatePath) (t : CrdtType) (rel : Reliability)
    (h : Z) (data : bytes) :
  sreg_ok r → is_u32 (sp_hash p) → wf_bytes data →
  (let '(r1, ok) := sreg_declare r p t rel in
   sreg_ok r1 ∧
   (ok = true ↔ sreg_get r (sp_hash p) = None ∧
                t ∈ [CT_LWW_REGISTER; CT_G_COUNTER; CT_PN_COUNTER; CT_OR_SET]) ∧
   (ok = false → r1 = r) ∧
   (ok = true → ∃ g, sreg_get r1 (sp_hash p) = Some g ∧ rg_crdt_type g = t ∧
                     rg_reliability g = rel ∧ cv_has_pending_delta (rg_crdt g) = false) ∧
   ∀ h', h' ≠ sp_hash p → sreg_get r1 h' = sreg_get r h') ∧
  ∃ r2 changed events,
    sreg_apply_delta r h data = Ok (r2, changed, events) ∧ sreg_ok r2 ∧
    (∀ h', h' ≠ h → sreg_get r2 h' = sreg_get r h') ∧
    match sreg_get r h with
    | None => r2 = r ∧ changed = false ∧ events = []
    | Some g => ∃ v snap, cv_merge (rg_crdt g) data = Ok (v, changed) ∧ cv_snapshot v = Ok snap ∧
                  sreg_get r2 h = Some (rg_set_crdt g v) ∧
                  events = if changed && sr_on_update r then [(rg_path g, snap)] else []
    end.
Proof.
  intros Hr Hp Hd. split.
  - pose proof (sreg_declare_ok r p t rel Hr Hp) as Hok. unfold sreg_declare in *. unfold sreg_get.
    destruct (sr_regions r !! sp_hash p) as [g|] eqn:E; [split_and!; naive_solver|].
    destruct (sreg_create_crdt (sr_node_id r) t) as [v|] eqn:Ev.
    + split_and!; try done.
      * split; [intros _|done]. split; [done|]. destruct t; try done; set_solver.
      * intros _. eexists. simpl. rewrite lookup_insert_eq. split_and!; try done.
        by destruct t; simplify_eq/=.
      * intros h' Hne. simpl. by rewrite lookup_insert_ne.
    + split_and!; try done. split; [done|]. intros [_ Ht].
      rewrite !elem_of_cons, elem_of_nil in Ht. naive_solver.
  - destruct (sreg_apply_delta_total r h data Hr Hd) as (r2 & ch & ev & He & Hok & Hf).
    exists r2, ch, ev. split_and!; [done..|]. unfold sreg_apply_delta in He.
    destruct (sreg_get r h) as [g|] eqn:E; [|naive_solver].
    destruct Hr as [_ Hr]. destruct (Hr h g E) as (_ & _ & _ & Hv).
    destruct (cv_merge_total _ data Hv Hd) as (v & ch' & Hm & Hv' & _).
    destruct (cv_snapshot_total v Hv') as (bs & Hs & _). exists v, bs.
    rewrite Hm in He. cbn [res_bind] in He. rewrite Hs in He.
    assert (sreg_get (sreg_set_regions r (<[h := rg_set_crdt g v]> (sr_regions r))) h =
      Some (rg_set_crdt g v)) as Hg by (unfold sreg_get; simpl; by rewrite lookup_insert_eq).
    destruct (ch' && sr_on_update r) eqn:Eb; cbn [res_bind] in He; injection He as <- <- <-;
      rewrite Eb; by split_and!.
Qed.
Lemma registry_dispatch_witness :
  let p := @sp_new toy_xxhash [47; 97] in
  ∃ r2 changed events,
    sreg_apply_delta (sreg_new 1) 5 [1; 2] = Ok (r2, changed, events) ∧ sreg_ok r2 ∧
    (∀ h', h' ≠ 5 → sreg_get r2 h' = sreg_get (sreg_new 1) h') ∧
    r2 = sreg_new 1 ∧ changed = false ∧ events = [].
Proof.
  intros p. apply (registry_dispatch (sreg_new 1) p CT_OR_SET Rel_RELIABLE 5 [1; 2]); by_decide.
Defined.

Lemma sreg_collect_spec `{UnorderedIter} (r : StateRegistry) :
  sreg_ok r →
  ∃ r' deltas, sreg_collect_deltas r = Ok (r', deltas) ∧ sreg_ok r' ∧
    (∀ h, sreg_get r' h = region_after <$> sreg_get r h) ∧
    (∀ h g, sreg_get r' h = Some g → cv_has_pending_delta (rg_crdt g) = false) ∧
    (∀ h g, sreg_get r h = Some g →
       cv_snapshot (rg_crdt (region_after g)) = cv_snapshot (rg_crdt g)) ∧
    deltas ≡ₚ concat ((λ hg, region_pending hg.1 hg.2) <$> map_to_list (sr_regions r)).
Proof.
  intros [Hn Hr]. unfold sreg_collect_deltas.
  destruct (sreg_collect_loop (uiter (sr_regions r)) (sr_regions r) []) as (m' & -> & Hm).
  { apply NoDup_fst_uiter. }
  { apply Forall_forall. intros [h g] Hin%elem_of_uiter. split; [|done]. by apply (Hr h g). }
  assert (∀ h, m' !! h = region_after <$> sr_regions r !! h) as Hm'.
  { intros h. rewrite Hm. case_decide as Hin; [done|].
    destruct (sr_regions r !! h) as [g|] eqn:E; [|done]. destruct Hin.
    apply list_elem_of_fmap. exists (h, g). split; [done|]. by apply elem_of_uiter. }
  assert (∀ h g, sr_regions r !! h = Some g → cv_ok (rg_crdt (region_after g)) ∧
    cv_type (rg_crdt (region_after g)) = cv_type (rg_crdt g) ∧
    cv_has_pending_delta (rg_crdt (region_after g)) = false ∧
    cv_snapshot (rg_crdt (region_after g)) = cv_snapshot (rg_crdt g)) as Ha.
  { intros h g E. destruct (Hr h g E) as (_ & _ & _ & Hv). unfold region_after, region_delta.
    destruct (cv_has_pending_delta (rg_crdt g)) eqn:Ep; [|done].
    destruct (cv_delta_total _ Hv) as (v & d & Hd & ? & _ & ? & ?). rewrite Hd. simpl.
    split_and!; try done. by eapply cv_delta_type. }
  assert (∀ g, rg_path (region_after g) = rg_path g ∧
               rg_crdt_type (region_after g) = rg_crdt_type g) as Hp.
  { intros g. unfold region_after. destruct (region_delta g) as [[v d]|]; done. }
  cbn [res_bind app]. do 2 eexists. split; [done|]. unfold sreg_get. simpl. split_and!.
  - split; [done|]. intros h g'. simpl. rewrite Hm'. intros (g & E & ->)%fmap_Some.
    destruct (Hr h g E) as (? & ? & Ht & ?), (Ha h g E) as (? & Hty & _), (Hp g) as [P1 P2].
    unfold region_ok. rewrite P1, P2, Hty. by split_and!.
  - done.
  - intros h g'. rewrite Hm'. intros (g & E & ->)%fmap_Some. by apply (Ha h g E).
  - intros h g E. by apply (Ha h g E).
  - apply concat_fmap_perm, uiter_perm.
Qed.

(** [collect_deltas], in whatever order the hash map is visited, drains
    every region: afterwards no region has a pending change, no region's
    snapshot has changed, and the deltas returned are those of exactly the
    regions that were dirty (up to order), one per region, each with the
    region's path, type and reliability. *)
Theorem registry_collect `{UnorderedIter} (r : StateRegistry) :
  sreg_ok r →
  ∃ r' deltas, sreg_collect_deltas r = Ok (r', deltas) ∧ sreg_ok r' ∧
    (∀ h, sreg_get r' h = region_after <$> sreg_get r h) ∧
    (∀ h g, sreg_get r' h = Some g → cv_has_pending_delta (rg_crdt g) = false) ∧
    (∀ h g, sreg_get r h = Some g →
       cv_snapshot (rg_crdt (region_after g)) = cv_snapshot (rg_crdt g)) ∧
    deltas ≡ₚ concat ((λ hg, region_pending hg.1 hg.2) <$> map_to_list (sr_regions r)).
Proof. apply sreg_collect_spec. Qed.
Lemma registry_collect_witness :
  let r := (sreg_declare (sreg_new 1) (@sp_new toy_xxhash [47; 97]) CT_G_COUNTER Rel_RELIABLE).1 in
  ∃ r' deltas, sreg_collect_deltas r = Ok (r', deltas) ∧ sreg_ok r' ∧
    (∀ h, sreg_get r' h = region_after <$> sreg_get r h) ∧
    (∀ h g, sreg_get r' h = Some g → cv_has_pending_delta (rg_crdt g) = false) ∧
    (∀ h g, sreg_get r h = Some g →
       cv_snapshot (rg_crdt (region_after g)) = cv_snapshot (rg_crdt g)) ∧
    deltas ≡ₚ concat ((λ hg, region_pending hg.1 hg.2) <$> map_to_list (sr_regions r)).
Proof.
  intros r. apply (registry_collect r). by_decide.
Defined.

(** ** Typing: a region never changes its class

    The registry hands out raw pointers to its CRDTs, and callers cast them to the
    class the region was declared with. *)

(** A write through such a cast, as in [Peer::set_lww] and [Peer::increment_counter]:
    guarded by the declared type; a cast to another class is undefined.  The node of
    the registry is the peer's. *)
Inductive LocalWrite := WLww (data : bytes) (timestamp_us : Z) | WCounter (amount : Z).
Definition write_type (x : LocalWrite) : CrdtType :=
  match x with WLww _ _ => CT_LWW_REGISTER | WCounter _ => CT_G_COUNTER end.
Definition cast_write (v : CrdtValue) (x : LocalWrite) : res CrdtValue :=
  match x, v with
  | WLww data ts, CV_Lww r => Ok (CV_Lww (lww_set r data ts))
  | WCounter a, CV_GCounter c => Ok (CV_GCounter (gc_increment c a))
  | _, _ => Oob
  end.
Definition sreg_write (r : StateRegistry) (hash : Z) (x : LocalWrite) : res StateRegistry :=
  match sreg_get r hash with
  | None => Ok r
  | Some g =>
      if negb (bool_decide (rg_crdt_type g = write_type x)) then Ok r else
      let! v := cast_write (rg_crdt g) x in
      Ok (sreg_set_regions r
            (<[hash := rg_bump_version (sr_node_id r) (rg_set_crdt g v)]> (sr_regions r)))
  end.

Inductive RegistryOp :=
| RDeclare (path : StatePath) (type : CrdtType) (rel : Reliability)
| RApply (hash : Z) (data : bytes) | RCollect | RCallback | RWrite (hash : Z) (x : LocalWrite).
Definition rop_ok (o : RegistryOp) : Prop :=
  match o with
  | RDeclare path _ _ => is_u32 (sp_hash path)
  | RApply _ data => wf_bytes data
  | RWrite _ (WLww data ts) => wf_bytes data ∧ is_u32 ts
  | RWrite _ (WCounter a) => is_u64 a
  | RCollect | RCallback => True
  end.
#[global] Instance rop_ok_dec o : Decision (rop_ok o).
Proof. destruct o as [| | | |? []]; apply _. Defined.
Definition rop_exec `{UnorderedIter} (r : StateRegistry) (o : RegistryOp) : res StateRegistry :=
  match o with
  | RDeclare path type rel => Ok (sreg_declare r path type rel).1
  | RApply hash data => let! (r, _, _) := sreg_apply_delta r hash data in Ok r
  | RCollect => let! (r, _) := sreg_collect_deltas r in Ok r
  | RCallback => Ok (sreg_set_update_callback r)
  | RWrite hash x => sreg_write r hash x
  end.

(** [g'] is [g] later: the same region, of the same class. *)
Definition same_region (g g' : StateRegion) : Prop :=
  rg_path g' = rg_path g ∧ rg_crdt_type g' = rg_crdt_type g ∧ rg_reliability g' = rg_reliability g.
Definition regions_kept (r r' : StateRegistry) : Prop :=
  ∀ h g, sreg_get r h = Some g → ∃ g', sreg_get r' h = Some g' ∧ same_region g g'.
#[global] Instance regions_kept_preorder : PreOrder regions_kept.
Proof.
  split.
  - intros r h g E. by exists g.
  - intros r1 r2 r3 H1 H2 h g E. destruct (H1 h g E) as (g2 & E2 & ? & ? & ?).
    destruct (H2 h g2 E2) as (g3 & E3 & ? & ? & ?). exists g3. split; [done|]. split_and!; congruence.
Qed.
Lemma set_region_kept r h g g1 :
  sreg_get r h = Some g → same_region g g1 →
  regions_kept r (sreg_set_regions r (<[h := g1]> (sr_regions r))).
Proof.
  intros E Hs h' g' E'. unfold sreg_get in *. simpl. destruct (decide (h = h')) as [->|Hne].
  - rewrite lookup_insert_eq. simplify_eq. by eexists.
  - rewrite lookup_insert_ne by done. by exists g'.
Qed.
Lemma sreg_write_total r h x :
  sreg_ok r → rop_ok (RWrite h x) →
  ∃ r', sreg_write r h x = Ok r' ∧ sreg_ok r' ∧ regions_kept r r'.
Proof.
  intros [Hn Hr] Hx. unfold sreg_write. destruct (sreg_get r h) as [g|] eqn:E; [|by exists r].
  case_bool_decide as Ht; simpl negb; cbv iota; [|by exists r].
  destruct (Hr h g E) as (Hh & Hu & Hty & Hv).
  assert (∃ v, cast_write (rg_crdt g) x = Ok v ∧ cv_ok v ∧ cv_type v = cv_type (rg_crdt g)) as (v & -> & Hv' & Ht').
  { destruct x as [data ts|a]; simpl in *; destruct (rg_crdt g) as [l|c| |]; simpl in *; try congruence.
    - eexists; split; [done|]. destruct Hv as (_ & ? & _), Hx. split; [|done]. by split_and!.
    - eexists; split; [done|]. split; [|done]. by apply gc_increment_ok. }
  cbn [res_bind]. eexists; split; [done|]. split; [|by eapply set_region_kept].
  split; [done|]. apply map_Forall_insert_2; [|done]. split_and!; simpl; try done. congruence.
Qed.
Lemma rop_exec_total `{UnorderedIter} r o :
  sreg_ok r → rop_ok o → ∃ r', rop_exec r o = Ok r' ∧ sreg_ok r' ∧ regions_kept r r'.
Proof.
  intros Hr Ho. destruct o as [path type rel|h data| | |h x]; cbn [rop_exec].
  - eexists; split; [done|]. split; [by apply sreg_declare_ok|]. unfold sreg_declare.
    destruct (sr_regions r !! sp_hash path) eqn:E; [done|]. destruct (sreg_create_crdt _ _); [|done].
    intros h g Eg. exists g. split; [|done]. unfold sreg_get in *. simpl.
    rewrite lookup_insert_ne; [done|]. intros <-. congruence.
  - destruct (sreg_apply_delta_total r h data Hr Ho) as (r' & ch & ev & E & Hok & _). rewrite E.
    eexists; split; [done|]. split; [done|]. revert E. unfold sreg_apply_delta.
    destruct (sreg_get r h) as [g|] eqn:Eg; [|by intros [= <- _ _]].
    destruct (cv_merge _ _) as [[v changed]| |]; cbn [res_bind]; try done.
    destruct (changed && sr_on_update r); [destruct (cv_snapshot v); cbn [res_bind]; try done|].
    all: intros [= <- _ _]; by eapply set_region_kept.
  - destruct (sreg_collect_spec r Hr) as (r' & ds & -> & Hok & Hg & _). eexists; split; [done|].
    split; [done|]. intros h g Eg. rewrite Hg, Eg. eexists; split; [done|].
    unfold region_after. by destruct (region_delta g) as [[]|].
  - eexists; split; [done|]. split; [exact Hr|]. intros h g Eg. by exists g.
  - by apply sreg_write_total.
Qed.

(** C16: Typing.  Over every sequence of registrations, incoming deltas and snapshots,
    collections and guarded local writes, in every iteration order of the hash map, no
    operation is undefined: in particular every downcast of a region's CRDT is to the
    class it has.  A region, once declared, stays under its hash with its path, its
    reliability and its type, and its CRDT is an instance of that type. *)
Theorem registry_typed `{UnorderedIter} (r : StateRegistry) (ops : list RegistryOp) :
  sreg_ok r → Forall rop_ok ops →
  ∃ r', res_foldl rop_exec r ops = Ok r' ∧ sreg_ok r' ∧
    ∀ h g, sreg_get r h = Some g →
      ∃ g', sreg_get r' h = Some g' ∧ rg_path g' = rg_path g ∧ rg_reliability g' = rg_reliability g ∧
            rg_crdt_type g' = rg_crdt_type g ∧ cv_type (rg_crdt g') = rg_crdt_type g ∧
            sp_hash (rg_path g') = h ∧ cv_ok (rg_crdt g').
Proof.
  intros Hr Hops.
  assert (∃ r', res_foldl rop_exec r ops = Ok r' ∧ sreg_ok r' ∧ regions_kept r r') as (r' & E & Hok & Hk).
  { revert r Hr. induction Hops as [|o ops Ho _ IH]; intros r Hr; cbn [res_foldl]; [by exists r|].
    destruct (rop_exec_total r o Hr Ho) as (r1 & -> & Hr1 & Hk1). cbn [res_bind].
    destruct (IH r1 Hr1) as (r' & E & Hr' & Hk'). exists r'. split_and!; [done..|by etrans]. }
  exists r'. split_and!; [done..|]. intros h g Eg. destruct (Hk h g Eg) as (g' & Eg' & ? & Ht & ?).
  exists g'. destruct (proj2 Hok h g' Eg') as (? & _ & Ht' & ?). split_and!; congruence || done.
Qed.
Lemma registry_typed_witness :
  let path := @sp_new toy_xxhash [47; 97] in
  let r := (sreg_declare (sreg_new 1) path CT_G_COUNTER Rel_RELIABLE).1 in
  ∃ r' g', res_foldl rop_exec r
      [RWrite (sp_hash path) (WCounter 5); RWrite (sp_hash path) (WLww [1] 2);
       RDeclare path CT_LWW_REGISTER Rel_RELIABLE; RApply (sp_hash path) [0; 0]; RCollect] = Ok r' ∧
    sreg_get r' (sp_hash path) = Some g' ∧ cv_type (rg_crdt g') = CT_G_COUNTER.
Proof.
  intros path r.
  destruct (registry_typed r
    [RWrite (sp_hash path) (WCounter 5); RWrite (sp_hash path) (WLww [1] 2);
     RDeclare path CT_LWW_REGISTER Rel_RELIABLE; RApply (sp_hash path) [0; 0]; RCollect])
    as (r' & E & _ & Hg).
  - by_decide.
  - by_decide.
  - destruct (Hg (sp_hash path) {| rg_path := sp_copy path; rg_crdt_type := CT_G_COUNTER;
      rg_reliability := Rel_RELIABLE; rg_crdt := CV_GCounter (gc_new 1); rg_version := vv_empty |})
      as (g' & ? & _ & _ & _ & ? & _).
    + vm_compute. reflexivity.
    + exists r', g'. split_and!; [exact E|done|done].
Defined.
