(* ===== verification/EventLog.v ===== *)
(** * Event log

    Models [include/protocoll/state/event_log.h] and
    [src/state/event_log.cpp]: the append-only log, its queries and its
    compaction.  [el_step] is the log as a state machine; the reachability
    invariant is proved by induction on it. *)
From S2P Require Import Prelude Platform Frame VersionVector.

Record LogEntry := {
  le_sequence : Z; le_path_hash : Z; le_crdt_type : CrdtType; le_version : VersionVector;
  le_data : bytes; le_is_snapshot : bool; le_timestamp_us : Z
}.
Record EventLog := { el_next_seq : Z; el_entries : list LogEntry; el_max_entries : nat }.

Definition el_new : EventLog := {| el_next_seq := 1; el_entries := []; el_max_entries := 10000 |}.

Definition le_set_sequence (e : LogEntry) (s : Z) : LogEntry :=
  {| le_sequence := s; le_path_hash := le_path_hash e; le_crdt_type := le_crdt_type e;
     le_version := le_version e; le_data := le_data e; le_is_snapshot := le_is_snapshot e;
     le_timestamp_us := le_timestamp_us e |}.
Definition el_append (l : EventLog) (e : LogEntry) : EventLog * Z :=
  let seq := el_next_seq l in
  ({| el_next_seq := u64 (el_next_seq l + 1);
      el_entries := el_entries l ++ [le_set_sequence e seq];
      el_max_entries := el_max_entries l |}, seq).
Definition el_append_delta (l : EventLog) (path_hash : Z) (t : CrdtType) (v : VersionVector)
    (data : bytes) (timestamp_us : Z) : EventLog * Z :=
  el_append l {| le_sequence := 0; le_path_hash := path_hash; le_crdt_type := t; le_version := v;
                 le_data := data; le_is_snapshot := false; le_timestamp_us := timestamp_us |}.
Definition el_append_snapshot (l : EventLog) (path_hash : Z) (t : CrdtType) (v : VersionVector)
    (data : bytes) (timestamp_us : Z) : EventLog * Z :=
  el_append l {| le_sequence := 0; le_path_hash := path_hash; le_crdt_type := t; le_version := v;
                 le_data := data; le_is_snapshot := true; le_timestamp_us := timestamp_us |}.

Definition el_entries_since (l : EventLog) (path_hash : Z) (since : VersionVector) : list LogEntry :=
  filter (λ e, le_path_hash e = path_hash ∧ vv_dominates since (le_version e) = false) (el_entries l).
Definition el_latest_snapshot (l : EventLog) (path_hash : Z) : option LogEntry :=
  foldl (λ latest e, if (le_path_hash e =? path_hash) && le_is_snapshot e then Some e else latest)
    None (el_entries l).
Definition el_entries_for (l : EventLog) (path_hash : Z) : list LogEntry :=
  filter (λ e, le_path_hash e = path_hash) (el_entries l).

Definition el_keeps (path_hash : Z) (snapshot_version : VersionVector) (e : LogEntry) : bool :=
  if le_path_hash e =? path_hash
  then le_is_snapshot e || negb (vv_dominates snapshot_version (le_version e))
  else true.
Definition el_compact (l : EventLog) (path_hash : Z) (snapshot_version : VersionVector)
    : EventLog * nat :=
  let kept := filter (λ e, el_keeps path_hash snapshot_version e = true) (el_entries l) in
  ({| el_next_seq := el_next_seq l; el_entries := kept; el_max_entries := el_max_entries l |},
   (length (el_entries l) - length kept)%nat).

Definition el_size (l : EventLog) : nat := length (el_entries l).
Definition el_latest_sequence (l : EventLog) : Z := u64 (el_next_seq l - 1).
Definition el_set_max_entries (l : EventLog) (max : nat) : EventLog :=
  {| el_next_seq := el_next_seq l; el_entries := el_entries l; el_max_entries := max |}.
Definition el_needs_compaction (l : EventLog) : bool := (el_max_entries l <? el_size l)%nat.

(** ** The log as a state machine *)
Inductive el_step : EventLog → EventLog → Prop :=
| el_step_delta l h t v d ts :
    vv_ok v → el_step l (el_append_delta l h t v d ts).1
| el_step_snapshot l h t v d ts :
    vv_ok v → el_step l (el_append_snapshot l h t v d ts).1
| el_step_compact l h v : el_step l (el_compact l h v).1
| el_step_max l n : el_step l (el_set_max_entries l n).
(** [n] steps from the empty log. *)
Inductive el_reach : nat → EventLog → Prop :=
| el_reach_0 : el_reach O el_new
| el_reach_S n l l' : el_reach n l → el_step l l' → el_reach (S n) l'.

Definition el_ok (l : EventLog) : Prop :=
  StronglySorted Z.lt (le_sequence <$> el_entries l) ∧
  Forall (λ e, 1 ≤ le_sequence e < el_next_seq l) (el_entries l) ∧
  Forall (λ e, vv_ok (le_version e)) (el_entries l).

Lemma StronglySorted_filter {A} (R : A → A → Prop) (f : LogEntry → A) (P : LogEntry → Prop)
    `{∀ e, Decision (P e)} l :
  StronglySorted R (f <$> l) → StronglySorted R (f <$> filter P l).
Proof.
  induction l as [|e l IH]; csimpl; [done|]. intros [Hs Hf]%StronglySorted_inv.
  rewrite filter_cons. case_decide; csimpl; [|by apply IH]. constructor; [by apply IH|].
  apply Forall_fmap, Forall_forall. intros x Hx%list_elem_of_filter.
  rewrite Forall_fmap, Forall_forall in Hf. apply Hf, Hx.
Qed.
Lemma StronglySorted_snoc (l : list Z) x :
  StronglySorted Z.lt l → Forall (λ y, y < x) l → StronglySorted Z.lt (l ++ [x]).
Proof.
  induction l as [|y l IH]; simpl; [by repeat constructor|].
  intros [Hs Hf]%StronglySorted_inv [Hy Hl]%Forall_cons. constructor; [by apply IH|].
  apply Forall_app; split; [done|]. by apply Forall_singleton.
Qed.
Lemma el_append_ok l e :
  el_ok l → vv_ok (le_version e) → 1 ≤ el_next_seq l < 2 ^ 64 - 1 → el_ok (el_append l e).1.
Proof.
  intros (Hs & Hr & Hv) He Hn. unfold el_append, el_ok; cbn [fst el_entries el_next_seq].
  rewrite wrap_id by (zify_u; lia). split_and!.
  - rewrite fmap_app. apply StronglySorted_snoc; [done|]. apply Forall_fmap.
    eapply Forall_impl; [exact Hr|]. intros x [_ ?]. done.
  - apply Forall_app; split.
    + eapply Forall_impl; [exact Hr|]. simpl. lia.
    + apply Forall_singleton. simpl. lia.
  - apply Forall_app; split; [done|]. by apply Forall_singleton.
Qed.
Lemma el_compact_ok l h v : el_ok l → el_ok (el_compact l h v).1.
Proof.
  intros (Hs & Hr & Hv). unfold el_compact, el_ok; cbn [fst el_entries el_next_seq]. split_and!.
  - by apply StronglySorted_filter.
  - by apply Forall_list_filter.
  - by apply Forall_list_filter.
Qed.
Lemma el_reach_ok n l :
  el_reach n l → Z.of_nat n < 2 ^ 64 - 2 →
  el_ok l ∧ 1 ≤ el_next_seq l ≤ Z.of_nat n + 1.
Proof.
  induction 1 as [|n l l' Hreach IH Hstep]; intros Hn.
  { split; [|simpl; lia]. by split_and!; [constructor|..]. }
  destruct IH as [Hok Hseq]; [lia|].
  inversion Hstep; subst.
  - split; [apply el_append_ok; [done..|lia]|]. simpl. rewrite wrap_id by (zify_u; lia). lia.
  - split; [apply el_append_ok; [done..|lia]|]. simpl. rewrite wrap_id by (zify_u; lia). lia.
  - split; [by apply el_compact_ok|]. simpl. lia.
  - split; [done|]. simpl. lia.
Qed.

Lemma vv_dominates_trans a b c :
  vv_ok a → vv_ok b → vv_ok c →
  vv_dominates a b = true → vv_dominates b c = true → vv_dominates a c = true.
Proof.
  intros Ha Hb Hc H1 H2. apply vv_dominates_spec in H1, H2; [|done..].
  apply vv_dominates_spec; [done..|]. intros n. specialize (H1 n); specialize (H2 n). lia.
Qed.
(** ** The claims *)

(** in every log reachable from the empty one by appends and compactions
    (fewer than 2^64 - 2 of them) the entries are in strictly increasing order
    of sequence number and below the next number; an append returns a number
    larger than all of them and puts its entry last. *)
Theorem event_log_monotonic (n : nat) (l : EventLog) (e : LogEntry) :
  el_reach n l → Z.of_nat n < 2 ^ 64 - 2 →
  StronglySorted Z.lt (le_sequence <$> el_entries l) ∧
  (let '(l', seq) := el_append l e in
   el_entries l' = el_entries l ++ [le_set_sequence e seq] ∧
   Forall (λ x, le_sequence x < seq) (el_entries l) ∧
   el_latest_sequence l' = seq).
Proof.
  intros Hr Hn. destruct (el_reach_ok n l Hr Hn) as [(Hs & Hf & _) Hseq]. split; [done|].
  simpl. split_and!; [done| |].
  - eapply Forall_impl; [exact Hf|]. simpl. lia.
  - unfold el_latest_sequence. simpl. ulia.
Qed.
Definition el_sample : EventLog :=
  (el_append_delta (el_append_snapshot el_new 7 CT_G_COUNTER (vv_sample [(1, 1)]) [1] 10).1
     7 CT_G_COUNTER (vv_sample [(1, 2)]) [2] 20).1.
Lemma el_sample_reach : el_reach 2 el_sample.
Proof.
  unfold el_sample. eapply el_reach_S; [|apply el_step_delta; by_decide].
  eapply el_reach_S; [|apply el_step_snapshot; by_decide]. constructor.
Qed.
Lemma event_log_monotonic_witness :
  let e := {| le_sequence := 0; le_path_hash := 9; le_crdt_type := CT_OR_SET;
              le_version := vv_empty; le_data := []; le_is_snapshot := false;
              le_timestamp_us := 0 |} in
  StronglySorted Z.lt (le_sequence <$> el_entries el_sample) ∧
  (let '(l', seq) := el_append el_sample e in
   el_entries l' = el_entries el_sample ++ [le_set_sequence e seq] ∧
   Forall (λ x, le_sequence x < seq) (el_entries el_sample) ∧
   el_latest_sequence l' = seq).
Proof. intros e. apply (event_log_monotonic 2 el_sample e); [apply el_sample_reach|done]. Defined.

(** Compaction is invisible to peers that already hold the snapshot. For
    every path and every version vector that dominates the snapshot's,
    [entries_since] returns the same entries before and after; other paths and
    all snapshot entries survive, and the result counts the entries dropped. *)
Theorem event_log_compact_sound (l : EventLog) (h h' : Z) (snap since : VersionVector) :
  el_ok l → vv_ok snap → vv_ok since → vv_dominates since snap = true →
  let '(l', removed) := el_compact l h snap in
  el_ok l' ∧ (removed + el_size l' = el_size l)%nat ∧
  el_entries_since l' h since = el_entries_since l h since ∧
  (h' ≠ h → el_entries_for l' h' = el_entries_for l h') ∧
  el_latest_snapshot l' h = el_latest_snapshot l h ∧
  (∀ e, e ∈ el_entries l → le_is_snapshot e = true → e ∈ el_entries l').
Proof.
  intros Hok Hsn Hsi Hd. pose proof (el_compact_ok l h snap Hok) as Hok'. simpl in *.
  destruct Hok as (_ & _ & Hv). split_and!; [done|..].
  - unfold el_size. simpl. pose proof (length_filter (λ e, el_keeps h snap e = true) (el_entries l)).
    lia.
  - unfold el_entries_since. cbn [el_entries]. apply filter_filter_subset.
    intros e He [Hp Hnd]. unfold el_keeps. rewrite Hp, Z.eqb_refl, orb_true_iff, negb_true_iff.
    right. apply not_true_is_false. intros Hs. rewrite Forall_forall in Hv.
    rewrite (vv_dominates_trans since snap (le_version e)) in Hnd; auto. done.
  - intros Hne. unfold el_entries_for. cbn [el_entries]. apply filter_filter_subset.
    intros e He Hp. unfold el_keeps. by rewrite Hp, (proj2 (Z.eqb_neq _ _)).
  - unfold el_latest_snapshot. cbn [el_entries]. clear. generalize (@None LogEntry) at 1 2.
    induction (el_entries l) as [|e es IH]; intros acc; [done|]. rewrite filter_cons.
    unfold el_keeps at 1. case_decide as Hk; cbn [foldl]; [by rewrite IH|]. rewrite IH.
    destruct (le_path_hash e =? h); [|done]. destruct (le_is_snapshot e); [done|]. done.
  - intros e He Hs. apply list_elem_of_filter. split; [|done]. unfold el_keeps. rewrite Hs.
    by destruct (_ =? _).
Qed.
Lemma event_log_compact_sound_witness :
  el_entries_since (el_compact el_sample 7 (vv_sample [(1, 1)])).1 7 (vv_sample [(1, 1)]) =
  el_entries_since el_sample 7 (vv_sample [(1, 1)]).
Proof.
  apply (event_log_compact_sound el_sample 7 8 (vv_sample [(1, 1)]) (vv_sample [(1, 1)]));
    [|by_decide..]. apply (el_reach_ok 2); [apply el_sample_reach|done].
Defined.
