(* ===== verification/Recovery.v ===== *)
(** * Recovery

    Models [include/protocoll/connection/recovery.h] and
    [src/connection/recovery.cpp]: the request a reconnecting peer sends (its
    version vector per path), its wire format, and the plan the other side
    computes from its event log and registry. *)
From S2P Require Import Prelude Platform Frame VersionVector Crdt StatePath StateRegistry.
From S2P Require Import EventLog.

Record RecoveryRequest := { rr_known_versions : gmap Z VersionVector }.
Record PathRecovery := {
  pr_path_hash : Z; pr_needs_snapshot : bool; pr_entries : list LogEntry
}.
Record RecoveryPlan := { rp_paths : list PathRecovery }.

(** One path of [encode]: grow the vector, write the hash, encode the version
    vector into the bytes after it. *)
Definition rr_encode_path (buf : bytes) (hv : Z * VersionVector) : res bytes :=
  let '(path_hash, vv) := hv in
  let pos := length buf in
  let buf := resize buf (4 + vv_wire_size vv) in
  let! buf := write_u32 buf pos path_hash in
  let! sub := slice buf (pos + 4) (vv_wire_size vv) in
  match vv_encode vv sub with
  | Ok sub' => store buf (pos + 4) sub'
  | Fail => Ok buf
  | Oob => Oob
  end.
Definition rr_encode `{UnorderedIter} (r : RecoveryRequest) : res bytes :=
  let buf := resize [] 2 in
  let! buf := write_u16 buf 0 (u16 (Z.of_nat (size (rr_known_versions r)))) in
  res_foldl rr_encode_path buf (uiter (rr_known_versions r)).

Fixpoint rr_decode_loop (n : nat) (data : bytes) (off : nat) (out : gmap Z VersionVector)
    : res (gmap Z VersionVector) :=
  match n with
  | O => Ok out
  | S n' =>
      check_ (off + 4 <=? length data)%nat (
      let! path_hash := read_u32 data off in
      let off := (off + 4)%nat in
      check_ (off <? length data)%nat (
      let! entry_count := get8 data off in
      let vv_size := (1 + Z.to_nat entry_count * 6)%nat in
      check_ (off + vv_size <=? length data)%nat (
      let! sub := slice data off vv_size in
      let! vv := vv_decode sub in
      rr_decode_loop n' data (off + vv_size) (<[path_hash := vv]> out))))
  end.
Definition rr_decode (data : bytes) : res RecoveryRequest :=
  check_ (2 <=? length data)%nat (
  let! count := read_u16 data 0 in
  let! m := rr_decode_loop (Z.to_nat count) data 2 ∅ in
  Ok {| rr_known_versions := m |}).

(** The body of the [for_each] in [compute_plan]. *)
Definition rm_path_recovery (request : RecoveryRequest) (log : EventLog) (max_delta_entries : nat)
    (region : StateRegion) : PathRecovery :=
  let path_hash := sp_hash (rg_path region) in
  match rr_known_versions request !! path_hash with
  | Some known =>
      let entries := el_entries_since log path_hash known in
      if (length entries <=? max_delta_entries)%nat
      then {| pr_path_hash := path_hash; pr_needs_snapshot := false; pr_entries := entries |}
      else {| pr_path_hash := path_hash; pr_needs_snapshot := true; pr_entries := [] |}
  | None => {| pr_path_hash := path_hash; pr_needs_snapshot := true; pr_entries := [] |}
  end.
Definition rm_compute_plan `{UnorderedIter} (request : RecoveryRequest) (log : EventLog)
    (registry : StateRegistry) (max_delta_entries : nat) : RecoveryPlan :=
  {| rp_paths := (λ hg, rm_path_recovery request log max_delta_entries hg.2) <$>
                 uiter (sr_regions registry) |}.
Definition rm_build_request `{UnorderedIter} (registry : StateRegistry) : RecoveryRequest :=
  {| rr_known_versions :=
       foldl (λ m hg, <[sp_hash (rg_path hg.2) := rg_version hg.2]> m) ∅
         (uiter (sr_regions registry)) |}.

(** ** Wire format *)
Definition rr_path_bytes (hv : Z * VersionVector) : bytes := be32 hv.1 ++ vv_bytes hv.2.
Lemma vv_bytes_length v : length (vv_bytes v) = vv_wire_size v.
Proof.
  unfold vv_bytes, vv_wire_size. cbn [length].
  by rewrite (length_encs 6 vv_entry_bytes (λ e, eq_refl)).
Qed.
Lemma rr_encode_path_Ok buf h v : rr_encode_path buf (h, v) = Ok (buf ++ rr_path_bytes (h, v)).
Proof.
  unfold rr_encode_path, resize. rewrite write_u32_be, store_app_0, store_head
    by (rewrite length_replicate, length_be32; lia).
  cbn [res_bind]. rewrite length_be32, drop_replicate. cbn [Nat.add Nat.sub]. rewrite Nat.sub_0_r.
  set (z := replicate _ 0).
  assert (length z = vv_wire_size v) as Hz by apply length_replicate.
  replace (length buf + 4)%nat with (length (buf ++ be32 h)) by (by rewrite length_app).
  rewrite app_assoc, slice_app_0, slice_all by done. cbn [res_bind].
  rewrite vv_encode_Ok by lia. rewrite drop_ge, app_nil_r by lia.
  rewrite store_app_0, store_head by (rewrite vv_bytes_length; lia). cbn [res_bind].
  rewrite vv_bytes_length, drop_ge, app_nil_r by lia. by rewrite <-app_assoc.
Qed.
Definition vv_fits (v : VersionVector) : Prop := vv_ok v ∧ (length (vv_entries v) ≤ 255)%nat.
#[global] Instance vv_fits_dec v : Decision (vv_fits v).
Proof. unfold vv_fits; apply _. Defined.

Lemma rr_decode_step n P R h v out :
  is_u32 h → vv_fits v →
  rr_decode_loop (S n) (P ++ rr_path_bytes (h, v) ++ R) (length P) out =
  rr_decode_loop n (P ++ rr_path_bytes (h, v) ++ R) (length (P ++ rr_path_bytes (h, v)))
    (<[h := v]> out).
Proof.
  intros Hh [Hv Hn]. unfold rr_path_bytes. cbn [fst snd rr_decode_loop].
  pose proof (vv_bytes_length v) as Lv. unfold vv_wire_size in Lv.
  set (data := P ++ _).
  assert (length data = length P + (4 + (1 + length (vv_entries v) * 6 + length R)))%nat as Ld.
  { unfold data. rewrite !length_app, length_be32, Lv. lia. }
  rewrite (proj2 (Nat.leb_le _ _)) by lia. cbn [check_].
  assert (read_u32 data (length P) = Ok h) as ->.
  { unfold data. rewrite <-app_assoc. by apply read_u32_mid. }
  cbn [res_bind]. rewrite (proj2 (Nat.ltb_lt _ _)) by lia. cbn [check_].
  assert (data = (P ++ be32 h) ++ vv_bytes v ++ R) as Ed by (unfold data; by rewrite <-!app_assoc).
  assert (length P + 4 = length (P ++ be32 h))%nat as -> by (by rewrite length_app).
  assert (get8 data (length (P ++ be32 h)) = Ok (Z.of_nat (length (vv_entries v)))) as ->.
  { rewrite Ed. unfold vv_bytes. cbn [app]. rewrite get8_mid by done. f_equal.
    apply wrap_id. zify_u; lia. }
  cbn [res_bind]. rewrite Nat2Z.id.
  rewrite (proj2 (Nat.leb_le _ _)) by (rewrite Ld, length_app, length_be32; lia). cbn [check_].
  rewrite Ed at 1. rewrite (slice_mid' (P ++ be32 h) (vv_bytes v) R) by done. cbn [res_bind].
  rewrite <-(app_nil_r (vv_bytes v)) at 1. rewrite vv_decode_bytes by done. cbn [res_bind].
  f_equal. rewrite !length_app, Lv. cbn. lia.
Qed.
Lemma rr_decode_loop_bytes l P R out :
  Forall (λ hv, is_u32 hv.1 ∧ vv_fits hv.2) l →
  rr_decode_loop (length l) (P ++ concat (rr_path_bytes <$> l) ++ R) (length P) out =
    Ok (foldl (λ m hv, <[hv.1 := hv.2]> m) out l).
Proof.
  intros Hl. revert P out. induction Hl as [|[h v] l [H1 H2] Hl IH]; intros P out; [done|].
  rewrite fmap_cons. cbn [concat length foldl]. rewrite <-!app_assoc.
  rewrite rr_decode_step by done. by rewrite app_assoc, IH.
Qed.
(** Inserting the pairs of a list without duplicate keys one by one. *)
Lemma foldl_insert_lookup {V} (l : list (Z * V)) (m : gmap Z V) k :
  NoDup l.*1 →
  foldl (λ m hv, <[hv.1 := hv.2]> m) m l !! k =
    match (list_to_map l : gmap Z V) !! k with Some v => Some v | None => m !! k end.
Proof.
  revert m. induction l as [|[k' v] l IH]; intros m Hnd; [done|].
  csimpl in Hnd. apply NoDup_cons in Hnd as [Hk Hnd]. cbn [foldl]. rewrite IH by done. simpl.
  destruct (decide (k' = k)) as [->|].
  - rewrite (not_elem_of_list_to_map_1 l k) by done. by rewrite !lookup_insert_eq.
  - by rewrite !lookup_insert_ne by done.
Qed.
Lemma foldl_insert_uiter `{UnorderedIter} {V} (m : gmap Z V) :
  foldl (λ m hv, <[hv.1 := hv.2]> m) ∅ (uiter m) = m.
Proof.
  apply map_eq. intros k. rewrite foldl_insert_lookup by apply NoDup_fst_uiter.
  rewrite <-(list_to_map_proper (map_to_list m) (uiter m));
    [|apply NoDup_fst_map_to_list|symmetry; apply uiter_perm].
  rewrite list_to_map_to_list, lookup_empty. by destruct (m !! k).
Qed.

Lemma rr_decode_loop_safe n data off out : safe (rr_decode_loop n data off out).
Proof.
  revert off out. induction n as [|n IH]; intros off out; [done|]. cbn [rr_decode_loop].
  apply safe_check; intros H1%Nat.leb_le.
  apply safe_bind; [apply read_u32_safe; lia|]. intros h _.
  apply safe_check; intros H2%Nat.ltb_lt.
  apply safe_bind; [by apply get8_safe|]. intros c _.
  apply safe_check; intros H3%Nat.leb_le.
  apply safe_bind; [by apply slice_safe|]. intros s _.
  apply safe_bind; [apply vv_decode_safe|]. intros. apply IH.
Qed.

(** ** The claims *)

(** a recovery request survives the wire, whatever order the hash map is
    visited in: decoding the encoding of up to 65535 paths with vectors of up
    to 255 entries gives back the same map; decoding never leaves its buffer. *)
Theorem recovery_request_roundtrip `{UnorderedIter} (r : RecoveryRequest) (junk : bytes) :
  is_u16 (Z.of_nat (size (rr_known_versions r))) →
  map_Forall (λ h v, is_u32 h ∧ vv_fits v) (rr_known_versions r) →
  safe (rr_decode junk) ∧ ∃ bs, rr_encode r = Ok bs ∧ rr_decode bs = Ok r.
Proof.
  intros Hs Hf. split.
  { unfold rr_decode. apply safe_check; intros H1%Nat.leb_le.
    apply safe_bind; [by apply read_u16_safe|]. intros.
    apply safe_bind; [apply rr_decode_loop_safe|]. done. }
  unfold rr_encode. rewrite (write_u16_resize [] 0). cbn [res_bind replicate app].
  rewrite app_nil_r, wrap_id by done. set (v := be16 _).
  rewrite (res_foldl_pure _ (λ b hv, b ++ rr_path_bytes hv))
    by (intros ? [] _; apply rr_encode_path_Ok).
  assert (∀ l b, foldl (λ b hv, b ++ rr_path_bytes hv) b l = b ++ concat (rr_path_bytes <$> l)) as ->.
  { intros l b. revert b. induction l as [|x l IH]; intros b; [by rewrite app_nil_r|].
    rewrite fmap_cons. cbn [foldl concat]. by rewrite IH, <-app_assoc. }
  eexists. split; [done|]. unfold rr_decode.
  rewrite (proj2 (Nat.leb_le _ _)) by (rewrite length_app; unfold v; rewrite length_be16; lia).
  cbn [check_]. unfold v at 1. rewrite read_u16_head by done. cbn [res_bind]. rewrite Nat2Z.id.
  rewrite <-uiter_length. change 2%nat with (length v).
  rewrite <-(app_nil_r (concat _)), rr_decode_loop_bytes.
  - cbn [res_bind]. rewrite foldl_insert_uiter. by destruct r.
  - apply Forall_forall. intros [h w] Hin%elem_of_uiter. by apply Hf in Hin.
Qed.
Lemma recovery_request_roundtrip_witness :
  let r := {| rr_known_versions := <[7 := vv_sample [(1, 4)]]> {[9 := vv_empty]} |} in
  safe (rr_decode [0; 1; 5]) ∧ ∃ bs, rr_encode r = Ok bs ∧ rr_decode bs = Ok r.
Proof. intros r. apply (recovery_request_roundtrip r [0; 1; 5]); by_decide. Defined.

(** C39: the recovery plan misses nothing. Every declared region appears in it;
    every logged entry of a region whose version the client's vector does not
    dominate is either in the region's delta list or the region is sent as a
    snapshot, and a region is sent as a snapshot exactly when the client has
    no version for it or lacks more than the allowed number of entries. *)
Theorem recovery_plan_complete `{UnorderedIter} (request : RecoveryRequest) (log : EventLog)
    (registry : StateRegistry) (max : nat) (h : Z) (g : StateRegion) :
  sreg_ok registry → sreg_get registry h = Some g →
  ∃ pr, pr ∈ rp_paths (rm_compute_plan request log registry max) ∧ pr_path_hash pr = h ∧
    (length (rp_paths (rm_compute_plan request log registry max)) = sreg_region_count registry) ∧
    (pr_needs_snapshot pr = true ↔
       match rr_known_versions request !! h with
       | None => True
       | Some known => (max < length (el_entries_since log h known))%nat
       end) ∧
    (∀ e known, e ∈ el_entries log → le_path_hash e = h →
       rr_known_versions request !! h = Some known → vv_dominates known (le_version e) = false →
       pr_needs_snapshot pr = true ∨ e ∈ pr_entries pr) ∧
    (∀ e, e ∈ pr_entries pr → e ∈ el_entries log ∧ le_path_hash e = h).
Proof.
  intros [_ Hr] Hg. destruct (Hr h g Hg) as (Hh & _).
  exists (rm_path_recovery request log max g).
  assert (pr_path_hash (rm_path_recovery request log max g) = h) as Hph.
  { unfold rm_path_recovery. destruct (_ !! _); [destruct (_ <=? _)%nat|]; done. }
  split_and!; [|done|..].
  - apply list_elem_of_fmap. exists (h, g). split; [done|]. by apply elem_of_uiter.
  - simpl. rewrite length_fmap. apply uiter_length.
  - unfold rm_path_recovery. rewrite Hh. destruct (_ !! h) as [known|]; [|done].
    destruct (Nat.leb_spec (length (el_entries_since log h known)) max); simpl;
      split; try done; lia.
  - intros e known He Hp Hk Hd. unfold rm_path_recovery. rewrite Hh, Hk.
    destruct (_ <=? _)%nat; [right|by left]. simpl. unfold el_entries_since.
    by apply list_elem_of_filter.
  - intros e. unfold rm_path_recovery. rewrite Hh. destruct (_ !! h) as [known|]; [|set_solver].
    destruct (_ <=? _)%nat; simpl; [|set_solver].
    unfold el_entries_since. intros [[? _] ?]%list_elem_of_filter. done.
Qed.
Lemma recovery_plan_complete_witness :
  let path := {| sp_path := [97]; sp_hash := 7; sp_segments := [[97]] |} in
  let reg := (sreg_declare (sreg_new 1) path CT_G_COUNTER Rel_RELIABLE).1 in
  let req := {| rr_known_versions := {[7 := vv_sample [(1, 1)]]} |} in
  ∃ pr, pr ∈ rp_paths (rm_compute_plan req el_sample reg 50) ∧ pr_path_hash pr = 7 ∧
    length (rp_paths (rm_compute_plan req el_sample reg 50)) = sreg_region_count reg.
Proof.
  intros path reg req.
  destruct (recovery_plan_complete req el_sample reg 50 7
    {| rg_path := sp_copy path; rg_crdt_type := CT_G_COUNTER; rg_reliability := Rel_RELIABLE;
       rg_crdt := CV_GCounter (GCounter.gc_new 1); rg_version := vv_empty |})
    as (pr & ? & ? & ? & _); [by_decide|reflexivity|]. by exists pr.
Defined.
