(* ===== verification/Resolution.v ===== *)
(** * Multi-resolution delta filter

    Models [include/protocoll/state/resolution.h] and
    [src/state/resolution.cpp].  The steady clock is a parameter: [now] is its
    reading in nanoseconds at the call. *)
From S2P Require Import Prelude Platform.

Inductive ResolutionTier := RT_FULL | RT_NORMAL | RT_COARSE | RT_METADATA | RT_raw (b : Z).
#[global] Instance ResolutionTier_eq_dec : EqDecision ResolutionTier.
Proof. solve_decision. Defined.
Definition ResolutionTier_to_u8 (t : ResolutionTier) : Z :=
  match t with RT_FULL => 0 | RT_NORMAL => 1 | RT_COARSE => 2 | RT_METADATA => 3 | RT_raw b => b end.
Definition ResolutionTier_of_u8 (b : Z) : ResolutionTier :=
  match b with 0 => RT_FULL | 1 => RT_NORMAL | 2 => RT_COARSE | 3 => RT_METADATA | _ => RT_raw b end.

Record ResolutionConfig := {
  rc_normal_max_updates_per_sec : Z; rc_coarse_min_change_bytes : nat
}.
Definition rc_default : ResolutionConfig :=
  {| rc_normal_max_updates_per_sec := 10; rc_coarse_min_change_bytes := 4 |}.

Record PathRateState := { prs_last_sent : Z; prs_sent_this_interval : Z }.
Record DeltaFilter := {
  df_tier : ResolutionTier; df_config : ResolutionConfig;
  df_rate_states : gmap Z PathRateState;
  df_coarse_states : gmap Z bytes;
  df_metadata_states : gmap Z bool;
  df_deltas_forwarded : Z; df_deltas_filtered : Z
}.

Definition df_new (tier : ResolutionTier) (config : ResolutionConfig) : DeltaFilter :=
  {| df_tier := tier; df_config := config; df_rate_states := ∅; df_coarse_states := ∅;
     df_metadata_states := ∅; df_deltas_forwarded := 0; df_deltas_filtered := 0 |}.
Definition df_set_tier (f : DeltaFilter) (t : ResolutionTier) : DeltaFilter :=
  {| df_tier := t; df_config := df_config f; df_rate_states := df_rate_states f;
     df_coarse_states := df_coarse_states f; df_metadata_states := df_metadata_states f;
     df_deltas_forwarded := df_deltas_forwarded f; df_deltas_filtered := df_deltas_filtered f |}.

Definition df_set_config (f : DeltaFilter) (c : ResolutionConfig) : DeltaFilter :=
  {| df_tier := df_tier f; df_config := c; df_rate_states := df_rate_states f;
     df_coarse_states := df_coarse_states f; df_metadata_states := df_metadata_states f;
     df_deltas_forwarded := df_deltas_forwarded f; df_deltas_filtered := df_deltas_filtered f |}.

Definition df_with_rate (f : DeltaFilter) (m : gmap Z PathRateState) : DeltaFilter :=
  {| df_tier := df_tier f; df_config := df_config f; df_rate_states := m;
     df_coarse_states := df_coarse_states f; df_metadata_states := df_metadata_states f;
     df_deltas_forwarded := df_deltas_forwarded f; df_deltas_filtered := df_deltas_filtered f |}.
Definition df_with_coarse (f : DeltaFilter) (m : gmap Z bytes) : DeltaFilter :=
  {| df_tier := df_tier f; df_config := df_config f; df_rate_states := df_rate_states f;
     df_coarse_states := m; df_metadata_states := df_metadata_states f;
     df_deltas_forwarded := df_deltas_forwarded f; df_deltas_filtered := df_deltas_filtered f |}.
Definition df_with_metadata (f : DeltaFilter) (m : gmap Z bool) : DeltaFilter :=
  {| df_tier := df_tier f; df_config := df_config f; df_rate_states := df_rate_states f;
     df_coarse_states := df_coarse_states f; df_metadata_states := m;
     df_deltas_forwarded := df_deltas_forwarded f; df_deltas_filtered := df_deltas_filtered f |}.
(** [deltas_forwarded_++] or [deltas_filtered_++] *)
Definition df_count (f : DeltaFilter) (forwarded : bool) : DeltaFilter :=
  {| df_tier := df_tier f; df_config := df_config f; df_rate_states := df_rate_states f;
     df_coarse_states := df_coarse_states f; df_metadata_states := df_metadata_states f;
     df_deltas_forwarded := if forwarded then u64 (df_deltas_forwarded f + 1) else df_deltas_forwarded f;
     df_deltas_filtered := if forwarded then df_deltas_filtered f else u64 (df_deltas_filtered f + 1) |}.

Definition df_check_rate_limit (f : DeltaFilter) (now path_hash : Z) : DeltaFilter * bool :=
  let state := default {| prs_last_sent := 0; prs_sent_this_interval := 0 |}
                 (df_rate_states f !! path_hash) in
  let put s := df_with_rate f (<[path_hash := s]> (df_rate_states f)) in
  if prs_sent_this_interval state =? 0 then
    (put {| prs_last_sent := now; prs_sent_this_interval := 1 |}, true)
  else
    let elapsed := Z.quot (now - prs_last_sent state) 1000000 in
    if 1000 <=? elapsed then
      (put {| prs_last_sent := now; prs_sent_this_interval := 1 |}, true)
    else if prs_sent_this_interval state <? rc_normal_max_updates_per_sec (df_config f) then
      (put {| prs_last_sent := prs_last_sent state;
              prs_sent_this_interval := u32 (prs_sent_this_interval state + 1) |}, true)
    else (put state, false).

(** The loop counting the positions where the common prefix differs. *)
Definition df_diff_bytes (a b : bytes) : nat :=
  (Nat.max (length a) (length b) - Nat.min (length a) (length b) +
   length (filter (λ xy, xy.1 ≠ xy.2) (zip a b)))%nat.
Definition df_check_change_threshold (f : DeltaFilter) (path_hash : Z) (data : bytes)
    : DeltaFilter * bool :=
  let last := default [] (df_coarse_states f !! path_hash) in
  let put d := df_with_coarse f (<[path_hash := d]> (df_coarse_states f)) in
  if bool_decide (last = []) then (put data, true)
  else if (rc_coarse_min_change_bytes (df_config f) <=? df_diff_bytes last data)%nat
       then (put data, true)
       else (put last, false).

Definition df_should_forward (f : DeltaFilter) (now path_hash : Z) (data : bytes)
    : DeltaFilter * bool :=
  match df_tier f with
  | RT_FULL => (df_count f true, true)
  | RT_NORMAL =>
      let '(f, b) := df_check_rate_limit f now path_hash in (df_count f b, b)
  | RT_COARSE =>
      let '(f, b) := df_check_change_threshold f path_hash data in (df_count f b, b)
  | RT_METADATA =>
      (df_count (df_with_metadata f (<[path_hash := true]> (df_metadata_states f))) false, false)
  | RT_raw _ => (f, false)
  end.
Definition df_should_send_version_info (f : DeltaFilter) (path_hash : Z) : DeltaFilter * bool :=
  if negb (bool_decide (df_tier f = RT_METADATA)) then (f, false) else
  match df_metadata_states f !! path_hash with
  | None => (f, false)
  | Some true => (df_with_metadata f (<[path_hash := false]> (df_metadata_states f)), true)
  | Some false => (f, false)
  end.
Definition df_reset (f : DeltaFilter) : DeltaFilter := df_new (df_tier f) (df_config f).

(** A run of offers of one path's deltas at given clock readings: the filter
    afterwards and the decisions. *)
Fixpoint df_run (f : DeltaFilter) (path_hash : Z) (offers : list (Z * bytes))
    : DeltaFilter * list bool :=
  match offers with
  | [] => (f, [])
  | (now, data) :: offers' =>
      let '(f, b) := df_should_forward f now path_hash data in
      let '(f, bs) := df_run f path_hash offers' in (f, b :: bs)
  end.
Definition forwarded (bs : list bool) : nat := length (filter (λ b, b = true) bs).

(** Within one interval that began at [t0] with [k] sent, the rest of the
    budget is used up by the next offers and nothing more passes. *)
Lemma df_run_interval f h t0 k offers :
  df_tier f = RT_NORMAL →
  df_rate_states f !! h = Some {| prs_last_sent := t0; prs_sent_this_interval := k |} →
  1 ≤ k → is_u32 (rc_normal_max_updates_per_sec (df_config f)) →
  Forall (λ o, t0 ≤ o.1 < t0 + 1000000000) offers →
  forwarded (df_run f h offers).2 =
    Nat.min (length offers) (Z.to_nat (rc_normal_max_updates_per_sec (df_config f) - k)).
Proof.
  intros Ht Hs Hk Hc Ho. revert f k Ht Hs Hk Hc.
  induction Ho as [|[now data] offers [H1 H2] Ho IH]; intros f k Ht Hs Hk Hc; [done|].
  simpl in H1, H2. cbn [df_run]. unfold df_should_forward. rewrite Ht.
  unfold df_check_rate_limit. rewrite Hs. cbn [default from_option id prs_sent_this_interval prs_last_sent].
  rewrite (proj2 (Z.eqb_neq k 0)) by lia.
  assert (Z.quot (now - t0) 1000000 < 1000) as Hq.
  { rewrite Z.quot_div_nonneg by lia. apply Z.div_lt_upper_bound; lia. }
  rewrite (proj2 (Z.leb_gt _ _)) by lia.
  destruct (Z.ltb_spec k (rc_normal_max_updates_per_sec (df_config f))) as [Hlt|Hge].
  - set (f' := df_count _ true). specialize (IH f' (u32 (k + 1))).
    destruct (df_run f' h offers) as [f2 bs]. cbn [snd] in *. unfold forwarded in *.
    rewrite filter_cons_True by done. cbn [length].
    assert (u32 (k + 1) = k + 1) as Hw by (apply wrap_id; zify_u; lia).
    rewrite IH; [change (df_config f') with (df_config f); rewrite Hw; lia|exact Ht|cbn; by rewrite lookup_insert_eq|lia|exact Hc].
  - set (f' := df_count _ false). specialize (IH f' k).
    destruct (df_run f' h offers) as [f2 bs]. cbn [snd] in *. unfold forwarded in *.
    rewrite filter_cons_False by done.
    rewrite IH; [change (df_config f') with (df_config f); lia|exact Ht|cbn; by rewrite lookup_insert_eq|lia|exact Hc].
Qed.

(** ** The claim *)

(** the four tiers. FULL forwards every delta; NORMAL, offered deltas of
    one path within one second, forwards exactly the first [max(1, limit)] of
    them; COARSE forwards a delta exactly when it is the first or differs from
    the last forwarded one in at least the configured number of bytes; METADATA
    forwards none and answers the version query of the path with true exactly
    once. *)
Theorem resolution_tiers (config : ResolutionConfig) (h t0 : Z) (offers : list (Z * bytes))
    (f : DeltaFilter) (now : Z) (data : bytes) :
  is_u32 (rc_normal_max_updates_per_sec config) →
  Forall (λ o, t0 ≤ o.1 < t0 + 1000000000) offers →
  forwarded (df_run (df_new RT_FULL config) h offers).2 = length offers ∧
  (∀ d0, forwarded (df_run (df_new RT_NORMAL config) h ((t0, d0) :: offers)).2 =
     Nat.min (S (length offers)) (Nat.max 1 (Z.to_nat (rc_normal_max_updates_per_sec config)))) ∧
  (df_tier f = RT_COARSE →
     ((df_should_forward f now h data).2 = true ↔
        default [] (df_coarse_states f !! h) = [] ∨
        (rc_coarse_min_change_bytes (df_config f) ≤
           df_diff_bytes (default [] (df_coarse_states f !! h)) data)%nat)) ∧
  (df_tier f = RT_METADATA →
     let '(f1, b) := df_should_forward f now h data in
     let '(f2, v1) := df_should_send_version_info f1 h in
     let '(f3, v2) := df_should_send_version_info f2 h in
     b = false ∧ v1 = true ∧ v2 = false).
Proof.
  intros Hc Ho. split_and!.
  - clear Ho. assert (∀ f, df_tier f = RT_FULL → forwarded (df_run f h offers).2 = length offers) as H;
      [|by apply H].
    induction offers as [|[t d] offers IH]; intros f' Hf; [done|]. cbn [df_run].
    unfold df_should_forward. rewrite Hf. specialize (IH (df_count f' true) Hf).
    destruct (df_run _ h offers) as [f2 bs]. cbn [snd] in *. unfold forwarded in *.
    rewrite filter_cons_True by done. cbn [length]. by rewrite IH.
  - intros d0. cbn [df_run]. unfold df_should_forward, df_check_rate_limit.
    cbn [df_new df_tier df_rate_states]. rewrite lookup_empty.
    cbn [default from_option id prs_sent_this_interval Z.eqb]. set (f' := df_count _ true).
    pose proof (df_run_interval f' h t0 1 offers eq_refl) as H.
    destruct (df_run f' h offers) as [f2 bs]. cbn [snd] in *. unfold forwarded in *.
    rewrite filter_cons_True by done. cbn [length]. 
    rewrite H; [change (df_config f') with config; lia|cbn; by rewrite lookup_insert_eq|lia|exact Hc|exact Ho].
  - intros Hf. unfold df_should_forward, df_check_change_threshold. rewrite Hf.
    case_bool_decide as E; simpl; [tauto|].
    destruct (Nat.leb_spec (rc_coarse_min_change_bytes (df_config f))
      (df_diff_bytes (default [] (df_coarse_states f !! h)) data)); simpl; split; intros; try done; auto.
    match goal with H : _ ∨ _ |- _ => destruct H; [done|lia] end.
  - intros Hf. unfold df_should_forward. rewrite Hf. unfold df_should_send_version_info. simpl.
    rewrite Hf, lookup_insert_eq. simpl. rewrite Hf. simpl. by rewrite lookup_insert_eq.
Qed.
Lemma resolution_tiers_witness :
  forwarded (df_run (df_new RT_NORMAL {| rc_normal_max_updates_per_sec := 2;
                                          rc_coarse_min_change_bytes := 4 |}) 7
               [(5, [1]); (10, [2]); (20, [3]); (30, [4])]).2 = 2%nat.
Proof.
  apply (resolution_tiers {| rc_normal_max_updates_per_sec := 2; rc_coarse_min_change_bytes := 4 |}
    7 5 [(10, [2]); (20, [3]); (30, [4])] (df_new RT_FULL rc_default) 0 []); by_decide.
Defined.
