(* ===== verification/Subscription.v ===== *)
(** * Subscriptions

    Models [include/protocoll/state/subscription.h] and
    [src/state/subscription.cpp]: the table of remote subscriptions with their
    credits, and the three wire payloads that manage it. *)
From S2P Require Import Prelude Platform Frame StatePath Resolution.

Record Subscription := {
  sub_id : Z; sub_conn_id : Z; sub_pattern : StatePath; sub_credits : Z;
  sub_freshness_us : Z; sub_tier : ResolutionTier
}.
Definition sub_has_credits (s : Subscription) : bool := negb (sub_credits s =? 0).
Definition sub_set_credits (s : Subscription) (c : Z) : Subscription :=
  {| sub_id := sub_id s; sub_conn_id := sub_conn_id s; sub_pattern := sub_pattern s;
     sub_credits := c; sub_freshness_us := sub_freshness_us s; sub_tier := sub_tier s |}.
Definition sub_consume_credit (s : Subscription) : Subscription :=
  if 0 <? sub_credits s then sub_set_credits s (sub_credits s - 1) else s.

Record MatchResult := { mr_sub_id : Z; mr_conn_id : Z }.
Record SubscriptionManager := { sm_next_id : Z; sm_subs : gmap Z Subscription }.

Definition sm_new : SubscriptionManager := {| sm_next_id := 1; sm_subs := ∅ |}.
(** [emplace] keeps an existing entry of the same id. *)
Definition sm_subscribe (m : SubscriptionManager) (conn_id : Z) (pattern : StatePath)
    (initial_credits freshness_us : Z) : SubscriptionManager * Z :=
  let id := sm_next_id m in
  let sub := {| sub_id := id; sub_conn_id := conn_id; sub_pattern := sp_copy pattern;
                sub_credits := initial_credits; sub_freshness_us := freshness_us;
                sub_tier := RT_FULL |} in
  ({| sm_next_id := u32 (id + 1);
      sm_subs := match sm_subs m !! id with
                 | Some _ => sm_subs m
                 | None => <[id := sub]> (sm_subs m)
                 end |}, id).
Definition sm_unsubscribe (m : SubscriptionManager) (id : Z) : SubscriptionManager * bool :=
  ({| sm_next_id := sm_next_id m; sm_subs := delete id (sm_subs m) |},
   bool_decide (is_Some (sm_subs m !! id))).
Definition sm_remove_connection (m : SubscriptionManager) (conn_id : Z) : SubscriptionManager :=
  {| sm_next_id := sm_next_id m;
     sm_subs := filter (λ ks, sub_conn_id ks.2 ≠ conn_id) (sm_subs m) |}.
(** [credits += n] on [int64_t]: undefined when it leaves the range. *)
Definition sm_add_credits (m : SubscriptionManager) (id credits : Z)
    : res (SubscriptionManager * bool) :=
  match sm_subs m !! id with
  | None => Ok (m, false)
  | Some s =>
      if 0 <=? sub_credits s then
        let c := sub_credits s + credits in
        if (- 2 ^ 63 <=? c) && (c <? 2 ^ 63) then
          Ok ({| sm_next_id := sm_next_id m;
                 sm_subs := <[id := sub_set_credits s c]> (sm_subs m) |}, true)
        else Oob
      else Ok (m, true)
  end.

Definition sub_selected (path : StatePath) (s : Subscription) : bool :=
  sp_matches path (sub_pattern s) && sub_has_credits s.
Definition sm_match `{UnorderedIter} (m : SubscriptionManager) (path : StatePath) : list MatchResult :=
  (λ ks, {| mr_sub_id := sub_id ks.2; mr_conn_id := sub_conn_id ks.2 |}) <$>
  filter (λ ks, sub_selected path ks.2 = true) (uiter (sm_subs m)).
(** Every entry is visited once and updated in place. *)
Definition sm_match_and_consume `{UnorderedIter} (m : SubscriptionManager) (path : StatePath)
    : SubscriptionManager * list MatchResult :=
  ({| sm_next_id := sm_next_id m;
      sm_subs := (λ s, if sub_selected path s then sub_consume_credit s else s) <$> sm_subs m |},
   sm_match m path).
Definition sm_get (m : SubscriptionManager) (id : Z) : option Subscription := sm_subs m !! id.
Definition sm_count (m : SubscriptionManager) : nat := size (sm_subs m).
Definition sm_count_for_connection `{UnorderedIter} (m : SubscriptionManager) (conn_id : Z) : nat :=
  length (filter (λ ks, sub_conn_id ks.2 = conn_id) (uiter (sm_subs m))).

(** ** Wire payloads *)
Record SubscribeFramePayload := {
  sfp_sub_id : Z; sfp_initial_credits : Z; sfp_freshness_us : Z; sfp_tier : ResolutionTier;
  sfp_pattern : bytes
}.
Definition sfp_wire_size (f : SubscribeFramePayload) : nat := (15 + length (sfp_pattern f))%nat.
Definition sfp_encode (f : SubscribeFramePayload) (buf : bytes) : res (bytes * nat) :=
  check_ (sfp_wire_size f <=? length buf)%nat (
  let! buf := write_u32 buf 0 (sfp_sub_id f) in
  let! buf := write_u32 buf 4 (u32 (sfp_initial_credits f)) in
  let! buf := write_u32 buf 8 (sfp_freshness_us f) in
  let! buf := put8 buf 12 (ResolutionTier_to_u8 (sfp_tier f)) in
  let! buf := write_u16 buf 13 (u16 (Z.of_nat (length (sfp_pattern f)))) in
  let! buf := (if bool_decide (sfp_pattern f = []) then Ok buf else store buf 15 (sfp_pattern f)) in
  Ok (buf, sfp_wire_size f)).
Definition sfp_decode (buf : bytes) : res SubscribeFramePayload :=
  check_ (15 <=? length buf)%nat (
  let! id := read_u32 buf 0 in
  let! credits := read_u32 buf 4 in
  let! fresh := read_u32 buf 8 in
  let! tier := get8 buf 12 in
  let! pat_len := read_u16 buf 13 in
  check_ (15 + Z.to_nat pat_len <=? length buf)%nat (
  let! pat := slice buf 15 (Z.to_nat pat_len) in
  Ok {| sfp_sub_id := id; sfp_initial_credits := i32 credits; sfp_freshness_us := fresh;
        sfp_tier := ResolutionTier_of_u8 tier; sfp_pattern := pat |})).

Record UnsubscribeFramePayload := { ufp_sub_id : Z }.
Definition ufp_encode (f : UnsubscribeFramePayload) (buf : bytes) : res bytes :=
  check_ (4 <=? length buf)%nat (write_u32 buf 0 (ufp_sub_id f)).
Definition ufp_decode (buf : bytes) : res UnsubscribeFramePayload :=
  check_ (4 <=? length buf)%nat (
  let! id := read_u32 buf 0 in Ok {| ufp_sub_id := id |}).

Record CreditFramePayload := { cfp_sub_id : Z; cfp_credits : Z }.
Definition cfp_encode (f : CreditFramePayload) (buf : bytes) : res bytes :=
  check_ (8 <=? length buf)%nat (
  let! buf := write_u32 buf 0 (cfp_sub_id f) in
  write_u32 buf 4 (u32 (cfp_credits f))).
Definition cfp_decode (buf : bytes) : res CreditFramePayload :=
  check_ (8 <=? length buf)%nat (
  let! id := read_u32 buf 0 in
  let! c := read_u32 buf 4 in
  Ok {| cfp_sub_id := id; cfp_credits := i32 c |}).

(** ** Invariant: ids are the keys and below the next one *)
Definition sm_ok (m : SubscriptionManager) : Prop :=
  map_Forall (λ id s, sub_id s = id ∧ 1 ≤ id < sm_next_id m) (sm_subs m).
#[global] Instance sm_ok_dec m : Decision (sm_ok m).
Proof. unfold sm_ok; apply _. Defined.

Definition is_i32 (z : Z) : Prop := - 2 ^ 31 ≤ z < 2 ^ 31.
#[global] Instance is_i32_dec z : Decision (is_i32 z).
Proof. unfold is_i32; apply _. Defined.
Lemma i32_u32 z : is_i32 z → i32 (u32 z) = z.
Proof. unfold is_i32. intros Hz. unfold signed. cbv zeta. rewrite wrap_wrap by done.
  destruct (Z.ltb_spec (u32 z) (2 ^ (32 - 1))); ulia. Qed.
Lemma ResolutionTier_to_of b : ResolutionTier_to_u8 (ResolutionTier_of_u8 b) = b.
Proof. byte_cases b. Qed.

(** ** Matching *)
Lemma sm_match_elem `{UnorderedIter} m path r :
  r ∈ sm_match m path ↔
  ∃ k s, sm_subs m !! k = Some s ∧ sub_selected path s = true ∧
         r = {| mr_sub_id := sub_id s; mr_conn_id := sub_conn_id s |}.
Proof.
  unfold sm_match. rewrite list_elem_of_fmap. split.
  - intros ([k s] & -> & [Hs Hk]%list_elem_of_filter). apply elem_of_uiter in Hk. eauto.
  - intros (k & s & Hk & Hs & ->). exists (k, s). split; [done|].
    apply list_elem_of_filter. split; [done|]. by apply elem_of_uiter.
Qed.
(** The deliveries to one subscription over [n] matching events. *)
Fixpoint sm_deliveries `{UnorderedIter} (m : SubscriptionManager) (path : StatePath) (id : Z) (n : nat)
    : nat :=
  match n with
  | O => O
  | S n' =>
      let '(m', rs) := sm_match_and_consume m path in
      (length (filter (λ r, mr_sub_id r = id) rs) + sm_deliveries m' path id n')%nat
  end.
Lemma length_filter_fmap_unique {A} (f : A → Z) (P : A → Prop) `{∀ x, Decision (P x)} l a id :
  NoDup (f <$> l) → a ∈ l → f a = id →
  length (filter (λ x, f x = id) (filter P l)) = if decide (P a) then 1%nat else 0%nat.
Proof.
  intros Hnd Ha Hid. assert (filter (λ x, f x = id) (filter P l) = if decide (P a) then [a] else []) as ->.
  { induction l as [|x l IH]; [set_solver|]. csimpl in Hnd. apply NoDup_cons in Hnd as [Hx Hnd].
    apply elem_of_cons in Ha as [->|Ha].
    - assert (filter (λ x, f x = id) (filter P l) = []) as Hn.
      { apply list_filter_none. intros y [_ Hy]%list_elem_of_filter Hf.
        apply Hx. rewrite Hid, <-Hf. by apply list_elem_of_fmap_2. }
      rewrite filter_cons. destruct (decide (P x)); [|done].
      rewrite filter_cons_True by done. by rewrite Hn.
    - rewrite filter_cons. destruct (decide (P x)); [|by apply IH].
      rewrite filter_cons_False; [by apply IH|].
      intros Hf. apply Hx. rewrite Hf, <-Hid. by apply list_elem_of_fmap_2. }
  by case_decide.
Qed.

Lemma sm_match_count `{UnorderedIter} m path id s :
  sm_ok m → sm_subs m !! id = Some s →
  length (filter (λ r, mr_sub_id r = id) (sm_match m path)) =
    if sub_selected path s then 1%nat else 0%nat.
Proof.
  intros Hm Hs. unfold sm_match. rewrite list_filter_fmap, length_fmap.
  assert ((λ ks : Z * Subscription, sub_id ks.2) <$> uiter (sm_subs m) = (uiter (sm_subs m)).*1) as E.
  { apply list_fmap_ext. intros i [k x] Hi. apply list_elem_of_lookup_2, elem_of_uiter in Hi.
    by destruct (Hm k x Hi) as [? _]. }
  destruct (Hm id s Hs) as [Hid _].
  etrans; [apply (length_filter_fmap_unique (λ ks, sub_id ks.2)
    (λ ks, sub_selected path ks.2 = true) _ (id, s)); [|by apply elem_of_uiter|done]|].
  - rewrite E. apply NoDup_fst_uiter.
  - simpl. case_decide as Hd; [by rewrite Hd|]. by destruct (sub_selected path s).
Qed.
Lemma sm_consume_ok `{UnorderedIter} m path : sm_ok m → sm_ok (sm_match_and_consume m path).1.
Proof.
  intros Hm id s'. simpl. rewrite lookup_fmap. intros (s & Hs & ->)%fmap_Some.
  destruct (Hm id s Hs). destruct (sub_selected path s); [|done].
  unfold sub_consume_credit. by destruct (0 <? _).
Qed.

(** ** The claims *)

(** credits bound deliveries exactly. Over [n] events on a path, a
    subscription whose pattern matches receives [min n credits] of them when
    its credits are non-negative and all [n] when they are negative
    (unlimited); one whose pattern does not match receives none. Adding credits
    to a bounded subscription raises the bound by that amount, and only that
    subscription changes. *)
Theorem subscription_credits `{UnorderedIter} (m : SubscriptionManager) (path : StatePath)
    (id : Z) (s : Subscription) (n : nat) (add : Z) :
  sm_ok m → sm_get m id = Some s → 0 ≤ add → sub_credits s + add < 2 ^ 63 →
  sm_deliveries m path id n =
    (if sp_matches path (sub_pattern s) then
       if sub_credits s <? 0 then n else Nat.min n (Z.to_nat (sub_credits s))
     else O) ∧
  ∃ m', sm_add_credits m id add = Ok (m', true) ∧
    (∀ id', id' ≠ id → sm_get m' id' = sm_get m id') ∧
    sm_get m' id = Some (if 0 <=? sub_credits s then sub_set_credits s (sub_credits s + add) else s).
Proof.
  intros Hm Hs Ha Hlt. split.
  - clear Ha Hlt. unfold sm_get in Hs. revert m s Hm Hs.
    induction n as [|n IH]; intros m s Hm Hs; cbn [sm_deliveries sm_match_and_consume].
    { destruct (sp_matches _ _), (sub_credits s <? 0); done. }
    rewrite (sm_match_count m path id s) by done.
    set (s1 := if sub_selected path s then sub_consume_credit s else s).
    rewrite (IH _ s1); [|by apply sm_consume_ok|simpl; by rewrite lookup_fmap, Hs].
    unfold s1, sub_selected, sub_consume_credit, sub_has_credits.
    destruct (sp_matches path (sub_pattern s)) eqn:Em; cbn [andb]; [|by rewrite Em].
    destruct (Z.eqb_spec (sub_credits s) 0) as [Hz|Hz]; cbn [negb].
    + rewrite Em, Hz. simpl. lia.
    + destruct (Z.ltb_spec 0 (sub_credits s)); cbn [sub_set_credits sub_pattern sub_credits];
        rewrite Em.
      * rewrite !(proj2 (Z.ltb_ge _ _)) by lia. lia.
      * rewrite !(proj2 (Z.ltb_lt _ _)) by lia. lia.
  - unfold sm_get in *. unfold sm_add_credits. rewrite Hs.
    destruct (Z.leb_spec 0 (sub_credits s)).
    + rewrite (proj2 (Z.leb_le _ _)), (proj2 (Z.ltb_lt _ _)) by lia. cbn [andb].
      eexists. split; [done|]. simpl. split; [intros; by rewrite lookup_insert_ne|].
      by rewrite lookup_insert_eq.
    + by eexists.
Qed.
Definition sub_sample : SubscriptionManager :=
  (sm_subscribe sm_new 9 {| sp_path := [42]; sp_hash := 0; sp_segments := [[42]] |} 2 0).1.
Lemma subscription_credits_witness :
  let path := {| sp_path := [97]; sp_hash := 7; sp_segments := [[97]] |} in
  sm_deliveries sub_sample path 1 5 = 2%nat.
Proof.
  intros path.
  refine (proj1 (subscription_credits sub_sample path 1
    {| sub_id := 1; sub_conn_id := 9;
       sub_pattern := sp_copy {| sp_path := [42]; sp_hash := 0; sp_segments := [[42]] |};
       sub_credits := 2; sub_freshness_us := 0; sub_tier := RT_FULL |} 5 1 _ _ _ _)).
  - by_decide.
  - reflexivity.
  - by_decide.
  - by_decide.
Defined.

(** the three subscription payloads survive the wire: every payload whose
    fields are in the range of their C++ types encodes into a large enough
    buffer and decodes back, signed credits included; none of the decoders
    reads outside its buffer. *)
Theorem subscription_payload_roundtrip (f : SubscribeFramePayload) (c : CreditFramePayload)
    (u : UnsubscribeFramePayload) (buf junk : bytes) :
  is_u32 (sfp_sub_id f) → is_i32 (sfp_initial_credits f) → is_u32 (sfp_freshness_us f) →
  ResolutionTier_of_u8 (ResolutionTier_to_u8 (sfp_tier f)) = sfp_tier f →
  is_u16 (Z.of_nat (length (sfp_pattern f))) →
  is_u32 (cfp_sub_id c) → is_i32 (cfp_credits c) → is_u32 (ufp_sub_id u) →
  (sfp_wire_size f ≤ length buf)%nat →
  (∃ out, sfp_encode f buf = Ok (out, sfp_wire_size f) ∧ sfp_decode out = Ok f) ∧
  (∃ out, cfp_encode c buf = Ok out ∧ cfp_decode out = Ok c) ∧
  (∃ out, ufp_encode u buf = Ok out ∧ ufp_decode out = Ok u) ∧
  safe (sfp_decode junk) ∧ safe (cfp_decode junk) ∧ safe (ufp_decode junk).
Proof.
  intros F1 F2 F3 F4 F5 C1 C2 U1 Hl. unfold sfp_wire_size in Hl. split_and!.
  - unfold sfp_encode. unfold sfp_wire_size at 1.
    rewrite (proj2 (Nat.leb_le _ _)) by lia. cbn [check_].
    rewrite wrap_id with (w := 16) by done. wire_simp.
    case_bool_decide as Hp; cbn [res_bind].
    + eexists. split; [done|]. unfold sfp_decode. rewrite (proj2 (Nat.leb_le _ _))
        by (rewrite !length_app, !length_be32; cbn [length]; rewrite !length_app, length_be16; lia).
      cbn [check_]. wire_simp. rewrite Hp. cbn [length Z.of_nat Z.to_nat].
      rewrite (proj2 (Nat.leb_le _ _))
        by (rewrite !length_app, !length_be32; cbn [length]; rewrite !length_app, length_be16; lia).
      cbn [check_]. rewrite slice_Ok
        by (rewrite !length_app, !length_be32; cbn [length]; rewrite !length_app, length_be16; lia).
      cbn [res_bind take]. rewrite i32_u32, F4 by done. destruct f; simpl in *. by subst.
    + wire_simp. eexists. split; [done|]. unfold sfp_decode. rewrite (proj2 (Nat.leb_le _ _))
        by (rewrite !length_app, !length_be32; cbn [length]; rewrite !length_app, length_be16; lia).
      cbn [check_]. wire_simp. rewrite Nat2Z.id, (proj2 (Nat.leb_le _ _))
        by (rewrite !length_app, !length_be32; cbn [length]; rewrite !length_app, length_be16; lia).
      cbn [check_]. 
      match goal with |- context [slice ?d 15 _] =>
        assert (slice d 15 (length (sfp_pattern f)) = Ok (sfp_pattern f)) as -> end.
      { by apply (slice_mid' (be32 _ ++ be32 _ ++ be32 _ ++ _ :: be16 _)). }
      cbn [res_bind]. rewrite i32_u32, F4 by done. by destruct f.
  - unfold cfp_encode. rewrite (proj2 (Nat.leb_le _ _)) by lia. cbn [check_]. wire_simp.
    eexists. split; [done|]. unfold cfp_decode. rewrite (proj2 (Nat.leb_le _ _))
      by (rewrite !length_app, !length_be32; lia). cbn [check_]. wire_simp.
    rewrite i32_u32 by done. by destruct c.
  - unfold ufp_encode. rewrite (proj2 (Nat.leb_le _ _)) by lia. cbn [check_]. wire_simp.
    eexists. split; [done|]. unfold ufp_decode. rewrite (proj2 (Nat.leb_le _ _))
      by (rewrite !length_app, !length_be32; lia). cbn [check_]. wire_simp. by destruct u.
  - unfold sfp_decode. apply safe_check; intros H%Nat.leb_le.
    do 3 (apply safe_bind; [apply read_u32_safe; lia|intros ? _]).
    apply safe_bind; [apply get8_safe; lia|intros ? _].
    apply safe_bind; [apply read_u16_safe; lia|intros ? _].
    apply safe_check; intros H2%Nat.leb_le. apply safe_bind; [by apply slice_safe|done].
  - unfold cfp_decode. apply safe_check; intros H%Nat.leb_le.
    do 2 (apply safe_bind; [apply read_u32_safe; lia|intros ? _]). done.
  - unfold ufp_decode. apply safe_check; intros H%Nat.leb_le.
    apply safe_bind; [apply read_u32_safe; lia|done].
Qed.
Lemma subscription_payload_roundtrip_witness :
  let f := {| sfp_sub_id := 3; sfp_initial_credits := -1; sfp_freshness_us := 5;
              sfp_tier := RT_COARSE; sfp_pattern := [47; 42] |} in
  ∃ out, sfp_encode f (replicate 20 0) = Ok (out, 17%nat) ∧ sfp_decode out = Ok f.
Proof.
  intros f. apply (subscription_payload_roundtrip f {| cfp_sub_id := 3; cfp_credits := -1 |}
    {| ufp_sub_id := 3 |} (replicate 20 0) [1; 2]); by_decide.
Defined.
