(* ===== verification/Observer.v ===== *)
(** * Local observers

    Models [include/protocoll/state/observer.h] and [src/state/observer.cpp].
    A callback invocation is recorded as the handle it was made for. *)
From S2P Require Import Prelude Platform Frame StatePath.

Record StateChangeEvent := {
  ev_path : StatePath; ev_path_hash : Z; ev_crdt_type : CrdtType; ev_data : bytes;
  ev_author_node_id : Z
}.
Record WatchOptions := { wo_crdt_filter : option CrdtType; wo_max_notifications : Z }.
Record WatchEntry := {
  we_handle : Z; we_pattern : StatePath; we_options : WatchOptions; we_remaining : Z
}.
Record StateObserver := {
  ob_next_handle : Z; ob_watches : gmap Z WatchEntry; ob_pending_removal : list Z
}.

Definition ob_new : StateObserver :=
  {| ob_next_handle := 1; ob_watches := ∅; ob_pending_removal := [] |}.
Definition ob_watch (o : StateObserver) (pattern : StatePath) (opts : WatchOptions)
    : StateObserver * Z :=
  let h := ob_next_handle o in
  let entry := {| we_handle := h; we_pattern := sp_copy pattern; we_options := opts;
                  we_remaining := wo_max_notifications opts |} in
  ({| ob_next_handle := u32 (h + 1);
      ob_watches := match ob_watches o !! h with
                    | Some _ => ob_watches o | None => <[h := entry]> (ob_watches o) end;
      ob_pending_removal := ob_pending_removal o |}, h).
Definition ob_unwatch (o : StateObserver) (handle : Z) : StateObserver * bool :=
  ({| ob_next_handle := ob_next_handle o; ob_watches := delete handle (ob_watches o);
      ob_pending_removal := ob_pending_removal o |},
   bool_decide (is_Some (ob_watches o !! handle))).

(** The loop body of [notify] for one entry: the entry afterwards, whether its
    callback was called, and whether it is scheduled for removal. *)
Definition ob_visit (event : StateChangeEvent) (e : WatchEntry) : WatchEntry * bool * bool :=
  let filtered := match wo_crdt_filter (we_options e) with
                  | Some t => negb (bool_decide (t = ev_crdt_type event)) | None => false end in
  if filtered then (e, false, false)
  else if negb (sp_matches (sp_copy (ev_path event)) (we_pattern e)) then (e, false, false)
  else if we_remaining e =? 0 then (e, false, true)
  else if 0 <? we_remaining e then
    let e' := {| we_handle := we_handle e; we_pattern := we_pattern e; we_options := we_options e;
                 we_remaining := we_remaining e - 1 |} in
    (e', true, we_remaining e' =? 0)
  else (e, true, false).
Definition ob_cleanup_expired (o : StateObserver) : StateObserver :=
  {| ob_next_handle := ob_next_handle o;
     ob_watches := foldl (λ m h, delete h m) (ob_watches o) (ob_pending_removal o);
     ob_pending_removal := [] |}.
Definition ob_notify `{UnorderedIter} (o : StateObserver) (event : StateChangeEvent)
    : StateObserver * list Z :=
  let visited := uiter (ob_watches o) in
  let fired := (filter (λ he, (ob_visit event he.2).1.2 = true) visited).*1 in
  let removed := (filter (λ he, (ob_visit event he.2).2 = true) visited).*1 in
  (ob_cleanup_expired
     {| ob_next_handle := ob_next_handle o;
        ob_watches := (λ e, (ob_visit event e).1.1) <$> ob_watches o;
        ob_pending_removal := removed |}, fired).
Definition ob_count (o : StateObserver) : nat := size (ob_watches o).
Definition ob_clear (o : StateObserver) : StateObserver :=
  {| ob_next_handle := ob_next_handle o; ob_watches := ∅; ob_pending_removal := [] |}.

(** ** Notification on one watch *)
Lemma foldl_delete_lookup {V} (l : list Z) (m : gmap Z V) k :
  foldl (λ m h, delete h m) m l !! k = if decide (k ∈ l) then None else m !! k.
Proof.
  revert m. induction l as [|h l IH]; intros m; [done|]. cbn [foldl]. rewrite IH.
  destruct (decide (k ∈ l)).
  - by rewrite decide_True by set_solver.
  - destruct (decide (k = h)) as [->|].
    + rewrite lookup_delete_eq. by rewrite decide_True by set_solver.
    + rewrite lookup_delete_ne by done. by rewrite decide_False by set_solver.
Qed.
Lemma elem_of_visited `{UnorderedIter} (m : gmap Z WatchEntry) (P : WatchEntry → bool) h :
  h ∈ (filter (λ he : Z * WatchEntry, P he.2 = true) (uiter m)).*1 ↔
  ∃ e, m !! h = Some e ∧ P e = true.
Proof.
  rewrite list_elem_of_fmap. split.
  - intros ([h' e] & -> & [HP He]%list_elem_of_filter). apply elem_of_uiter in He. eauto.
  - intros (e & He & HP). exists (h, e). split; [done|].
    apply list_elem_of_filter. split; [done|]. by apply elem_of_uiter.
Qed.
Lemma ob_notify_lookup `{UnorderedIter} o ev h :
  ob_watches (ob_notify o ev).1 !! h =
    match ob_watches o !! h with
    | Some e => if (ob_visit ev e).2 then None else Some (ob_visit ev e).1.1
    | None => None
    end.
Proof.
  simpl. rewrite foldl_delete_lookup, lookup_fmap.
  destruct (ob_watches o !! h) as [e|] eqn:E; [|by case_decide].
  case_decide as Hin.
  - apply (elem_of_visited _ (λ e, (ob_visit ev e).2)) in Hin as (e' & He & Hr).
    rewrite E in He. injection He as <-. by rewrite Hr.
  - destruct (ob_visit ev e).2 eqn:Hr; [|done]. destruct Hin.
    apply (elem_of_visited _ (λ e, (ob_visit ev e).2)). eauto.
Qed.
Lemma ob_notify_fired `{UnorderedIter} o ev h :
  h ∈ (ob_notify o ev).2 ↔ ∃ e, ob_watches o !! h = Some e ∧ (ob_visit ev e).1.2 = true.
Proof. apply (elem_of_visited _ (λ e, (ob_visit ev e).1.2)). Qed.

Definition ob_interested (ev : StateChangeEvent) (e : WatchEntry) : bool :=
  match wo_crdt_filter (we_options e) with
  | Some t => bool_decide (t = ev_crdt_type ev) | None => true end &&
  sp_matches (sp_copy (ev_path ev)) (we_pattern e).
(** Calls of one watch's callback over [n] notifications of one event, and the
    observer afterwards. *)
Fixpoint ob_calls `{UnorderedIter} (o : StateObserver) (ev : StateChangeEvent) (h : Z) (n : nat)
    : StateObserver * nat :=
  match n with
  | O => (o, O)
  | S n' =>
      let '(o', fired) := ob_notify o ev in
      let '(o'', k) := ob_calls o' ev h n' in
      (o'', ((if decide (h ∈ fired) then 1 else 0) + k)%nat)
  end.
Lemma ob_visit_interested ev e :
  ob_visit ev e =
    if ob_interested ev e then
      if we_remaining e =? 0 then (e, false, true)
      else if 0 <? we_remaining e then
        ({| we_handle := we_handle e; we_pattern := we_pattern e; we_options := we_options e;
            we_remaining := we_remaining e - 1 |}, true, we_remaining e - 1 =? 0)
      else (e, true, false)
    else (e, false, false).
Proof.
  unfold ob_visit, ob_interested. destruct (wo_crdt_filter (we_options e)) as [t|].
  - destruct (bool_decide (t = ev_crdt_type ev)); cbn [negb andb]; [|done].
    by destruct (sp_matches _ _).
  - cbn [andb]. by destruct (sp_matches _ _).
Qed.
Lemma ob_calls_none `{UnorderedIter} o ev h n :
  ob_watches o !! h = None → (ob_calls o ev h n).2 = O ∧ ob_watches (ob_calls o ev h n).1 !! h = None.
Proof.
  revert o. induction n as [|n IH]; intros o Ho; [done|]. cbn [ob_calls].
  pose proof (ob_notify_lookup o ev h) as Hl. pose proof (ob_notify_fired o ev h) as Hf.
  rewrite Ho in Hl, Hf. destruct (ob_notify o ev) as [o' fired]. destruct (IH o' Hl) as [Hk Hw].
  destruct (ob_calls o' ev h n) as [o'' k]. simpl in *. subst k.
  rewrite decide_False; [done|]. rewrite Hf. naive_solver.
Qed.

(** ** The claim *)

(** an N-shot watch fires N times. Over [n] notifications of an event, a
    watch whose filter and pattern accept it is called [min n N] times and is
    gone once it has been called N times (N > 0); with a negative count it is
    called every time and stays; with N = 0 it is never called and the first
    accepted event removes it. A watch that does not accept the event is never
    called and stays as it is. *)
Theorem observer_n_shot `{UnorderedIter} (o : StateObserver) (ev : StateChangeEvent) (h : Z)
    (e : WatchEntry) (n : nat) :
  ob_watches o !! h = Some e →
  let '(o', calls) := ob_calls o ev h n in
  if ob_interested ev e then
    if we_remaining e <? 0 then calls = n ∧ ob_watches o' !! h = Some e
    else calls = Nat.min n (Z.to_nat (we_remaining e)) ∧
         ((0 < n)%nat → Z.to_nat (we_remaining e) ≤ n → ob_watches o' !! h = None)%nat
  else calls = O ∧ ob_watches o' !! h = Some e.
Proof.
  revert o e. induction n as [|n IH]; intros o e He.
  { simpl. destruct (ob_interested ev e), (we_remaining e <? 0); split; try done; lia. }
  cbn [ob_calls]. pose proof (ob_notify_lookup o ev h) as Hl.
  pose proof (ob_notify_fired o ev h) as Hf. rewrite He in Hl, Hf.
  destruct (ob_notify o ev) as [o1 fired]. cbn [fst snd] in Hl, Hf.
  rewrite ob_visit_interested in Hl.
  assert (h ∈ fired ↔ (ob_visit ev e).1.2 = true) as Hfe by (rewrite Hf; naive_solver).
  clear Hf. rewrite ob_visit_interested in Hfe.
  destruct (ob_interested ev e) eqn:Ei.
  2:{ specialize (IH o1 e Hl). rewrite Ei in IH. destruct (ob_calls o1 ev h n) as [o2 k].
      cbn in Hfe. rewrite decide_False by naive_solver. naive_solver. }
  destruct (Z.eqb_spec (we_remaining e) 0) as [Hz|Hz]; cbn in Hfe, Hl.
  { destruct (ob_calls_none o1 ev h n Hl) as [Hk Hw]. destruct (ob_calls o1 ev h n) as [o2 k].
    simpl in Hk, Hw. rewrite Hz, decide_False by naive_solver.
    change (0 <? 0) with false. cbv iota. split; [lia|done]. }
  destruct (Z.ltb_spec 0 (we_remaining e)) as [Hp|Hp]; cbn in Hfe, Hl.
  - rewrite (proj2 (Z.ltb_ge _ _)) by lia.
    destruct (Z.eqb_spec (we_remaining e - 1) 0) as [H1|H1].
    + destruct (ob_calls_none o1 ev h n Hl) as [Hk Hw]. destruct (ob_calls o1 ev h n) as [o2 k].
      cbn in Hk, Hw. rewrite decide_True by naive_solver. split; [lia|done].
    + specialize (IH o1 _ Hl).
      change (ob_interested ev {| we_handle := we_handle e; we_pattern := we_pattern e;
        we_options := we_options e; we_remaining := we_remaining e - 1 |}) with (ob_interested ev e) in IH.
      rewrite Ei in IH. cbn [we_remaining] in IH. rewrite (proj2 (Z.ltb_ge _ _)) in IH by lia.
      destruct (ob_calls o1 ev h n) as [o2 k]. destruct IH as [-> Hgone].
      rewrite decide_True by naive_solver. split; [lia|]. intros _ Hle. apply Hgone; lia.
  - rewrite (proj2 (Z.ltb_lt _ _)) by lia. specialize (IH o1 e Hl). rewrite Ei in IH.
    rewrite (proj2 (Z.ltb_lt _ _)) in IH by lia. destruct (ob_calls o1 ev h n) as [o2 k].
    destruct IH as [-> Hw]. rewrite decide_True by naive_solver. by split.
Qed.
Lemma observer_n_shot_witness :
  let p := {| sp_path := [97]; sp_hash := 7; sp_segments := [[97]] |} in
  let opts := {| wo_crdt_filter := Some CT_G_COUNTER; wo_max_notifications := 2 |} in
  let ev := {| ev_path := p; ev_path_hash := 7; ev_crdt_type := CT_G_COUNTER; ev_data := [];
               ev_author_node_id := 0 |} in
  let '(o', calls) := ob_calls (ob_watch ob_new p opts).1 ev 1 5 in
  calls = 2%nat ∧ ((0 < 5)%nat → (2 ≤ 5)%nat → ob_watches o' !! 1 = None).
Proof.
  intros p opts ev.
  exact (observer_n_shot (ob_watch ob_new p opts).1 ev 1
    {| we_handle := 1; we_pattern := sp_copy p; we_options := opts; we_remaining := 2 |} 5 eq_refl).
Defined.
