(* ===== verification/AckTracker.v ===== *)
(** * Sequence numbers and acknowledgement tracking

    Models [include/protocoll/reliability/sequence.h],
    [include/protocoll/reliability/ack_tracker.h] and
    [src/reliability/ack_tracker.cpp].  The receive side keeps a 256-bit window
    as 32 bytes that are shifted in place; it is proved to refine the set of
    packet numbers received. *)
From S2P Require Import Prelude Platform Frame.

(** ** sequence.h *)
Definition seq_lt (a b : Z) : bool := i32 (u32 (a - b)) <? 0.
Definition seq_le (a b : Z) : bool := (a =? b) || seq_lt a b.
Definition seq_gt (a b : Z) : bool := seq_lt b a.
Definition seq_ge (a b : Z) : bool := (a =? b) || seq_gt a b.

(** ** SendTracker *)
Record SentPacketInfo := {
  sp_packet_number : Z; sp_sent_timestamp_us : Z; sp_size : Z; sp_acked : bool;
  sp_retransmitted : bool; sp_retransmit_count : Z
}.
Record SendTracker := { st_sent : list SentPacketInfo }.
Definition st_new : SendTracker := {| st_sent := [] |}.

Definition st_on_packet_sent (t : SendTracker) (pkt_num timestamp_us size : Z) : SendTracker :=
  {| st_sent := st_sent t ++ [{| sp_packet_number := pkt_num; sp_sent_timestamp_us := timestamp_us;
       sp_size := size; sp_acked := false; sp_retransmitted := false; sp_retransmit_count := 0 |}] |}.
Definition sp_mark_acked (i : SentPacketInfo) : SentPacketInfo :=
  {| sp_packet_number := sp_packet_number i; sp_sent_timestamp_us := sp_sent_timestamp_us i;
     sp_size := sp_size i; sp_acked := true; sp_retransmitted := sp_retransmitted i;
     sp_retransmit_count := sp_retransmit_count i |}.
Definition st_find (t : SendTracker) (pkt_num : Z) : option SentPacketInfo :=
  find_key sp_packet_number pkt_num (st_sent t).
Definition st_mark_if (p : SentPacketInfo → bool) (l : list SentPacketInfo) : list SentPacketInfo :=
  (λ i, if p i then sp_mark_acked i else i) <$> l.
Definition sack_covers (r : SackRange) (i : SentPacketInfo) : bool :=
  seq_ge (sp_packet_number i) (sr_start r) && seq_le (sp_packet_number i) (sr_end r).
(** Mark the packet [largest_acked] and take the RTT sample from it. *)
Definition st_ack_largest (t : SendTracker) (ack : AckFrame) (current_timestamp_us : Z)
    : list SentPacketInfo * Z :=
  match st_find t (ack_largest_acked ack) with
  | Some info =>
      if negb (sp_acked info) then
        let raw_rtt := u32 (current_timestamp_us - sp_sent_timestamp_us info) in
        (update_key sp_packet_number (ack_largest_acked ack) sp_mark_acked (st_sent t),
         if ack_delay_us ack <? raw_rtt then u32 (raw_rtt - ack_delay_us ack) else raw_rtt)
      else (st_sent t, 0)
  | None => (st_sent t, 0)
  end.
(** [ranges] is [None] for a null pointer; otherwise it holds at least
    [sack_range_count] ranges, and reading past it is undefined. *)
Definition st_on_ack_received (t : SendTracker) (ack : AckFrame) (ranges : option (list SackRange))
    (current_timestamp_us : Z) : res (SendTracker * Z) :=
  let '(sent, rtt_sample) := st_ack_largest t ack current_timestamp_us in
  let sent := st_mark_if (λ i, seq_le (sp_packet_number i) (ack_largest_acked ack)) sent in
  match ranges with
  | None => Ok ({| st_sent := sent |}, rtt_sample)
  | Some rs =>
      let n := Z.to_nat (ack_sack_range_count ack) in
      if (length rs <? n)%nat then Oob
      else Ok ({| st_sent := foldl (λ s r, st_mark_if (sack_covers r) s) sent (take n rs) |}, rtt_sample)
  end.

Definition st_get_retransmit_candidates (t : SendTracker) (current_timestamp_us rto_us : Z) : list Z :=
  sp_packet_number <$>
  filter (λ i, negb (sp_acked i) && negb (sp_retransmitted i) &&
               (rto_us <=? u32 (current_timestamp_us - sp_sent_timestamp_us i)) = true) (st_sent t).
Fixpoint st_gc_loop (l : list SentPacketInfo) (oldest_unacked : Z) : list SentPacketInfo :=
  match l with
  | i :: l' => if sp_acked i && seq_lt (sp_packet_number i) oldest_unacked
               then st_gc_loop l' oldest_unacked else l
  | [] => []
  end.
Definition st_gc (t : SendTracker) (oldest_unacked : Z) : SendTracker :=
  {| st_sent := st_gc_loop (st_sent t) oldest_unacked |}.
Definition st_pending_count (t : SendTracker) : nat :=
  length (filter (λ i, sp_acked i = false) (st_sent t)).

(** ** RecvTracker *)
Definition BITMAP_SIZE : Z := 256.
Record RecvTracker := {
  rt_largest_received : Z; rt_has_received : bool; rt_bitmap : bytes
}.
Definition rt_new : RecvTracker :=
  {| rt_largest_received := 0; rt_has_received := false; rt_bitmap := replicate 32 0 |}.

Definition rt_set_bit (t : RecvTracker) (pkt_num : Z) : res RecvTracker :=
  if negb (rt_has_received t) then Ok t else
  if seq_gt pkt_num (rt_largest_received t) then Ok t else
  let offset := u32 (rt_largest_received t - pkt_num) in
  if BITMAP_SIZE <=? offset then Ok t else
  let! b := get8 (rt_bitmap t) (Z.to_nat (offset / 8)) in
  let! bm := put8 (rt_bitmap t) (Z.to_nat (offset / 8))
               (u8 (Z.lor b (Z.shiftl 1 (offset mod 8)))) in
  Ok {| rt_largest_received := rt_largest_received t; rt_has_received := true; rt_bitmap := bm |}.
Definition rt_get_bit (t : RecvTracker) (pkt_num : Z) : res bool :=
  if negb (rt_has_received t) then Ok false else
  if seq_gt pkt_num (rt_largest_received t) then Ok false else
  let offset := u32 (rt_largest_received t - pkt_num) in
  if BITMAP_SIZE <=? offset then Ok false else
  let! b := get8 (rt_bitmap t) (Z.to_nat (offset / 8)) in
  Ok (negb (Z.land b (Z.shiftl 1 (offset mod 8)) =? 0)).

(** One round of the carry loop: the new value of byte [i]. *)
Definition rt_shift_byte (bm : bytes) (byte_shift : nat) (bit_shift : Z) (i : nat) : res Z :=
  if (i <? byte_shift)%nat then Ok 0 else
  let src := (i - byte_shift)%nat in
  let! b := get8 bm src in
  let val := u8 (Z.shiftl b bit_shift) in
  if (0 <? src)%nat then
    let! c := get8 bm (src - 1) in
    Ok (u8 (Z.lor val (Z.shiftr c (8 - bit_shift))))
  else Ok val.
Definition rt_shift_bitmap (bm : bytes) (shift : Z) : res bytes :=
  if BITMAP_SIZE <=? shift then Ok (replicate 32 0) else
  let byte_shift := Z.to_nat (shift / 8) in
  let bit_shift := shift mod 8 in
  if bit_shift =? 0 then
    let! moved := slice bm 0 (32 - byte_shift) in
    let! bm := store bm byte_shift moved in
    store bm 0 (replicate byte_shift 0)
  else
    res_foldl (λ bm i, let! v := rt_shift_byte bm byte_shift bit_shift i in put8 bm i v)
      bm (rev (seq 0 32)).

Definition rt_on_packet_received (t : RecvTracker) (pkt_num : Z) : res RecvTracker :=
  if negb (rt_has_received t) then
    rt_set_bit {| rt_largest_received := pkt_num; rt_has_received := true;
                  rt_bitmap := replicate 32 0 |} pkt_num
  else if seq_gt pkt_num (rt_largest_received t) then
    let shift := u32 (pkt_num - rt_largest_received t) in
    let! bm := rt_shift_bitmap (rt_bitmap t) shift in
    rt_set_bit {| rt_largest_received := pkt_num; rt_has_received := true; rt_bitmap := bm |} pkt_num
  else rt_set_bit t pkt_num.
Definition rt_is_duplicate (t : RecvTracker) (pkt_num : Z) : res bool :=
  if negb (rt_has_received t) then Ok false else rt_get_bit t pkt_num.

(** [build_ack]: the scan of the bitmap from bit 1, and the final range. *)
Record AckScan := { as_in_range : bool; as_range_start : Z; as_ranges : list SackRange }.
Fixpoint rt_ack_scan (t : RecvTracker) (n : nat) (i : Z) (s : AckScan) : res AckScan :=
  match n with
  | O => Ok s
  | S n' =>
      if (length (as_ranges s) <? 4)%nat then
        let pkt := u32 (rt_largest_received t - i) in
        let! received := rt_get_bit t pkt in
        let s' :=
          if received && negb (as_in_range s) then
            {| as_in_range := true; as_range_start := pkt; as_ranges := as_ranges s |}
          else if negb received && as_in_range s then
            {| as_in_range := false; as_range_start := as_range_start s;
               as_ranges := as_ranges s ++ [{| sr_start := u32 (pkt + 1);
                                               sr_end := as_range_start s |}] |}
          else s in
        rt_ack_scan t n' (i + 1) s'
      else Ok s
  end.
Definition set_last_start (l : list SackRange) (start : Z) : list SackRange :=
  match reverse l with
  | [] => []
  | r :: l' => reverse ({| sr_start := start; sr_end := sr_end r |} :: l')
  end.
Definition rt_build_ack (t : RecvTracker) (ack_delay : Z) : res (AckFrame * list SackRange) :=
  let delay := u16 (if 65535 <? ack_delay then 65535 else ack_delay) in
  if negb (rt_has_received t) then
    Ok ({| ack_largest_acked := rt_largest_received t; ack_delay_us := delay;
           ack_sack_range_count := 0 |}, [])
  else
    let! s := rt_ack_scan t 255 1 {| as_in_range := false; as_range_start := 0; as_ranges := [] |} in
    let ranges :=
      if as_in_range s && negb (bool_decide (as_ranges s = []))
      then set_last_start (as_ranges s) (u32 (rt_largest_received t - (BITMAP_SIZE - 1)))
      else as_ranges s in
    Ok ({| ack_largest_acked := rt_largest_received t; ack_delay_us := delay;
           ack_sack_range_count := u8 (Z.of_nat (length ranges)) |}, ranges).

(** ** The bitmap as a predicate on offsets *)
Definition bm_ok (bm : bytes) : Prop := length bm = 32%nat ∧ wf_bytes bm.
Definition bm_test (bm : bytes) (o : nat) : bool :=
  match bm !! (o / 8)%nat with
  | Some b => Z.testbit b (Z.of_nat (o mod 8))
  | None => false
  end.

Lemma land_bit_testbit b k : 0 ≤ k → negb (Z.land b (Z.shiftl 1 k) =? 0) = Z.testbit b k.
Proof.
  intros Hk. rewrite Z.shiftl_1_l. destruct (Z.testbit b k) eqn:E.
  - rewrite negb_true_iff, Z.eqb_neq. intros H.
    assert (Z.testbit (Z.land b (2 ^ k)) k = false) as H' by (by rewrite H, Z.bits_0).
    by rewrite Z.land_spec, E, Z.pow2_bits_true in H'.
  - rewrite negb_false_iff, Z.eqb_eq. apply Z.bits_inj'. intros n Hn.
    rewrite Z.land_spec, Z.pow2_bits_eqb, Z.bits_0 by done.
    destruct (Z.eqb_spec k n) as [<-|]; [by rewrite E|by rewrite andb_false_r].
Qed.
Lemma put8_insert bm i v : (i < length bm)%nat → put8 bm i v = Ok (<[i := v]> bm).
Proof.
  intros Hi. unfold put8. rewrite store_Ok by (simpl; lia). f_equal. apply list_eq. intros j.
  rewrite splice_lookup by (simpl; lia). simpl. case_decide as Hj.
  - assert (j = i) as -> by lia. rewrite Nat.sub_diag. by rewrite list_lookup_insert_eq.
  - by rewrite list_lookup_insert_ne by lia.
Qed.
Lemma get8_lookup bm i b : bm !! i = Some b → get8 bm i = Ok b.
Proof. intros H. unfold get8. by rewrite H. Qed.

Lemma bm_test_insert bm o o' :
  bm_ok bm → (o < 256)%nat → (o' < 256)%nat →
  ∃ b, bm !! (o / 8)%nat = Some b ∧
    let bm' := <[(o / 8)%nat := u8 (Z.lor b (Z.shiftl 1 (Z.of_nat (o mod 8))))]> bm in
    bm_ok bm' ∧ bm_test bm' o' = bool_decide (o = o') || bm_test bm o'.
Proof.
  intros [Hl Hwf] Ho Ho'.
  destruct (lookup_lt_is_Some_2 bm (o / 8)) as [b Hb].
  { rewrite Hl. apply Nat.Div0.div_lt_upper_bound; lia. }
  exists b. split; [done|]. cbv zeta. rewrite Z.shiftl_1_l.
  assert (is_u8 b) as Hub by (by eapply Forall_lookup_1).
  assert (Z.of_nat (o mod 8) < 8) as Hm by (pose proof (Nat.mod_upper_bound o 8); lia).
  rewrite wrap_id.
  2:{ apply is_u_lor; [done|done|]. split; [apply Z.pow_nonneg; lia|].
      apply Z.pow_lt_mono_r; lia. }
  split.
  - split; [by rewrite length_insert|]. apply Forall_insert; [done|].
    apply is_u_lor; [done|done|]. split; [apply Z.pow_nonneg; lia|].
    apply Z.pow_lt_mono_r; lia.
  - unfold bm_test. destruct (decide (o / 8 = o' / 8)%nat) as [Hd|Hd].
    + rewrite <-Hd, list_lookup_insert_eq by (by eapply lookup_lt_Some). rewrite Hb.
      rewrite Z.lor_spec, Z.pow2_bits_eqb by lia. case_bool_decide as Hoo.
      * subst. by rewrite Z.eqb_refl, orb_true_r.
      * rewrite (proj2 (Z.eqb_neq _ _)); [by rewrite orb_false_r|].
        intros Hmm. apply Hoo. rewrite (Nat.div_mod_eq o 8), (Nat.div_mod_eq o' 8). lia.
    + rewrite list_lookup_insert_ne by done. rewrite bool_decide_false; [done|]. by intros ->.
Qed.

(** ** Shifting *)
(** A descending in-place loop whose round [i] reads no index above [i] writes
    what it would compute from the initial bytes. *)
Lemma rt_shift_loop (val : bytes → nat → res Z) (f : nat → Z) (bm0 : bytes) n (bm : bytes) :
  (n ≤ length bm)%nat →
  (∀ j, (j < n)%nat → bm !! j = bm0 !! j) →
  (∀ bm j, (j < n)%nat → (∀ i, (i ≤ j)%nat → bm !! i = bm0 !! i) → val bm j = Ok (f j)) →
  ∃ bm', res_foldl (λ bm i, let! v := val bm i in put8 bm i v) bm (rev (seq 0 n)) = Ok bm' ∧
    length bm' = length bm ∧
    (∀ j, (j < n)%nat → bm' !! j = Some (f j)) ∧ (∀ j, (n ≤ j)%nat → bm' !! j = bm !! j).
Proof.
  revert bm. induction n as [|n IH]; intros bm Hl Heq Hv.
  { exists bm. split_and!; [done|done|lia|done]. }
  rewrite seq_S, rev_app_distr. cbn [rev app res_foldl Nat.add].
  rewrite (Hv bm n) by (try lia; intros; apply Heq; lia). cbn [res_bind].
  rewrite put8_insert by lia. cbn [res_bind].
  destruct (IH (<[n := f n]> bm)) as (bm' & He & Hlen & Hin & Hout).
  - rewrite length_insert. lia.
  - intros j Hj. rewrite list_lookup_insert_ne by lia. apply Heq. lia.
  - intros bm1 j Hj Hag. apply Hv; [lia|done].
  - exists bm'. rewrite He, Hlen, length_insert. split_and!; [done|done| |].
    + intros j Hj. destruct (decide (j = n)) as [->|]; [|apply Hin; lia].
      rewrite Hout by lia. by rewrite list_lookup_insert_eq by lia.
    + intros j Hj. rewrite Hout by lia. by rewrite list_lookup_insert_ne by lia.
Qed.

(** What byte [i] of the shifted bitmap holds. *)
Definition shifted_byte (bm : bytes) (bs : nat) (k : Z) (i : nat) : Z :=
  if (i <? bs)%nat then 0 else
  let val := u8 (Z.shiftl (default 0 (bm !! (i - bs)%nat)) k) in
  if (0 <? i - bs)%nat then
    u8 (Z.lor val (Z.shiftr (default 0 (bm !! (i - bs - 1)%nat)) (8 - k)))
  else val.
Lemma rt_shift_byte_Ok bm0 bm bs k i :
  length bm0 = 32%nat → (i < 32)%nat → (∀ j, (j ≤ i)%nat → bm !! j = bm0 !! j) →
  rt_shift_byte bm bs k i = Ok (shifted_byte bm0 bs k i).
Proof.
  intros Hl Hi Hag. unfold rt_shift_byte, shifted_byte.
  destruct (Nat.ltb_spec i bs); [done|].
  destruct (lookup_lt_is_Some_2 bm0 (i - bs)) as [b Hb]; [lia|].
  rewrite Hb. erewrite get8_lookup by (rewrite Hag by lia; exact Hb). cbn [res_bind default from_option id].
  destruct (Nat.ltb_spec 0 (i - bs)); [|done].
  destruct (lookup_lt_is_Some_2 bm0 (i - bs - 1)) as [c Hc]; [lia|].
  rewrite Hc. by erewrite get8_lookup by (rewrite Hag by lia; exact Hc).
Qed.
Lemma shifted_byte_bits bm bs k i b :
  wf_bytes bm → 0 < k < 8 → 0 ≤ b < 8 →
  Z.testbit (shifted_byte bm bs k i) b =
    if (i <? bs)%nat then false
    else if k <=? b then Z.testbit (default 0 (bm !! (i - bs)%nat)) (b - k)
    else (0 <? i - bs)%nat && Z.testbit (default 0 (bm !! (i - bs - 1)%nat)) (b + 8 - k).
Proof.
  intros Hwf Hk Hb. unfold shifted_byte. destruct (i <? bs)%nat; [by rewrite Z.bits_0|].
  set (x := default 0 (bm !! (i - bs)%nat)). set (y := default 0 (bm !! (i - bs - 1)%nat)).
  assert (is_u8 y) as Hy.
  { unfold y. destruct (bm !! (i - bs - 1)%nat) eqn:E; [exact (Forall_lookup_1 _ _ _ _ Hwf E)|by compute]. }
  assert (∀ z, Z.testbit (u8 z) b = Z.testbit z b) as Hu8.
  { intros z. unfold wrap. rewrite Z.testbit_mod_pow2 by done.
    rewrite (proj2 (Z.ltb_lt b 8)) by lia. done. }
  assert (Z.testbit (u8 (Z.shiftl x k)) b = if k <=? b then Z.testbit x (b - k) else false) as Hx.
  { rewrite Hu8, Z.shiftl_spec by lia. destruct (Z.leb_spec k b); [done|].
    by rewrite Z.testbit_neg_r by lia. }
  destruct (0 <? i - bs)%nat; cbn [andb].
  - rewrite Hu8, Z.lor_spec, Hx, Z.shiftr_spec by lia. destruct (Z.leb_spec k b).
    + rewrite (is_u_testbit 8 y (b + (8 - k))) by (done || lia). by rewrite orb_false_r.
    + cbn [orb]. f_equal. lia.
  - rewrite Hx. by destruct (k <=? b).
Qed.
Lemma shifted_byte_is_u bm bs k i : is_u8 (shifted_byte bm bs k i).
Proof.
  unfold shifted_byte. destruct (_ <? _)%nat; [by compute|].
  destruct (_ <? _)%nat; apply u8_is_u.
Qed.
Lemma bm_test_zero o : bm_test (replicate 32 0) o = false.
Proof.
  unfold bm_test. destruct (replicate 32 0 !! (o / 8)%nat) as [b|] eqn:E; [|done].
  apply lookup_replicate in E as [-> _]. apply Z.bits_0.
Qed.
Lemma bm_ok_zero : bm_ok (replicate 32 0).
Proof. split; [done|]. apply Forall_replicate. by compute. Qed.

Lemma div_mod_8 a q r : (a = 8 * q + r → r < 8 → a / 8 = q ∧ a mod 8 = r)%nat.
Proof.
  intros -> Hr. split; symmetry; [by eapply Nat.div_unique|by eapply Nat.mod_unique].
Qed.
(** The bits of a bitmap whose bytes are the shifted ones. *)
Lemma shifted_bytes_bits bm bm' shift bs k :
  length bm = 32%nat → wf_bytes bm → shift = 8 * Z.of_nat bs + k → 0 < k < 8 →
  (∀ j, (j < 32)%nat → bm' !! j = Some (shifted_byte bm bs k j)) →
  ∀ o, (o < 256)%nat → bm_test bm' o =
      if Z.of_nat o <? shift then false else bm_test bm (o - Z.to_nat shift)%nat.
Proof.
  intros Hl Hwf Hsh Hk Hin.
  intros o Ho. pose proof (Nat.div_mod_eq o 8). pose proof (Nat.mod_upper_bound o 8).
  unfold bm_test. rewrite Hin by lia.
  rewrite shifted_byte_bits by (try done; lia).
  assert (∀ i, (i < 32)%nat → bm !! i = Some (default 0 (bm !! i))) as Hdef.
  { intros i Hi. by destruct (lookup_lt_is_Some_2 bm i) as [x ->]; [lia|]. }
  destruct (Nat.ltb_spec (o / 8) bs).
  { rewrite (proj2 (Z.ltb_lt _ _)) by lia. done. }
  destruct (Z.leb_spec k (Z.of_nat (o mod 8))).
  + rewrite (proj2 (Z.ltb_ge _ _)) by lia.
    destruct (div_mod_8 (o - Z.to_nat shift) (o / 8 - bs) (o mod 8 - Z.to_nat k)) as [-> ->];
      [lia..|]. rewrite Hdef by lia. f_equal. lia.
  + destruct (Nat.ltb_spec 0 (o / 8 - bs)); cbn [andb].
    * rewrite (proj2 (Z.ltb_ge _ _)) by lia.
      destruct (div_mod_8 (o - Z.to_nat shift) (o / 8 - bs - 1) (o mod 8 + 8 - Z.to_nat k))
        as [-> ->]; [lia..|]. rewrite Hdef by lia. f_equal. lia.
    * by rewrite (proj2 (Z.ltb_lt _ _)) by lia.
Qed.

Lemma rt_shift_bitmap_spec bm shift :
  bm_ok bm → 0 < shift →
  ∃ bm', rt_shift_bitmap bm shift = Ok bm' ∧ bm_ok bm' ∧
    ∀ o, (o < 256)%nat → bm_test bm' o =
      if Z.of_nat o <? shift then false else bm_test bm (o - Z.to_nat shift)%nat.
Proof.
  intros [Hl Hwf] Hs. unfold rt_shift_bitmap, BITMAP_SIZE.
  destruct (Z.leb_spec 256 shift) as [Hbig|Hsm].
  { eexists. split; [done|]. split; [apply bm_ok_zero|]. intros o Ho.
    by rewrite bm_test_zero, (proj2 (Z.ltb_lt _ _)) by lia. }
  set (bs := Z.to_nat (shift / 8)). set (k := shift mod 8).
  assert (shift = 8 * Z.of_nat bs + k ∧ 0 ≤ k < 8 ∧ (bs < 32)%nat) as (Hsh & Hk & Hbs).
  { unfold bs, k. split_and!; try (Z.div_mod_to_equations; lia). }
  clearbody bs k.
  destruct (Z.eqb_spec k 0) as [Hk0|Hk0].
  - rewrite slice_Ok by lia. cbn [res_bind]. rewrite drop_0.
    rewrite store_Ok by (rewrite length_take; lia). cbn [res_bind].
    unfold splice. rewrite length_take, Hl, (drop_ge bm) by lia. rewrite app_nil_r.
    rewrite store_head by (rewrite length_app, !length_take, length_replicate; lia).
    rewrite length_replicate, drop_app_length' by (rewrite length_take; lia).
    eexists. split; [done|]. split.
    + split; [rewrite length_app, length_replicate, length_take; lia|].
      apply Forall_app_2; [apply Forall_replicate; by compute|by apply Forall_take].
    + intros o Ho. pose proof (Nat.div_mod_eq o 8). pose proof (Nat.mod_upper_bound o 8).
      unfold bm_test. destruct (Z.ltb_spec (Z.of_nat o) shift).
      * rewrite lookup_app_l by (rewrite length_replicate; lia).
        rewrite lookup_replicate_2 by lia. apply Z.bits_0.
      * rewrite lookup_app_r by (rewrite length_replicate; lia). rewrite length_replicate.
        rewrite lookup_take_lt by lia.
        by destruct (div_mod_8 (o - Z.to_nat shift) (o / 8 - bs) (o mod 8)) as [-> ->]; [lia..|].
  - destruct (rt_shift_loop (λ bm i, rt_shift_byte bm bs k i) (shifted_byte bm bs k) bm 32 bm)
      as (bm' & He & Hlen & Hin & _); [lia|done| |].
    { intros bm1 j Hj Hag. by apply rt_shift_byte_Ok. }
    exists bm'. split; [exact He|]. split.
    { split; [lia|]. apply Forall_lookup. intros j b Hb.
      pose proof (lookup_lt_Some _ _ _ Hb). rewrite Hin in Hb by lia. injection Hb as <-.
      apply shifted_byte_is_u. }
    apply (shifted_bytes_bits bm bm' shift bs k); [done|done|done|lia|]. intros i Hi. by apply Hin.
Qed.

(** ** The tracker as a predicate on packet numbers *)
Definition rt_ok (t : RecvTracker) : Prop := is_u32 (rt_largest_received t) ∧ bm_ok (rt_bitmap t).
Definition rt_offset (t : RecvTracker) (q : Z) : Z := u32 (rt_largest_received t - q).
Definition rt_holds (t : RecvTracker) (q : Z) : bool :=
  rt_has_received t && (rt_offset t q <? BITMAP_SIZE) &&
  bm_test (rt_bitmap t) (Z.to_nat (rt_offset t q)).

Lemma seq_gt_small L q : u32 (L - q) < 256 → seq_gt q L = false.
Proof.
  intros H. unfold seq_gt, seq_lt. apply Z.ltb_ge. unfold signed. cbv zeta.
  rewrite wrap_wrap by done.
  destruct (Z.ltb_spec (u32 (L - q)) (2 ^ (32 - 1))); [apply u32_is_u|].
  exfalso. change (2 ^ (32 - 1)) with 2147483648 in *. lia.
Qed.
Lemma rt_is_duplicate_spec t q : rt_ok t → rt_is_duplicate t q = Ok (rt_holds t q).
Proof.
  intros [HL [Hl Hwf]]. unfold rt_is_duplicate, rt_get_bit, rt_holds, rt_offset, BITMAP_SIZE.
  destruct (rt_has_received t); cbn [negb andb]; [|done].
  destruct (Z.leb_spec 256 (u32 (rt_largest_received t - q))) as [Hbig|Hsm].
  - rewrite (proj2 (Z.ltb_ge _ _)) by done. by destruct (seq_gt q _).
  - rewrite (proj2 (Z.ltb_lt _ _)), seq_gt_small by done. cbn [andb].
    set (o := u32 _) in *. assert (0 ≤ o) by apply u32_is_u. unfold bm_test.
    replace (Z.to_nat o / 8)%nat with (Z.to_nat (o / 8)) by (by rewrite Z2Nat.inj_div).
    destruct (lookup_lt_is_Some_2 (rt_bitmap t) (Z.to_nat (o / 8))) as [b Hb].
    { rewrite Hl. Z.div_mod_to_equations; lia. }
    rewrite (get8_lookup _ _ _ Hb), Hb. cbn [res_bind]. f_equal.
    rewrite land_bit_testbit by (Z.div_mod_to_equations; lia). f_equal.
    rewrite Nat2Z.inj_mod, Z2Nat.id by lia. done.
Qed.
Lemma rt_set_bit_spec t p :
  rt_ok t → rt_has_received t = true → seq_gt p (rt_largest_received t) = false →
  ∃ t', rt_set_bit t p = Ok t' ∧ rt_ok t' ∧ rt_has_received t' = true ∧
    rt_largest_received t' = rt_largest_received t ∧
    ∀ o, (o < 256)%nat →
      bm_test (rt_bitmap t') o = bool_decide (Z.of_nat o = rt_offset t p) || bm_test (rt_bitmap t) o.
Proof.
  intros [HL Hbm] Hh Hgt. unfold rt_set_bit, rt_offset, BITMAP_SIZE. rewrite Hh, Hgt. cbn [negb].
  set (off := u32 _). assert (0 ≤ off) as H0 by apply u32_is_u.
  destruct (Z.leb_spec 256 off) as [Hbig|Hsm].
  - exists t. split_and!; try done. intros o Ho. by rewrite bool_decide_false by lia.
  - destruct (bm_test_insert (rt_bitmap t) (Z.to_nat off) 0 Hbm) as (b & Hb & Hok & _); [lia..|].
    replace (Z.to_nat off / 8)%nat with (Z.to_nat (off / 8)) in Hb, Hok by (by rewrite Z2Nat.inj_div).
    replace (Z.of_nat (Z.to_nat off mod 8)) with (off mod 8) in Hok
      by (rewrite Nat2Z.inj_mod, Z2Nat.id by lia; done).
    rewrite (get8_lookup _ _ _ Hb). cbn [res_bind].
    rewrite put8_insert by (by eapply lookup_lt_Some). cbn [res_bind].
    eexists. split; [done|]. split_and!; try done. intros o Ho.
    destruct (bm_test_insert (rt_bitmap t) (Z.to_nat off) o Hbm) as (b' & Hb' & _ & Ht); [lia..|].
    replace (Z.to_nat off / 8)%nat with (Z.to_nat (off / 8)) in Hb', Ht by (by rewrite Z2Nat.inj_div).
    replace (Z.of_nat (Z.to_nat off mod 8)) with (off mod 8) in Ht
      by (rewrite Nat2Z.inj_mod, Z2Nat.id by lia; done).
    rewrite Hb in Hb'. injection Hb' as <-. cbn [rt_bitmap]. rewrite Ht. f_equal.
    apply bool_decide_ext. lia.
Qed.

Lemma bool_decide_ext_eqb (P : Prop) `{Decision P} (a b : Z) :
  (P ↔ a = b) → bool_decide P = (a =? b).
Proof. intros HP. destruct (Z.eqb_spec a b); case_bool_decide; tauto. Qed.
(** Where the largest number moves. *)
Definition rt_next_largest (t : RecvTracker) (p : Z) : Z :=
  if rt_has_received t && negb (seq_gt p (rt_largest_received t))
  then rt_largest_received t else p.
Lemma seq_gt_refl p : seq_gt p p = false.
Proof. apply seq_gt_small. rewrite Z.sub_diag. by compute. Qed.
Lemma rt_receive_spec t p :
  rt_ok t → is_u32 p →
  ∃ t', rt_on_packet_received t p = Ok t' ∧ rt_ok t' ∧ rt_has_received t' = true ∧
    rt_largest_received t' = rt_next_largest t p ∧
    ∀ q, is_u32 q →
      rt_holds t' q = (rt_offset t' q <? BITMAP_SIZE) && ((q =? p) || rt_holds t q).
Proof.
  intros Ht Hp. unfold rt_on_packet_received, rt_next_largest.
  destruct (rt_has_received t) eqn:Hh; cbn [negb andb].
  2:{ set (t0 := {| rt_largest_received := p; rt_has_received := true; rt_bitmap := replicate 32 0 |}).
      destruct (rt_set_bit_spec t0 p) as (t' & He & Hok & Hh' & HL & Hb); [|done|apply seq_gt_refl|].
      { split; [done|apply bm_ok_zero]. }
      exists t'. rewrite HL. split_and!; try done. intros q Hq. unfold rt_holds at 1.
      rewrite Hh'. cbn [andb]. unfold rt_holds. rewrite Hh. cbn [andb]. rewrite orb_false_r.
      destruct (Z.ltb_spec (rt_offset t' q) BITMAP_SIZE) as [Ho|]; [|done]. cbn [andb].
      assert (0 ≤ rt_offset t' q) by apply u32_is_u. unfold BITMAP_SIZE in Ho.
      rewrite Hb by lia. cbn [t0 rt_bitmap]. rewrite bm_test_zero, orb_false_r.
      apply bool_decide_ext_eqb. unfold rt_offset. rewrite HL. cbn [t0 rt_largest_received].
      rewrite Z2Nat.id by apply u32_is_u. ulia. }
  destruct (seq_gt p (rt_largest_received t)) eqn:Hgt; cbn [negb].
  - set (L := rt_largest_received t) in *.
    assert (0 < u32 (p - L) ≤ 2 ^ 31) as Hsh.
    { destruct Ht as [HL _]. fold L in HL. revert Hgt. unfold seq_gt, seq_lt. rewrite Z.ltb_lt.
      unfold signed. cbv zeta. rewrite wrap_wrap by done.
      destruct (Z.ltb_spec (u32 (L - p)) (2 ^ (32 - 1))); ulia. }
    destruct (rt_shift_bitmap_spec (rt_bitmap t) (u32 (p - L))) as (bm & -> & Hbm & Hsb);
      [apply Ht|lia|]. cbn [res_bind]. set (t0 := {| rt_largest_received := p; rt_has_received := true; rt_bitmap := bm |}).
    destruct (rt_set_bit_spec t0 p) as (t' & He & Hok & Hh' & HL & Hb); [by split|done|apply seq_gt_refl|].
    exists t'. rewrite HL. split_and!; try done. intros q Hq. unfold rt_holds. rewrite Hh', Hh. cbn [andb].
    destruct (Z.ltb_spec (rt_offset t' q) BITMAP_SIZE) as [Ho|]; [|done]. cbn [andb].
    assert (0 ≤ rt_offset t' q) by apply u32_is_u. unfold BITMAP_SIZE in Ho.
    rewrite Hb by lia. cbn [t0 rt_bitmap]. rewrite Hsb by lia. rewrite Z2Nat.id by lia.
    unfold rt_offset in *. rewrite HL in *. cbn [t0 rt_largest_received] in *. fold L.
    destruct Ht as [HLu _]. fold L in HLu. f_equal.
    + apply bool_decide_ext_eqb. ulia.
    + destruct (Z.ltb_spec (u32 (p - q)) (u32 (p - L))) as [H1|H1].
      * symmetry. apply andb_false_iff. left. apply Z.ltb_ge. unfold BITMAP_SIZE. ulia.
      * assert (u32 (L - q) = u32 (p - q) - u32 (p - L)) as -> by ulia.
        rewrite (proj2 (Z.ltb_lt _ _)) by (unfold BITMAP_SIZE; lia). cbn [andb]. f_equal. lia.
  - destruct (rt_set_bit_spec t p) as (t' & He & Hok & Hh' & HL & Hb); [done..|].
    exists t'. rewrite HL. split_and!; try done. intros q Hq. unfold rt_holds.
    unfold rt_offset in *. rewrite Hh', Hh, HL. cbn [andb].
    destruct (Z.ltb_spec (u32 (rt_largest_received t - q)) BITMAP_SIZE) as [Ho|]; [|done]. cbn [andb].
    assert (0 ≤ u32 (rt_largest_received t - q)) by apply u32_is_u. unfold BITMAP_SIZE in Ho.
    rewrite Hb by lia. rewrite Z2Nat.id by lia. f_equal. apply bool_decide_ext_eqb.
    destruct Ht as [HLu _]. ulia.
Qed.

(** ** Runs *)
Definition rt_run (l : list Z) : res RecvTracker := res_foldl rt_on_packet_received rt_new l.
Definition max_packet (l : list Z) : Z := foldr Z.max 0 l.
Lemma max_packet_snoc l p : 0 ≤ p → max_packet (l ++ [p]) = Z.max (max_packet l) p.
Proof.
  intros Hp. unfold max_packet. induction l as [|x l IH]; simpl; [lia|]. rewrite IH. lia.
Qed.
Lemma max_packet_ge l q : q ∈ l → q ≤ max_packet l.
Proof.
  unfold max_packet. induction l as [|x l IH]; [set_solver|]. simpl.
  intros [->|H]%elem_of_cons; [lia|]. specialize (IH H). lia.
Qed.
Lemma rt_new_ok : rt_ok rt_new.
Proof. split; [by compute|apply bm_ok_zero]. Qed.

(** Whatever arrives, with any wrap-around, only received numbers are held. *)
Lemma rt_run_sound l :
  Forall (λ p, is_u32 p) l →
  ∃ t, rt_run l = Ok t ∧ rt_ok t ∧ ∀ q, is_u32 q → rt_holds t q = true → q ∈ l.
Proof.
  induction l as [|p l IH] using rev_ind; intros Hl.
  { exists rt_new. split_and!; [done|apply rt_new_ok|done]. }
  apply Forall_app in Hl as [Hl [Hp _]%Forall_cons].
  destruct (IH Hl) as (t & Hr & Hok & Hh). unfold rt_run in *. rewrite res_foldl_app, Hr.
  cbn [res_bind res_foldl]. destruct (rt_receive_spec t p Hok Hp) as (t' & -> & Hok' & _ & _ & Hh').
  cbn [res_bind]. exists t'. split_and!; [done..|]. intros q Hq. rewrite Hh' by done.
  rewrite andb_true_iff, orb_true_iff, Z.eqb_eq. intros [_ [->|H]]; [set_solver|].
  apply Hh in H; [|done]. set_solver.
Qed.
(** Packet numbers counted without wrap-around: [near m q] says that 32-bit serial
    numbers can tell on which side of [m] the number [q] is. *)
Definition near (m q : Z) : Prop := - 2 ^ 31 < q - m < 2 ^ 31.
#[global] Instance near_dec m q : Decision (near m q).
Proof. unfold near. apply _. Defined.
(** A history in which no packet is 2^31 or more away from the largest before it. *)
Inductive orderly : list Z → Prop :=
| orderly_nil : orderly []
| orderly_snoc l p : orderly l → 0 ≤ p → (l ≠ [] → near (max_packet l) p) → orderly (l ++ [p]).
Lemma u32_sub a b : u32 (u32 a - u32 b) = u32 (a - b).
Proof. unfold wrap. by rewrite <-Zminus_mod. Qed.
Lemma seq_gt_near a b : near a b → seq_gt (u32 a) (u32 b) = (b <? a).
Proof.
  unfold near. intros Hn. unfold seq_gt, seq_lt, signed. cbv zeta. rewrite wrap_wrap, u32_sub by done.
  destruct (Z.ltb_spec b a), (Z.ltb_spec (u32 (b - a)) (2 ^ (32 - 1))); try apply Z.ltb_lt;
    try apply Z.ltb_ge; ulia.
Qed.
Lemma offset_near m q : near m q → (u32 (u32 m - u32 q) < 256 ↔ q ≤ m ∧ m - q < 256).
Proof. unfold near. intros Hn. rewrite u32_sub. ulia. Qed.
Lemma rt_run_window l :
  orderly l →
  ∃ t, rt_run (u32 <$> l) = Ok t ∧ rt_ok t ∧ rt_has_received t = bool_decide (l ≠ []) ∧
    (l ≠ [] → rt_largest_received t = u32 (max_packet l)) ∧
    ∀ q, near (max_packet l) q → rt_holds t (u32 q) = bool_decide (q ∈ l ∧ max_packet l - q < 256).
Proof.
  induction 1 as [|l p Ho (t & Hr & Hok & Hh & HL & Hw) Hp Hn].
  { exists rt_new. split_and!; [done|apply rt_new_ok|done|done|]. intros q _. by unfold rt_holds. }
  unfold rt_run in *. rewrite fmap_app, res_foldl_app, Hr. cbn [res_bind res_foldl fmap list_fmap].
  destruct (rt_receive_spec t (u32 p) Hok (u32_is_u p)) as (t' & -> & Hok' & Hh' & HL' & Hw').
  rewrite max_packet_snoc by lia.
  assert (rt_largest_received t' = u32 (Z.max (max_packet l) p)) as Hmax.
  { rewrite HL'. unfold rt_next_largest. rewrite Hh. case_bool_decide as Hne; cbn [andb].
    - specialize (Hn Hne). rewrite HL, seq_gt_near by (done || unfold near in *; lia).
      destruct (Z.ltb_spec (max_packet l) p); cbn [negb]; f_equal; lia.
    - destruct l as [|x l]; [cbn; f_equal; lia|]. exfalso; naive_solver. }
  cbn [res_bind]. exists t'. split_and!; [done|done| |done|].
  { rewrite Hh'. symmetry. apply bool_decide_eq_true. by destruct l. }
  intros q Hq. rewrite Hw' by apply u32_is_u. apply eq_bool_prop_intro.
  rewrite bool_decide_spec, andb_True, orb_True, !Is_true_true, Z.ltb_lt, Z.eqb_eq.
  unfold rt_offset. rewrite Hmax. unfold BITMAP_SIZE. rewrite (offset_near _ _ Hq).
  pose proof (max_packet_ge (l ++ [p])) as Hge. rewrite max_packet_snoc in Hge by lia.
  rewrite elem_of_app, list_elem_of_singleton.
  assert (∀ q, near (max_packet l) q → rt_holds t (u32 q) = true ↔ q ∈ l ∧ max_packet l - q < 256) as Hw2
    by (intros x Hx; by rewrite Hw, bool_decide_eq_true).
  assert (q ∈ l → q ≤ max_packet l) as Hql by apply max_packet_ge.
  split.
  - intros [[H1 H2] [E|Hold]]; (split; [|done]).
    + right. destruct l as [|x l]; [|specialize (Hn ltac:(done))]; unfold near, max_packet in *; simpl in *; ulia.
    + left. destruct l as [|x l]; [unfold rt_holds in Hold; by rewrite Hh in Hold|].
      apply Hw2 in Hold; [by destruct Hold|]. specialize (Hn ltac:(done)). unfold near in *. lia.
  - intros [[Hin| ->] H2].
    + specialize (Hql Hin). split; [lia|]. right. apply Hw2; [|split; [done|lia]]. assert (l ≠ []) as Hne by (by intros ->; apply not_elem_of_nil in Hin).
      specialize (Hn Hne). unfold near in *. lia.
    + split; [lia|by left].
Qed.

(** ** The claims *)

(** C17: the 256-bit window refines the set of received packets.  For any history
    of packet numbers, counted without wrap-around, in which each number is less
    than 2^31 away from the largest before it (what 32-bit serial numbers can tell
    apart), the tracker that is given the numbers modulo 2^32 knows the largest one, and
    [is_duplicate] answers true exactly for those received that are less than 256
    behind it, among all numbers less than 2^31 away from it.  For any history at
    all it never answers true for a number that was not received, and no access
    leaves the bitmap. *)
Theorem recv_tracker_window (l : list Z) :
  ∃ t, rt_run (u32 <$> l) = Ok t ∧
    (∀ q, is_u32 q → ∃ b, rt_is_duplicate t q = Ok b ∧ (b = true → q ∈ u32 <$> l)) ∧
    (orderly l →
       (l ≠ [] → rt_largest_received t = u32 (max_packet l)) ∧
       ∀ q, near (max_packet l) q →
         rt_is_duplicate t (u32 q) = Ok (bool_decide (q ∈ l ∧ max_packet l - q < 256))).
Proof.
  destruct (rt_run_sound (u32 <$> l)) as (t & Hr & Hok & Hs).
  { apply Forall_fmap, Forall_true. intros p. apply u32_is_u. }
  exists t. split_and!; [done|..].
  - intros q Hq. rewrite rt_is_duplicate_spec by done. eauto.
  - intros Ho. destruct (rt_run_window l Ho) as (t' & Hr' & _ & _ & HL & Hw).
    rewrite Hr in Hr'. injection Hr' as <-. split; [done|]. intros q Hq.
    by rewrite rt_is_duplicate_spec, Hw.
Qed.
(** A history that wraps around, with a packet that comes late. *)
Definition wrapping : list Z := [2 ^ 32 - 3; 2 ^ 32 + 5; 2 ^ 32 - 1].
Lemma wrapping_orderly : orderly wrapping.
Proof.
  apply (orderly_snoc [2 ^ 32 - 3; 2 ^ 32 + 5]); [|lia|by_decide].
  apply (orderly_snoc [2 ^ 32 - 3]); [|lia|by_decide].
  apply (orderly_snoc []); [constructor|lia|done].
Qed.
Lemma recv_tracker_window_witness :
  ∃ t, rt_run [2 ^ 32 - 3; 5; 2 ^ 32 - 1] = Ok t ∧ rt_largest_received t = 5 ∧
    rt_is_duplicate t (2 ^ 32 - 1) = Ok true ∧ rt_is_duplicate t (2 ^ 32 - 2) = Ok false.
Proof.
  destruct (recv_tracker_window wrapping) as (t & Hr & _ & Hx). destruct (Hx wrapping_orderly) as [HL Hw].
  exists t. split; [exact Hr|]. split; [exact (HL ltac:(done))|]. split.
  - exact (Hw (2 ^ 32 - 1) ltac:(by_decide)).
  - exact (Hw (2 ^ 32 - 2) ltac:(by_decide)).
Defined.

(** [build_ack] can acknowledge packets that were never received. When the
    scan ends inside a range (bit 255 set), the last closed range is extended
    down to the end of the window instead of a new one being added: after
    receiving 45, 298 and 300 the only SACK range is [45, 298], which covers
    packet 100. *)
Theorem build_ack_overreports :
  (let! t := rt_run [45; 298; 300] in
   let! (frame, ranges) := rt_build_ack t 0 in
   let! dup := rt_is_duplicate t 100 in
   Ok (ack_largest_acked frame, ranges, dup)) =
  Ok (300, [{| sr_start := 45; sr_end := 298 |}], false).
Proof. vm_compute. reflexivity. Qed.

(** ** Send side *)
Definition sack_list (ack : AckFrame) (ranges : option (list SackRange)) : list SackRange :=
  match ranges with Some rs => take (Z.to_nat (ack_sack_range_count ack)) rs | None => [] end.
Definition ack_covers (ack : AckFrame) (ranges : option (list SackRange)) (i : SentPacketInfo) : bool :=
  seq_le (sp_packet_number i) (ack_largest_acked ack) ||
  existsb (λ r, sack_covers r i) (sack_list ack ranges).

Lemma st_mark_if_mark_if p q l :
  (∀ i, q (sp_mark_acked i) = q i) →
  st_mark_if q (st_mark_if p l) = st_mark_if (λ i, p i || q i) l.
Proof.
  intros Hq. unfold st_mark_if. rewrite <-list_fmap_compose. apply list_fmap_ext.
  intros _ i _. unfold compose. destruct (p i); cbn [orb]; [|done].
  rewrite Hq. by destruct (q i).
Qed.
Lemma st_mark_ranges rs p l :
  foldl (λ s r, st_mark_if (sack_covers r) s) (st_mark_if p l) rs =
  st_mark_if (λ i, p i || existsb (λ r, sack_covers r i) rs) l.
Proof.
  revert p. induction rs as [|r rs IH]; intros p; cbn [foldl existsb].
  - apply list_fmap_ext. intros _ i _. by rewrite orb_false_r.
  - rewrite st_mark_if_mark_if by done. rewrite IH.
    apply list_fmap_ext. intros _ i _. by rewrite orb_assoc.
Qed.
Lemma st_mark_update p n l :
  (∀ i, sp_packet_number i = n → p i = true) → (∀ i, p (sp_mark_acked i) = p i) →
  st_mark_if p (update_key sp_packet_number n sp_mark_acked l) = st_mark_if p l.
Proof.
  intros Hn Hp. unfold st_mark_if. induction l as [|i l IH]; [done|]. cbn [update_key].
  destruct (Z.eqb_spec (sp_packet_number i) n); rewrite !fmap_cons.
  - rewrite Hp, (Hn i) by done. done.
  - by rewrite IH.
Qed.
Lemma seq_le_refl a : seq_le a a = true.
Proof. unfold seq_le. by rewrite Z.eqb_refl. Qed.

Lemma st_sample_found t ack now before i after :
  st_sent t = before ++ i :: after → sp_packet_number i = ack_largest_acked ack →
  ack_largest_acked ack ∉ sp_packet_number <$> before →
  (st_ack_largest t ack now).2 =
    if sp_acked i then 0 else
    let elapsed := u32 (now - sp_sent_timestamp_us i) in
    if decide (ack_delay_us ack < elapsed) then u32 (elapsed - ack_delay_us ack) else elapsed.
Proof.
  intros Hs Hi Hb. unfold st_ack_largest, st_find.
  assert (find_key sp_packet_number (ack_largest_acked ack) (st_sent t) = Some i) as ->.
  { rewrite Hs, find_key_app. apply find_key_None in Hb as ->. simpl. by rewrite Hi, Z.eqb_refl. }
  destruct (sp_acked i); [done|]. cbn [negb snd].
  destruct (Z.ltb_spec (ack_delay_us ack) (u32 (now - sp_sent_timestamp_us i)));
    [by rewrite decide_True|rewrite decide_False by lia; done].
Qed.
Lemma st_sample_none t ack now :
  ack_largest_acked ack ∉ sp_packet_number <$> st_sent t → (st_ack_largest t ack now).2 = 0.
Proof. intros Hn. unfold st_ack_largest, st_find. by apply find_key_None in Hn as ->. Qed.

