(* ===== verification/Fec.v ===== *)
(** * Forward error correction

    Models [include/protocoll/reliability/fec.h] and [src/reliability/fec.cpp]:
    XOR parity over groups of packets of different lengths. *)
From S2P Require Import Prelude Platform.

Record FecHeader := { fh_group_id : Z; fh_group_size : Z; fh_index : Z }.
Definition FecHeader_WIRE_SIZE : nat := 4.
Definition FecHeader_encode (h : FecHeader) (buf : bytes) : res bytes :=
  check_ (FecHeader_WIRE_SIZE <=? length buf)%nat (
  let! buf := write_u16 buf 0 (fh_group_id h) in
  let! buf := put8 buf 2 (fh_group_size h) in
  put8 buf 3 (fh_index h)).
Definition FecHeader_decode (buf : bytes) : res FecHeader :=
  check_ (FecHeader_WIRE_SIZE <=? length buf)%nat (
  let! g := read_u16 buf 0 in
  let! s := get8 buf 2 in
  let! i := get8 buf 3 in
  Ok {| fh_group_id := g; fh_group_size := s; fh_index := i |}).

(** [a] grown with zeros to the length of [b], then xored with it. *)
Fixpoint xor_pad (a b : bytes) : bytes :=
  match a, b with
  | [], _ => b
  | _, [] => a
  | x :: a', y :: b' => Z.lxor x y :: xor_pad a' b'
  end.

(** ** Encoder *)
Record FecEncoder := {
  fe_group_size : Z; fe_group_id : Z; fe_count : Z; fe_parity : bytes; fe_max_packet_len : nat
}.
Definition fe_new (group_size : Z) : FecEncoder :=
  {| fe_group_size := if group_size <? 2 then 2 else group_size; fe_group_id := 0; fe_count := 0;
     fe_parity := []; fe_max_packet_len := 0 |}.
Definition fe_xor_into (e : FecEncoder) (data : bytes) : FecEncoder :=
  {| fe_group_size := fe_group_size e; fe_group_id := fe_group_id e; fe_count := fe_count e;
     fe_parity := xor_pad (fe_parity e) data;
     fe_max_packet_len := if (fe_max_packet_len e <? length data)%nat then length data
                          else fe_max_packet_len e |}.
(** [build_parity_packet], for the given group size and parity index. *)
Definition fe_build_parity_packet (e : FecEncoder) : res bytes :=
  let pkt := replicate (FecHeader_WIRE_SIZE + fe_max_packet_len e) 0 in
  let! pkt := or_else (FecHeader_encode {| fh_group_id := fe_group_id e;
                fh_group_size := fe_group_size e; fh_index := fe_group_size e |} pkt) pkt in
  let! payload := slice (fe_parity e) 0 (fe_max_packet_len e) in
  store pkt FecHeader_WIRE_SIZE payload.
Definition fe_next_group (e : FecEncoder) : FecEncoder :=
  {| fe_group_size := fe_group_size e; fe_group_id := u16 (fe_group_id e + 1); fe_count := 0;
     fe_parity := []; fe_max_packet_len := 0 |}.
Definition fe_add_packet (e : FecEncoder) (data : bytes) : res (FecEncoder * option bytes) :=
  let e := fe_xor_into e data in
  let e := {| fe_group_size := fe_group_size e; fe_group_id := fe_group_id e;
              fe_count := u8 (fe_count e + 1); fe_parity := fe_parity e;
              fe_max_packet_len := fe_max_packet_len e |} in
  if fe_group_size e <=? fe_count e then
    let! parity := fe_build_parity_packet e in
    Ok (fe_next_group e, Some parity)
  else Ok (e, None).
Definition fe_flush (e : FecEncoder) : res (FecEncoder * option bytes) :=
  if fe_count e =? 0 then Ok (e, None) else
  let! parity := fe_build_parity_packet e in
  let! parity := or_else (FecHeader_encode {| fh_group_id := fe_group_id e;
                   fh_group_size := fe_count e; fh_index := fe_count e |} parity) parity in
  Ok (fe_next_group e, Some parity).
Definition fe_reset (e : FecEncoder) : FecEncoder :=
  {| fe_group_size := fe_group_size e; fe_group_id := 0; fe_count := 0; fe_parity := [];
     fe_max_packet_len := 0 |}.

(** ** Decoder *)
Record ReceivedPacket := { rp_index : Z; rp_data : bytes }.
Record FecDecoder := {
  fd_expected_group_size : Z; fd_current_group_id : Z; fd_group_started : bool;
  fd_received : list ReceivedPacket; fd_has_parity : bool; fd_parity_data : bytes
}.
Definition fd_new (expected_group_size : Z) : FecDecoder :=
  {| fd_expected_group_size := expected_group_size; fd_current_group_id := 0;
     fd_group_started := false; fd_received := []; fd_has_parity := false; fd_parity_data := [] |}.
Definition fd_reset (d : FecDecoder) : FecDecoder :=
  {| fd_expected_group_size := fd_expected_group_size d;
     fd_current_group_id := fd_current_group_id d; fd_group_started := false; fd_received := [];
     fd_has_parity := false; fd_parity_data := [] |}.

(** Some index below the group size is absent. *)
Definition fd_missing (gs : nat) (received : list ReceivedPacket) : option nat :=
  head (filter (λ i, Forall (λ r, rp_index r ≠ Z.of_nat i) received) (seq 0 gs)).
Definition fd_try_recover (d : FecDecoder) : option bytes :=
  let gs := Z.to_nat (fd_expected_group_size d) in
  let data_count := length (fd_received d) in
  if (gs <=? data_count)%nat then None
  else if (S data_count =? gs)%nat && fd_has_parity d then
    match fd_missing gs (fd_received d) with
    | None => None
    | Some _ =>
        let max_len := foldl (λ m r, if (m <? length (rp_data r))%nat then length (rp_data r) else m)
                         (length (fd_parity_data d)) (fd_received d) in
        let recovered := splice (replicate max_len 0) 0 (fd_parity_data d) in
        Some (foldl (λ rec r, xor_pad rec (rp_data r)) recovered (fd_received d))
    end
  else None.
Definition fd_add_packet (d : FecDecoder) (header : FecHeader) (data : bytes)
    : FecDecoder * option bytes :=
  let d :=
    if negb (fd_group_started d) || negb (fh_group_id header =? fd_current_group_id d) then
      let d := fd_reset d in
      {| fd_expected_group_size := fd_expected_group_size d;
         fd_current_group_id := fh_group_id header; fd_group_started := true;
         fd_received := fd_received d; fd_has_parity := fd_has_parity d;
         fd_parity_data := fd_parity_data d |}
    else d in
  let d :=
    if fh_group_size header <=? fh_index header then
      {| fd_expected_group_size := fd_expected_group_size d;
         fd_current_group_id := fd_current_group_id d; fd_group_started := fd_group_started d;
         fd_received := fd_received d; fd_has_parity := true; fd_parity_data := data |}
    else
      {| fd_expected_group_size := fd_expected_group_size d;
         fd_current_group_id := fd_current_group_id d; fd_group_started := fd_group_started d;
         fd_received := fd_received d ++ [{| rp_index := fh_index header; rp_data := data |}];
         fd_has_parity := fd_has_parity d; fd_parity_data := fd_parity_data d |} in
  (d, fd_try_recover d).

(** ** Algebra of padded xor *)
Lemma xor_pad_nil_r a : xor_pad a [] = a.
Proof. by destruct a. Qed.
Lemma xor_pad_comm a b : xor_pad a b = xor_pad b a.
Proof.
  revert b. induction a as [|x a IH]; intros [|y b]; simpl; try done. by rewrite Z.lxor_comm, IH.
Qed.
Lemma xor_pad_assoc a b c : xor_pad a (xor_pad b c) = xor_pad (xor_pad a b) c.
Proof.
  revert b c. induction a as [|x a IH]; intros [|y b] [|z c]; simpl; try done.
  by rewrite Z.lxor_assoc, IH.
Qed.
Lemma length_xor_pad a b : length (xor_pad a b) = Nat.max (length a) (length b).
Proof. revert b. induction a as [|x a IH]; intros [|y b]; simpl; try lia. by rewrite IH. Qed.
Lemma xor_pad_self a : xor_pad a a = replicate (length a) 0.
Proof. induction a as [|x a IH]; simpl; [done|]. by rewrite Z.lxor_nilpotent, IH. Qed.
Lemma xor_pad_zeros a n : xor_pad a (replicate n 0) = a ++ replicate (n - length a) 0.
Proof.
  revert n. induction a as [|x a IH]; intros n; simpl; [by rewrite Nat.sub_0_r|].
  destruct n as [|n]; simpl; [by rewrite app_nil_r|]. by rewrite Z.lxor_0_r, IH.
Qed.
Definition xor_all (l : list bytes) : bytes := foldr xor_pad [] l.
Definition fec_max_len (l : list bytes) : nat := foldr (λ d m, Nat.max (length d) m) O l.
Lemma fec_max_len_cons d l : fec_max_len (d :: l) = Nat.max (length d) (fec_max_len l).
Proof. done. Qed.
Lemma xor_all_cons d l : xor_all (d :: l) = xor_pad d (xor_all l).
Proof. done. Qed.
Lemma length_xor_all l : length (xor_all l) = fec_max_len l.
Proof. induction l as [|d l IH]; simpl; [done|]. by rewrite length_xor_pad, IH. Qed.
Lemma xor_all_perm l k : l ≡ₚ k → xor_all l = xor_all k.
Proof.
  apply (foldr_permutation_proper (=)); [solve_proper|]. intros a b c.
  by rewrite !xor_pad_assoc, (xor_pad_comm a b).
Qed.
Lemma foldl_xor_pad (l : list ReceivedPacket) a :
  foldl (λ rec r, xor_pad rec (rp_data r)) a l = xor_pad a (xor_all (rp_data <$> l)).
Proof.
  revert a. induction l as [|r l IH]; intros a; csimpl; [by rewrite xor_pad_nil_r|].
  by rewrite IH, xor_pad_assoc.
Qed.

(** ** Encoder *)
Lemma fe_parity_packet_Ok e :
  length (fe_parity e) = fe_max_packet_len e → is_u16 (fe_group_id e) →
  fe_build_parity_packet e =
    Ok (be16 (fe_group_id e) ++ fe_group_size e :: fe_group_size e :: fe_parity e).
Proof.
  intros Hl Hg. unfold fe_build_parity_packet, FecHeader_encode, FecHeader_WIRE_SIZE.
  rewrite (proj2 (Nat.leb_le _ _)) by (cbn [length]; rewrite ?length_replicate; lia).
  cbn [check_ Nat.add replicate fh_group_id fh_group_size fh_index]. unfold put8.
  rewrite write_u16_be, store_head by (rewrite length_be16; cbn [length]; lia).
  rewrite length_be16. cbn [res_bind drop]. rewrite store_skip16.
  cbn [store]. rewrite store_head by (cbn [length]; lia). cbn [res_bind length drop app].
  rewrite store_skip16, store_cons, store_head by (cbn [length]; lia).
  cbn [res_bind length drop app or_else].
  rewrite slice_all by done. cbn [res_bind]. rewrite drop_0, store_skip16, !store_cons, store_head
    by (rewrite length_replicate; lia). cbn [res_bind].
  rewrite drop_ge by (rewrite length_replicate; lia). by rewrite app_nil_r.
Qed.
Lemma fe_add_all e ds :
  fe_count e = 0 → fe_parity e = [] → fe_max_packet_len e = O →
  2 ≤ fe_group_size e < 256 → Z.of_nat (length ds) < fe_group_size e →
  ∃ e', res_foldl (λ e d, let! (e, p) := fe_add_packet e d in
                          match p with None => Ok e | Some _ => Fail end) e ds = Ok e' ∧
    fe_count e' = Z.of_nat (length ds) ∧ fe_group_size e' = fe_group_size e ∧
    fe_group_id e' = fe_group_id e ∧ fe_parity e' = xor_all ds ∧
    fe_max_packet_len e' = length (xor_all ds).
Proof.
  intros Hc Hp Hm Hg. induction ds as [|d ds IH] using rev_ind; intros Hl.
  { exists e. by rewrite Hc, Hp, Hm. }
  rewrite length_app in Hl |- *. simpl in Hl |- *.
  destruct IH as (e' & He & Hc' & Hg' & Hi' & Hp' & Hm'); [lia|].
  rewrite res_foldl_app, He. cbn [res_bind res_foldl]. unfold fe_add_packet, fe_xor_into.
  cbn [fe_group_size fe_count fe_parity fe_max_packet_len fe_group_id].
  rewrite Hc', Hg'. rewrite wrap_id by (zify_u; lia). rewrite (proj2 (Z.leb_gt _ _)) by lia.
  cbn [res_bind]. eexists. split; [done|].
  cbn [fe_count fe_group_size fe_group_id fe_parity fe_max_packet_len].
  split_and!; [lia|done|done| |].
  - rewrite Hp', xor_pad_comm. rewrite (xor_all_perm (ds ++ [d]) (d :: ds)); [done|].
    by rewrite Permutation_app_comm.
  - rewrite (xor_all_perm (ds ++ [d]) (d :: ds)) by by rewrite Permutation_app_comm.
    rewrite xor_all_cons, length_xor_pad, Hm'.
    destruct (Nat.ltb_spec (length (xor_all ds)) (length d)); lia.
Qed.

(** ** Decoder *)
(** The packets of a group on the wire, [gid] and [K] in every header. *)
Definition fec_data_packet (gid K : Z) (id : nat * bytes) : FecHeader * bytes :=
  ({| fh_group_id := gid; fh_group_size := K; fh_index := Z.of_nat id.1 |}, id.2).
Definition fec_parity_packet (gid K : Z) (parity : bytes) : FecHeader * bytes :=
  ({| fh_group_id := gid; fh_group_size := K; fh_index := K |}, parity).
Fixpoint fd_feed (d : FecDecoder) (l : list (FecHeader * bytes)) : FecDecoder * list (option bytes) :=
  match l with
  | [] => (d, [])
  | (h, data) :: l' =>
      let '(d, r) := fd_add_packet d h data in
      let '(d, rs) := fd_feed d l' in (d, r :: rs)
  end.

Definition fd_in_group (gid : Z) (d : FecDecoder) : Prop :=
  fd_group_started d = true ∧ fd_current_group_id d = gid.
(** A decoder before its first packet of group [gid]. *)
Definition fd_fresh (gid : Z) (d : FecDecoder) : Prop :=
  fd_group_started d = false ∨ fd_current_group_id d ≠ gid.

(** What the decoder holds of group [gid] after a set of its packets. *)
Definition fd_holds (gid K : Z) (data : list (nat * bytes)) (parity : option bytes)
    (d : FecDecoder) : Prop :=
  fd_expected_group_size d = K ∧
  (data = [] ∧ parity = None ∧ fd_fresh gid d ∨
   fd_in_group gid d ∧
   fd_received d = (λ id, {| rp_index := Z.of_nat id.1; rp_data := id.2 |}) <$> data ∧
   fd_has_parity d = bool_decide (is_Some parity) ∧ (∀ p, parity = Some p → fd_parity_data d = p)).

Lemma fd_add_data gid K data parity d i x :
  fd_holds gid K data parity d → Z.of_nat i < K →
  let '(d', r) := fd_add_packet d (fec_data_packet gid K (i, x)).1 x in
  fd_holds gid K (data ++ [(i, x)]) parity d' ∧ r = fd_try_recover d'.
Proof.
  intros [HK Hd] Hi. unfold fd_add_packet. cbn [fst fec_data_packet fh_group_size fh_index fh_group_id].
  rewrite (proj2 (Z.leb_gt _ _)) by lia. split; [|done].
  destruct Hd as [(-> & -> & Hf)|((Hs & Hg) & Hr & Hp & Hpd)].
  - assert (negb (fd_group_started d) || negb (gid =? fd_current_group_id d) = true) as ->.
    { destruct Hf as [->|Hf]; [done|]. rewrite (proj2 (Z.eqb_neq _ _)) by done. apply orb_true_r. }
    split; [done|]. right. split; [done|]. split; [done|]. split; [done|done].
  - rewrite Hs, Hg, Z.eqb_refl. cbn [negb orb]. split; [done|]. right. split; [done|].
    cbn. rewrite Hr, fmap_app. done.
Qed.
Lemma fd_add_parity gid K data d p :
  fd_holds gid K data None d →
  let '(d', r) := fd_add_packet d (fec_parity_packet gid K p).1 p in
  fd_holds gid K data (Some p) d' ∧ r = fd_try_recover d'.
Proof.
  intros [HK Hd]. unfold fd_add_packet. cbn [fst fec_parity_packet fh_group_size fh_index fh_group_id].
  rewrite (proj2 (Z.leb_le _ _)) by lia. split; [|done].
  destruct Hd as [(-> & _ & Hf)|((Hs & Hg) & Hr & Hp & _)].
  - assert (negb (fd_group_started d) || negb (gid =? fd_current_group_id d) = true) as ->.
    { destruct Hf as [->|Hf]; [done|]. rewrite (proj2 (Z.eqb_neq _ _)) by done. apply orb_true_r. }
    split; [done|]. right. split; [done|]. split; [done|]. split; [done|]. by intros ? [= <-].
  - rewrite Hs, Hg, Z.eqb_refl. cbn [negb orb]. split; [done|]. right. split; [done|].
    split; [done|]. split; [done|]. by intros ? [= <-].
Qed.

(** Too few packets, or no parity yet: nothing is returned. *)
Lemma fd_try_recover_not_yet gid K data parity d :
  fd_holds gid K data parity d → (data = [] → parity = None → False) →
  (S (length data) < Z.to_nat K)%nat ∨ parity = None →
  fd_try_recover d = None.
Proof.
  intros [HK [(-> & -> & _)|(_ & Hr & Hp & _)]] Hne Hc; [by destruct Hne|].
  unfold fd_try_recover. rewrite HK, Hr, length_fmap, Hp.
  destruct (Nat.leb_spec (Z.to_nat K) (length data)); [done|].
  destruct (Nat.eqb_spec (S (length data)) (Z.to_nat K)); [|done].
  destruct Hc as [?| ->]; [lia|]. done.
Qed.
(** All but one data packet, and the parity of the whole group. *)
Lemma fd_try_recover_ready gid K data d (m : nat) (x : bytes) :
  fd_holds gid K data (Some (xor_all (x :: (snd <$> data)))) d →
  S (length data) = Z.to_nat K → (m < Z.to_nat K)%nat → m ∉ data.*1 →
  fd_try_recover d = Some (x ++ replicate (fec_max_len (x :: (snd <$> data)) - length x) 0).
Proof.
  intros [HK [(_ & ? & _)|(_ & Hr & Hp & Hpd)]] Hl Hm Hn; [done|].
  unfold fd_try_recover. rewrite HK, Hr, length_fmap, Hp, (Hpd _ eq_refl).
  rewrite (proj2 (Nat.leb_gt _ _)) by lia. rewrite Hl, Nat.eqb_refl. cbn [andb bool_decide].
  rewrite bool_decide_true by eauto.
  set (rcv := _ <$> data). assert (is_Some (fd_missing (Z.to_nat K) rcv)) as [i ->].
  { unfold fd_missing. destruct (filter _ _) as [|i l] eqn:E; [|by eexists].
    exfalso. assert (m ∉ seq 0 (Z.to_nat K)) as Hnot.
    { eapply filter_nil_not_elem_of; [exact E|].
      apply Forall_fmap, Forall_forall. intros [j y] Hj. cbn. intros Hjm. apply Hn.
      apply list_elem_of_fmap. exists (j, y). split; [cbn; lia|done]. }
    apply Hnot, elem_of_seq. lia. }
  assert (rp_data <$> rcv = snd <$> data) as Hdat.
  { unfold rcv. rewrite <-list_fmap_compose. by apply list_fmap_ext. }
  set (P := xor_all (x :: (snd <$> data))).
  assert (∀ l m0, (fec_max_len (rp_data <$> l) ≤ m0)%nat →
    foldl (λ m r, if (m <? length (rp_data r))%nat then length (rp_data r) else m) m0 l = m0) as Hmx.
  { induction l as [|r l IH]; intros m0 H; [done|]. rewrite fmap_cons in H. cbn [foldl].
    rewrite fec_max_len_cons in H.
    destruct (Nat.ltb_spec m0 (length (rp_data r))); [lia|]. apply IH. lia. }
  rewrite Hmx by (rewrite Hdat; unfold P; rewrite length_xor_all, fec_max_len_cons; lia).
  unfold splice. cbn [take app Nat.add]. rewrite drop_ge by (rewrite length_replicate; lia).
  rewrite app_nil_r, foldl_xor_pad, Hdat. f_equal. unfold P.
  rewrite take_0. cbn [app]. rewrite xor_all_cons, <-xor_pad_assoc, xor_pad_self, xor_pad_zeros.
  rewrite length_xor_all, fec_max_len_cons.
  do 2 f_equal. lia.
Qed.

(** Feeding packets of one group in any order. *)
Definition fec_wire (gid K : Z) (data : list (nat * bytes)) (parity : option bytes)
    : list (FecHeader * bytes) :=
  (fec_data_packet gid K <$> data) ++
  match parity with Some p => [fec_parity_packet gid K p] | None => [] end.
Lemma fd_feed_app d l1 l2 :
  fd_feed d (l1 ++ l2) =
    let '(d1, r1) := fd_feed d l1 in let '(d2, r2) := fd_feed d1 l2 in (d2, r1 ++ r2).
Proof.
  revert d. induction l1 as [|[h x] l1 IH]; intros d; cbn [app fd_feed]; [by destruct (fd_feed d l2)|].
  destruct (fd_add_packet d h x) as [d0 r]. rewrite IH.
  destruct (fd_feed d0 l1) as [d1 r1]. destruct (fd_feed d1 l2). reflexivity.
Qed.
(** The held set after a list that is, up to order, part of a group. *)
Lemma fd_feed_holds gid K d l data parity :
  fd_fresh gid d → fd_expected_group_size d = K → 0 ≤ K →
  l ≡ₚ fec_wire gid K data parity → Forall (λ id, Z.of_nat id.1 < K) data →
  ∃ data', data' ≡ₚ data ∧ fd_holds gid K data' parity (fd_feed d l).1 ∧
           (l ≠ [] → last (fd_feed d l).2 = Some (fd_try_recover (fd_feed d l).1)).
Proof.
  intros Hf HK H0. revert data parity. induction l as [|[h x] l IH] using rev_ind;
    intros data parity Hp Hr.
  { symmetry in Hp. apply Permutation_nil_r in Hp. unfold fec_wire in Hp.
    apply app_eq_nil in Hp as [Hd Hpa]. apply fmap_nil_inv in Hd as ->.
    destruct parity; [done|]. exists []. split_and!; [done| |done]. split; [done|]. by left. }
  assert ((h, x) ∈ fec_wire gid K data parity) as Hin by (rewrite <-Hp; set_solver).
  unfold fec_wire in Hin. apply elem_of_app in Hin as [Hin|Hin].
  - apply list_elem_of_fmap in Hin as ([i y] & [= -> ->] & Hin).
    apply elem_of_Permutation in Hin as [rest Hrest].
    destruct (IH rest parity) as (data' & Hd' & Hh & _).
    { apply (Permutation_app_inv_r [(fec_data_packet gid K (i, y))]).
      etrans; [exact Hp|]. unfold fec_wire. rewrite Hrest, fmap_cons.
      rewrite <-Permutation_cons_append. done. }
    { rewrite Hrest in Hr. by apply Forall_cons in Hr as [_ ?]. }
    assert (Z.of_nat i < K) as Hi.
    { rewrite Hrest in Hr. by apply Forall_cons in Hr as [? _]. }
    exists (data' ++ [(i, y)]). rewrite fd_feed_app.
    destruct (fd_feed d l) as [d1 r1]. cbn [fst] in Hh.
    pose proof (fd_add_data gid K data' parity d1 i y Hh Hi) as Ha. cbn [fd_feed].
    cbn [fst fec_data_packet] in Ha. destruct (fd_add_packet d1 _ y) as [d2 r].
    destruct Ha as [Ha ->]. cbn [fst snd]. split_and!; [|done|].
    + rewrite Hrest, Hd'. by rewrite <-Permutation_cons_append.
    + intros _. by rewrite last_snoc.
  - destruct parity as [p|]; [|set_solver]. apply list_elem_of_singleton in Hin as [= -> ->].
    destruct (IH data None) as (data' & Hd' & Hh & _); [|done|].
    { apply (Permutation_app_inv_r [(fec_parity_packet gid K p)]).
      etrans; [exact Hp|]. unfold fec_wire. by rewrite app_nil_r. }
    exists data'. rewrite fd_feed_app. destruct (fd_feed d l) as [d1 r1]. cbn [fst] in Hh.
    pose proof (fd_add_parity gid K data' d1 p Hh) as Ha. cbn [fd_feed].
    cbn [fst fec_parity_packet] in Ha. destruct (fd_add_packet d1 _ p) as [d2 r].
    destruct Ha as [Ha ->]. cbn [fst snd]. split_and!; [done|done|].
    intros _. by rewrite last_snoc.
Qed.

(** Taking one packet out of the numbered group. *)
Lemma fec_indexed_perm (before : list bytes) (lost : bytes) (after : list bytes) :
  let ds := before ++ lost :: after in
  let indexed := zip (seq 0 (length ds)) ds in
  indexed ≡ₚ (length before, lost) :: filter (λ id, id.1 ≠ length before) indexed.
Proof.
  intros ds indexed. unfold indexed, ds. rewrite length_app. cbn [length].
  rewrite seq_app. cbn [Nat.add seq]. rewrite zip_with_app by (by rewrite length_seq).
  cbn [zip_with]. rewrite filter_app.
  rewrite filter_cons_False by (cbn; tauto).
  rewrite !list_filter_all; [by rewrite Permutation_middle|..];
    apply Forall_forall; intros [i y] Hi; apply elem_of_zip_l, elem_of_seq in Hi; cbn; lia.
Qed.

Lemma fe_add_all_lift l e e' :
  res_foldl (λ e d, let! (e, p) := fe_add_packet e d in
    match p with None => Ok e | Some _ => Fail end) e l = Ok e' →
  res_foldl (λ ep x, let! (e1, p) := fe_add_packet ep.1 x in
    match ep.2 with None => Ok (e1, p) | Some _ => Fail end) (e, None) l = Ok (e', None).
Proof.
  revert e e'. induction l as [|x l IH]; intros e e' H; cbn [res_foldl fst snd] in *; [by inv_ok|].
  destruct (fe_add_packet e x) as [[e1 [p|]]| |]; cbn [res_bind] in *; try done. by apply IH.
Qed.
(** The encoder over a whole group: the parity comes out with the last packet. *)
Lemma fe_group_emits e ds :
  let K := fe_group_size e in
  fe_count e = 0 → fe_parity e = [] → fe_max_packet_len e = O → is_u16 (fe_group_id e) →
  2 ≤ K < 256 → Z.of_nat (length ds) = K →
  ∃ e', res_foldl (λ ep x, let! (e1, p) := fe_add_packet ep.1 x in
                           match ep.2 with None => Ok (e1, p) | Some _ => Fail end)
          (e, None) ds =
        Ok (e', Some (be16 (fe_group_id e) ++ K :: K :: xor_all ds)) ∧ fe_count e' = 0.
Proof.
  intros K Hc Hp Hm Hg HK Hlen. subst K.
  destruct (list_snoc_inv ds) as [E|(ds' & x & E)]; [rewrite E in Hlen; cbn in Hlen; lia|].
  assert (Z.of_nat (length ds') + 1 = fe_group_size e) as Hl'.
  { rewrite <-Hlen, E, length_app. simpl. lia. }
  destruct (fe_add_all e ds' Hc Hp Hm HK) as (e1 & He & Hc1 & Hg1 & Hi1 & Hp1 & Hm1); [lia|].
  rewrite E, res_foldl_app.
  rewrite (fe_add_all_lift _ _ _ He). cbn [res_bind res_foldl fst snd].
  unfold fe_add_packet, fe_xor_into.
  cbn [fe_group_size fe_count fe_parity fe_max_packet_len fe_group_id].
  rewrite Hc1, Hg1, wrap_id by (zify_u; lia).
  rewrite (proj2 (Z.leb_le _ _)) by (lia).
  rewrite fe_parity_packet_Ok.
  + cbn [res_bind fe_group_size fe_group_id fe_parity]. eexists (fe_next_group _). split; [|done].
    rewrite Hi1, Hp1. rewrite xor_pad_comm.
    by rewrite (xor_all_perm (ds' ++ [x]) (x :: ds')) by by rewrite Permutation_app_comm.
  + cbn [fe_parity fe_max_packet_len]. rewrite Hp1, Hm1, length_xor_pad.
    destruct (Nat.ltb_spec (length (xor_all ds')) (length x)); lia.
  + cbn [fe_group_id]. by rewrite Hi1.
Qed.
(** The decoder over what arrives of a group with one packet lost. *)
Lemma fd_group_recovers gid K d before lost after arrived :
  let ds := before ++ lost :: after in
  let indexed := zip (seq 0 (length ds)) ds in
  2 ≤ K < 256 → Z.of_nat (length ds) = K → fd_expected_group_size d = K → fd_fresh gid d →
  arrived ≡ₚ fec_wire gid K (filter (λ id, id.1 ≠ length before) indexed) (Some (xor_all ds)) →
  last (fd_feed d arrived).2 =
    Some (Some (lost ++ replicate (fec_max_len ds - length lost) 0)).
Proof.
  intros ds indexed HK Hlen Hexp Hfresh Harr.
  set (others := filter _ indexed) in *.
  assert (Forall (λ id : nat * bytes, Z.of_nat id.1 < K) others) as Hr.
  { apply Forall_list_filter, Forall_forall. intros [i y] Hi.
    apply elem_of_zip_l, elem_of_seq in Hi. simpl. lia. }
  destruct (fd_feed_holds gid K d arrived others (Some (xor_all ds))) as (data' & Hd' & Hh & Hlast);
    [done|done|lia|done|done|].
  assert (indexed ≡ₚ (length before, lost) :: others) as Hidx by apply fec_indexed_perm.
  assert (ds ≡ₚ lost :: (snd <$> data')) as Hds.
  { rewrite Hd'. transitivity (snd <$> indexed).
    - unfold indexed. rewrite snd_zip by (by rewrite length_seq). done.
    - by rewrite Hidx. }
  assert (fec_max_len ds = fec_max_len (lost :: (snd <$> data'))) as ->.
  { by rewrite <-!length_xor_all, (xor_all_perm _ _ Hds). }
  rewrite (xor_all_perm _ _ Hds) in Hh. rewrite Hlast.
  + f_equal. apply (fd_try_recover_ready gid K data' _ (length before)); [done|..].
    * apply Permutation_length in Hds. cbn in Hds. rewrite length_fmap in Hds. lia.
    * unfold ds in Hlen. rewrite length_app in Hlen. cbn in Hlen. lia.
    * rewrite Hd'. intros ([i y] & Hi & [Hne _]%list_elem_of_filter)%list_elem_of_fmap. done.
  + intros ->. apply Permutation_nil_l in Harr. unfold fec_wire in Harr. by destruct (fec_data_packet gid K <$> others).
Qed.

(** ** The claims *)

(** C19: for full groups, of a size the decoder was made for: the encoder emits the
    parity packet with the last packet of the group, and from the parity and any [K - 1]
    of the [K] data packets, each arriving once, in any order, at a decoder of the same
    group size that was not in that group, the last arrival yields the missing packet
    padded with zeros to the length of the longest packet of the group; this is the
    packet itself if no packet of the group is longer.  (Lengths are not sent, so a
    shorter packet does not come back as it was, and groups closed early by [flush] are
    not covered: [fec_short_packet], [fec_flushed_group].) *)
Theorem fec_recovers_single_loss (e : FecEncoder) (d : FecDecoder) (before after : list bytes)
    (lost : bytes) (arrived : list (FecHeader * bytes)) :
  let ds := before ++ lost :: after in
  let K := fe_group_size e in
  let gid := fe_group_id e in
  let indexed := zip (seq 0 (length ds)) ds in
  fe_count e = 0 → fe_parity e = [] → fe_max_packet_len e = O → is_u16 gid →
  2 ≤ K < 256 → Z.of_nat (length ds) = K → fd_expected_group_size d = K → fd_fresh gid d →
  arrived ≡ₚ fec_wire gid K (filter (λ id, id.1 ≠ length before) indexed) (Some (xor_all ds)) →
  (∃ e', res_foldl (λ ep x, let! (e1, p) := fe_add_packet ep.1 x in
                            match ep.2 with None => Ok (e1, p) | Some _ => Fail end)
           (e, None) ds =
         Ok (e', Some (be16 gid ++ K :: K :: xor_all ds)) ∧ fe_count e' = 0) ∧
  last (fd_feed d arrived).2 =
    Some (Some (lost ++ replicate (fec_max_len ds - length lost) 0)) ∧
  (Forall (λ x, (length x ≤ length lost)%nat) ds → last (fd_feed d arrived).2 = Some (Some lost)).
Proof.
  intros ds K gid indexed Hc Hp Hm Hg HK Hlen Hexp Hfresh Harr.
  assert (last (fd_feed d arrived).2 = Some (Some (lost ++ replicate (fec_max_len ds - length lost) 0))) as Hrec
    by by apply (fd_group_recovers gid K).
  split; [by apply fe_group_emits|]. split; [done|]. intros Hle.
  assert (fec_max_len ds ≤ length lost)%nat as Hmax.
  { clear -Hle. induction Hle as [|x l Hx _ IH]; [unfold fec_max_len; simpl; lia|].
    rewrite fec_max_len_cons. lia. }
  rewrite Hrec. replace (fec_max_len ds - length lost)%nat with O by lia. by rewrite app_nil_r.
Qed.
Lemma fec_recovers_single_loss_witness :
  last (fd_feed (fd_new 2) [fec_parity_packet 0 2 [Z.lxor 7 9; Z.lxor 3 5]; fec_data_packet 0 2 (1%nat, [9; 5])]).2 =
    Some (Some [7; 3]).
Proof.
  apply (fec_recovers_single_loss (fe_new 2) (fd_new 2) [] [[9; 5]] [7; 3]);
    [reflexivity|reflexivity|reflexivity|by_decide|by_decide|reflexivity|reflexivity|by left| |].
  - apply Permutation_swap.
  - by_decide.
Defined.

(** A packet shorter than another of its group comes back longer than it was sent. *)
Example fec_short_packet :
  last (fd_feed (fd_new 2) [fec_parity_packet 0 2 (xor_all [[7]; [9; 5]]); fec_data_packet 0 2 (1%nat, [9; 5])]).2 =
    Some (Some [7; 0]).
Proof. vm_compute. reflexivity. Qed.
(** A group of [n] packets that [flush] closed early, as a decoder for groups of three
    sees it: of two packets, the lost one is not rebuilt; and when both arrive the decoder
    counts one as missing and yields a packet of zeros that was never sent. *)
Definition flushed_parity (K : Z) (ds : list bytes) : option bytes :=
  match res_foldl (λ e x, let! (e', _) := fe_add_packet e x in Ok e') (fe_new K) ds with
  | Ok e => match fe_flush e with Ok (_, p) => p | _ => None end
  | _ => None
  end.
Example fec_flushed_group :
  let a := [1; 2] in let b := [3; 4] in
  let parity := fec_parity_packet 0 2 (xor_all [a; b]) in
  flushed_parity 3 [a; b] = Some (be16 0 ++ 2 :: 2 :: xor_all [a; b]) ∧
  (fd_feed (fd_new 3) [fec_data_packet 0 3 (1%nat, b); parity]).2 = [None; None] ∧
  (fd_feed (fd_new 3) [fec_data_packet 0 3 (0%nat, a); fec_data_packet 0 3 (1%nat, b); parity]).2 =
    [None; None; Some [0; 0]].
Proof. vm_compute. repeat split; reflexivity. Qed.

(** duplicates are not detected. A decoder that receives the same data
    packet twice in place of the missing one takes the count as complete and
    returns nothing, and one that receives it [K - 1] times with the parity
    returns a packet that was never sent. *)
Theorem fec_duplicate_garbage :
  let a := [1] in let b := [2] in let c := [4] in
  let parity := xor_all [a; b; c] in
  last (fd_feed (fd_new 3) [fec_parity_packet 0 3 parity; fec_data_packet 0 3 (0%nat, a);
                            fec_data_packet 0 3 (0%nat, a)]).2 = Some (Some [7]).
Proof. vm_compute. reflexivity. Qed.
