(* ===== verification/Freshness.v ===== *)
(** * Freshness deadlines and the delta outbox

    Models [include/protocoll/reliability/freshness.h] and
    [src/reliability/freshness.cpp]. *)
From S2P Require Import Prelude Platform.

Record FreshnessStamp := { fs_created_us : Z; fs_deadline_us : Z }.
Definition fs_is_fresh (s : FreshnessStamp) (now_us : Z) : bool :=
  if fs_deadline_us s =? 0 then true else u32 (now_us - fs_created_us s) <=? fs_deadline_us s.
Definition fs_remaining (s : FreshnessStamp) (now_us : Z) : Z :=
  if fs_deadline_us s =? 0 then 4294967295 else
  let age := u32 (now_us - fs_created_us s) in
  if fs_deadline_us s <=? age then 0 else u32 (fs_deadline_us s - age).

Record OutboxEntry := {
  oe_path_hash : Z; oe_crdt_type : Z; oe_reliability : Z; oe_freshness : FreshnessStamp;
  oe_data : bytes; oe_target_sub_id : Z; oe_target_conn_id : Z
}.
Definition oe_is_fresh (e : OutboxEntry) (now_us : Z) : bool := fs_is_fresh (oe_freshness e) now_us.
Record DeltaOutbox := { ob_entries : list OutboxEntry }.

Definition outbox_push (o : DeltaOutbox) (e : OutboxEntry) : DeltaOutbox :=
  {| ob_entries := ob_entries o ++ [e] |}.
Fixpoint outbox_pop_loop (l : list OutboxEntry) (now_us : Z) : list OutboxEntry * option OutboxEntry :=
  match l with
  | [] => ([], None)
  | e :: l' => if oe_is_fresh e now_us then (l', Some e) else outbox_pop_loop l' now_us
  end.
Definition outbox_pop (o : DeltaOutbox) (now_us : Z) : DeltaOutbox * option OutboxEntry :=
  let '(l, r) := outbox_pop_loop (ob_entries o) now_us in ({| ob_entries := l |}, r).
Definition outbox_gc (o : DeltaOutbox) (now_us : Z) : DeltaOutbox * nat :=
  let kept := filter (λ e, oe_is_fresh e now_us = true) (ob_entries o) in
  ({| ob_entries := kept |}, (length (ob_entries o) - length kept)%nat).

(** The backward walk: the index of the last entry of each path. *)
Fixpoint outbox_latest (l : list OutboxEntry) (n : nat) (latest : gmap Z nat) : gmap Z nat :=
  match n with
  | O => latest
  | S i =>
      match l !! i with
      | Some e => outbox_latest l i
                    (match latest !! oe_path_hash e with
                     | Some _ => latest
                     | None => <[oe_path_hash e := i]> latest end)
      | None => outbox_latest l i latest
      end
  end.
Definition outbox_coalesce (o : DeltaOutbox) : DeltaOutbox * nat :=
  let l := ob_entries o in
  if (length l <=? 1)%nat then (o, O) else
  let latest := outbox_latest l (length l) ∅ in
  let kept := snd <$> filter (λ ie, latest !! oe_path_hash ie.2 = Some ie.1)
                        (zip (seq 0 (length l)) l) in
  ({| ob_entries := kept |}, (length l - length kept)%nat).
Definition outbox_size (o : DeltaOutbox) : nat := length (ob_entries o).
Definition outbox_empty (o : DeltaOutbox) : bool := bool_decide (ob_entries o = []).

(** ** Coalescing *)
(** Reference: drop an entry when a later one has the same path. *)
Fixpoint keep_last (l : list OutboxEntry) : list OutboxEntry :=
  match l with
  | [] => []
  | e :: l' => if decide (oe_path_hash e ∈ oe_path_hash <$> l') then keep_last l' else e :: keep_last l'
  end.
(** The last index that holds a path. *)
Fixpoint last_index (l : list OutboxEntry) (ph : Z) : option nat :=
  match l with
  | [] => None
  | e :: l' =>
      match last_index l' ph with
      | Some i => Some (S i)
      | None => if oe_path_hash e =? ph then Some O else None
      end
  end.
Lemma last_index_snoc l e ph :
  last_index (l ++ [e]) ph = if oe_path_hash e =? ph then Some (length l) else last_index l ph.
Proof.
  induction l as [|x l IH]; simpl; [done|]. rewrite IH. by destruct (oe_path_hash e =? ph).
Qed.
Lemma last_index_None l ph : last_index l ph = None ↔ ph ∉ oe_path_hash <$> l.
Proof.
  induction l as [|x l IH]; csimpl; [set_solver|].
  destruct (last_index l ph) eqn:E; [|destruct (Z.eqb_spec (oe_path_hash x) ph)].
  - split; [done|]. intros Hn. exfalso. assert (Some n = None) by (apply IH; set_solver). done.
  - set_solver.
  - rewrite not_elem_of_cons. split; [intros _; split; [done|by apply IH]|done].
Qed.
Lemma outbox_latest_spec l n m ph :
  (n ≤ length l)%nat →
  outbox_latest l n m !! ph =
    match m !! ph with Some i => Some i | None => last_index (take n l) ph end.
Proof.
  revert m. induction n as [|n IH]; intros m Hn; [rewrite take_0; cbn; by destruct (m !! ph)|].
  cbn [outbox_latest]. destruct (lookup_lt_is_Some_2 l n) as [e He]; [lia|]. rewrite He.
  rewrite IH by lia. rewrite (take_S_r l n e He), last_index_snoc, length_take, Nat.min_l by lia.
  destruct (Z.eqb_spec (oe_path_hash e) ph) as [<-|Hne].
  - destruct (m !! oe_path_hash e) eqn:E; [by rewrite E|by rewrite lookup_insert_eq].
  - destruct (m !! oe_path_hash e); [done|]. by rewrite lookup_insert_ne.
Qed.
Lemma keep_last_filter l k :
  snd <$> filter (λ ie : nat * OutboxEntry,
            (Nat.add k <$> last_index l (oe_path_hash ie.2)) = Some ie.1)
            (zip (seq k (length l)) l) = keep_last l.
Proof.
  revert k. induction l as [|e l IH]; intros k; [done|]. cbn [length seq zip_with keep_last].
  assert (filter (λ ie : nat * OutboxEntry,
      (Nat.add k <$> last_index (e :: l) (oe_path_hash ie.2)) = Some ie.1)
      (zip (seq (S k) (length l)) l) =
    filter (λ ie : nat * OutboxEntry,
      (Nat.add (S k) <$> last_index l (oe_path_hash ie.2)) = Some ie.1)
      (zip (seq (S k) (length l)) l)) as Htl.
  { apply list_filter_iff'. apply Forall_forall. intros [i x] Hx%elem_of_zip_r. cbn.
    destruct (last_index l (oe_path_hash x)) as [j|] eqn:E.
    - cbn. split; intros [=]; f_equal; lia.
    - apply last_index_None in E. destruct E. by apply list_elem_of_fmap_2. }
  rewrite filter_cons, Htl. cbn [snd fst last_index].
  destruct (last_index l (oe_path_hash e)) as [j|] eqn:E.
  - rewrite decide_False by (cbn; intros [=]; lia). rewrite IH, decide_True; [done|].
    apply dec_stable. intros Hn. apply last_index_None in Hn. congruence.
  - rewrite Z.eqb_refl. cbn [fmap option_fmap option_map]. rewrite decide_True by (f_equal; lia).
    rewrite fmap_cons, IH, decide_False; [done|]. by apply last_index_None.
Qed.

Lemma outbox_pop_loop_spec l now :
  (outbox_pop_loop l now).2 = head (filter (λ e, oe_is_fresh e now = true) l) ∧
  filter (λ e, oe_is_fresh e now = true) (outbox_pop_loop l now).1 =
    tail (filter (λ e, oe_is_fresh e now = true) l) ∧
  (outbox_pop_loop l now).1 `suffix_of` l.
Proof.
  induction l as [|e l (IH1 & IH2 & IH3)]; [done|]. cbn [outbox_pop_loop]. rewrite filter_cons.
  destruct (oe_is_fresh e now) eqn:E.
  - rewrite decide_True by done. split_and!; [done|done|]. by apply suffix_cons_r.
  - rewrite decide_False by done. split_and!; [done|done|]. by apply suffix_cons_r.
Qed.

(** ** The claims *)

(** the outbox delivers fresh deltas only, oldest first: [pop] returns the
    first fresh entry, skipping exactly the stale ones before it, and nothing
    when all are stale; [gc] keeps the fresh entries in order; [coalesce] keeps
    exactly the last entry of every path, in order; both return the number of
    entries dropped. *)
Theorem outbox_fresh_and_latest (o : DeltaOutbox) (now : Z) :
  let fresh := filter (λ e, oe_is_fresh e now = true) (ob_entries o) in
  (let '(o', r) := outbox_pop o now in
   r = head fresh ∧ filter (λ e, oe_is_fresh e now = true) (ob_entries o') = tail fresh ∧
   ob_entries o' `suffix_of` ob_entries o) ∧
  (let '(o', n) := outbox_gc o now in
   ob_entries o' = fresh ∧ (n + length (ob_entries o') = length (ob_entries o))%nat) ∧
  (let '(o', n) := outbox_coalesce o in
   ob_entries o' = keep_last (ob_entries o) ∧
   (n + length (ob_entries o') = length (ob_entries o))%nat).
Proof.
  intros fresh. split_and!.
  - unfold outbox_pop. pose proof (outbox_pop_loop_spec (ob_entries o) now) as H.
    by destruct (outbox_pop_loop (ob_entries o) now) as [l r].
  - cbn. split; [done|]. pose proof (length_filter (λ e, oe_is_fresh e now = true) (ob_entries o)). lia.
  - assert (∀ l, (length (keep_last l) ≤ length l)%nat) as Hle.
    { induction l as [|e l IH]; [done|]. cbn [keep_last]. destruct (decide _); cbn [length]; lia. }
    unfold outbox_coalesce. destruct (Nat.leb_spec (length (ob_entries o)) 1) as [H1|H1].
    { destruct o as [[|e [|e' l]]]; cbn in *; try lia; done. }
    assert (snd <$> filter (λ ie : nat * OutboxEntry,
        outbox_latest (ob_entries o) (length (ob_entries o)) ∅ !! oe_path_hash ie.2 = Some ie.1)
        (zip (seq 0 (length (ob_entries o))) (ob_entries o)) = keep_last (ob_entries o)) as ->.
    { rewrite <-(keep_last_filter (ob_entries o) 0). f_equal. apply list_filter_iff'.
      apply Forall_forall. intros [i e] _. rewrite outbox_latest_spec, lookup_empty, firstn_all by done.
      cbn. by destruct (last_index _ _). }
    cbn [ob_entries]. split; [done|]. specialize (Hle (ob_entries o)). lia.
Qed.

(** a delta with a deadline is fresh exactly while its age, measured
    modulo 2^32 microseconds, is at most the deadline; the remaining time is
    then deadline minus age, and zero once the age has reached it; without a
    deadline it is always fresh. *)
Theorem freshness_deadline (created deadline age : Z) :
  is_u32 created → is_u32 deadline → is_u32 age →
  let s := {| fs_created_us := created; fs_deadline_us := deadline |} in
  let now := u32 (created + age) in
  (fs_is_fresh s now = true ↔ deadline = 0 ∨ age ≤ deadline) ∧
  fs_remaining s now = if deadline =? 0 then 2 ^ 32 - 1 else Z.max 0 (deadline - age).
Proof.
  intros Hc Hd Ha s now. unfold fs_is_fresh, fs_remaining, s, now. cbn [fs_created_us fs_deadline_us].
  assert (u32 (u32 (created + age) - created) = age) as -> by ulia.
  destruct (Z.eqb_spec deadline 0) as [->|Hne].
  - split; [|done]. naive_solver.
  - split; [rewrite Z.leb_le; lia|]. destruct (Z.leb_spec deadline age); [lia|].
    rewrite wrap_id by ulia. lia.
Qed.
Lemma freshness_deadline_witness :
  let s := {| fs_created_us := 4294967290; fs_deadline_us := 100 |} in
  (fs_is_fresh s (u32 (4294967290 + 50)) = true ↔ 100 = 0 ∨ 50 ≤ 100) ∧
  fs_remaining s (u32 (4294967290 + 50)) = 50.
Proof. apply (freshness_deadline 4294967290 100 50); by_decide. Defined.
