(* ===== verification/Transport.v ===== *)
(** * Transports

    Models [include/protocoll/transport/transport.h] (endpoints and the abstract
    [Transport] interface, here the class [Transport]),
    [src/transport/loopback_transport.cpp] (the in-process bus with one FIFO queue
    per endpoint key, shared by several transports and several threads) and
    [src/transport/external_transport.cpp] (the two bridge queues a browser host
    fills and drains).  The bus is used under its mutex, so an execution of
    several threads is an interleaving of the whole operations: [bus_step] is that
    step relation, and a blocked [receive] is a step that is not enabled yet.  The
    other transports have files of their own. *)
From S2P Require Import Prelude.

(** ** transport.h *)
Record Endpoint := { ep_address : bytes; ep_port : Z }.
#[global] Instance Endpoint_eq_dec : EqDecision Endpoint.
Proof. solve_decision. Defined.
Definition Endpoint_eqb (a b : Endpoint) : bool :=
  bool_decide (ep_address a = ep_address b) && (ep_port a =? ep_port b).
Definition Endpoint_default : Endpoint := {| ep_address := []; ep_port := 0 |}.

(** [inet_pton] and [inet_ntop] of the operating system for [AF_INET]: between the
    text of an address and its four bytes in network order. *)
Class Inet := {
  inet_pton : bytes → option bytes;
  inet_ntop : bytes → bytes;
  pton_spec : ∀ s a, inet_pton s = Some a → length a = 4%nat ∧ wf_bytes a;
  pton_ntop : ∀ a, length a = 4%nat → wf_bytes a → inet_pton (inet_ntop a) = Some a }.
(** For the examples an address is written as its four bytes. *)
Definition toy_pton (s : bytes) : option bytes :=
  if bool_decide (length s = 4%nat ∧ wf_bytes s) then Some s else None.
#[local, refine] Instance toy_inet : Inet := {| inet_pton := toy_pton; inet_ntop a := a |}.
Proof.
  - intros s a. unfold toy_pton. case_bool_decide as Hs; intros [= <-]. done.
  - intros a Hl Hw. unfold toy_pton. by rewrite bool_decide_eq_true_2.
Defined.

(** What the peer needs of a transport: [send_to] returns the byte count or -1;
    [recv_from] yields at most [buf_len] bytes and the sender, or nothing. *)
Class Transport (T : Type) := {
  t_send_to : T → bytes → Endpoint → T * Z;
  t_recv_from : T → nat → Z → T * option (bytes * Endpoint);
  t_ok : T → Prop; (* what waits to be received is made of bytes *)
  t_send_ok : ∀ t data to, t_ok t → t_ok (t_send_to t data to).1;
  t_recv_ok : ∀ t n timeout, t_ok t → t_ok (t_recv_from t n timeout).1;
  t_recv_wf : ∀ t n timeout t' data from, t_ok t →
    t_recv_from t n timeout = (t', Some (data, from)) → (length data ≤ n)%nat ∧ wf_bytes data
}.

(** The other two methods of the interface, for what wraps or owns a transport. *)
Class Bindable (T : Type) `{!Transport T} := {
  t_bind : T → Endpoint → T * bool;
  t_bind_ok : ∀ t ep, t_ok t → t_ok (t_bind t ep).1 }.
Class Closable (T : Type) `{!Transport T} := {
  t_close : T → T;
  t_close_ok : ∀ t, t_ok t → t_ok (t_close t) }.

(** ** LoopbackBus *)
Record Packet := { pk_data : bytes; pk_from : Endpoint; pk_to : Endpoint }.
Record LoopbackBus := { lb_queues : gmap bytes (list Packet) }.
Definition lb_new : LoopbackBus := {| lb_queues := ∅ |}.

(** [std::to_string] of an unsigned number: decimal digits, most significant
    first; five digits are enough for a port. *)
Fixpoint to_string_loop (fuel : nat) (n : Z) (acc : bytes) : bytes :=
  match fuel with
  | O => acc
  | S fuel' =>
      let acc := (48 + n mod 10) :: acc in
      if n / 10 =? 0 then acc else to_string_loop fuel' (n / 10) acc
  end.
Definition to_string (n : Z) : bytes := to_string_loop 5 n [].

Definition COLON : Z := 58.
Definition lb_key (ep : Endpoint) : bytes := ep_address ep ++ COLON :: to_string (ep_port ep).

Definition lb_queue (b : LoopbackBus) (k : bytes) : list Packet := default [] (lb_queues b !! k).
Definition lb_deliver (b : LoopbackBus) (pkt : Packet) : LoopbackBus :=
  let k := lb_key (pk_to pkt) in
  {| lb_queues := <[k := lb_queue b k ++ [pkt]]> (lb_queues b) |}.

(** The wait of [receive]: [RBlocked] is a thread that waits on the condition
    variable, either for ever or until its timeout. *)
Inductive Received := RPacket (p : Packet) | RFalse | RBlocked.
Definition lb_receive (b : LoopbackBus) (for_endpoint : Endpoint) (timeout_ms : Z)
    : LoopbackBus * Received :=
  let k := lb_key for_endpoint in
  match lb_queue b k with
  | [] => ({| lb_queues := <[k := []]> (lb_queues b) |},
           if timeout_ms =? 0 then RFalse else RBlocked)
  | p :: rest => ({| lb_queues := <[k := rest]> (lb_queues b) |}, RPacket p)
  end.
Definition lb_remove_endpoint (b : LoopbackBus) (ep : Endpoint) : LoopbackBus :=
  {| lb_queues := delete (lb_key ep) (lb_queues b) |}.

(** ** LoopbackTransport: its own fields, the bus being shared *)
Record LoopbackTransport := { lt_local : Endpoint; lt_bound : bool }.
Definition lt_new : LoopbackTransport := {| lt_local := Endpoint_default; lt_bound := false |}.
Definition lt_bind (t : LoopbackTransport) (local : Endpoint) : LoopbackTransport * bool :=
  ({| lt_local := local; lt_bound := true |}, true).
Definition lt_close (t : LoopbackTransport) (b : LoopbackBus) : LoopbackTransport * LoopbackBus :=
  if lt_bound t
  then ({| lt_local := lt_local t; lt_bound := false |}, lb_remove_endpoint b (lt_local t))
  else (t, b).
Definition lt_send_to (t : LoopbackTransport) (b : LoopbackBus) (data : bytes) (remote : Endpoint)
    : LoopbackBus * Z :=
  if negb (lt_bound t) then (b, -1) else
  (lb_deliver b {| pk_data := data; pk_from := lt_local t; pk_to := remote |},
   i32 (Z.of_nat (length data))).
(** The bytes copied into a buffer of [buf_len] bytes; [inr] is a blocked call. *)
Definition lt_recv_from (t : LoopbackTransport) (b : LoopbackBus) (buf_len : nat) (timeout_ms : Z)
    : LoopbackBus * (option (bytes * Endpoint) + unit) :=
  if negb (lt_bound t) then (b, inl None) else
  let '(b', r) := lb_receive b (lt_local t) timeout_ms in
  match r with
  | RFalse => (b', inl None)
  | RBlocked => (b', inr tt)
  | RPacket pkt =>
      let copy_len := Nat.min buf_len (length (pk_data pkt)) in
      (b', inl (Some (take copy_len (pk_data pkt), pk_from pkt)))
  end.

(** ** Interleavings of bus operations *)
Inductive bus_event :=
  | BDeliver (p : Packet) | BReceive (ep : Endpoint) (r : option Packet) | BRemove (ep : Endpoint).
#[global] Instance Packet_eq_dec : EqDecision Packet.
Proof. solve_decision. Defined.
#[global] Instance bus_event_eq_dec : EqDecision bus_event.
Proof. solve_decision. Defined.
Inductive bus_step : LoopbackBus → bus_event → LoopbackBus → Prop :=
  | step_deliver b p : bus_step b (BDeliver p) (lb_deliver b p)
  | step_receive b ep timeout p b' :
      lb_receive b ep timeout = (b', RPacket p) → bus_step b (BReceive ep (Some p)) b'
  | step_receive_none b ep b' :
      lb_receive b ep 0 = (b', RFalse) → bus_step b (BReceive ep None) b'
  | step_receive_timeout b ep timeout b' :
      0 < timeout → lb_receive b ep timeout = (b', RBlocked) → bus_step b (BReceive ep None) b'
  | step_remove b ep : bus_step b (BRemove ep) (lb_remove_endpoint b ep).
(** Executions from an empty bus, with the trace of what happened. *)
Inductive bus_run : list bus_event → LoopbackBus → Prop :=
  | run_nil : bus_run [] lb_new
  | run_snoc tr b e b' : bus_run tr b → bus_step b e b' → bus_run (tr ++ [e]) b'.

Definition ev_delivered (k : bytes) (e : bus_event) : list Packet :=
  match e with BDeliver p => if decide (lb_key (pk_to p) = k) then [p] else [] | _ => [] end.
Definition ev_received (k : bytes) (e : bus_event) : list Packet :=
  match e with
  | BReceive ep (Some p) => if decide (lb_key ep = k) then [p] else []
  | _ => []
  end.
Definition ev_removes (k : bytes) (e : bus_event) : Prop :=
  match e with BRemove ep => lb_key ep = k | _ => False end.

(** ** ExternalTransport *)
Record ExtPacket := { xp_data : bytes; xp_endpoint : Endpoint }.
Record ExternalTransport := {
  xt_local : Endpoint; xt_bound : bool;
  xt_recv_queue : list ExtPacket; xt_send_queue : list ExtPacket }.
Definition xt_new : ExternalTransport :=
  {| xt_local := Endpoint_default; xt_bound := false; xt_recv_queue := []; xt_send_queue := [] |}.
Definition xt_bind (t : ExternalTransport) (local : Endpoint) : ExternalTransport * bool :=
  ({| xt_local := local; xt_bound := true; xt_recv_queue := xt_recv_queue t;
      xt_send_queue := xt_send_queue t |}, true).
Definition xt_close (t : ExternalTransport) : ExternalTransport :=
  {| xt_local := xt_local t; xt_bound := false; xt_recv_queue := []; xt_send_queue := [] |}.
Definition xt_with_queues (t : ExternalTransport) (r s : list ExtPacket) : ExternalTransport :=
  {| xt_local := xt_local t; xt_bound := xt_bound t; xt_recv_queue := r; xt_send_queue := s |}.
(** [data] is [None] for a null pointer. *)
Definition xt_send_to (t : ExternalTransport) (data : option bytes) (remote : Endpoint)
    : ExternalTransport * Z :=
  match data with
  | Some data =>
      if negb (xt_bound t) || bool_decide (length data = O) then (t, -1) else
      (xt_with_queues t (xt_recv_queue t)
         (xt_send_queue t ++ [{| xp_data := data; xp_endpoint := remote |}]),
       i32 (Z.of_nat (length data)))
  | None => (t, -1)
  end.
Definition xt_recv_from (t : ExternalTransport) (buf_len : nat) (timeout_ms : Z)
    : ExternalTransport * option (bytes * Endpoint) :=
  if negb (xt_bound t) then (t, None) else
  match xt_recv_queue t with
  | [] => (t, None)
  | pkt :: rest =>
      let copy_len := Nat.min buf_len (length (xp_data pkt)) in
      (xt_with_queues t rest (xt_send_queue t), Some (take copy_len (xp_data pkt), xp_endpoint pkt))
  end.
Definition xt_push_recv (t : ExternalTransport) (data : bytes) (from : Endpoint) : ExternalTransport :=
  xt_with_queues t (xt_recv_queue t ++ [{| xp_data := data; xp_endpoint := from |}]) (xt_send_queue t).
Definition xt_pop_send (t : ExternalTransport) : ExternalTransport * option ExtPacket :=
  match xt_send_queue t with
  | [] => (t, None)
  | p :: rest => (xt_with_queues t (xt_recv_queue t) rest, Some p)
  end.
Definition xt_send_queue_size (t : ExternalTransport) : nat := length (xt_send_queue t).
Definition xt_recv_queue_size (t : ExternalTransport) : nat := length (xt_recv_queue t).

#[global, refine] Instance ExternalTransport_Transport : Transport ExternalTransport := {|
  t_send_to t data remote := xt_send_to t (Some data) remote;
  t_recv_from := xt_recv_from;
  t_ok t := Forall (λ p, wf_bytes (xp_data p)) (xt_recv_queue t)
|}.
Proof.
  - intros t data to Ht. unfold xt_send_to. by case_match.
  - intros t n timeout Ht. unfold xt_recv_from. destruct (negb (xt_bound t)); [done|].
    destruct (xt_recv_queue t) eqn:E; simpl; [by rewrite E|]. by apply Forall_cons in Ht as [_ ?].
  - intros t n timeout t' data from Ht. unfold xt_recv_from.
    destruct (negb (xt_bound t)); [done|]. destruct (xt_recv_queue t); [done|].
    apply Forall_cons in Ht as [Hp _]. intros [= _ <- _]. rewrite length_take.
    split; [lia|by apply Forall_take].
Defined.

#[global, refine] Instance ExternalTransport_Bindable : Bindable ExternalTransport := {| t_bind := xt_bind |}.
Proof. done. Defined.
#[global, refine] Instance ExternalTransport_Closable : Closable ExternalTransport := {| t_close := xt_close |}.
Proof. intros; constructor. Defined.

(** ** A loopback transport together with the bus it refers to

    What a peer holds: the transport and, behind the shared pointer, the bus.  A buffer
    holds bytes; a receive that waits in vain answers nothing when its timeout has
    passed. *)
Record LoopbackPort := { lp_transport : LoopbackTransport; lp_bus : LoopbackBus }.
Definition bus_ok (b : LoopbackBus) : Prop :=
  map_Forall (λ _ q, Forall (λ p, wf_bytes (pk_data p)) q) (lb_queues b).

Lemma bus_queue_ok b k : bus_ok b → Forall (λ p, wf_bytes (pk_data p)) (lb_queue b k).
Proof. intros Hb. unfold lb_queue. destruct (lb_queues b !! k) eqn:E; [exact (Hb k _ E)|constructor]. Qed.
Lemma u8_wf (data : bytes) : wf_bytes (u8 <$> data).
Proof. apply Forall_fmap, Forall_true. intros z. by apply wrap_is_u. Qed.
#[global, refine] Instance LoopbackPort_Transport : Transport LoopbackPort := {|
  t_send_to x data to :=
    let '(b, n) := lt_send_to (lp_transport x) (lp_bus x) (u8 <$> data) to in
    ({| lp_transport := lp_transport x; lp_bus := b |}, n);
  t_recv_from x n timeout :=
    let '(b, r) := lt_recv_from (lp_transport x) (lp_bus x) n timeout in
    ({| lp_transport := lp_transport x; lp_bus := b |}, match r with inl r => r | inr _ => None end);
  t_ok x := bus_ok (lp_bus x) |}.
Proof.
  - intros [t b] data to Hb. simpl in *. unfold lt_send_to. destruct (negb _); [done|]. simpl.
    apply map_Forall_insert_2; [|done]. apply Forall_app. split; [by apply bus_queue_ok|].
    apply Forall_singleton. apply u8_wf.
  - intros [t b] n timeout Hb. simpl in *. unfold lt_recv_from, lb_receive. destruct (negb _); [done|].
    pose proof (bus_queue_ok b (lb_key (lt_local t)) Hb) as Hq.
    destruct (lb_queue b _) as [|p rest]; [destruct (timeout =? 0)|]; simpl; apply map_Forall_insert_2; try done.
    by apply Forall_cons in Hq as [_ ?].
  - intros [t b] n timeout x' data from Hb. simpl in *. unfold lt_recv_from, lb_receive. destruct (negb _); [done|].
    pose proof (bus_queue_ok b (lb_key (lt_local t)) Hb) as Hq.
    destruct (lb_queue b _) as [|p rest]; [by destruct (timeout =? 0)|].
    apply Forall_cons in Hq as [Hp _]. intros [= _ <- _]. rewrite length_take.
    split; [lia|by apply Forall_take].
Defined.

(** ** The queue key of an endpoint is unambiguous *)
Lemma to_string_loop_app fuel n acc :
  to_string_loop fuel n acc = to_string_loop fuel n [] ++ acc.
Proof.
  revert n acc; induction fuel as [|fuel IH]; intros n acc; simpl; [done|].
  destruct (n / 10 =? 0); [done|]. rewrite IH, (IH _ [_]), <-app_assoc. done.
Qed.
Lemma to_string_no_colon fuel n acc : COLON ∉ acc → COLON ∉ to_string_loop fuel n acc.
Proof.
  revert n acc; induction fuel as [|fuel IH]; intros n acc Ha; simpl; [done|].
  assert (COLON ∉ (48 + n mod 10) :: acc).
  { apply not_elem_of_cons. split; [|done]. unfold COLON. Z.div_mod_to_equations. lia. }
  case_match; [done|]. by apply IH.
Qed.
Lemma singleton_snoc {A} (x y : A) l : [x] = l ++ [y] → l = [] ∧ x = y.
Proof. destruct l as [|z [|? l]]; intros E; by simplify_eq/=. Qed.
Lemma to_string_inj_fuel fuel n m :
  0 ≤ n < 10 ^ Z.of_nat fuel → 0 ≤ m < 10 ^ Z.of_nat fuel →
  to_string_loop fuel n [] = to_string_loop fuel m [] → n = m.
Proof.
  revert n m; induction fuel as [|fuel IH]; intros n m Hn Hm.
  { simpl in *. lia. }
  rewrite Nat2Z.inj_succ, Z.pow_succ_r in Hn, Hm by lia.
  cbn [to_string_loop]. intros E.
  assert (∀ x, to_string_loop fuel x [] = [] → fuel = O) as Hnil.
  { intros x. destruct fuel; [done|]. cbn [to_string_loop]. destruct (x / 10 =? 0); [discriminate|].
    rewrite to_string_loop_app. by intros [_ ?]%app_nil. }
  assert (n / 10 = m / 10 ∧ 48 + n mod 10 = 48 + m mod 10) as [? ?].
  { destruct (Z.eqb_spec (n / 10) 0) as [Hn0|Hn0], (Z.eqb_spec (m / 10) 0) as [Hm0|Hm0].
    - injection E. lia.
    - rewrite to_string_loop_app in E. apply singleton_snoc in E as [E1 E2]. apply Hnil in E1. subst fuel. simpl in *.
      exfalso. apply Hm0. Z.div_mod_to_equations. lia.
    - rewrite to_string_loop_app in E. symmetry in E. apply singleton_snoc in E as [E1 E2].
      apply Hnil in E1. subst fuel. simpl in *. exfalso. apply Hn0. Z.div_mod_to_equations. lia.
    - rewrite to_string_loop_app, (to_string_loop_app _ (m / 10)) in E.
      apply app_inj_2 in E as [E1 E2]; [|done]. injection E2 as E2. split; [|done].
      apply IH; [..|done]; Z.div_mod_to_equations; lia. }
  Z.div_mod_to_equations. lia.
Qed.

(** The last separator of a string determines the two parts around it. *)
Lemma last_sep_inj (a b c d : bytes) (x : Z) :
  x ∉ b → x ∉ d → a ++ x :: b = c ++ x :: d → a = c ∧ b = d.
Proof.
  intros Hb Hd E. apply app_eq_inv in E as [(k & Hk1 & Hk2)|(k & Hk1 & Hk2)];
    destruct k as [|y k]; simplify_eq/=; rewrite ?app_nil_r; try done; set_solver.
Qed.
Lemma lb_key_inj a b : is_u16 (ep_port a) → is_u16 (ep_port b) → lb_key a = lb_key b → a = b.
Proof.
  intros Ha Hb E. unfold lb_key in E.
  apply last_sep_inj in E as [E1 E2]; [|apply to_string_no_colon, not_elem_of_nil..].
  apply to_string_inj_fuel in E2; [|unfold is_u16, is_u in *; simpl; lia..].
  destruct a, b; simpl in *; by subst.
Qed.

(** ** What one bus operation does to the queues *)
Lemma lb_queue_insert b k k' q :
  lb_queue {| lb_queues := <[k := q]> (lb_queues b) |} k' = if decide (k = k') then q else lb_queue b k'.
Proof. unfold lb_queue; simpl. by rewrite lookup_insert; case_decide. Qed.

Lemma bus_step_queue b e b' k :
  bus_step b e b' →
  (ev_removes k e ∧ lb_queue b' k = [])
  ∨ lb_queue b k ++ ev_delivered k e = ev_received k e ++ lb_queue b' k.
Proof.
  intros Hs; destruct Hs as [b p|b ep t p b' Hr|b ep b' Hr|b ep t b' Ht Hr|b ep]; simpl.
  - right. unfold lb_deliver. rewrite lb_queue_insert. case_decide; subst; [done|].
    by rewrite app_nil_r.
  - right. revert Hr. unfold lb_receive. destruct (lb_queue b (lb_key ep)) as [|q rest] eqn:E.
    { by case_match. }
    intros [= <- <-]. rewrite lb_queue_insert, app_nil_r. case_decide; subst; [|done].
    by rewrite E.
  - right. revert Hr. unfold lb_receive. destruct (lb_queue b (lb_key ep)) as [|q rest] eqn:E; [|done].
    intros [= <-]. rewrite lb_queue_insert, app_nil_r. case_decide; by subst.
  - right. revert Hr. unfold lb_receive. destruct (lb_queue b (lb_key ep)) as [|q rest] eqn:E; [|done].
    intros [= <- _]. rewrite lb_queue_insert, app_nil_r. case_decide; by subst.
  - unfold lb_queue, lb_remove_endpoint; simpl. destruct (decide (lb_key ep = k)) as [->|].
    + left. split; [done|]. by rewrite lookup_delete_eq.
    + right. by rewrite lookup_delete_ne, app_nil_r.
Qed.

(** The same traces read with endpoints instead of queue keys. *)
Definition sent_to (ep : Endpoint) (tr : list bus_event) : list Packet :=
  omap (λ e, match e with
             | BDeliver p => if decide (pk_to p = ep) then Some p else None
             | _ => None end) tr.
Definition got_by (ep : Endpoint) (tr : list bus_event) : list Packet :=
  omap (λ e, match e with
             | BReceive q r => if decide (q = ep) then r else None
             | _ => None end) tr.
Definition ev_ports_ok (e : bus_event) : Prop :=
  match e with
  | BDeliver p => is_u16 (ep_port (pk_to p))
  | BReceive q _ | BRemove q => is_u16 (ep_port q)
  end.

Lemma lb_key_eq_iff a b :
  is_u16 (ep_port a) → is_u16 (ep_port b) → lb_key a = lb_key b ↔ a = b.
Proof. intros Ha Hb. split; [by apply lb_key_inj|by intros ->]. Qed.
(** The events after the last removal of the endpoint. *)
Definition since_removal (ep : Endpoint) (tr : list bus_event) : list bus_event :=
  foldl (λ part e, if decide (e = BRemove ep) then [] else part ++ [e]) [] tr.
Lemma since_removal_snoc ep tr e :
  since_removal ep (tr ++ [e]) = if decide (e = BRemove ep) then [] else since_removal ep tr ++ [e].
Proof. unfold since_removal. by rewrite foldl_app. Qed.
Lemma since_never_removed ep tr : BRemove ep ∉ tr → since_removal ep tr = tr.
Proof.
  induction tr as [|e tr IH] using rev_ind; [done|]. intros Hn. rewrite since_removal_snoc, decide_False by set_solver.
  by rewrite IH by set_solver.
Qed.
(** One event, read with the endpoint instead of the queue key. *)
Definition ev_sent (ep : Endpoint) (e : bus_event) : list Packet := sent_to ep [e].
Definition ev_got (ep : Endpoint) (e : bus_event) : list Packet := got_by ep [e].
Lemma ev_delivered_sent ep e : is_u16 (ep_port ep) → ev_ports_ok e → ev_delivered (lb_key ep) e = ev_sent ep e.
Proof.
  intros Hep He. unfold ev_sent, sent_to. destruct e; simpl in *; [|done..].
  repeat case_decide; try done; exfalso; rewrite lb_key_eq_iff in *; congruence.
Qed.
Lemma ev_received_got ep e : is_u16 (ep_port ep) → ev_ports_ok e → ev_received (lb_key ep) e = ev_got ep e.
Proof.
  intros Hep He. unfold ev_got, got_by. destruct e as [|q r|]; simpl in *; [done| |done].
  destruct r; repeat case_decide; try done; exfalso; rewrite lb_key_eq_iff in *; congruence.
Qed.
Lemma sent_to_snoc ep tr e : sent_to ep (tr ++ [e]) = sent_to ep tr ++ ev_sent ep e.
Proof. unfold ev_sent, sent_to. by rewrite omap_app. Qed.
Lemma got_by_snoc ep tr e : got_by ep (tr ++ [e]) = got_by ep tr ++ ev_got ep e.
Proof. unfold ev_got, got_by. by rewrite omap_app. Qed.
(** One event and the queue of an endpoint. *)
Lemma step_queue b e b' ep :
  bus_step b e b' → is_u16 (ep_port ep) → ev_ports_ok e →
  if decide (e = BRemove ep) then lb_queue b' (lb_key ep) = []
  else lb_queue b (lb_key ep) ++ ev_sent ep e = ev_got ep e ++ lb_queue b' (lb_key ep).
Proof.
  intros Hs Hep He. pose proof (bus_step_queue b e b' (lb_key ep) Hs) as Hq.
  rewrite ev_delivered_sent, ev_received_got in Hq by done.
  case_decide as Hr; [subst e|]; (destruct Hq as [[Hre Hq]|Hq]; [|try done]).
  - done.
  - inversion Hs; subst. unfold lb_queue, lb_remove_endpoint; simpl. by rewrite lookup_delete_eq.
  - destruct e as [| |q]; simpl in *; try done. apply lb_key_inj in Hre; [by subst|done..].
Qed.
Lemma bus_run_queue tr b ep :
  bus_run tr b → is_u16 (ep_port ep) → Forall ev_ports_ok tr →
  sent_to ep (since_removal ep tr) = got_by ep (since_removal ep tr) ++ lb_queue b (lb_key ep) ∧
  got_by ep tr ++ lb_queue b (lb_key ep) `sublist_of` sent_to ep tr.
Proof.
  induction 1 as [|tr b e b' Hr IH Hs]; intros Hep Hf; [done|].
  apply Forall_app in Hf as [Hf He]. apply Forall_cons in He as [He _]. destruct (IH Hep Hf) as [Hd Hsub].
  pose proof (step_queue b e b' ep Hs Hep He) as Hq.
  rewrite since_removal_snoc, got_by_snoc, sent_to_snoc. case_decide as Hrm.
  - rewrite Hq, app_nil_r. subst e. split; [done|]. cbn. rewrite !app_nil_r.
    etrans; [|exact Hsub]. by apply sublist_inserts_r.
  - split; [by rewrite sent_to_snoc, got_by_snoc, Hd, <-!app_assoc, Hq|].
    rewrite <-app_assoc, <-Hq, app_assoc. by apply sublist_app.
Qed.

(** C24: First in, first out through the shared bus, in every interleaving of deliveries,
    receives (immediate, blocking or timed out) and removals of endpoints by any number of
    threads.  Counting from the last removal of an endpoint (from the beginning if it is
    never removed), the packets sent to it are exactly the packets its receivers got, in the
    order of sending, followed by the packets still queued: nothing is lost, duplicated or
    reordered, and nothing addressed elsewhere is received.  Over the whole run what was got
    and is queued is a subsequence of what was sent: a removal, which is what closing the
    transport does, drops the packets that wait.  A receiver has to wait only when everything
    sent to it since the last removal was already received. *)
Theorem loopback_fifo tr b ep :
  bus_run tr b → is_u16 (ep_port ep) → Forall ev_ports_ok tr →
  sent_to ep (since_removal ep tr) = got_by ep (since_removal ep tr) ++ lb_queue b (lb_key ep) ∧
  (BRemove ep ∉ tr → sent_to ep tr = got_by ep tr ++ lb_queue b (lb_key ep)) ∧
  got_by ep tr ++ lb_queue b (lb_key ep) `sublist_of` sent_to ep tr ∧
  ∀ timeout, ((lb_receive b ep timeout).2 = RBlocked ↔
    timeout ≠ 0 ∧ sent_to ep (since_removal ep tr) = got_by ep (since_removal ep tr)).
Proof.
  intros Hr Hep Hp. destruct (bus_run_queue tr b ep Hr Hep Hp) as [E Hsub].
  split; [done|]. split; [intros Hn; by rewrite (since_never_removed ep tr Hn) in E|]. split; [done|].
  intros timeout. rewrite E. unfold lb_receive.
  destruct (lb_queue b (lb_key ep)) as [|p rest]; simpl.
  - rewrite app_nil_r. destruct (Z.eqb_spec timeout 0); naive_solver.
  - split; [done|]. intros [_ Hc]. exfalso. apply (f_equal length) in Hc.
    rewrite length_app in Hc. simpl in Hc. lia.
Qed.

(** ** A packet crosses the bus *)
Definition ep_a : Endpoint := {| ep_address := [97]; ep_port := 9000 |}.
Definition ep_b : Endpoint := {| ep_address := [98]; ep_port := 9001 |}.
Definition pkt_ab (d : Z) : Packet := {| pk_data := [d]; pk_from := ep_a; pk_to := ep_b |}.
(** A packet waits when the endpoint is removed; of the two sent later one is received. *)
Definition fifo_trace : list bus_event :=
  [BDeliver (pkt_ab 0); BRemove ep_b; BDeliver (pkt_ab 1); BDeliver (pkt_ab 2); BReceive ep_b (Some (pkt_ab 1))].
Lemma loopback_fifo_witness :
  sent_to ep_b fifo_trace = [pkt_ab 0; pkt_ab 1; pkt_ab 2] ∧
  sent_to ep_b (since_removal ep_b fifo_trace) = [pkt_ab 1] ++ [pkt_ab 2].
Proof.
  split; [reflexivity|].
  assert (bus_run ([] ++ [BDeliver (pkt_ab 0)] ++ [BRemove ep_b] ++ [BDeliver (pkt_ab 1)] ++ [BDeliver (pkt_ab 2)] ++
                   [BReceive ep_b (Some (pkt_ab 1))])
            (lb_receive (lb_deliver (lb_deliver (lb_remove_endpoint (lb_deliver lb_new (pkt_ab 0)) ep_b) (pkt_ab 1))
                           (pkt_ab 2)) ep_b 0).1) as Hr.
  { rewrite !app_assoc. repeat eapply run_snoc;
      [apply run_nil|apply step_deliver|apply step_remove|apply step_deliver|apply step_deliver|].
    eapply (step_receive _ _ 0). reflexivity. }
  refine (proj1 (loopback_fifo _ _ ep_b Hr _ _)).
  - by_decide.
  - repeat constructor; by_decide.
Defined.

(** ** Bridge queues of the external transport *)
Fixpoint xt_send_all (t : ExternalTransport) (msgs : list (bytes * Endpoint)) : ExternalTransport :=
  match msgs with
  | [] => t
  | (d, ep) :: msgs' => xt_send_all (xt_send_to t (Some d) ep).1 msgs'
  end.
Fixpoint xt_drain (n : nat) (t : ExternalTransport) : ExternalTransport * list ExtPacket :=
  match n with
  | O => (t, [])
  | S n' =>
      match xt_pop_send t with
      | (t', Some p) => let '(t'', ps) := xt_drain n' t' in (t'', p :: ps)
      | (t', None) => (t', [])
      end
  end.
Lemma xt_send_all_queue t msgs :
  xt_bound t = true → Forall (λ m, m.1 ≠ []) msgs →
  xt_send_all t msgs = xt_with_queues t (xt_recv_queue t)
    (xt_send_queue t ++ ((λ m, {| xp_data := m.1; xp_endpoint := m.2 |}) <$> msgs)).
Proof.
  intros Hb Hm. revert t Hb. induction Hm as [|[d ep] msgs Hd _ IH]; intros t Hb; simpl in *.
  { rewrite app_nil_r. by destruct t. }
  rewrite Hb, bool_decide_eq_false_2 by (destruct d; [done|discriminate]). simpl.
  rewrite IH by done. simpl. by rewrite <-app_assoc.
Qed.
Lemma xt_drain_queue t :
  xt_drain (xt_send_queue_size t) t = (xt_with_queues t (xt_recv_queue t) [], xt_send_queue t).
Proof.
  unfold xt_send_queue_size. destruct t as [l b r q]; simpl.
  revert r; induction q as [|p q IH]; intros r; [done|]. simpl. unfold xt_pop_send; simpl.
  unfold xt_with_queues in *; simpl. by rewrite IH.
Qed.
(** Whatever is sent on a bound external transport leaves through [pop_send] in
    the same order with the same destinations, after what was queued before. *)
Lemma external_bridge_fifo t msgs :
  xt_bound t = true → Forall (λ m, m.1 ≠ []) msgs →
  let t' := xt_send_all t msgs in
  (xt_drain (xt_send_queue_size t') t').2
  = xt_send_queue t ++ ((λ m, {| xp_data := m.1; xp_endpoint := m.2 |}) <$> msgs).
Proof. intros Hb Hm. simpl. rewrite xt_drain_queue. by rewrite xt_send_all_queue. Qed.
