(* ===== verification/Connection.v ===== *)
(** * Connections, handshake and the connection manager

    Models [connection_id.h] (the identifier allocator), [connection.cpp] (the
    state machine of one connection, packet numbers and the RTT estimate),
    [handshake.cpp] (the packets of the handshake and [process_packet]) and
    [connection_manager.cpp].  A read of the steady clock is an argument: [now] is
    its value in nanoseconds at the call. *)
From S2P Require Import Prelude Platform Frame Codec Transport AckTracker.

(** ** connection_id.h *)
Record ConnectionIdAllocator := { ca_next_id : Z }.
Definition ca_new : ConnectionIdAllocator := {| ca_next_id := 1 |}.
Definition ca_fetch_add (a : ConnectionIdAllocator) : ConnectionIdAllocator * Z :=
  ({| ca_next_id := u16 (ca_next_id a + 1) |}, ca_next_id a).
Definition ca_next (a : ConnectionIdAllocator) : ConnectionIdAllocator * Z :=
  let '(a, id) := ca_fetch_add a in
  if id =? 0 then ca_fetch_add a else (a, id).

(** ** connection.h / connection.cpp *)
Inductive ConnectionState := IDLE | CONNECTING | ACCEPTING | CONNECTED | CLOSING | CLOSED.
#[global] Instance ConnectionState_eq_dec : EqDecision ConnectionState.
Proof. solve_decision. Defined.
Record ConnectionConfig := {
  cc_max_frame_size : Z; cc_connect_timeout_ms : Z; cc_idle_timeout_ms : Z; cc_ping_interval_ms : Z }.
Definition cc_default : ConnectionConfig :=
  {| cc_max_frame_size := u16 (Z.of_nat MAX_PAYLOAD_SIZE); cc_connect_timeout_ms := 5000;
     cc_idle_timeout_ms := 30000; cc_ping_interval_ms := 10000 |}.

Record Connection := {
  cn_state : ConnectionState; cn_local_conn_id : Z; cn_remote_conn_id : Z; cn_remote : Endpoint;
  cn_config : ConnectionConfig; cn_send_pkt_num : Z; cn_recv_pkt_num : Z;
  cn_negotiated_max_frame : Z; cn_peer_version : Z; cn_epoch : Z; cn_srtt_us : Z }.
Definition cn_new (now : Z) : Connection :=
  {| cn_state := IDLE; cn_local_conn_id := 0; cn_remote_conn_id := 0; cn_remote := Endpoint_default;
     cn_config := cc_default; cn_send_pkt_num := 0; cn_recv_pkt_num := 0;
     cn_negotiated_max_frame := 0; cn_peer_version := 0; cn_epoch := now; cn_srtt_us := 0 |}.

(** Field updates. *)
Definition cn_set_state (c : Connection) (s : ConnectionState) : Connection :=
  {| cn_state := s; cn_local_conn_id := cn_local_conn_id c; cn_remote_conn_id := cn_remote_conn_id c;
     cn_remote := cn_remote c; cn_config := cn_config c; cn_send_pkt_num := cn_send_pkt_num c;
     cn_recv_pkt_num := cn_recv_pkt_num c; cn_negotiated_max_frame := cn_negotiated_max_frame c;
     cn_peer_version := cn_peer_version c; cn_epoch := cn_epoch c; cn_srtt_us := cn_srtt_us c |}.
Definition cn_set_peer (c : Connection) (local_id remote_id : Z) (remote : Endpoint) (epoch : Z)
    : Connection :=
  {| cn_state := cn_state c; cn_local_conn_id := local_id; cn_remote_conn_id := remote_id;
     cn_remote := remote; cn_config := cn_config c; cn_send_pkt_num := cn_send_pkt_num c;
     cn_recv_pkt_num := cn_recv_pkt_num c; cn_negotiated_max_frame := cn_negotiated_max_frame c;
     cn_peer_version := cn_peer_version c; cn_epoch := epoch; cn_srtt_us := cn_srtt_us c |}.
Definition cn_set_numbers (c : Connection) (send recv srtt : Z) : Connection :=
  {| cn_state := cn_state c; cn_local_conn_id := cn_local_conn_id c;
     cn_remote_conn_id := cn_remote_conn_id c; cn_remote := cn_remote c; cn_config := cn_config c;
     cn_send_pkt_num := send; cn_recv_pkt_num := recv;
     cn_negotiated_max_frame := cn_negotiated_max_frame c;
     cn_peer_version := cn_peer_version c; cn_epoch := cn_epoch c; cn_srtt_us := srtt |}.
Definition cn_set_negotiated (c : Connection) (frame version : Z) : Connection :=
  {| cn_state := cn_state c; cn_local_conn_id := cn_local_conn_id c;
     cn_remote_conn_id := cn_remote_conn_id c; cn_remote := cn_remote c; cn_config := cn_config c;
     cn_send_pkt_num := cn_send_pkt_num c; cn_recv_pkt_num := cn_recv_pkt_num c;
     cn_negotiated_max_frame := frame;
     cn_peer_version := version; cn_epoch := cn_epoch c; cn_srtt_us := cn_srtt_us c |}.

Definition cn_initiate (c : Connection) (now local_conn_id : Z) (remote : Endpoint)
    : Connection * bool :=
  if negb (bool_decide (cn_state c = IDLE)) then (c, false) else
  (cn_set_state (cn_set_peer c local_conn_id (cn_remote_conn_id c) remote now) CONNECTING, true).
Definition cn_accept (c : Connection) (now local_conn_id remote_conn_id : Z) (remote : Endpoint)
    : Connection * bool :=
  if negb (bool_decide (cn_state c = IDLE)) && negb (bool_decide (cn_state c = ACCEPTING))
  then (c, false) else
  (cn_set_state (cn_set_peer c local_conn_id remote_conn_id remote now) CONNECTED, true).
Definition cn_on_accept (c : Connection) (assigned_conn_id server_timestamp : Z)
    : Connection * bool :=
  if negb (bool_decide (cn_state c = CONNECTING)) then (c, false) else
  (cn_set_state (cn_set_peer c (cn_local_conn_id c) assigned_conn_id (cn_remote c) (cn_epoch c))
     CONNECTED, true).
Definition cn_on_connect (c : Connection) (peer_version peer_max_frame_size : Z)
    : Connection * bool :=
  (cn_set_state (cn_set_negotiated c
     (Z.min (cc_max_frame_size (cn_config c)) peer_max_frame_size) peer_version) ACCEPTING, true).
Definition cn_close (c : Connection) (reason : CloseReason) : Connection * bool :=
  if negb (bool_decide (cn_state c = CONNECTED)) then (c, false) else
  (cn_set_state c CLOSING, true).
Definition cn_on_close (c : Connection) (reason : CloseReason) : Connection * bool :=
  (cn_set_state c CLOSED, true).

Definition cn_next_send_packet_number (c : Connection) : Connection * Z :=
  (cn_set_numbers c (u32 (cn_send_pkt_num c + 1)) (cn_recv_pkt_num c) (cn_srtt_us c),
   cn_send_pkt_num c).
Definition cn_update_recv_packet_number (c : Connection) (pkt_num : Z) : Connection :=
  if cn_recv_pkt_num c <? pkt_num
  then cn_set_numbers c (cn_send_pkt_num c) pkt_num (cn_srtt_us c) else c.
Definition cn_elapsed_us (c : Connection) (now : Z) : Z :=
  u32 (Z.land (Z.quot (now - cn_epoch c) 1000) 4294967295).
Definition cn_update_rtt (c : Connection) (sample_us : Z) : Connection :=
  cn_set_numbers c (cn_send_pkt_num c) (cn_recv_pkt_num c)
    (if cn_srtt_us c =? 0 then sample_us
     else u32 (u32 (cn_srtt_us c * 7) + sample_us) / 8).

(** ** handshake.cpp *)
Section Handshake.
Context `{XxHash}.

(** Each builder takes the packet number, then reads the clock once or twice;
    [encoder] is a fresh [PacketEncoder] with the four header fields set. *)
Definition build_connect_packet (c : Connection) (now : Z) : res (Connection * bytes) :=
  let '(c, num) := cn_next_send_packet_number c in
  let enc := encoder PT_HANDSHAKE 0 num (cn_elapsed_us c now) in
  let cf := {| cf_magic := CONNECT_MAGIC; cf_version := PROTOCOL_VERSION;
               cf_max_frame_size := cc_max_frame_size (cn_config c) |} in
  let! enc := or_else (add_typed_frame enc FT_CONNECT cf) enc in
  let! (pkt, _) := finalize enc in
  Ok (c, pkt).
Definition build_accept_packet (c : Connection) (now now' : Z) : res (Connection * bytes) :=
  let '(c, num) := cn_next_send_packet_number c in
  let enc := encoder PT_HANDSHAKE (cn_remote_conn_id c) num (cn_elapsed_us c now) in
  let af := {| af_assigned_conn_id := cn_local_conn_id c;
               af_server_timestamp_us := cn_elapsed_us c now' |} in
  let! enc := or_else (add_typed_frame enc FT_ACCEPT af) enc in
  let! (pkt, _) := finalize enc in
  Ok (c, pkt).
Definition build_close_packet (c : Connection) (now : Z) (reason : CloseReason)
    : res (Connection * bytes) :=
  let '(c, num) := cn_next_send_packet_number c in
  let enc := encoder PT_HANDSHAKE (cn_remote_conn_id c) num (cn_elapsed_us c now) in
  let! enc := or_else (add_typed_frame enc FT_CLOSE {| clf_reason := reason |}) enc in
  let! (pkt, _) := finalize enc in
  Ok (c, pkt).
Definition build_ping_packet (c : Connection) (now now' ping_id : Z) : res (Connection * bytes) :=
  let '(c, num) := cn_next_send_packet_number c in
  let enc := encoder PT_CONTROL (cn_remote_conn_id c) num (cn_elapsed_us c now) in
  let pf := {| pf_ping_id := ping_id; pf_timestamp_us := cn_elapsed_us c now' |} in
  let! enc := or_else (add_typed_frame enc FT_PING pf) enc in
  let! (pkt, _) := finalize enc in
  Ok (c, pkt).
Definition build_pong_packet (c : Connection) (now ping_id echo_timestamp : Z)
    : res (Connection * bytes) :=
  let '(c, num) := cn_next_send_packet_number c in
  let enc := encoder PT_CONTROL (cn_remote_conn_id c) num (cn_elapsed_us c now) in
  let pf := {| pf_ping_id := ping_id; pf_timestamp_us := echo_timestamp |} in
  let! enc := or_else (add_typed_frame enc FT_PONG pf) enc in
  let! (pkt, _) := finalize enc in
  Ok (c, pkt).

Inductive HandshakeResult :=
  | CONNECT_RECEIVED | ACCEPT_RECEIVED | CLOSE_RECEIVED | PING_RECEIVED | PONG_RECEIVED
  | NOT_HANDSHAKE | INVALID.
Record HandshakeEvent := {
  he_result : HandshakeResult; he_connect : ConnectFrame; he_accept : AcceptFrame;
  he_close : CloseFrame; he_ping : PingFrame }.
(** [HandshakeEvent event{}] zero-initialises the payloads. *)
Definition he_init (r : HandshakeResult) : HandshakeEvent :=
  {| he_result := r;
     he_connect := {| cf_magic := 0; cf_version := 0; cf_max_frame_size := 0 |};
     he_accept := {| af_assigned_conn_id := 0; af_server_timestamp_us := 0 |};
     he_close := {| clf_reason := CloseReason_of_u8 0 |};
     he_ping := {| pf_ping_id := 0; pf_timestamp_us := 0 |} |}.
Definition he_set_result (e : HandshakeEvent) (r : HandshakeResult) : HandshakeEvent :=
  {| he_result := r; he_connect := he_connect e; he_accept := he_accept e; he_close := he_close e;
     he_ping := he_ping e |}.

(** The [switch] of [process_packet]: the connection and event after one frame,
    and whether the loop goes on. *)
Definition process_frame (s : Connection * HandshakeEvent) (frame : Frame)
    : res (Connection * HandshakeEvent * bool) :=
  let '(c, event) := s in
  let invalid := (c, he_set_result event INVALID, false) in
  match fh_type (fr_header frame) with
  | FT_CONNECT =>
      let! cf := res_opt (ConnectFrame_decode (fr_payload frame)) in
      match cf with
      | None => Ok invalid
      | Some cf =>
          if negb (cf_magic cf =? CONNECT_MAGIC) then Ok invalid else
          let '(c, _) := cn_on_connect c (cf_version cf) (cf_max_frame_size cf) in
          Ok (c, {| he_result := CONNECT_RECEIVED; he_connect := cf; he_accept := he_accept event;
                    he_close := he_close event; he_ping := he_ping event |}, false)
      end
  | FT_ACCEPT =>
      let! af := res_opt (AcceptFrame_decode (fr_payload frame)) in
      match af with
      | None => Ok invalid
      | Some af =>
          let '(c, _) := cn_on_accept c (af_assigned_conn_id af) (af_server_timestamp_us af) in
          Ok (c, {| he_result := ACCEPT_RECEIVED; he_connect := he_connect event; he_accept := af;
                    he_close := he_close event; he_ping := he_ping event |}, false)
      end
  | FT_CLOSE =>
      let! cf := res_opt (CloseFrame_decode (fr_payload frame)) in
      match cf with
      | None => Ok invalid
      | Some cf =>
          let '(c, _) := cn_on_close c (clf_reason cf) in
          Ok (c, {| he_result := CLOSE_RECEIVED; he_connect := he_connect event;
                    he_accept := he_accept event; he_close := cf; he_ping := he_ping event |}, false)
      end
  | FT_PING =>
      let! pf := res_opt (PingFrame_decode (fr_payload frame)) in
      match pf with
      | None => Ok invalid
      | Some pf =>
          Ok (c, {| he_result := PING_RECEIVED; he_connect := he_connect event;
                    he_accept := he_accept event; he_close := he_close event; he_ping := pf |}, false)
      end
  | FT_PONG =>
      let! pf := res_opt (PingFrame_decode (fr_payload frame)) in
      match pf with
      | None => Ok invalid
      | Some pf =>
          Ok (c, {| he_result := PONG_RECEIVED; he_connect := he_connect event;
                    he_accept := he_accept event; he_close := he_close event; he_ping := pf |}, false)
      end
  | _ => Ok (c, event, true)
  end.
Definition process_packet (c : Connection) (data : bytes) : res (Connection * HandshakeEvent) :=
  let event := he_init NOT_HANDSHAKE in
  let! (dec, ok) := parse PacketDecoder_new data in
  if negb ok then Ok (c, he_set_result event INVALID) else
  let! cks := verify_checksum dec in
  if negb cks then Ok (c, he_set_result event INVALID) else
  let c := cn_update_recv_packet_number c (ph_packet_number (pd_header dec)) in
  while_next_frame (frame_fuel dec) process_frame dec (c, event).
End Handshake.

(** ** connection_manager.h / connection_manager.cpp *)
Record ManagedConnection := {
  mc_remote_node_id : Z; mc_conn : Connection; mc_send_tracker : SendTracker;
  mc_recv_tracker : RecvTracker }.
Record ConnectionManager := { cm_conns : gmap Z ManagedConnection; cm_id_alloc : ConnectionIdAllocator }.
Definition cm_new : ConnectionManager := {| cm_conns := ∅; cm_id_alloc := ca_new |}.
Definition mc_new (now remote_node_id : Z) : ManagedConnection :=
  {| mc_remote_node_id := remote_node_id; mc_conn := cn_new now; mc_send_tracker := st_new;
     mc_recv_tracker := rt_new |}.
Definition mc_set_conn (m : ManagedConnection) (c : Connection) : ManagedConnection :=
  {| mc_remote_node_id := mc_remote_node_id m; mc_conn := c; mc_send_tracker := mc_send_tracker m;
     mc_recv_tracker := mc_recv_tracker m |}.
Definition cm_add (m : ConnectionManager) (now remote_node_id : Z)
    : ConnectionManager * option ManagedConnection :=
  match cm_conns m !! remote_node_id with
  | Some _ => (m, None)
  | None =>
      let mc := mc_new now remote_node_id in
      ({| cm_conns := <[remote_node_id := mc]> (cm_conns m); cm_id_alloc := cm_id_alloc m |}, Some mc)
  end.
Definition cm_remove (m : ConnectionManager) (remote_node_id : Z) : ConnectionManager * bool :=
  ({| cm_conns := delete remote_node_id (cm_conns m); cm_id_alloc := cm_id_alloc m |},
   bool_decide (is_Some (cm_conns m !! remote_node_id))).
Definition cm_get (m : ConnectionManager) (remote_node_id : Z) : option ManagedConnection :=
  cm_conns m !! remote_node_id.
(** A write through the pointer [get]/[add]/[primary] returned. *)
Definition cm_put (m : ConnectionManager) (id : Z) (mc : ManagedConnection) : ConnectionManager :=
  {| cm_conns := <[id := mc]> (cm_conns m); cm_id_alloc := cm_id_alloc m |}.
Definition cm_next_conn_id (m : ConnectionManager) : ConnectionManager * Z :=
  let '(a, id) := ca_next (cm_id_alloc m) in
  ({| cm_conns := cm_conns m; cm_id_alloc := a |}, id).
Definition cm_count (m : ConnectionManager) : nat := size (cm_conns m).
Section Manager.
Context `{UnorderedIter}.
Definition cm_get_by_conn_id (m : ConnectionManager) (local_conn_id : Z) : option ManagedConnection :=
  snd <$> head (filter (λ p : Z * ManagedConnection, cn_local_conn_id (mc_conn p.2) = local_conn_id)
                  (uiter (cm_conns m))).
Definition cm_has_connections (m : ConnectionManager) : bool :=
  existsb (λ p : Z * ManagedConnection, bool_decide (cn_state (mc_conn p.2) = CONNECTED))
    (uiter (cm_conns m)).
(** [primary] with its key, so that a write through it can be modelled. *)
Definition cm_primary (m : ConnectionManager) : option (Z * ManagedConnection) :=
  head (uiter (cm_conns m)).
Definition cm_connected_nodes (m : ConnectionManager) : list Z :=
  fst <$> filter (λ p : Z * ManagedConnection, cn_state (mc_conn p.2) = CONNECTED)
            (uiter (cm_conns m)).
End Manager.

(** ** Connection identifiers *)
Fixpoint ca_ids (n : nat) (a : ConnectionIdAllocator) : ConnectionIdAllocator * list Z :=
  match n with
  | O => (a, [])
  | S n' => let '(a, ids) := ca_ids n' a in let '(a', id) := ca_next a in (a', ids ++ [id])
  end.
Lemma ca_ids_state n :
  let m := Z.of_nat n mod 65535 in
  ca_next_id (ca_ids n ca_new).1 = m + 1 ∨ (m = 0 ∧ ca_next_id (ca_ids n ca_new).1 = 0).
Proof.
  induction n as [|n IH]; [by left|]. cbv zeta in *. cbn [ca_ids].
  destruct (ca_ids n ca_new) as [[nx] ids]; simpl in IH. unfold ca_next, ca_fetch_add; simpl.
  assert (Z.of_nat (S n) mod 65535 = Z.of_nat n mod 65535 + 1 ∨
          (Z.of_nat (S n) mod 65535 = 0 ∧ Z.of_nat n mod 65535 = 65534)) as Hm.
  { rewrite Nat2Z.inj_succ. Z.div_mod_to_equations. lia. }
  destruct (Z.eqb_spec nx 0); simpl; unfold wrap;
    change (2 ^ 16) with 65536; Z.div_mod_to_equations; lia.
Qed.
Lemma ca_ids_lookup n k :
  (k < n)%nat → (ca_ids n ca_new).2 !! k = Some (Z.of_nat k mod 65535 + 1).
Proof.
  assert (∀ n, length (ca_ids n ca_new).2 = n) as Hlen.
  { clear. induction n as [|n IH]; [done|]. cbn [ca_ids]. destruct (ca_ids n ca_new) as [a ids].
    destruct (ca_next a). simpl in *. rewrite length_app. simpl. lia. }
  induction n as [|n IH]; intros Hk; [lia|]. pose proof (ca_ids_state n) as Hs.
  pose proof (Z.mod_pos_bound (Z.of_nat n) 65535 ltac:(lia)) as Hmb.
  specialize (Hlen n). cbn [ca_ids]. destruct (ca_ids n ca_new) as [[nx] ids]; simpl in *.
  unfold ca_next, ca_fetch_add; simpl.
  destruct (decide (k = n)) as [->|].
  - destruct (Z.eqb_spec nx 0); simpl; rewrite lookup_app_r, Hlen, Nat.sub_diag by lia; simpl;
      f_equal; subst; [change (u16 (0 + 1)) with 1|]; lia.
  - destruct (nx =? 0); simpl; rewrite lookup_app_l by lia; apply IH; lia.
Qed.

(** Connection identifiers.  The k-th identifier the allocator hands out is
    [k mod 65535 + 1]: zero (reserved for the handshake) is never handed out, not
    even when the 16-bit counter wraps, and any 65535 consecutive identifiers are
    pairwise distinct. *)
Theorem conn_ids_unique n i j x y :
  (ca_ids n ca_new).2 !! i = Some x → (ca_ids n ca_new).2 !! j = Some y →
  x = Z.of_nat i mod 65535 + 1 ∧ x ≠ 0 ∧ is_u16 x ∧
  (i ≠ j → Z.abs (Z.of_nat i - Z.of_nat j) < 65535 → x ≠ y).
Proof.
  intros Hi Hj.
  assert (∀ k z, (ca_ids n ca_new).2 !! k = Some z → z = Z.of_nat k mod 65535 + 1) as Hk.
  { intros k z Hz. destruct (decide (k < n)%nat) as [Hlt|Hge].
    - rewrite ca_ids_lookup in Hz by done. congruence.
    - apply lookup_lt_Some in Hz. exfalso. apply Hge.
      assert (length (ca_ids n ca_new).2 = n) as <-; [|done].
      clear. induction n as [|n IH]; [done|]. cbn [ca_ids]. destruct (ca_ids n ca_new) as [a ids].
      destruct (ca_next a). simpl in *. rewrite length_app. simpl. lia. }
  rewrite (Hk _ _ Hi), (Hk _ _ Hj). split; [done|].
  unfold is_u16, is_u. change (2 ^ 16) with 65536.
  split_and!; [Z.div_mod_to_equations; lia..|]. intros. Z.div_mod_to_equations. lia.
Qed.
Lemma conn_ids_unique_witness : (ca_ids 3 ca_new).2 = [1; 2; 3] ∧ (2 ≠ 3).
Proof.
  split; [reflexivity|].
  refine (proj2 (proj2 (proj2 (conn_ids_unique 3 1 2 2 3 _ _))) _ _);
    [reflexivity|reflexivity|lia|lia].
Defined.

(** ** The state machine under any sequence of calls *)
Inductive ConnOp :=
  | OpInitiate (now id : Z) (remote : Endpoint)
  | OpAccept (now id rid : Z) (remote : Endpoint)
  | OpOnAccept (id ts : Z)
  | OpOnConnect (version max_frame : Z)
  | OpClose (r : CloseReason)
  | OpOnClose (r : CloseReason)
  | OpSend
  | OpRecv (num : Z)
  | OpRtt (sample : Z).
Definition conn_apply (c : Connection) (o : ConnOp) : Connection :=
  match o with
  | OpInitiate now id r => (cn_initiate c now id r).1
  | OpAccept now id rid r => (cn_accept c now id rid r).1
  | OpOnAccept id ts => (cn_on_accept c id ts).1
  | OpOnConnect v m => (cn_on_connect c v m).1
  | OpClose r => (cn_close c r).1
  | OpOnClose r => (cn_on_close c r).1
  | OpSend => (cn_next_send_packet_number c).1
  | OpRecv n => cn_update_recv_packet_number c n
  | OpRtt s => cn_update_rtt c s
  end.
(** The state diagram in the comment of [connection.h]. *)
Inductive documented : ConnectionState → ConnectionState → Prop :=
  | d_initiate : documented IDLE CONNECTING
  | d_connected : documented CONNECTING CONNECTED
  | d_on_connect : documented IDLE ACCEPTING
  | d_accept : documented ACCEPTING CONNECTED
  | d_close : documented CONNECTED CLOSING
  | d_closed : documented CLOSING CLOSED
  | d_timeout : documented CONNECTED CLOSED.
(** The moves of the code that are not in it: [accept] works without a CONNECT before it,
    and [on_connect] and [on_close] do not look at the state. *)
Inductive undocumented : ConnOp → ConnectionState → ConnectionState → Prop :=
  | u_accept now id rid remote : undocumented (OpAccept now id rid remote) IDLE CONNECTED
  | u_on_connect version max_frame s :
      s ≠ IDLE → s ≠ ACCEPTING → undocumented (OpOnConnect version max_frame) s ACCEPTING
  | u_on_close r s : s = IDLE ∨ s = CONNECTING ∨ s = ACCEPTING → undocumented (OpOnClose r) s CLOSED.
(** The state after a call. *)
Definition next_state (s : ConnectionState) (o : ConnOp) : ConnectionState :=
  match o, s with
  | OpInitiate _ _ _, IDLE => CONNECTING
  | OpAccept _ _ _ _, (IDLE | ACCEPTING) => CONNECTED
  | OpOnAccept _ _, CONNECTING => CONNECTED
  | OpOnConnect _ _, _ => ACCEPTING
  | OpClose _, CONNECTED => CLOSING
  | OpOnClose _, _ => CLOSED
  | _, _ => s
  end.
Definition conn_run (c : Connection) (l : list ConnOp) : Connection := foldl conn_apply c l.

Lemma conn_apply_state c o : cn_state (conn_apply c o) = next_state (cn_state c) o.
Proof.
  destruct o; simpl; try done;
    unfold cn_initiate, cn_accept, cn_on_accept, cn_close, cn_update_recv_packet_number;
    repeat (case_bool_decide || case_match); simpl in *; try congruence; try done; by destruct (cn_state c).
Qed.
Lemma next_state_move s o :
  next_state s o = s ∨ documented s (next_state s o) ∨ undocumented o s (next_state s o).
Proof.
  destruct o, s; simpl; auto;
    first [by right; left; constructor|by right; right; constructor; auto].
Qed.
Lemma conn_apply_numbers c o :
  cn_send_pkt_num (conn_apply c o)
    = (match o with OpSend => u32 (cn_send_pkt_num c + 1) | _ => cn_send_pkt_num c end) ∧
  cn_recv_pkt_num (conn_apply c o)
    = (match o with OpRecv n => Z.max (cn_recv_pkt_num c) n | _ => cn_recv_pkt_num c end).
Proof.
  destruct o; simpl; unfold cn_initiate, cn_accept, cn_on_accept, cn_close,
    cn_update_recv_packet_number; repeat case_match; simpl; split; try done;
    destruct (Z.ltb_spec (cn_recv_pkt_num c) num); simpl in *; try done; lia.
Qed.

(** What the trace must contain for a connection to be CONNECTED. *)
Definition handshake_done (l : list ConnOp) : Prop :=
  (∃ now id rid r, OpAccept now id rid r ∈ l) ∨
  (∃ l1 l2 now id r id' ts, l = l1 ++ l2 ∧ OpInitiate now id r ∈ l1 ∧ OpOnAccept id' ts ∈ l2).
#[global] Instance ConnOp_eq_dec : EqDecision ConnOp.
Proof. solve_decision. Defined.
Definition sends (l : list ConnOp) : nat := length (filter (λ o, o = OpSend) l).

Lemma conn_run_snoc c l o : conn_run c (l ++ [o]) = conn_apply (conn_run c l) o.
Proof. unfold conn_run. by rewrite foldl_app. Qed.
Lemma conn_connecting c l now :
  c = cn_new now → cn_state (conn_run c l) = CONNECTING → ∃ t id r, OpInitiate t id r ∈ l.
Proof.
  intros ->. induction l as [|o l IH] using rev_ind; [done|].
  rewrite conn_run_snoc. intros Hs.
  rewrite conn_apply_state in Hs. destruct (decide (cn_state (conn_run (cn_new now) l) = CONNECTING)) as [E|E].
  - destruct (IH E) as (t & id & r & ?). exists t, id, r. set_solver.
  - destruct o as [t id r| | | | | | | |]; simpl in Hs; [exists t, id, r; set_solver|..];
      exfalso; revert Hs E; by destruct (cn_state _).
Qed.
Lemma conn_connected now l :
  cn_state (conn_run (cn_new now) l) = CONNECTED → handshake_done l.
Proof.
  induction l as [|o l IH] using rev_ind; [done|]. rewrite conn_run_snoc. intros Hs.
  assert (handshake_done l → handshake_done (l ++ [o])) as Hmono.
  { intros [(t & id & rid & r & ?)|(l1 & l2 & t & id & r & id' & ts & -> & ? & ?)].
    - left. exists t, id, rid, r. set_solver.
    - right. exists l1, (l2 ++ [o]), t, id, r, id', ts. rewrite app_assoc. set_solver. }
  destruct (decide (cn_state (conn_run (cn_new now) l) = CONNECTED)) as [E|E].
  { by apply Hmono, IH. }
  destruct o as [t id r|t id rid r|id ts|v m|r|r| |n|s]; simpl in Hs; try done; revert Hs;
    unfold cn_initiate, cn_on_accept, cn_close, cn_update_recv_packet_number;
    try (by repeat case_match).
  - left. exists t, id, rid, r. set_solver.
  - case_bool_decide as Hc; [|done]. intros _.
    destruct (conn_connecting _ l now eq_refl Hc) as (t & id0 & r & Hi).
    right. exists l, [OpOnAccept id ts], t, id0, r, id, ts. set_solver.
Qed.

(** C22: Life of a connection.  After any sequence of calls on a new connection
    (local calls, received handshake messages, traffic, in any order), it is
    CONNECTED only if the sequence contains a local [accept], or an [initiate] followed
    by an ACCEPT from the peer; the next packet number is the number of packets
    sent so far modulo 2^32, so numbers are handed out consecutively; the highest
    received packet number is the maximum of those seen.  The state after the next call is
    that of the table [next_state]; if it is another state the move is one of the diagram in
    the header of the class, or one of three moves that are not in it: [accept] of an IDLE
    connection without a CONNECT before it, a CONNECT received in CONNECTING, CONNECTED,
    CLOSING or CLOSED, and a CLOSE received in IDLE, CONNECTING or ACCEPTING. *)
Theorem connection_lifecycle now l o :
  let c := conn_run (cn_new now) l in
  let s := cn_state c in
  let s' := cn_state (conn_apply c o) in
  (s = CONNECTED → handshake_done l) ∧
  cn_send_pkt_num c = u32 (Z.of_nat (sends l)) ∧
  (Forall (λ o, match o with OpRecv n => is_u32 n | _ => True end) l →
     cn_recv_pkt_num c = foldr Z.max 0 (omap (λ o, match o with OpRecv n => Some n | _ => None end) l)) ∧
  s' = next_state s o ∧ (s' = s ∨ documented s s' ∨ undocumented o s s').
Proof.
  cbv zeta. rewrite conn_apply_state. split_and!; [apply conn_connected|..|done|apply next_state_move].
  - induction l as [|o' l IH] using rev_ind; [done|]. rewrite conn_run_snoc.
    destruct (conn_apply_numbers (conn_run (cn_new now) l) o') as [-> _].
    unfold sends in *. rewrite filter_app, length_app. destruct o'; simpl; rewrite ?Nat.add_0_r; try done.
    rewrite IH. unfold wrap. rewrite Nat2Z.inj_add. by rewrite Zplus_mod_idemp_l.
  - induction l as [|o' l IH] using rev_ind; [done|]. intros [Hl _]%Forall_app. rewrite conn_run_snoc.
    destruct (conn_apply_numbers (conn_run (cn_new now) l) o') as [_ ->]. rewrite (IH Hl).
    rewrite omap_app, foldr_app. destruct o'; simpl; try done.
    clear. induction (omap _ l); simpl; lia.
Qed.

(** A rejected call leaves the connection as it was. *)
Lemma conn_rejected_noop c now id rid r ts cr :
  ((cn_initiate c now id r).2 = false → (cn_initiate c now id r).1 = c) ∧
  ((cn_accept c now id rid r).2 = false → (cn_accept c now id rid r).1 = c) ∧
  ((cn_on_accept c id ts).2 = false → (cn_on_accept c id ts).1 = c) ∧
  ((cn_close c cr).2 = false → (cn_close c cr).1 = c).
Proof. unfold cn_initiate, cn_accept, cn_on_accept, cn_close. split_and!; by case_match. Qed.

(** ** The RTT estimate *)
(** Smoothed RTT.  While 7 times the estimate plus the sample fits in 32 bits
    (estimates below about 10 minutes), the new estimate lies between the old
    estimate and the sample and never becomes zero again from a positive pair; the
    first sample is taken as is.  Without that bound the 32-bit product wraps. *)
Theorem srtt_between c s :
  is_u32 (cn_srtt_us c) → is_u32 s → cn_srtt_us c * 7 + s < 2 ^ 32 →
  let s' := cn_srtt_us (cn_update_rtt c s) in
  is_u32 s' ∧ (cn_srtt_us c = 0 → s' = s) ∧
  (cn_srtt_us c ≠ 0 → s' = (cn_srtt_us c * 7 + s) / 8 ∧
     Z.min (cn_srtt_us c) s ≤ s' ≤ Z.max (cn_srtt_us c) s).
Proof.
  unfold is_u32, is_u. intros Hc Hs Hb. cbn [cn_update_rtt cn_set_numbers cn_srtt_us].
  destruct (Z.eqb_spec (cn_srtt_us c) 0) as [E|E]; [rewrite E in *; split_and!; lia|].
  rewrite (wrap_id 32 (cn_srtt_us c * 7)), wrap_id by (unfold is_u; lia).
  split_and!; [Z.div_mod_to_equations; lia..|done|]. intros _. split; [done|].
  Z.div_mod_to_equations. lia.
Qed.
Lemma srtt_between_witness :
  cn_srtt_us (cn_update_rtt (cn_set_numbers (cn_new 0) 0 0 8000) 16000) = 9000 ∧
  Z.min 8000 16000 ≤ 9000 ≤ Z.max 8000 16000.
Proof.
  split; [reflexivity|].
  refine (proj2 (proj2 (proj2 (srtt_between (cn_set_numbers (cn_new 0) 0 0 8000) 16000 _ _ _)) _));
    [by_decide|by_decide|reflexivity|discriminate].
Defined.

(** ** Handshake packets *)
Definition cn_ok (c : Connection) : Prop :=
  is_u16 (cn_local_conn_id c) ∧ is_u16 (cn_remote_conn_id c) ∧ is_u16 (cc_max_frame_size (cn_config c))
  ∧ is_u32 (cn_send_pkt_num c) ∧ is_u32 (cn_recv_pkt_num c).
#[global] Instance cn_ok_dec c : Decision (cn_ok c).
Proof. unfold cn_ok. apply _. Defined.

Lemma elapsed_is_u c now : is_u32 (cn_elapsed_us c now).
Proof. apply u32_is_u. Qed.
#[export] Hint Resolve elapsed_is_u : rom.

Section HandshakeFacts.
Context `{XxHash}.

(** The packet a builder produces from connection [c]: the packet number is taken
    from the counter, which is advanced. *)
Definition hs_packet {T} `{WireFrame T} (t : PacketType) (conn_id now : Z) (c : Connection)
    (ft : FrameType) (f : T) : bytes :=
  packet_bytes (encoder t conn_id (cn_send_pkt_num c) (cn_elapsed_us c now))
    (frame_wire (typed_frame ft f)).
Definition cn_bump (c : Connection) : Connection := (cn_next_send_packet_number c).1.

Lemma build_typed {T} `{WireFrame T} (c : Connection) t conn_id num ts ft (f : T) :
  (WIRE_SIZE ≤ 256)%nat →
  (let! enc := or_else (add_typed_frame (encoder t conn_id num ts) ft f) (encoder t conn_id num ts) in
   let! (pkt, _) := finalize enc in Ok (c, pkt))
  = Ok (c, packet_bytes (encoder t conn_id num ts) (frame_wire (typed_frame ft f))).
Proof.
  intros Hw. destruct (typed_packet_bytes t conn_id num ts ft f Hw) as (e & pkt & -> & (e' & Hf) & ->).
  cbn [res_bind]. by rewrite Hf.
Qed.

#[local] Ltac by_build :=
  unfold cn_next_send_packet_number; cbv beta zeta iota;
  etransitivity; [apply build_typed; simpl; lia|done].
Lemma build_connect_spec c now :
  build_connect_packet c now = Ok (cn_bump c, hs_packet PT_HANDSHAKE 0 now c FT_CONNECT
    {| cf_magic := CONNECT_MAGIC; cf_version := PROTOCOL_VERSION;
       cf_max_frame_size := cc_max_frame_size (cn_config c) |}).
Proof. unfold build_connect_packet. by_build. Qed.
Lemma build_accept_spec c now now' :
  build_accept_packet c now now' =
    Ok (cn_bump c, hs_packet PT_HANDSHAKE (cn_remote_conn_id c) now c FT_ACCEPT
      {| af_assigned_conn_id := cn_local_conn_id c; af_server_timestamp_us := cn_elapsed_us c now' |}).
Proof. unfold build_accept_packet. by_build. Qed.
Lemma build_close_spec c now r :
  build_close_packet c now r =
    Ok (cn_bump c, hs_packet PT_HANDSHAKE (cn_remote_conn_id c) now c FT_CLOSE {| clf_reason := r |}).
Proof. unfold build_close_packet. by_build. Qed.
Lemma build_ping_spec c now now' id :
  build_ping_packet c now now' id =
    Ok (cn_bump c, hs_packet PT_CONTROL (cn_remote_conn_id c) now c FT_PING
      {| pf_ping_id := id; pf_timestamp_us := cn_elapsed_us c now' |}).
Proof. unfold build_ping_packet. by_build. Qed.
Lemma build_pong_spec c now id ts :
  build_pong_packet c now id ts =
    Ok (cn_bump c, hs_packet PT_CONTROL (cn_remote_conn_id c) now c FT_PONG
      {| pf_ping_id := id; pf_timestamp_us := ts |}).
Proof. unfold build_pong_packet. by_build. Qed.

(** Processing a packet another connection built runs the [switch] on its frame. *)
Lemma process_hs_packet {T} `{WireFrame T} (s c : Connection) t conn_id now ft (f : T) :
  enum_ok t → is_u16 conn_id → is_u32 (cn_send_pkt_num c) → enum_ok ft → (WIRE_SIZE ≤ 256)%nat →
  process_packet s (hs_packet t conn_id now c ft f)
  = run_frames process_frame
      (cn_update_recv_packet_number s (cn_send_pkt_num c), he_init NOT_HANDSHAKE) [typed_frame ft f].
Proof.
  intros Ht Hc Hn Hft Hw. unfold process_packet, hs_packet.
  destruct (typed_packet_parse t conn_id (cn_send_pkt_num c) (cn_elapsed_us c now) ft f)
    as (d & Hp & Hv & Hh & Hloop); auto with rom.
  rewrite Hp. cbn [res_bind negb]. rewrite Hv. cbn [res_bind negb]. rewrite Hh, Hloop. done.
Qed.

Lemma typed_decode {T} `{WireFrame T} (f : T) : frame_ok f → frame_decode (frame_bytes f) = Ok f.
Proof. intros Hf. rewrite <-(app_nil_r (frame_bytes f)). by apply frame_decode_bytes. Qed.
End HandshakeFacts.

Section HandshakeTheorems.
Context `{XxHash}.

Lemma cn_update_recv_fields c n :
  let c' := cn_update_recv_packet_number c n in
  cn_state c' = cn_state c ∧ cn_local_conn_id c' = cn_local_conn_id c ∧
  cn_remote_conn_id c' = cn_remote_conn_id c ∧ cn_remote c' = cn_remote c ∧
  cn_config c' = cn_config c ∧ cn_send_pkt_num c' = cn_send_pkt_num c ∧
  cn_recv_pkt_num c' = Z.max (cn_recv_pkt_num c) n ∧
  cn_negotiated_max_frame c' = cn_negotiated_max_frame c.
Proof.
  cbv zeta. unfold cn_update_recv_packet_number.
  destruct (Z.ltb_spec (cn_recv_pkt_num c) n); simpl; split_and!; try done; lia.
Qed.

(** One received handshake frame, by type. *)
Lemma run_connect s e f :
  frame_ok f → cf_magic f = CONNECT_MAGIC →
  ∃ e', run_frames process_frame (s, e) [typed_frame FT_CONNECT f]
    = Ok ((cn_on_connect s (cf_version f) (cf_max_frame_size f)).1, e')
    ∧ he_result e' = CONNECT_RECEIVED ∧ he_connect e' = f.
Proof.
  intros Hf Hm. pose proof (typed_decode f Hf) as Hd. unfold typed_frame, mk_frame.
  cbn [run_frames process_frame fr_header fh_type fr_payload].
  change (frame_decode (frame_bytes f)) with (ConnectFrame_decode (frame_bytes f)) in Hd.
  rewrite Hd. cbn [res_opt res_bind]. rewrite Hm, Z.eqb_refl. simpl. eauto.
Qed.
Lemma run_accept s e f :
  frame_ok f →
  ∃ e', run_frames process_frame (s, e) [typed_frame FT_ACCEPT f]
    = Ok ((cn_on_accept s (af_assigned_conn_id f) (af_server_timestamp_us f)).1, e')
    ∧ he_result e' = ACCEPT_RECEIVED ∧ he_accept e' = f.
Proof.
  intros Hf. pose proof (typed_decode f Hf) as Hd. unfold typed_frame, mk_frame.
  cbn [run_frames process_frame fr_header fh_type fr_payload].
  change (frame_decode (frame_bytes f)) with (AcceptFrame_decode (frame_bytes f)) in Hd.
  rewrite Hd. cbn [res_opt res_bind]. destruct (cn_on_accept _ _ _). simpl. eauto.
Qed.
Lemma run_close s e f :
  frame_ok f →
  ∃ e', run_frames process_frame (s, e) [typed_frame FT_CLOSE f] = Ok (cn_set_state s CLOSED, e')
    ∧ he_result e' = CLOSE_RECEIVED ∧ he_close e' = f.
Proof.
  intros Hf. pose proof (typed_decode f Hf) as Hd. unfold typed_frame, mk_frame.
  cbn [run_frames process_frame fr_header fh_type fr_payload].
  change (frame_decode (frame_bytes f)) with (CloseFrame_decode (frame_bytes f)) in Hd.
  rewrite Hd. cbn [res_opt res_bind]. simpl. eauto.
Qed.
Lemma run_ping ft s e f :
  ft = FT_PING ∨ ft = FT_PONG → frame_ok f →
  ∃ e', run_frames process_frame (s, e) [typed_frame ft f] = Ok (s, e')
    ∧ he_result e' = (if decide (ft = FT_PING) then PING_RECEIVED else PONG_RECEIVED)
    ∧ he_ping e' = f.
Proof.
  intros Hft Hf. pose proof (typed_decode f Hf) as Hd. unfold typed_frame, mk_frame.
  change (frame_decode (frame_bytes f)) with (PingFrame_decode (frame_bytes f)) in Hd.
  destruct Hft; subst ft; cbn [run_frames process_frame fr_header fh_type fr_payload];
    rewrite Hd; cbn [res_opt res_bind]; simpl; eauto.
Qed.

(** The CONNECT and ACCEPT packets of a connection, and what their receiver does. *)
Definition connect_packet (c : Connection) (now : Z) : bytes :=
  hs_packet PT_HANDSHAKE 0 now c FT_CONNECT
    {| cf_magic := CONNECT_MAGIC; cf_version := PROTOCOL_VERSION;
       cf_max_frame_size := cc_max_frame_size (cn_config c) |}.
Definition accept_packet (c : Connection) (now now' : Z) : bytes :=
  hs_packet PT_HANDSHAKE (cn_remote_conn_id c) now c FT_ACCEPT
    {| af_assigned_conn_id := cn_local_conn_id c; af_server_timestamp_us := cn_elapsed_us c now' |}.
Lemma process_connect_packet s c now :
  cn_ok c →
  ∃ e, process_packet s (connect_packet c now) =
    Ok ((cn_on_connect (cn_update_recv_packet_number s (cn_send_pkt_num c)) PROTOCOL_VERSION
           (cc_max_frame_size (cn_config c))).1, e) ∧ he_result e = CONNECT_RECEIVED.
Proof.
  intros (Hc1 & Hc2 & Hc3 & Hc4 & Hc5).
  edestruct (run_connect (cn_update_recv_packet_number s (cn_send_pkt_num c)) (he_init NOT_HANDSHAKE)
    {| cf_magic := CONNECT_MAGIC; cf_version := PROTOCOL_VERSION;
       cf_max_frame_size := cc_max_frame_size (cn_config c) |}) as (e & Hr & He & _); [done..|].
  rewrite <-(process_hs_packet s c PT_HANDSHAKE 0 now FT_CONNECT) in Hr; [|done..|simpl; lia].
  by exists e.
Qed.
Lemma process_accept_packet c s now now' :
  cn_ok s →
  ∃ e, process_packet c (accept_packet s now now') =
    Ok ((cn_on_accept (cn_update_recv_packet_number c (cn_send_pkt_num s)) (cn_local_conn_id s)
           (cn_elapsed_us s now')).1, e) ∧ he_result e = ACCEPT_RECEIVED.
Proof.
  intros (Hc1 & Hc2 & Hc3 & Hc4 & Hc5).
  edestruct (run_accept (cn_update_recv_packet_number c (cn_send_pkt_num s)) (he_init NOT_HANDSHAKE)
    {| af_assigned_conn_id := cn_local_conn_id s; af_server_timestamp_us := cn_elapsed_us s now' |})
    as (e & Hr & He & _); [split; [done|apply elapsed_is_u]|].
  rewrite <-(process_hs_packet c s PT_HANDSHAKE (cn_remote_conn_id s) now FT_ACCEPT) in Hr;
    [|done..|simpl; lia].
  by exists e.
Qed.
Lemma cn_update_recv_ok c n : cn_ok c → is_u32 n → cn_ok (cn_update_recv_packet_number c n).
Proof.
  intros (? & ? & ? & ? & ?) Hn. unfold cn_update_recv_packet_number. case_match; by split_and!.
Qed.
Lemma cn_bump_ok c : cn_ok c → cn_ok (cn_bump c).
Proof. intros (? & ? & ? & ? & ?). split_and!; try done. apply u32_is_u. Qed.

(** The handshake works end to end over the wire.  An idle client that
    initiates and sends its CONNECT packet, and an idle server that processes
    those bytes, accepts and replies, both end CONNECTED once the client processes
    the reply bytes: each side accepts the other's packet, the client's remote
    identifier is the one the server allocated, both know the peer's endpoint, the
    server has negotiated the smaller of the two frame sizes, and both packets fit
    in the packet size limit. *)
Theorem handshake_establishes c s cid sid client server t1 t2 t3 t4 t5 :
  cn_ok c → cn_ok s → cn_state c = IDLE → cn_state s = IDLE → is_u16 cid → is_u16 sid →
  ∃ c1 pkt1 s1 e1 s2 pkt2 c2 e2,
    build_connect_packet (cn_initiate c t1 cid server).1 t2 = Ok (c1, pkt1) ∧
    process_packet s pkt1 = Ok (s1, e1) ∧ he_result e1 = CONNECT_RECEIVED ∧
    build_accept_packet (cn_accept s1 t3 sid 0 client).1 t4 t5 = Ok (s2, pkt2) ∧
    process_packet c1 pkt2 = Ok (c2, e2) ∧ he_result e2 = ACCEPT_RECEIVED ∧
    cn_state c2 = CONNECTED ∧ cn_state s2 = CONNECTED ∧
    cn_local_conn_id c2 = cid ∧ cn_remote_conn_id c2 = sid ∧ cn_local_conn_id s2 = sid ∧
    cn_remote c2 = server ∧ cn_remote s2 = client ∧
    cn_negotiated_max_frame s2
      = Z.min (cc_max_frame_size (cn_config s)) (cc_max_frame_size (cn_config c)) ∧
    cn_recv_pkt_num s2 = Z.max (cn_recv_pkt_num s) (cn_send_pkt_num c) ∧
    (length pkt1 ≤ MAX_PACKET_SIZE)%nat ∧ (length pkt2 ≤ MAX_PACKET_SIZE)%nat.
Proof.
  intros Hc Hs Hic His Hcid Hsid. pose proof Hc as (Hc1 & Hc2 & Hc3 & Hc4 & Hc5).
  unfold cn_initiate. rewrite bool_decide_eq_true_2 by done. cbn [negb fst].
  set (c0 := cn_set_state _ CONNECTING). assert (cn_ok c0) as Hc0 by (by split_and!).
  destruct (process_connect_packet s c0 t2 Hc0) as (e1 & Hr1 & He1).
  set (s1 := (cn_on_connect _ _ _).1) in *.
  destruct (cn_update_recv_fields s (cn_send_pkt_num c0)) as (E1 & E2 & E3 & E4 & E5 & E6 & E7 & E8).
  set (s1' := cn_set_state (cn_set_peer s1 sid 0 client t3) CONNECTED).
  assert (cn_ok s1') as Hs1'.
  { destruct (cn_update_recv_ok s _ Hs Hc4) as (? & ? & ? & ? & ?). by split_and!. }
  destruct (process_accept_packet (cn_bump c0) s1' t4 t5 Hs1') as (e2 & Hr2 & He2).
  destruct (cn_update_recv_fields (cn_bump c0) (cn_send_pkt_num s1'))
    as (F1 & F2 & F3 & F4 & F5 & F6 & F7 & F8).
  eexists _, _, s1, e1, _, _, _, e2. split; [apply build_connect_spec|]. split; [exact Hr1|]. split; [done|].
  split; [apply (build_accept_spec s1')|]. split; [exact Hr2|]. split; [done|].
  unfold cn_on_accept. rewrite bool_decide_eq_true_2 by (rewrite F1; done). cbn [negb fst].
  split_and!; try done; try exact F2; try exact F4; try exact E7; try (by apply Nat.leb_le).
  change (Z.min (cc_max_frame_size (cn_config (cn_update_recv_packet_number s (cn_send_pkt_num c0))))
    (cc_max_frame_size (cn_config c)) =
    Z.min (cc_max_frame_size (cn_config s)) (cc_max_frame_size (cn_config c))). by rewrite E5.
Qed.

(** Keep-alive and close over the wire.  A PING built by one side is reported
    by the other with its identifier and timestamp; the PONG built from that report
    comes back with the same identifier and the original timestamp, so the sender
    can measure the round trip; neither changes the state machine.  A CLOSE built
    by a connected side puts it in CLOSING and the receiver of its bytes in CLOSED
    with the same reason. *)
Theorem ping_pong_close c s t1 t2 t3 t4 id reason :
  cn_ok c → cn_ok s → is_u32 id → enum_ok reason → cn_state c = CONNECTED →
  ∃ c1 ping s1 e1 s2 pong c2 e2 c3 pkt s3 e3,
    build_ping_packet c t1 t2 id = Ok (c1, ping) ∧
    process_packet s ping = Ok (s1, e1) ∧ he_result e1 = PING_RECEIVED ∧ cn_state s1 = cn_state s ∧
    build_pong_packet s1 t3 (pf_ping_id (he_ping e1)) (pf_timestamp_us (he_ping e1)) = Ok (s2, pong) ∧
    process_packet c1 pong = Ok (c2, e2) ∧ he_result e2 = PONG_RECEIVED ∧ cn_state c2 = CONNECTED ∧
    he_ping e2 = {| pf_ping_id := id; pf_timestamp_us := cn_elapsed_us c t2 |} ∧
    cn_close c reason = (c3, true) ∧ cn_state c3 = CLOSING ∧
    build_close_packet c3 t4 reason = Ok (cn_bump c3, pkt) ∧
    process_packet s pkt = Ok (s3, e3) ∧ he_result e3 = CLOSE_RECEIVED ∧
    clf_reason (he_close e3) = reason ∧ cn_state s3 = CLOSED.
Proof.
  intros (Hc1 & Hc2 & Hc3 & Hc4 & Hc5) (Hs1 & Hs2 & Hs3 & Hs4 & Hs5) Hid Hr Hst.
  set (pf := {| pf_ping_id := id; pf_timestamp_us := cn_elapsed_us c t2 |}).
  assert (frame_ok pf) as Hpf by (split; [done|apply elapsed_is_u]).
  destruct (run_ping FT_PING (cn_update_recv_packet_number s (cn_send_pkt_num c))
    (he_init NOT_HANDSHAKE) pf) as (e1 & Hr1 & He1 & Hp1); [by left|done|].
  rewrite <-(process_hs_packet s c PT_CONTROL (cn_remote_conn_id c) t1) in Hr1; [|done..|simpl; lia].
  set (s1 := cn_update_recv_packet_number s (cn_send_pkt_num c)) in *.
  destruct (cn_update_recv_fields s (cn_send_pkt_num c)) as (E1 & E2 & E3 & E4 & E5 & E6 & _).
  destruct (run_ping FT_PONG (cn_update_recv_packet_number (cn_bump c) (cn_send_pkt_num s1))
    (he_init NOT_HANDSHAKE) pf) as (e2 & Hr2 & He2 & Hp2); [by right|done|].
  rewrite <-(process_hs_packet _ s1 PT_CONTROL (cn_remote_conn_id s1) t3) in Hr2;
    [|done|unfold s1; by rewrite E3|unfold s1; by rewrite E6|done|simpl; lia].
  destruct (cn_update_recv_fields (cn_bump c) (cn_send_pkt_num s1)) as (F1 & _).
  destruct (run_close (cn_update_recv_packet_number s (cn_send_pkt_num c)) (he_init NOT_HANDSHAKE)
    {| clf_reason := reason |}) as (e3 & Hr3 & He3 & Hp3); [done|].
  set (c3 := cn_set_state c CLOSING).
  rewrite <-(process_hs_packet s c3 PT_HANDSHAKE (cn_remote_conn_id c) t4) in Hr3; [|done..|simpl; lia].
  eexists _, _, s1, e1, _, _, _, e2, c3, _, _, e3.
  split; [apply build_ping_spec|]. split; [exact Hr1|]. split; [done|]. split; [done|].
  split. { rewrite Hp1. apply build_pong_spec. }
  split; [exact Hr2|]. split; [done|]. split; [by rewrite F1|]. split; [done|].
  split. { unfold cn_close. by rewrite bool_decide_eq_true_2. }
  split; [done|]. split; [apply build_close_spec|]. split; [exact Hr3|].
  split; [done|]. split; [by rewrite Hp3|done].
Qed.

(** What one frame can do to the connection. *)
Definition hs_effect (c c' : Connection) (r : HandshakeResult) : Prop :=
  match r with
  | CONNECT_RECEIVED => ∃ v m, c' = (cn_on_connect c v m).1
  | ACCEPT_RECEIVED => ∃ id ts, c' = (cn_on_accept c id ts).1
  | CLOSE_RECEIVED => c' = cn_set_state c CLOSED
  | _ => c' = c
  end.

Lemma frame_decode_opt {T} `{WireFrame T} p :
  ∃ o, res_opt (frame_decode (T := T) p) = Ok o ∧ (wf_bytes p → from_option frame_ok True o).
Proof.
  destruct (le_lt_dec WIRE_SIZE (length p)) as [Hl|Hl].
  - destruct (frame_decode_total (T := T) p Hl) as (f & Hf & Hok). rewrite Hf. by exists (Some f).
  - rewrite frame_decode_short by done. by exists None.
Qed.

Lemma process_frame_total c e f :
  he_result e = NOT_HANDSHAKE →
  ∃ c' e' go, process_frame (c, e) f = Ok (c', e', go)
    ∧ hs_effect c c' (he_result e') ∧ (go = true → c' = c ∧ e' = e).
Proof.
  intros He. unfold process_frame. destruct (fh_type (fr_header f)) eqn:Et;
    try (eexists c, e, true; split; [done|]; rewrite He; by split).
  - destruct (frame_decode_opt (T := PingFrame) (fr_payload f)) as ([pf|] & Hd & _);
      simpl in Hd; rewrite Hd; cbn [res_bind]; by eexists _, _, _.
  - destruct (frame_decode_opt (T := PingFrame) (fr_payload f)) as ([pf|] & Hd & _);
      simpl in Hd; rewrite Hd; cbn [res_bind]; by eexists _, _, _.
  - destruct (frame_decode_opt (T := ConnectFrame) (fr_payload f)) as ([cf|] & Hd & _);
      simpl in Hd; rewrite Hd; cbn [res_bind]; [|by eexists _, _, _].
    destruct (cf_magic cf =? CONNECT_MAGIC); simpl; [|by eexists _, _, _].
    eexists _, _, _. split; [done|]. split; [by eexists _, _|done].
  - destruct (frame_decode_opt (T := AcceptFrame) (fr_payload f)) as ([af|] & Hd & _);
      simpl in Hd; rewrite Hd; cbn [res_bind]; [|by eexists _, _, _].
    destruct (cn_on_accept c _ _) as [c' b] eqn:Ea.
    eexists _, _, _. split; [done|]. split; [|done]. eexists _, _. by rewrite Ea.
  - destruct (frame_decode_opt (T := CloseFrame) (fr_payload f)) as ([cf|] & Hd & _);
      simpl in Hd; rewrite Hd; cbn [res_bind]; by eexists _, _, _.
Qed.
Lemma run_process_frames c e fs :
  he_result e = NOT_HANDSHAKE →
  ∃ c' e', run_frames process_frame (c, e) fs = Ok (c', e') ∧ hs_effect c c' (he_result e').
Proof.
  intros He. induction fs as [|f fs IH]; cbn [run_frames].
  { exists c, e. by rewrite He. }
  destruct (process_frame_total c e f He) as (c' & e' & go & Hf & Heff & Hgo).
  rewrite Hf. cbn [res_bind]. destruct go.
  - destruct (Hgo eq_refl) as [-> ->]. exact IH.
  - by exists c', e'.
Qed.

Lemma process_packet_spec c data :
  ∃ c' e n, process_packet c data = Ok (c', e) ∧
    (c' = c ∧ he_result e = INVALID
     ∨ (∃ d, parse PacketDecoder_new data = Ok (d, true) ∧ verify_checksum d = Ok true
             ∧ n = ph_packet_number (pd_header d))
       ∧ hs_effect (cn_update_recv_packet_number c n) c' (he_result e)) ∧
    (cn_state c' = CONNECTED → cn_state c = CONNECTED ∨
       (cn_state c = CONNECTING ∧ he_result e = ACCEPT_RECEIVED)).
Proof.
  unfold process_packet. destruct (parse_Ok PacketDecoder_new data) as (d & ok & Hp). rewrite Hp.
  cbn [res_bind]. destruct ok; cbn [negb].
  2: { exists c, (he_set_result (he_init NOT_HANDSHAKE) INVALID), 0. split; [done|]. auto. }
  pose proof (parse_true _ _ _ Hp) as (Hd & _ & _ & _).
  destruct (verify_checksum_Ok d data Hd) as [b Hv]. rewrite Hv. cbn [res_bind].
  destruct b; cbn [negb].
  2: { exists c, (he_set_result (he_init NOT_HANDSHAKE) INVALID), 0. split; [done|]. auto. }
  rewrite (while_next_frame_spec process_frame _ _ _ _ Hp).
  set (n := ph_packet_number (pd_header d)).
  destruct (run_process_frames (cn_update_recv_packet_number c n) (he_init NOT_HANDSHAKE)
    (parse_frames (take (Z.to_nat (ph_payload_length (pd_header d))) (drop PACKET_HEADER_SIZE data))))
    as (c' & e' & Hrun & Heff); [done|].
  exists c', e', n. split; [exact Hrun|]. split; [right; split; [by exists d|done]|].
  intros Hc'. destruct (cn_update_recv_fields c n) as (Es & _).
  destruct (he_result e') eqn:Er; simpl in Heff; try (subst; rewrite Es in Hc'; by left).
  - destruct Heff as (v & m & ->). done.
  - destruct Heff as (id & ts & ->). revert Hc'. unfold cn_on_accept. rewrite Es.
    case_bool_decide; cbn [negb fst]; [by right|]. rewrite Es. by left.
  - subst. done.
Qed.

(** C23: Processing an arbitrary datagram is memory safe, terminates and changes a
    connection only as its result says.  For every byte string [process_packet]
    returns; a datagram that is too short, malformed, or fails its checksum is
    INVALID and leaves the connection untouched; otherwise only the highest
    received packet number may change, except that CONNECT enters ACCEPTING,
    CLOSE enters CLOSED, and ACCEPT enters CONNECTED only from CONNECTING. *)
Theorem process_packet_effects c data :
  ∃ c' e n, process_packet c data = Ok (c', e) ∧
    (c' = c ∧ he_result e = INVALID
     ∨ (∃ d, parse PacketDecoder_new data = Ok (d, true) ∧ verify_checksum d = Ok true
             ∧ n = ph_packet_number (pd_header d))
       ∧ hs_effect (cn_update_recv_packet_number c n) c' (he_result e)) ∧
    (cn_state c' = CONNECTED → cn_state c = CONNECTED ∨
       (cn_state c = CONNECTING ∧ he_result e = ACCEPT_RECEIVED)).
Proof. apply process_packet_spec. Qed.
End HandshakeTheorems.
Lemma handshake_ids_ok : cn_ok (cn_new 0) ∧ is_u16 7 ∧ is_u16 9.
Proof. by_decide. Qed.
Lemma handshake_establishes_witness :
  ∃ c1 pkt1 s1 e1, @build_connect_packet toy_xxhash (cn_initiate (cn_new 0) 0 7 ep_b).1 5000 = Ok (c1, pkt1) ∧
    @process_packet toy_xxhash (cn_new 0) pkt1 = Ok (s1, e1) ∧ he_result e1 = CONNECT_RECEIVED.
Proof.
  destruct handshake_ids_ok as (H1 & H2 & H3).
  destruct (@handshake_establishes toy_xxhash (cn_new 0) (cn_new 0) 7 9 ep_a ep_b 0 5000 6000 7000 8000
              H1 H1 eq_refl eq_refl H2 H3)
    as (c1 & pkt1 & s1 & e1 & _ & _ & _ & _ & E1 & E2 & E3 & _).
  exists c1, pkt1, s1, e1. exact (conj E1 (conj E2 E3)).
Defined.
Lemma ping_pong_close_witness :
  ∃ c1 ping s1 e1, @build_ping_packet toy_xxhash (cn_set_state (cn_new 0) CONNECTED) 1000 2000 42
      = Ok (c1, ping) ∧
    @process_packet toy_xxhash (cn_new 0) ping = Ok (s1, e1) ∧ he_result e1 = PING_RECEIVED.
Proof.
  destruct handshake_ids_ok as (H1 & _ & _).
  assert (is_u32 42) as H2 by by_decide.
  assert (enum_ok CR_NORMAL) as H3 by (split; [by_decide|reflexivity]).
  destruct (@ping_pong_close toy_xxhash (cn_set_state (cn_new 0) CONNECTED) (cn_new 0)
              1000 2000 3000 4000 42 CR_NORMAL H1 H1 H2 H3 eq_refl)
    as (c1 & ping & s1 & e1 & _ & _ & _ & _ & _ & _ & _ & _ & E1 & E2 & E3 & _).
  exists c1, ping, s1, e1. exact (conj E1 (conj E2 E3)).
Defined.

(** ** The manager *)
Definition cm_ok (m : ConnectionManager) : Prop :=
  map_Forall (λ id mc, mc_remote_node_id mc = id) (cm_conns m).
Lemma cm_add_ok m now id : cm_ok m → cm_ok (cm_add m now id).1.
Proof. unfold cm_add. intros Hm. case_match; [done|]. by apply map_Forall_insert_2. Qed.
Lemma cm_remove_ok m id : cm_ok m → cm_ok (cm_remove m id).1.
Proof. intros Hm. by apply map_Forall_delete. Qed.
Lemma cm_put_ok m id mc : cm_ok m → mc_remote_node_id mc = id → cm_ok (cm_put m id mc).
Proof. intros Hm Hid. by apply map_Forall_insert_2. Qed.
Lemma cm_next_ok m : cm_ok m → cm_ok (cm_next_conn_id m).1.
Proof. unfold cm_next_conn_id. by destruct (ca_next _). Qed.
#[export] Hint Resolve cm_add_ok cm_remove_ok cm_put_ok cm_next_ok : rom.

Section ManagerFacts.
Context `{UnorderedIter}.
Lemma elem_of_connected_nodes m id :
  id ∈ cm_connected_nodes m ↔ ∃ mc, cm_conns m !! id = Some mc ∧ cn_state (mc_conn mc) = CONNECTED.
Proof.
  unfold cm_connected_nodes. rewrite list_elem_of_fmap. split.
  - intros ([k mc] & -> & [Hs Hin]%list_elem_of_filter). simpl in *. exists mc.
    by rewrite <-elem_of_uiter.
  - intros (mc & Hl & Hs). exists (id, mc). split; [done|]. apply list_elem_of_filter.
    by rewrite elem_of_uiter.
Qed.
Lemma NoDup_connected_nodes m : NoDup (cm_connected_nodes m).
Proof.
  unfold cm_connected_nodes. eapply sublist_NoDup; [apply (NoDup_fst_uiter (cm_conns m))|].
  apply fmap_sublist, sublist_filter.
Qed.
Lemma cm_has_connections_iff m : cm_has_connections m = true ↔ cm_connected_nodes m ≠ [].
Proof.
  unfold cm_has_connections. rewrite existsb_exists. split.
  - intros ([k mc] & Hin & Hs%bool_decide_eq_true). apply list_elem_of_In, elem_of_uiter in Hin.
    assert (k ∈ cm_connected_nodes m) as Hk by (apply elem_of_connected_nodes; eauto).
    intros E. rewrite E in Hk. by apply not_elem_of_nil in Hk.
  - intros Hne. destruct (cm_connected_nodes m) as [|k l] eqn:E; [done|].
    assert (k ∈ cm_connected_nodes m) as Hk by (rewrite E; constructor).
    apply elem_of_connected_nodes in Hk as (mc & Hl & Hs). exists (k, mc).
    rewrite <-list_elem_of_In, elem_of_uiter. by rewrite bool_decide_eq_true.
Qed.
End ManagerFacts.
