(* ===== verification/Capability.v ===== *)
(** * Signatures and capability tokens

    Models [src/security/crypto.cpp] (thin wrappers around the Monocypher Ed25519
    functions, which are third-party: the class [Ed25519]) and
    [src/security/capability.cpp] (token wire format, issuing, attenuation,
    verification and the token store).  The class states only documented behaviour
    of Ed25519: sizes, and that a signature made with a key pair checks under its
    public key.  No unforgeability is assumed. *)
From S2P Require Import Prelude Platform Frame StatePath.

(** ** Ed25519 as provided by Monocypher *)
Definition ED25519_PUBLIC_KEY_SIZE : nat := 32.
Definition ED25519_SECRET_KEY_SIZE : nat := 64.
Definition ED25519_SEED_SIZE : nat := 32.
Definition ED25519_SIGNATURE_SIZE : nat := 64.

Class Ed25519 := {
  crypto_ed25519_key_pair : bytes → bytes * bytes;  (* seed ↦ secret key, public key *)
  crypto_ed25519_sign : bytes → bytes → bytes;      (* secret key, message ↦ signature *)
  crypto_ed25519_check : bytes → bytes → bytes → Z; (* signature, public key, message ↦ 0 / -1 *)
  ed25519_sign_size : ∀ sk msg, length (crypto_ed25519_sign sk msg) = ED25519_SIGNATURE_SIZE;
  ed25519_sign_wf : ∀ sk msg, wf_bytes (crypto_ed25519_sign sk msg);
  ed25519_correct : ∀ seed msg, length seed = ED25519_SEED_SIZE →
    crypto_ed25519_check
      (crypto_ed25519_sign (crypto_ed25519_key_pair seed).1 msg)
      (crypto_ed25519_key_pair seed).2 msg = 0
}.

Record KeyPair := { kp_public_key : bytes; kp_secret_key : bytes }.

Section Crypto.
Context `{Ed25519}.
Definition kp_from_seed (seed : bytes) : KeyPair :=
  let '(sk, pk) := crypto_ed25519_key_pair seed in {| kp_public_key := pk; kp_secret_key := sk |}.
(** [urandom] is the stream that opening [/dev/urandom] gives; [None] is the exception. *)
Definition random_bytes (urandom : option bytes) (len : nat) : option bytes :=
  match urandom with
  | None => None
  | Some s => if (length s <? len)%nat then None else Some (take len s)
  end.
Definition kp_generate (urandom : option bytes) : option KeyPair :=
  kp_from_seed <$> random_bytes urandom ED25519_SEED_SIZE.
Definition sign (sk msg : bytes) : bytes := crypto_ed25519_sign sk msg.
Definition verify (pk sig msg : bytes) : bool := crypto_ed25519_check sig pk msg =? 0.

(** A key pair that Ed25519 made. *)
Definition kp_valid (k : KeyPair) : Prop :=
  ∃ seed, length seed = ED25519_SEED_SIZE ∧ k = kp_from_seed seed.
(** A key pair is made exactly if the source has a seed to give, and then it is valid. *)
Lemma kp_generate_spec urandom :
  match kp_generate urandom with
  | Some k => kp_valid k ∧ ∃ s, urandom = Some s ∧ (ED25519_SEED_SIZE ≤ length s)%nat
  | None => ∀ s, urandom = Some s → (length s < ED25519_SEED_SIZE)%nat
  end.
Proof.
  unfold kp_generate, random_bytes. destruct urandom as [s|]; [|done].
  destruct (Nat.ltb_spec (length s) ED25519_SEED_SIZE); simpl.
  - by intros s' [= <-].
  - split; [|by exists s]. eexists. split; [|done]. rewrite length_take. lia.
Qed.
Lemma verify_sign k msg :
  kp_valid k → verify (kp_public_key k) (sign (kp_secret_key k) msg) msg = true.
Proof.
  intros (seed & Hs & ->). unfold verify, sign, kp_from_seed.
  pose proof (ed25519_correct seed msg Hs) as Hc. destruct (crypto_ed25519_key_pair seed).
  simpl in *. by rewrite Hc.
Qed.
End Crypto.

(** A toy scheme that satisfies the documented behaviour (with none of the
    security): the public key is the seed and a signature is a keyed hash. *)
Definition toy_sign (sk msg : bytes) : bytes :=
  be32 (toy_hash (take 32 sk ++ msg) 0) ++ replicate 60 0.
Definition toy_check (sig pk msg : bytes) : Z :=
  if decide (sig = toy_sign pk msg) then 0 else -1.
#[refine] Definition toy_ed25519 : Ed25519 := {|
  crypto_ed25519_key_pair seed := (seed ++ seed, seed);
  crypto_ed25519_sign := toy_sign;
  crypto_ed25519_check := toy_check
|}.
Proof.
  - done.
  - intros sk msg. apply Forall_app. split; [apply be32_wf|]. by apply Forall_replicate.
  - intros seed msg Hl. unfold toy_check, toy_sign; simpl.
    rewrite take_app_le, firstn_all2 by (rewrite Hl; done). by rewrite decide_True.
Defined.

(** ** CapabilityToken *)
Definition CAP_NONE : Z := 0.
Definition CAP_READ : Z := 1.
Definition CAP_WRITE : Z := 2.
Definition CAP_SUBSCRIBE : Z := 4.
Definition CAP_GRANT : Z := 8.
Definition CAP_ALL : Z := 15.

Record CapabilityToken := {
  ct_token_id : Z; ct_issuer_id : Z; ct_permissions : Z; ct_path_pattern : bytes;
  ct_expiry_us : Z; ct_parent_token_id : Z; ct_signature : bytes }.
#[global] Instance CapabilityToken_eq_dec : EqDecision CapabilityToken.
Proof. solve_decision. Defined.

Definition ct_signable_bytes (t : CapabilityToken) : res bytes :=
  let size := (4 + 4 + 1 + 4 + 4 + 2 + length (ct_path_pattern t))%nat in
  let buf := replicate size 0 in
  let! buf := write_u32 buf 0 (ct_token_id t) in
  let! buf := write_u32 buf 4 (ct_issuer_id t) in
  let! buf := put8 buf 8 (ct_permissions t) in
  let! buf := write_u32 buf 9 (ct_expiry_us t) in
  let! buf := write_u32 buf 13 (ct_parent_token_id t) in
  let! buf := write_u16 buf 17 (u16 (Z.of_nat (length (ct_path_pattern t)))) in
  if bool_decide (ct_path_pattern t = []) then Ok buf else store buf 19 (ct_path_pattern t).
Definition ct_encode (t : CapabilityToken) : res bytes :=
  let! signable := ct_signable_bytes t in
  let buf := replicate (length signable + ED25519_SIGNATURE_SIZE) 0 in
  let! buf := store buf 0 signable in
  let! sig := slice (ct_signature t) 0 ED25519_SIGNATURE_SIZE in
  store buf (length signable) sig.
Definition ct_decode (data : bytes) : res CapabilityToken :=
  check_ (83 <=? length data)%nat (
  let! id := read_u32 data 0 in
  let! issuer := read_u32 data 4 in
  let! perms := get8 data 8 in
  let! expiry := read_u32 data 9 in
  let! parent := read_u32 data 13 in
  let! pat_len := read_u16 data 17 in
  let n := Z.to_nat pat_len in
  check_ (19 + n + ED25519_SIGNATURE_SIZE <=? length data)%nat (
  let! pat := slice data 19 n in
  let! sig := slice data (19 + n) ED25519_SIGNATURE_SIZE in
  Ok {| ct_token_id := id; ct_issuer_id := issuer; ct_permissions := perms; ct_path_pattern := pat;
        ct_expiry_us := expiry; ct_parent_token_id := parent; ct_signature := sig |})).
Definition ct_has_permission (t : CapabilityToken) (perm : Z) : bool :=
  negb (Z.land (ct_permissions t) perm =? 0).
Definition ct_is_expired (t : CapabilityToken) (now_us : Z) : bool :=
  if ct_expiry_us t =? 0 then false else ct_expiry_us t <? now_us.
Definition ct_set_signature (t : CapabilityToken) (sig : bytes) : CapabilityToken :=
  {| ct_token_id := ct_token_id t; ct_issuer_id := ct_issuer_id t;
     ct_permissions := ct_permissions t; ct_path_pattern := ct_path_pattern t;
     ct_expiry_us := ct_expiry_us t; ct_parent_token_id := ct_parent_token_id t;
     ct_signature := sig |}.

(** ** CapabilityStore *)
Record CapabilityStore := {
  cs_keys : KeyPair; cs_node_id : Z; cs_next_token_id : Z;
  cs_tokens : gmap Z CapabilityToken; cs_peer_keys : gmap Z bytes }.
Definition cs_new (keys : KeyPair) (node_id : Z) : CapabilityStore :=
  {| cs_keys := keys; cs_node_id := node_id; cs_next_token_id := 1; cs_tokens := ∅;
     cs_peer_keys := {[ node_id := kp_public_key keys ]} |}.
Definition cs_with_tokens (s : CapabilityStore) (next : Z) (m : gmap Z CapabilityToken)
    : CapabilityStore :=
  {| cs_keys := cs_keys s; cs_node_id := cs_node_id s; cs_next_token_id := next; cs_tokens := m;
     cs_peer_keys := cs_peer_keys s |}.

Section Store.
Context `{XxHash} `{Ed25519}.
Definition ct_covers (t : CapabilityToken) (path : StatePath) : bool :=
  sp_matches path (sp_new (ct_path_pattern t)).

(** The tail [issue] and [attenuate] share: allocate an id, sign, remember. *)
Definition cs_mint (s : CapabilityStore) (permissions : Z) (path : bytes) (expiry_us parent : Z)
    : res (CapabilityStore * CapabilityToken) :=
  let token := {| ct_token_id := cs_next_token_id s; ct_issuer_id := cs_node_id s;
                  ct_permissions := permissions; ct_path_pattern := path;
                  ct_expiry_us := expiry_us; ct_parent_token_id := parent; ct_signature := [] |} in
  let! signable := ct_signable_bytes token in
  let token := ct_set_signature token (sign (kp_secret_key (cs_keys s)) signable) in
  Ok (cs_with_tokens s (u32 (cs_next_token_id s + 1)) (<[ct_token_id token := token]> (cs_tokens s)),
      token).
Definition cs_issue (s : CapabilityStore) (path_pattern : bytes) (permissions expiry_us : Z)
    : res (CapabilityStore * CapabilityToken) :=
  cs_mint s permissions path_pattern expiry_us 0.

(** [CapabilityToken invalid{}]: all fields zero. *)
Definition ct_invalid : CapabilityToken :=
  {| ct_token_id := 0; ct_issuer_id := 0; ct_permissions := 0; ct_path_pattern := [];
     ct_expiry_us := 0; ct_parent_token_id := 0; ct_signature := replicate 64 0 |}.
Definition cs_attenuate (s : CapabilityStore) (parent : CapabilityToken) (narrower_path : bytes)
    (reduced_permissions expiry_us : Z) : res (CapabilityStore * CapabilityToken) :=
  if negb (Z.land reduced_permissions (Z.lnot (ct_permissions parent)) =? 0)
  then Ok (s, ct_invalid) else
  if negb (ct_expiry_us parent =? 0) && ((expiry_us =? 0) || (ct_expiry_us parent <? expiry_us))
  then Ok (s, ct_invalid) else
  let parent_pattern := sp_new (ct_path_pattern parent) in
  let child_pattern := sp_new narrower_path in
  if negb (sp_matches child_pattern parent_pattern)
     && negb (bool_decide (narrower_path = ct_path_pattern parent))
     && negb (bool_decide (length (sp_segments parent_pattern) = length (sp_segments child_pattern)))
  then Ok (s, ct_invalid) else
  cs_mint s reduced_permissions narrower_path expiry_us (ct_token_id parent).
Definition cs_verify_token (s : CapabilityStore) (token : CapabilityToken) (issuer_pk : bytes)
    : res bool :=
  let! signable := ct_signable_bytes token in
  Ok (verify issuer_pk (ct_signature token) signable).
Definition cs_store (s : CapabilityStore) (token : CapabilityToken) : CapabilityStore :=
  cs_with_tokens s (cs_next_token_id s) (<[ct_token_id token := token]> (cs_tokens s)).
Definition cs_revoke (s : CapabilityStore) (token_id : Z) : CapabilityStore * bool :=
  (cs_with_tokens s (cs_next_token_id s) (delete token_id (cs_tokens s)),
   bool_decide (is_Some (cs_tokens s !! token_id))).
Definition ct_grants (path : StatePath) (perm now_us : Z) (t : CapabilityToken) : bool :=
  negb (ct_is_expired t now_us) && ct_has_permission t perm && ct_covers t path.
Definition cs_find_capability `{UnorderedIter} (s : CapabilityStore) (path : StatePath)
    (perm now_us : Z) : option CapabilityToken :=
  snd <$> head (filter (λ p : Z * CapabilityToken, ct_grants path perm now_us p.2 = true)
                  (uiter (cs_tokens s))).
Definition cs_count (s : CapabilityStore) : nat := size (cs_tokens s).
Definition cs_gc (s : CapabilityStore) (now_us : Z) : CapabilityStore * nat :=
  let kept := filter (λ p : Z * CapabilityToken, ct_is_expired p.2 now_us = false) (cs_tokens s) in
  (cs_with_tokens s (cs_next_token_id s) kept, (size (cs_tokens s) - size kept)%nat).
Definition cs_register_peer_key (s : CapabilityStore) (node_id : Z) (pk : bytes) : CapabilityStore :=
  {| cs_keys := cs_keys s; cs_node_id := cs_node_id s; cs_next_token_id := cs_next_token_id s;
     cs_tokens := cs_tokens s; cs_peer_keys := <[node_id := pk]> (cs_peer_keys s) |}.
Definition cs_peer_key (s : CapabilityStore) (node_id : Z) : option bytes :=
  cs_peer_keys s !! node_id.
(** The operations that change a store, and a sequence of them on one store with
    the tokens that [issue] and [attenuate] handed back, in order. *)
Inductive CapOp :=
| CO_issue (path_pattern : bytes) (permissions expiry_us : Z)
| CO_attenuate (parent : CapabilityToken) (narrower_path : bytes) (reduced_permissions expiry_us : Z)
| CO_store (token : CapabilityToken)
| CO_revoke (token_id : Z)
| CO_gc (now_us : Z)
| CO_register_peer_key (node_id : Z) (pk : bytes).
Definition cap_op (s : CapabilityStore) (op : CapOp) : res (CapabilityStore * list CapabilityToken) :=
  match op with
  | CO_issue path perms expiry => let! r := cs_issue s path perms expiry in Ok (r.1, [r.2])
  | CO_attenuate parent path perms expiry =>
      let! r := cs_attenuate s parent path perms expiry in Ok (r.1, [r.2])
  | CO_store t => Ok (cs_store s t, [])
  | CO_revoke id => Ok ((cs_revoke s id).1, [])
  | CO_gc now => Ok ((cs_gc s now).1, [])
  | CO_register_peer_key node pk => Ok (cs_register_peer_key s node pk, [])
  end.
Fixpoint cap_run (ops : list CapOp) (s : CapabilityStore)
    : res (CapabilityStore * list CapabilityToken) :=
  match ops with
  | [] => Ok (s, [])
  | op :: ops =>
      let! r := cap_op s op in
      let! r' := cap_run ops r.1 in
      Ok (r'.1, r.2 ++ r'.2)
  end.
(** The identifiers of tokens that came from elsewhere. *)
Definition brought (ops : list CapOp) : list Z :=
  omap (λ op, match op with CO_store t => Some (ct_token_id t) | _ => None end) ops.
End Store.

(** ** The wire image of a token *)
Definition ct_ok (t : CapabilityToken) : Prop :=
  is_u32 (ct_token_id t) ∧ is_u32 (ct_issuer_id t) ∧ is_u8 (ct_permissions t) ∧
  is_u32 (ct_expiry_us t) ∧ is_u32 (ct_parent_token_id t) ∧
  is_u16 (Z.of_nat (length (ct_path_pattern t))) ∧ length (ct_signature t) = ED25519_SIGNATURE_SIZE.
#[global] Instance ct_ok_dec t : Decision (ct_ok t).
Proof. unfold ct_ok; apply _. Defined.
Definition ct_signable (t : CapabilityToken) : bytes :=
  be32 (ct_token_id t) ++ be32 (ct_issuer_id t) ++ ct_permissions t :: be32 (ct_expiry_us t) ++
  be32 (ct_parent_token_id t) ++ be16 (u16 (Z.of_nat (length (ct_path_pattern t)))) ++
  ct_path_pattern t.

Lemma ct_signable_spec t : ct_signable_bytes t = Ok (ct_signable t).
Proof.
  unfold ct_signable_bytes, ct_signable. cbv zeta.
  set (n := u16 _). set (p := ct_path_pattern t).
  rewrite !replicate_add. cbn [replicate app].
  assert (length (replicate (length p) 0) = length p) as Hr by apply length_replicate.
  wire_simp. case_bool_decide as Hp.
  - rewrite Hp. done.
  - wire_simp. rewrite drop_ge by (cbn [length]; rewrite Hr; lia).
    by rewrite app_nil_r.
Qed.
Lemma ct_encode_spec t :
  length (ct_signature t) = ED25519_SIGNATURE_SIZE →
  ct_encode t = Ok (ct_signable t ++ ct_signature t).
Proof.
  intros Hs. unfold ct_encode. rewrite ct_signable_spec. cbn [res_bind].
  rewrite store_head by (rewrite length_replicate; lia). cbn [res_bind].
  rewrite slice_all by done. cbn [res_bind].
  rewrite store_app_0, store_head by (rewrite length_drop, length_replicate; lia).
  cbn [res_bind]. rewrite drop_drop, drop_ge by (rewrite length_replicate; lia).
  by rewrite app_nil_r.
Qed.
Lemma length_ct_signable t : length (ct_signable t) = (19 + length (ct_path_pattern t))%nat.
Proof.
  unfold ct_signable. rewrite !length_app, !length_be32. cbn [length].
  rewrite !length_app, !length_be32, length_be16. lia.
Qed.
Lemma ct_decode_bytes t rest :
  ct_ok t → ct_decode (ct_signable t ++ ct_signature t ++ rest) = Ok t.
Proof.
  intros (H1 & H2 & H3 & H4 & H5 & H6 & H7). unfold ct_decode.
  pose proof (length_ct_signable t) as Hl. unfold ED25519_SIGNATURE_SIZE in *.
  rewrite (proj2 (Nat.leb_le _ _)) by (rewrite !length_app; lia). cbn [check_].
  set (L := length _). unfold ct_signable. rewrite (wrap_id 16) by done.
  rewrite <-!app_assoc. cbn [app]. rewrite <-!app_assoc. wire_simp. rewrite Nat2Z.id.
  rewrite (proj2 (Nat.leb_le _ _)) by (subst L; rewrite !length_app; lia). cbn [check_].
  match goal with |- context [slice ?d 19 _] =>
    assert (d = ct_signable t ++ ct_signature t ++ rest) as -> end.
  { unfold ct_signable. rewrite (wrap_id 16) by done. rewrite <-!app_assoc. cbn [app].
    by rewrite <-!app_assoc. }
  assert (slice (ct_signable t ++ ct_signature t ++ rest) 19 (length (ct_path_pattern t))
          = Ok (ct_path_pattern t)) as ->.
  { unfold ct_signable. rewrite <-!app_assoc. cbn [app]. rewrite <-!app_assoc.
    by apply (slice_mid' (be32 _ ++ be32 _ ++ _ :: be32 _ ++ be32 _ ++ be16 _)). }
  cbn [res_bind].
  match goal with |- context [slice _ ?o 64] => replace o with (length (ct_signable t)) by lia end.
  rewrite slice_app_0, slice_app_l, slice_all by lia.
  cbn [res_bind]. by destruct t.
Qed.
Lemma ct_decode_safe data : safe (ct_decode data).
Proof.
  unfold ct_decode. apply safe_check; intros H%Nat.leb_le.
  do 2 (apply safe_bind; [apply read_u32_safe; lia|intros ? _]).
  apply safe_bind; [apply get8_safe; lia|intros ? _].
  do 2 (apply safe_bind; [apply read_u32_safe; lia|intros ? _]).
  apply safe_bind; [apply read_u16_safe; lia|intros pl _].
  apply safe_check; intros H2%Nat.leb_le.
  apply safe_bind; [apply slice_safe; lia|intros ? _].
  apply safe_bind; [apply slice_safe; lia|done].
Qed.

Section StoreFacts.
Context `{XxHash} `{Ed25519}.

(** What [issue] and [attenuate] hand out. *)
Lemma cs_mint_spec s perms path expiry parent :
  kp_valid (cs_keys s) →
  ∃ s' t, cs_mint s perms path expiry parent = Ok (s', t) ∧
    ct_token_id t = cs_next_token_id s ∧ ct_issuer_id t = cs_node_id s ∧
    ct_permissions t = perms ∧ ct_path_pattern t = path ∧ ct_expiry_us t = expiry ∧
    ct_parent_token_id t = parent ∧ length (ct_signature t) = ED25519_SIGNATURE_SIZE ∧
    cs_verify_token s' t (kp_public_key (cs_keys s)) = Ok true ∧
    cs_tokens s' = <[ct_token_id t := t]> (cs_tokens s) ∧
    cs_next_token_id s' = u32 (cs_next_token_id s + 1).
Proof.
  intros Hk. unfold cs_mint. rewrite ct_signable_spec. cbn [res_bind].
  eexists _, _. split; [done|]. simpl. split_and!; try done.
  - apply ed25519_sign_size.
  - unfold cs_verify_token. rewrite ct_signable_spec. cbn [res_bind]. f_equal.
    by apply verify_sign.
Qed.

(** *** Identifiers
    [ids_below handed alien s]: the counter is past every identifier handed out, and
    what is stored was handed out or came from elsewhere.  It is kept while fewer
    than 2^32 - 1 tokens have been handed back. *)
Definition ids_below (handed : list CapabilityToken) (alien : list Z) (s : CapabilityStore) : Prop :=
  1 ≤ cs_next_token_id s ≤ 1 + Z.of_nat (length handed) ∧
  Forall (λ t, ct_token_id t < cs_next_token_id s) handed ∧
  ∀ i, is_Some (cs_tokens s !! i) → i < cs_next_token_id s ∨ i ∈ alien.
Lemma ids_below_new keys node : ids_below [] [] (cs_new keys node).
Proof.
  split; [cbn; lia|split; [done|]]. intros i. cbn [cs_new cs_tokens]. rewrite lookup_empty.
  by intros [? [=]].
Qed.
Lemma ids_below_mint handed alien s perms path expiry parent s' t :
  ids_below handed alien s → Z.of_nat (length handed) < 2 ^ 32 - 2 →
  cs_mint s perms path expiry parent = Ok (s', t) → ids_below (handed ++ [t]) alien s'.
Proof.
  intros (Hn & Hh & Ht) Hb. unfold cs_mint. rewrite ct_signable_spec. cbn [res_bind].
  intros [= <- <-]. unfold ids_below; cbn [cs_next_token_id cs_tokens cs_with_tokens].
  rewrite (wrap_id 32) by (unfold is_u; lia). rewrite length_app. cbn [length]. split_and!; try lia.
  - apply Forall_app. split; [|constructor; [cbn; lia|done]].
    eapply Forall_impl; [done|]. intros t Ht'; cbn in *; lia.
  - intros i. rewrite lookup_insert_is_Some. intros [<-|[_ Hi]]; [cbn; lia|].
    destruct (Ht i Hi); [left; lia|by right].
Qed.
Lemma ids_below_refused handed alien s :
  ids_below handed alien s → ids_below (handed ++ [ct_invalid]) alien s.
Proof.
  intros (Hn & Hh & Ht). split_and!; [lia|rewrite length_app; lia| |done].
  apply Forall_app. split; [done|]. constructor; [cbn; lia|done].
Qed.
Lemma ids_below_op handed alien s op s' ts :
  ids_below handed alien s → Z.of_nat (length (handed ++ ts)) < 2 ^ 32 - 1 →
  cap_op s op = Ok (s', ts) → ids_below (handed ++ ts) (alien ++ brought [op]) s'.
Proof.
  intros Hi Hb. destruct op; cbn [cap_op brought omap list_omap]; rewrite ?app_nil_r.
  - intros ([s1 t] & Hm & [= <- <-])%bind_Ok. eapply ids_below_mint; [done| |done].
    rewrite length_app in Hb. cbn [length snd] in Hb. lia.
  - intros ([s1 t] & Hm & [= <- <-])%bind_Ok. rewrite length_app in Hb. cbn [length snd] in Hb.
    unfold cs_attenuate in Hm.
    repeat case_match; simplify_eq; [by apply ids_below_refused..|].
    eapply ids_below_mint; [done|lia|done].
  - intros [= <- <-]. destruct Hi as (Hn & Hh & Ht). rewrite app_nil_r. split; [done|split; [done|]].
    intros i. cbn [cs_store cs_with_tokens cs_tokens]. rewrite lookup_insert_is_Some.
    intros [<-|[_ Hi]]; [right; set_solver|].
    destruct (Ht i Hi); [by left|right; set_solver].
  - intros [= <- <-]. destruct Hi as (Hn & Hh & Ht). rewrite app_nil_r. split; [done|split; [done|]].
    intros i. cbn [cs_revoke fst cs_with_tokens cs_tokens]. rewrite lookup_delete_is_Some. intros [_ Hi]. by apply Ht.
  - intros [= <- <-]. destruct Hi as (Hn & Hh & Ht). rewrite app_nil_r. split; [done|split; [done|]].
    intros i [t [Hl _]%map_lookup_filter_Some]. apply Ht. by exists t.
  - intros [= <- <-]. by rewrite app_nil_r.
Qed.
Lemma ids_below_run handed alien ops s s' ts :
  ids_below handed alien s → Z.of_nat (length handed + length ts) < 2 ^ 32 - 1 →
  cap_run ops s = Ok (s', ts) → ids_below (handed ++ ts) (alien ++ brought ops) s'.
Proof.
  revert handed alien s ts. induction ops as [|op ops IH]; intros handed alien s ts Hi Hb; cbn [cap_run].
  { intros [= <- <-]. by rewrite !app_nil_r. }
  intros ([s1 t1] & H1 & ([s2 t2] & H2 & [= <- <-])%bind_Ok)%bind_Ok.
  rewrite length_app in Hb. rewrite app_assoc.
  replace (alien ++ brought (op :: ops)) with ((alien ++ brought [op]) ++ brought ops).
  2: { rewrite <-app_assoc. f_equal. unfold brought. cbn. by destruct op. }
  eapply IH; [eapply ids_below_op; [done| |done]| |done]; rewrite length_app; cbn [snd] in *; lia.
Qed.
(** What no operation changes, and the width of the counter. *)
Definition store_of (keys : KeyPair) (node_id : Z) (s : CapabilityStore) : Prop :=
  cs_keys s = keys ∧ cs_node_id s = node_id ∧ is_u32 (cs_next_token_id s).
Lemma store_of_run keys node ops s s' ts :
  store_of keys node s → cap_run ops s = Ok (s', ts) → store_of keys node s'.
Proof.
  assert (∀ s a b c d s' t, store_of keys node s → cs_mint s a b c d = Ok (s', t) →
            store_of keys node s') as Hmint.
  { intros s0 a b c d s1 t (? & ? & ?). unfold cs_mint. rewrite ct_signable_spec. cbn [res_bind].
    intros [= <- <-]. split_and!; [done..|]. by apply wrap_is_u. }
  revert s ts. induction ops as [|op ops IH]; intros s ts Hs; cbn [cap_run].
  { by intros [= <- <-]. }
  intros ([s1 t1] & H1 & ([s2 t2] & H2 & [= <- <-])%bind_Ok)%bind_Ok.
  eapply IH; [|done]. destruct op; cbn [cap_op] in H1; try (by simplify_eq).
  - apply bind_Ok in H1 as ([s3 t] & Hm & [= <- <-]). by eapply Hmint.
  - apply bind_Ok in H1 as ([s3 t] & Hm & [= <- <-]). unfold cs_attenuate in Hm.
    repeat case_match; simplify_eq; [done..|by eapply Hmint].
Qed.

(** C35: Issued capabilities are fresh, and authentic on arrival.  After any sequence
    of operations on a node's store, [issue] with a valid key pair returns a root
    token that the store remembers under its identifier, every other stored token
    unchanged; its bytes decode at the receiver to the same token whatever follows
    them, and it verifies under the issuer's public key.  While fewer than 2^32 - 1
    tokens have been handed out the identifier is new: it is not 0 (the mark of a
    refused attenuation), no token handed out before carries it, nothing is stored
    under it unless a token of that identifier was brought in by [store], and the
    next identifier is its successor.  Decoding arbitrary bytes never reads outside
    them. *)
Theorem capability_issue_verifies keys node ops s handed path perms expiry rest junk :
  kp_valid keys → is_u32 node → cap_run ops (cs_new keys node) = Ok (s, handed) →
  is_u8 perms → is_u32 expiry → is_u16 (Z.of_nat (length path)) →
  ∃ s' t bs, cs_issue s path perms expiry = Ok (s', t) ∧
    (Z.of_nat (length handed) < 2 ^ 32 - 1 →
       ct_token_id t ≠ 0 ∧ ct_token_id t ∉ ct_token_id <$> handed ∧
       (ct_token_id t ∉ brought ops → cs_tokens s !! ct_token_id t = None) ∧
       (Z.of_nat (length handed) < 2 ^ 32 - 2 → cs_next_token_id s' = ct_token_id t + 1)) ∧
    ct_issuer_id t = node ∧ ct_permissions t = perms ∧ ct_path_pattern t = path ∧
    ct_expiry_us t = expiry ∧ ct_parent_token_id t = 0 ∧
    cs_tokens s' !! ct_token_id t = Some t ∧
    (∀ i, i ≠ ct_token_id t → cs_tokens s' !! i = cs_tokens s !! i) ∧
    ct_encode t = Ok bs ∧ ct_decode (bs ++ rest) = Ok t ∧
    cs_verify_token s t (kp_public_key keys) = Ok true ∧
    safe (ct_decode junk).
Proof.
  intros Hk Hid Hrun Hp He Hl.
  destruct (store_of_run keys node ops (cs_new keys node) s handed) as (Hks & Hns & Hn); [done..|].
  destruct (cs_mint_spec s perms path expiry 0)
    as (s' & t & Hm & E1 & E2 & E3 & E4 & E5 & E6 & E7 & E8 & E9 & E10); [by rewrite Hks|].
  assert (ct_ok t) as Hok by (unfold ct_ok; rewrite E1, E2, E3, E4, E5, E6, Hns; done).
  exists s', t, (ct_signable t ++ ct_signature t). split_and!; try done.
  - intros Hb. destruct (ids_below_run [] [] ops (cs_new keys node) s handed) as (Hr & Hh & Ht);
      [apply ids_below_new|done|done|].
    cbn [app] in *. rewrite E1. split_and!; [lia| | |].
    + intros (u & Hu & Hin)%list_elem_of_fmap. rewrite Forall_forall in Hh. specialize (Hh u Hin). lia.
    + intros Hbr. apply eq_None_not_Some. intros Hi. destruct (Ht _ Hi); [lia|done].
    + intros Hb2. rewrite E10, (wrap_id 32); [done|]. unfold is_u; lia.
  - congruence.
  - by rewrite E9, lookup_insert_eq.
  - intros i Hi. by rewrite E9, lookup_insert_ne.
  - by apply ct_encode_spec.
  - rewrite <-app_assoc. by apply ct_decode_bytes.
  - by rewrite <-Hks.
  - apply ct_decode_safe.
Qed.

Lemma land_subset a b p : Z.land a (Z.lnot b) = 0 → Z.land a p ≠ 0 → Z.land b p ≠ 0.
Proof.
  intros Hs Hp Hb. apply Hp. apply Z.bits_inj'. intros n Hn.
  apply (f_equal (λ z, Z.testbit z n)) in Hs, Hb. rewrite Z.bits_0 in *.
  rewrite !Z.land_spec, Z.lnot_spec in * by done.
  destruct (Z.testbit a n), (Z.testbit b n), (Z.testbit p n); done.
Qed.

(** C36: Attenuation only narrows.  Attenuating any parent token returns; either
    it is refused (token identifier 0, store unchanged), or the child is derived
    from that parent, verifies under the issuer's key, grants no permission the
    parent does not grant, and never outlives it: whenever the parent is expired
    the child is.  A child path with the parent's pattern text, or one matching it,
    is never refused for its path. *)
Theorem capability_attenuation s parent path perms expiry :
  kp_valid (cs_keys s) → is_u32 (ct_expiry_us parent) →
  ∃ s' t, cs_attenuate s parent path perms expiry = Ok (s', t) ∧
    (s' = s ∧ t = ct_invalid ∧ ct_token_id t = 0
     ∨ ct_parent_token_id t = ct_token_id parent ∧ ct_path_pattern t = path ∧
       cs_tokens s' !! ct_token_id t = Some t ∧
       cs_verify_token s t (kp_public_key (cs_keys s)) = Ok true ∧
       (∀ p, ct_has_permission t p = true → ct_has_permission parent p = true) ∧
       (∀ now, ct_is_expired parent now = true → ct_is_expired t now = true)) ∧
    (Z.land perms (Z.lnot (ct_permissions parent)) = 0 →
     (ct_expiry_us parent = 0 ∨ 0 < expiry ≤ ct_expiry_us parent) →
     sp_matches (sp_new path) (sp_new (ct_path_pattern parent)) = true ∨ path = ct_path_pattern parent →
     ct_token_id t = cs_next_token_id s ∧ ct_permissions t = perms).
Proof.
  intros Hk Hpe. unfold cs_attenuate.
  destruct (Z.eqb_spec (Z.land perms (Z.lnot (ct_permissions parent))) 0) as [Hsub|Hsub]; cbn [negb].
  2: { exists s, ct_invalid. split; [done|]. split; [by left|]. done. }
  destruct (negb (ct_expiry_us parent =? 0) && _) eqn:Hex.
  { exists s, ct_invalid. split; [done|]. split; [by left|]. intros _ Hx _. exfalso.
    apply andb_prop in Hex as [?%negb_true_iff%Z.eqb_neq [?%Z.eqb_eq|?%Z.ltb_lt]%orb_prop]; lia. }
  match goal with |- context [if ?b then _ else _] => destruct b eqn:Hpath end.
  { exists s, ct_invalid. split; [done|]. split; [by left|]. intros _ _ Hx. exfalso.
    apply andb_prop in Hpath as [[?%negb_true_iff ?%negb_true_iff%bool_decide_eq_false]%andb_prop _].
    destruct Hx; congruence. }
  destruct (cs_mint_spec s perms path expiry (ct_token_id parent) Hk)
    as (s' & t & Hm & E1 & E2 & E3 & E4 & E5 & E6 & E7 & E8 & E9 & _).
  exists s', t. split; [done|]. split; [right|by intros; split]. split_and!; try done.
  - by rewrite E9, lookup_insert_eq.
  - unfold ct_has_permission. rewrite E3. intros p.
    rewrite !negb_true_iff, !Z.eqb_neq. by apply land_subset.
  - unfold ct_is_expired. rewrite E5. intros now.
    destruct (Z.eqb_spec (ct_expiry_us parent) 0) as [|Hp0]; [done|]. intros Hlt%Z.ltb_lt.
    cbn [negb andb] in Hex. apply orb_false_elim in Hex as [He0%Z.eqb_neq He1%Z.ltb_ge].
    rewrite (proj2 (Z.eqb_neq _ _)) by done. apply Z.ltb_lt. lia.
Qed.

(** ** Lookup in the store *)
Context `{UnorderedIter}.
Lemma cs_find_Some s path perm now t :
  cs_find_capability s path perm now = Some t →
  (∃ i, cs_tokens s !! i = Some t) ∧ ct_grants path perm now t = true.
Proof.
  unfold cs_find_capability. destruct (filter _ _) as [|[i t'] l] eqn:E; [done|].
  intros [= <-]. assert ((i, t') ∈ (i, t') :: l) as Hin by constructor. rewrite <-E in Hin.
  apply list_elem_of_filter in Hin as [Hg Hin]. apply elem_of_uiter in Hin. split; [by exists i|done].
Qed.
Lemma cs_find_None s path perm now :
  cs_find_capability s path perm now = None ↔
  ∀ i t, cs_tokens s !! i = Some t → ct_grants path perm now t = false.
Proof.
  unfold cs_find_capability. split.
  - intros E i t Hl. destruct (ct_grants path perm now t) eqn:Hg; [|done]. exfalso.
    assert ((i, t) ∈ filter (λ p : Z * CapabilityToken, ct_grants path perm now p.2 = true)
              (uiter (cs_tokens s))) as Hin.
    { apply list_elem_of_filter. split; [done|]. by apply elem_of_uiter. }
    destruct (filter _ _); [by apply not_elem_of_nil in Hin|done].
  - intros Hall. destruct (filter _ _) as [|[i t'] l] eqn:E; [done|]. exfalso.
    assert ((i, t') ∈ (i, t') :: l) as Hin by constructor. rewrite <-E in Hin.
    apply list_elem_of_filter in Hin as [Hg Hin]. apply elem_of_uiter, Hall in Hin. simpl in *. congruence.
Qed.

(** Access decisions.  A capability is found for a path and permission exactly
    when some stored token is unexpired, carries the permission and covers the path,
    whatever the iteration order of the hash map; what is found has these
    properties.  Garbage collection at time [now] changes no decision at that time,
    and revoking a token removes exactly that token's authority. *)
Theorem capability_decision s path perm now id :
  (is_Some (cs_find_capability s path perm now) ↔
     ∃ i t, cs_tokens s !! i = Some t ∧ ct_is_expired t now = false ∧
       ct_has_permission t perm = true ∧ ct_covers t path = true) ∧
  (is_Some (cs_find_capability (cs_gc s now).1 path perm now)
     ↔ is_Some (cs_find_capability s path perm now)) ∧
  (is_Some (cs_find_capability (cs_revoke s id).1 path perm now) ↔
     ∃ i t, i ≠ id ∧ cs_tokens s !! i = Some t ∧ ct_grants path perm now t = true).
Proof.
  assert (∀ s, is_Some (cs_find_capability s path perm now) ↔
            ∃ i t, cs_tokens s !! i = Some t ∧ ct_grants path perm now t = true) as Hiff.
  { intros s0. split.
    - intros [t Ht]. apply cs_find_Some in Ht as [[i Hi] Hg]. by exists i, t.
    - intros (i & t & Hi & Hg). apply not_eq_None_Some. rewrite cs_find_None.
      intros Hall. rewrite (Hall i t Hi) in Hg. done. }
  split_and!; rewrite !Hiff.
  - unfold ct_grants. split; intros (i & t & Hi & Hg); exists i, t; (split; [done|]).
    + apply andb_prop in Hg as [[?%negb_true_iff ?]%andb_prop ?]. done.
    + destruct Hg as (-> & -> & ->). done.
  - unfold cs_gc; simpl. split; intros (i & t & Hi & Hg); exists i, t; (split; [|done]).
    + by apply map_lookup_filter_Some in Hi as [? _].
    + apply map_lookup_filter_Some. split; [done|]. simpl. unfold ct_grants in Hg.
      by apply andb_prop in Hg as [[?%negb_true_iff ?]%andb_prop ?].
  - unfold cs_revoke; simpl. split.
    + intros (i & t & [? ?]%lookup_delete_Some & Hg). exists i, t. done.
    + intros (i & t & Hne & Hi & Hg). exists i, t. split; [|done]. by rewrite lookup_delete_ne.
Qed.
End StoreFacts.

(** ** Concrete stores *)
Definition toy_keys (n : Z) : KeyPair := @kp_from_seed toy_ed25519 (replicate 32 n).
Lemma toy_keys_valid n : @kp_valid toy_ed25519 (toy_keys n).
Proof. by exists (replicate 32 n). Qed.
(** The path [/a/b]. *)
Definition path_ab : bytes := [47; 97; 47; 98].
Definition path_cd : bytes := [47; 99; 47; 100].

Definition token_ab : CapabilityToken :=
  {| ct_token_id := 1; ct_issuer_id := 5; ct_permissions := 3; ct_path_pattern := path_ab;
     ct_expiry_us := 1000; ct_parent_token_id := 0; ct_signature := replicate 64 0 |}.
(** A store that issued one token, attenuated another to a second one, had an
    attenuation refused and revoked its first token: the next token is number 3. *)
Definition cap_history : list CapOp :=
  [CO_issue path_ab CAP_WRITE 900; CO_attenuate token_ab path_ab CAP_READ 900;
   CO_attenuate token_ab path_ab CAP_GRANT 900; CO_revoke 1].
Lemma capability_issue_verifies_witness :
  ∃ s handed s' t bs,
    @cap_run toy_xxhash toy_ed25519 cap_history (cs_new (toy_keys 7) 5) = Ok (s, handed) ∧
    ct_token_id <$> handed = [1; 2; 0] ∧ @cs_issue toy_ed25519 s path_ab CAP_WRITE 900 = Ok (s', t) ∧
    ct_token_id t ∉ [1; 2; 0] ∧ cs_tokens s !! ct_token_id t = None ∧
    ct_encode t = Ok bs ∧ ct_decode (bs ++ [1; 2]) = Ok t ∧
    @cs_verify_token toy_ed25519 s t (kp_public_key (toy_keys 7)) = Ok true.
Proof.
  destruct (@cap_run toy_xxhash toy_ed25519 cap_history (cs_new (toy_keys 7) 5)) as [[s handed]| |] eqn:Er;
    [|vm_compute in Er; discriminate Er|vm_compute in Er; discriminate Er].
  assert (ct_token_id <$> handed = [1; 2; 0]) as Eh
    by (vm_compute in Er; injection Er as _ <-; vm_compute; reflexivity).
  assert (is_u32 5 ∧ is_u8 CAP_WRITE ∧ is_u32 900 ∧ is_u16 (Z.of_nat (length path_ab)))
    as (H2 & H3 & H4 & H5) by by_decide.
  destruct (@capability_issue_verifies toy_xxhash toy_ed25519 (toy_keys 7) 5 cap_history s handed
    path_ab CAP_WRITE 900 [1; 2] [] (toy_keys_valid 7) H2 Er H3 H4 H5)
    as (s' & t & bs & E1 & Hf & _ & _ & _ & _ & _ & _ & _ & E2 & E3 & E4 & _).
  destruct Hf as (_ & Hf1 & Hf2 & _).
  { rewrite <-(length_fmap ct_token_id), Eh. reflexivity. }
  rewrite Eh in Hf1. exists s, handed, s', t, bs.
  split; [reflexivity|]. split; [exact Eh|]. split; [exact E1|]. split; [exact Hf1|].
  split; [apply Hf2; apply not_elem_of_nil|]. exact (conj E2 (conj E3 E4)).
Defined.

Lemma capability_attenuation_witness :
  ∃ s' t, @cs_attenuate toy_xxhash toy_ed25519 (cs_new (toy_keys 7) 5) token_ab path_ab CAP_READ 900
            = Ok (s', t) ∧ ct_permissions t = CAP_READ.
Proof.
  assert (is_u32 (ct_expiry_us token_ab)) as H1 by by_decide.
  destruct (@capability_attenuation toy_xxhash toy_ed25519 (cs_new (toy_keys 7) 5) token_ab path_ab
    CAP_READ 900 (toy_keys_valid 7) H1) as (s' & t & E1 & _ & E2).
  exists s', t. split; [exact E1|]. apply E2; [reflexivity|right; by_decide|right; reflexivity].
Defined.

(** The path of an attenuated capability is not confined to its parent.  The
    header requires the new capability to be "a subset of the parent's permissions
    and path"; a token for [/a/b] is attenuated to a token for [/c/d], which covers
    a path the parent does not cover, because only the number of segments is
    compared when the child does not match. *)
Theorem attenuation_path_escape :
  ∃ s' t, @cs_attenuate toy_xxhash toy_ed25519 (cs_new (toy_keys 7) 5) token_ab path_cd CAP_WRITE 900
            = Ok (s', t) ∧ ct_token_id t ≠ 0 ∧
    @ct_covers toy_xxhash t (@sp_new toy_xxhash path_cd) = true ∧
    @ct_covers toy_xxhash token_ab (@sp_new toy_xxhash path_cd) = false ∧
    ct_has_permission t CAP_WRITE = true.
Proof.
  destruct (@cs_mint_spec toy_ed25519 (cs_new (toy_keys 7) 5) CAP_WRITE path_cd 900 1 (toy_keys_valid 7))
    as (s' & t & Hm & E1 & E2 & E3 & E4 & E5 & _).
  exists s', t. split; [exact Hm|]. unfold ct_covers, ct_has_permission. rewrite E1, E3, E4.
  split; [done|]. split_and!; vm_compute; reflexivity.
Qed.
