(* ===== verification/Float64.v ===== *)
(** * IEEE-754 double precision

    The [double] arithmetic of the routing and congestion components, on the
    Standard Library's specification floats: round to nearest, ties to even, with
    every operation rounded to double precision (no extended intermediate
    results, no fused multiply-add).  Decimal literals of the sources are written
    as a quotient of two exact integers, which rounds correctly. *)
From Stdlib Require Import SpecFloat.
From S2P Require Import Prelude.

Definition f64 : Type := spec_float.
Definition f64_prec : Z := 53.
Definition f64_emax : Z := 1024.
Definition f64_add : f64 → f64 → f64 := SFadd f64_prec f64_emax.
Definition f64_sub : f64 → f64 → f64 := SFsub f64_prec f64_emax.
Definition f64_mul : f64 → f64 → f64 := SFmul f64_prec f64_emax.
Definition f64_div : f64 → f64 → f64 := SFdiv f64_prec f64_emax.
Definition f64_abs : f64 → f64 := SFabs.
(** [static_cast<double>] of an integer of at most 53 bits is exact. *)
Definition f64_of_Z (z : Z) : f64 := binary_normalize f64_prec f64_emax z 0 false.
(** The literal [n/d]. *)
Definition f64_lit (n d : Z) : f64 := f64_div (f64_of_Z n) (f64_of_Z d).
Definition f64_lt : f64 → f64 → bool := SFltb.
Definition f64_le : f64 → f64 → bool := SFleb.
Definition f64_gt (a b : f64) : bool := f64_lt b a.
Definition f64_ge (a b : f64) : bool := f64_le b a.
Definition f64_eq : f64 → f64 → bool := SFeqb.
Definition f64_is_nan (x : f64) : bool := match x with S754_nan => true | _ => false end.

(** [static_cast<uint32_t>] truncates; it is undefined when the truncated value
    is not representable, which is [Oob] here. *)
Definition f64_trunc (x : f64) : option Z :=
  match x with
  | S754_zero _ => Some 0
  | S754_finite s m e =>
      let v := if 0 <=? e then Zpos m * 2 ^ e else Zpos m / 2 ^ (- e) in
      Some (if s then - v else v)
  | _ => None
  end.
Definition f64_to_u32 (x : f64) : res Z :=
  match f64_trunc x with
  | Some z => if (0 <=? z) && (z <? 2 ^ 32) then Ok z else Oob
  | None => Oob
  end.

#[global] Instance f64_eq_dec : EqDecision f64.
Proof. solve_decision. Defined.

(** ** Comparison is a strict weak order on the floats that are not NaN *)

(** Class, exponent and mantissa, ordered lexicographically. *)
Definition f64_key (x : f64) : Z * Z * Z :=
  match x with
  | S754_infinity true => (0, 0, 0)
  | S754_finite true m e => (1, - e, - Zpos m)
  | S754_zero _ => (2, 0, 0)
  | S754_finite false m e => (3, e, Zpos m)
  | S754_infinity false | S754_nan => (4, 0, 0)
  end.
Definition lex_lt (a b : Z * Z * Z) : Prop :=
  a.1.1 < b.1.1 ∨ a.1.1 = b.1.1 ∧ (a.1.2 < b.1.2 ∨ a.1.2 = b.1.2 ∧ a.2 < b.2).

Lemma SFcompare_lt x y :
  f64_is_nan x = false → f64_is_nan y = false →
  SFcompare x y = Some Lt ↔ lex_lt (f64_key x) (f64_key y).
Proof.
  unfold lex_lt. destruct x as [s|s| |s m e], y as [s'|s'| |s' m' e']; try done; intros _ _;
    try destruct s; try destruct s'; simpl; try (split; [done|lia]); try (split; [lia|done]).
  all: change (PosDef.Pos.compare_cont Eq m m') with (m ?= m')%positive.
  all: destruct (Z.compare_spec e e') as [->|Hl|Hl]; try (split; [done|lia]); try (split; [lia|done]).
  all: destruct (Pos.compare_spec m m') as [->|Hm|Hm]; simpl;
    try (split; [done|lia]); try (split; [lia|done]).
Qed.
Lemma f64_lt_lex x y :
  f64_is_nan x = false → f64_is_nan y = false →
  f64_lt x y = true ↔ lex_lt (f64_key x) (f64_key y).
Proof.
  intros Hx Hy. rewrite <-(SFcompare_lt x y) by done. unfold f64_lt, SFltb.
  destruct (SFcompare x y) as [[]|]; split; congruence.
Qed.
Lemma SFcompare_eq x y :
  f64_is_nan x = false → f64_is_nan y = false →
  SFcompare x y = Some Eq ↔ f64_key x = f64_key y.
Proof.
  destruct x as [s|s| |s m e], y as [s'|s'| |s' m' e']; try done; intros _ _;
    try destruct s; try destruct s'; simpl; try (split; [done|congruence]); try done.
  all: change (PosDef.Pos.compare_cont Eq m m') with (m ?= m')%positive.
  all: destruct (Z.compare_spec e e') as [->|Hl|Hl];
    try (split; [done|intros E; injection E; lia]).
  all: destruct (Pos.compare_spec m m') as [->|Hm|Hm]; simpl; try done;
    try (split; [done|intros E; injection E; lia]).
Qed.
Lemma SFcompare_nan x y :
  f64_is_nan x = true ∨ f64_is_nan y = true → SFcompare x y = None.
Proof. destruct x, y; simpl; intros []; try done; by repeat case_match. Qed.
Lemma f64_lt_not_nan x y : f64_lt x y = true → f64_is_nan x = false ∧ f64_is_nan y = false.
Proof.
  intros Hlt. destruct (f64_is_nan x) eqn:Ex; [|destruct (f64_is_nan y) eqn:Ey; [|done]];
    exfalso; revert Hlt; unfold f64_lt, SFltb; rewrite SFcompare_nan by auto; done.
Qed.

Lemma f64_lt_irrefl x : f64_lt x x = false.
Proof.
  destruct (f64_lt x x) eqn:E; [|done]. destruct (f64_lt_not_nan _ _ E).
  apply f64_lt_lex in E; [|done..]. unfold lex_lt in E. lia.
Qed.
Lemma f64_lt_trans x y z : f64_lt x y = true → f64_lt y z = true → f64_lt x z = true.
Proof.
  intros H1 H2. destruct (f64_lt_not_nan _ _ H1), (f64_lt_not_nan _ _ H2).
  apply f64_lt_lex in H1, H2; [|done..]. apply f64_lt_lex; [done..|]. unfold lex_lt in *. lia.
Qed.
Lemma f64_nlt_trans x y z :
  f64_is_nan x = false → f64_is_nan y = false → f64_is_nan z = false →
  f64_lt x y = false → f64_lt y z = false → f64_lt x z = false.
Proof.
  intros Hx Hy Hz. rewrite <-!not_true_iff_false, !f64_lt_lex by done. unfold lex_lt. lia.
Qed.
(** Without NaN, [<=] is the negation of the flipped [<]. *)
Lemma f64_le_not_lt x y :
  f64_is_nan x = false → f64_is_nan y = false → f64_le x y = negb (f64_lt y x).
Proof.
  intros Hx Hy. apply eq_true_iff_eq. rewrite negb_true_iff, <-not_true_iff_false, f64_lt_lex by done.
  unfold f64_le, SFleb. pose proof (SFcompare_lt x y Hx Hy) as P. pose proof (SFcompare_eq x y Hx Hy) as Q.
  assert (∃ c, SFcompare x y = Some c) as [c Hc].
  { destruct x as [s|s| |s m e], y as [s'|s'| |s' m' e']; try done; simpl; eauto. }
  rewrite Hc in *. clear Hc. unfold lex_lt in *.
  destruct (f64_key x) as [[a1 b1] c1], (f64_key y) as [[a2 b2] c2]; simpl in *.
  assert ((a1, b1, c1) = (a2, b2, c2) ↔ a1 = a2 ∧ b1 = b2 ∧ c1 = c2) as E by naive_solver.
  destruct c.
  - destruct Q as [Q _]. specialize (Q eq_refl). apply E in Q. split; [lia|done].
  - destruct P as [P _]. specialize (P eq_refl). split; [lia|done].
  - split; [done|]. intros Hn. exfalso.
    assert (¬ (a1 = a2 ∧ b1 = b2 ∧ c1 = c2)) by (rewrite <-E, <-Q; done).
    assert (¬ (a1 < a2 ∨ a1 = a2 ∧ (b1 < b2 ∨ b1 = b2 ∧ c1 < c2))) by (rewrite <-P; done). lia.
Qed.

(** ** No operation makes a NaN out of a number and a finite number *)
Definition f64_is_finite (x : f64) : bool :=
  match x with S754_zero _ | S754_finite _ _ _ => true | _ => false end.
Lemma f64_finite_not_nan x : f64_is_finite x = true → f64_is_nan x = false.
Proof. by destruct x. Qed.

Lemma shr_1_nonneg r : 0 ≤ shr_m r → 0 ≤ shr_m (shr_1 r).
Proof. destruct r as [m rr s]; simpl. destruct m as [|[]|[]]; simpl; lia. Qed.
Lemma iter_shr_nonneg p r : 0 ≤ shr_m r → 0 ≤ shr_m (SpecFloat.iter_pos shr_1 p r).
Proof.
  revert r. induction p as [p IH|p IH|]; intros r Hr; simpl;
    repeat (apply IH); try apply shr_1_nonneg; try done; by apply shr_1_nonneg.
Qed.
Lemma shr_fexp_nonneg prec emax m e l : 0 ≤ m → 0 ≤ shr_m (shr_fexp prec emax m e l).1.
Proof.
  intros Hm. unfold shr_fexp, shr.
  assert (0 ≤ shr_m (shr_record_of_loc m l)) by (destruct l as [|[]]; simpl; lia).
  case_match; simpl; try done. by apply iter_shr_nonneg.
Qed.
Lemma round_nearest_even_nonneg m l : 0 ≤ m → 0 ≤ round_nearest_even m l.
Proof. intros. unfold round_nearest_even. repeat case_match; lia. Qed.
Lemma binary_round_aux_not_nan prec emax sx m e l :
  0 ≤ m → f64_is_nan (binary_round_aux prec emax sx m e l) = false.
Proof.
  intros Hm. unfold binary_round_aux.
  pose proof (shr_fexp_nonneg prec emax m e l Hm) as H1.
  destruct (shr_fexp prec emax m e l) as [r1 e1]. simpl in H1.
  pose proof (shr_fexp_nonneg prec emax (round_nearest_even (shr_m r1) (loc_of_shr_record r1)) e1
    loc_Exact (round_nearest_even_nonneg _ _ H1)) as H2.
  destruct (shr_fexp _ _ _ e1 _) as [r2 e2]. simpl in H2.
  destruct (shr_m r2); [done|by case_match|lia].
Qed.
Lemma binary_normalize_not_nan prec emax m e s :
  f64_is_nan (binary_normalize prec emax m e s) = false.
Proof.
  unfold binary_normalize, binary_round. case_match; try done;
    destruct (shl_align _ _ _); by apply binary_round_aux_not_nan.
Qed.
Lemma f64_add_not_nan x y :
  f64_is_nan x = false → f64_is_finite y = true → f64_is_nan (f64_add x y) = false.
Proof.
  intros Hx Hy. unfold f64_add, SFadd. destruct x, y; try done;
    repeat case_match; try done; apply binary_normalize_not_nan.
Qed.
Lemma f64_sub_not_nan x y :
  f64_is_nan x = false → f64_is_finite y = true → f64_is_nan (f64_sub x y) = false.
Proof.
  intros Hx Hy. unfold f64_sub, SFsub. destruct x, y; try done;
    repeat case_match; try done; apply binary_normalize_not_nan.
Qed.
Lemma f64_mul_not_nan x y :
  f64_is_nan x = false → f64_is_finite y = true → f64_eq y (S754_zero false) = false →
  f64_is_nan (f64_mul x y) = false.
Proof.
  intros Hx Hy Hz. unfold f64_mul, SFmul. destruct x, y; try done; by apply binary_round_aux_not_nan.
Qed.
