(* ===== verification/FloatBounds.v ===== *)
(** * Interval bounds for double-precision arithmetic

    [f64_at u A B x] says that the double [x] is a number between [A] and [B] in units
    of 2^-u; [f64_in A B x] is the case of whole units.  A multiple of 2^-u below 2^(53-u)
    is a double, so rounding to nearest cannot cross it: every operation keeps such
    bounds, and a cast of a bounded double to [uint32_t] is defined and rounds down.  The
    bounds of the congestion controller follow from these lemmas without ever computing an
    error term. *)
From Stdlib Require Import SpecFloat.
From S2P Require Import Prelude.
From S2P Require Import Float64.

Definition f64_at (u A B : Z) (x : f64) : Prop :=
  match x with
  | S754_zero _ => A ≤ 0 ≤ B
  | S754_finite false m e => e ≤ - u ∧ A * 2 ^ (- e - u) ≤ Zpos m ≤ B * 2 ^ (- e - u)
  | _ => False
  end.
Abbreviation f64_in := (f64_at 0).
(** The units that leave room for every bound used here. *)
Definition unit_ok (u : Z) : Prop := 0 ≤ u ≤ 60.

(** ** Shifting a mantissa right *)

(** A shift record stands for a number in [m, m + 1); [shr_up] is its ceiling. *)
Definition shr_up (r : shr_record) : Z :=
  shr_m r + (if shr_r r || shr_s r then 1 else 0).

Lemma shr_1_floor r : 0 ≤ shr_m r → shr_m (shr_1 r) = shr_m r / 2.
Proof.
  destruct r as [[|[p|p|]|p] rr s]; cbn -[Z.div]; intros;
    Z.to_euclidean_division_equations; lia.
Qed.
Lemma shr_1_up r : 0 ≤ shr_m r → shr_up (shr_1 r) = (shr_up r + 1) / 2.
Proof.
  unfold shr_up. destruct r as [[|[p|p|]|p] [] []]; cbn -[Z.div]; intros;
    Z.to_euclidean_division_equations; lia.
Qed.

(** The record lies between [A] and [B] in units of 2^-k. *)
Definition shr_in (A B k : Z) (r : shr_record) : Prop :=
  0 ≤ shr_m r ∧ A * 2 ^ k ≤ shr_m r ∧ shr_up r ≤ B * 2 ^ k.

Lemma shr_1_in A B k r : 1 ≤ k → shr_in A B k r → shr_in A B (k - 1) (shr_1 r).
Proof.
  intros Hk (H0 & HA & HB). unfold shr_in. rewrite shr_1_floor, shr_1_up by done.
  replace (2 ^ k) with (2 ^ (k - 1) * 2) in HA, HB
    by (rewrite Z.mul_comm, <-Z.pow_succ_r by lia; f_equal; lia).
  split; [apply Z.div_pos; lia|]. split; [apply Z.div_le_lower_bound; lia|].
  assert ((shr_up r + 1) / 2 < B * 2 ^ (k - 1) + 1); [|lia].
  apply Z.div_lt_upper_bound; lia.
Qed.
Lemma iter_shr_in A B p k r :
  Zpos p ≤ k → shr_in A B k r → shr_in A B (k - Zpos p) (SpecFloat.iter_pos shr_1 p r).
Proof.
  revert k r. induction p as [p IH|p IH|]; intros k r Hk Hr; simpl.
  - replace (k - Zpos p~1) with (k - 1 - Zpos p - Zpos p) by lia.
    apply IH; [lia|]. apply IH; [lia|]. by apply shr_1_in; [lia|].
  - replace (k - Zpos p~0) with (k - Zpos p - Zpos p) by lia.
    apply IH; [lia|]. by apply IH; [lia|].
  - by apply shr_1_in.
Qed.

Lemma digits2_pos_lower m : 2 ^ (Zpos (digits2_pos m) - 1) ≤ Zpos m.
Proof.
  induction m as [m IH|m IH|]; simpl digits2_pos; [| |done];
    rewrite Pos2Z.inj_succ; unfold Z.succ;
    replace (Zpos (digits2_pos m) + 1 - 1) with (Zpos (digits2_pos m) - 1 + 1) by lia;
    rewrite Z.pow_add_r by lia; lia.
Qed.
Lemma digits2_pos_upper m : Zpos m < 2 ^ Zpos (digits2_pos m).
Proof.
  induction m as [m IH|m IH|]; simpl digits2_pos; [| |done];
    rewrite Pos2Z.inj_succ, Z.pow_succ_r by lia; lia.
Qed.
Lemma Zdigits2_le m k : 0 ≤ m → 0 ≤ k → m < 2 ^ k → Zdigits2 m ≤ k.
Proof.
  intros Hm Hk Hlt. destruct m as [|m|m]; simpl; [done| |lia].
  pose proof (digits2_pos_lower m).
  assert (Zpos (digits2_pos m) - 1 < k); [|lia]. apply (Z.pow_lt_mono_r_iff 2); lia.
Qed.

Lemma shr_fexp_in u A B m e l :
  unit_ok u → B < 2 ^ 50 → e ≤ - u → shr_in A B (- e - u) (shr_record_of_loc m l) →
  let '(r, e') := shr_fexp f64_prec f64_emax m e l in
  e' ≤ - u ∧ shr_in A B (- e' - u) r.
Proof.
  unfold unit_ok. intros Hu HB He Hin. pose proof Hin as (H0 & _ & Hup).
  assert (Hm : shr_m (shr_record_of_loc m l) = m) by (by destruct l as [|[]]).
  assert (m ≤ shr_up (shr_record_of_loc m l)) by (unfold shr_up; rewrite Hm; case_match; lia).
  rewrite Hm in H0.
  assert (m < 2 ^ (50 - e - u)).
  { replace (50 - e - u) with (50 + (- e - u)) by lia. rewrite Z.pow_add_r by lia.
    pose proof (Z.pow_pos_nonneg 2 (- e - u)). nia. }
  pose proof (Zdigits2_le m (50 - e - u) H0 ltac:(lia) ltac:(done)).
  unfold shr_fexp. set (d := fexp _ _ _ - e).
  assert (d + e ≤ - u).
  { unfold d, fexp, emin, f64_prec, f64_emax. lia. }
  clearbody d. unfold shr. destruct d as [|p|p]; [done| |done]. split; [lia|].
  replace (- (e + Zpos p) - u) with (- e - u - Zpos p) by lia. by apply iter_shr_in; [lia|].
Qed.

Lemma round_between r :
  shr_m r ≤ round_nearest_even (shr_m r) (loc_of_shr_record r) ≤ shr_up r.
Proof. destruct r as [m [] []]; unfold shr_up; simpl; repeat case_match; lia. Qed.

(** ** Rounding keeps bounds *)
Lemma binary_round_aux_in u A B m e l :
  unit_ok u → B < 2 ^ 50 → e ≤ - u → shr_in A B (- e - u) (shr_record_of_loc m l) →
  f64_at u A B (binary_round_aux f64_prec f64_emax false m e l).
Proof.
  intros Hu HB He Hin. unfold binary_round_aux.
  pose proof (shr_fexp_in u A B m e l Hu HB He Hin) as H1.
  destruct (shr_fexp _ _ m e l) as [r1 e1]. destruct H1 as [He1 (H01 & HA1 & HB1)].
  pose proof (round_between r1) as Hr. set (m1 := round_nearest_even _ _) in *. clearbody m1.
  assert (shr_in A B (- e1 - u) (shr_record_of_loc m1 loc_Exact)) as Hin1.
  { unfold shr_in, shr_up; simpl. lia. }
  pose proof (shr_fexp_in u A B m1 e1 loc_Exact Hu HB He1 Hin1) as H2.
  destruct (shr_fexp _ _ m1 e1 _) as [r2 e2]. destruct H2 as [He2 (H02 & HA2 & HB2)].
  assert (shr_m r2 ≤ shr_up r2) by (unfold shr_up; case_match; lia).
  pose proof (Z.pow_pos_nonneg 2 (- e2 - u) ltac:(lia) ltac:(lia)). unfold unit_ok in Hu.
  destruct (shr_m r2) as [|p|p]; [simpl; nia| |lia].
  unfold f64_emax, f64_prec. rewrite (proj2 (Z.leb_le _ _)) by lia. simpl. lia.
Qed.

Lemma shl_align_spec mx ex ex' :
  let '(mz, ez) := shl_align mx ex ex' in
  ez = Z.min ex ex' ∧ Zpos mz = Zpos mx * 2 ^ (ex - ez).
Proof.
  unfold shl_align. destruct (ex' - ex) as [|d|d] eqn:E.
  - split; [lia|]. rewrite Z.sub_diag. lia.
  - split; [lia|]. rewrite Z.sub_diag. lia.
  - split; [lia|]. replace (ex - ex') with (Zpos d) by lia. clear E.
    induction d as [|d IH] using Pos.peano_ind; [simpl; lia|].
    rewrite Pos.iter_succ, Pos2Z.inj_succ, Z.pow_succ_r by lia. lia.
Qed.

Lemma binary_normalize_in u A B m e s :
  unit_ok u → B < 2 ^ 50 → e ≤ 0 → 0 ≤ m → A * 2 ^ (- e) ≤ m * 2 ^ u ≤ B * 2 ^ (- e) →
  f64_at u A B (binary_normalize f64_prec f64_emax m e s).
Proof.
  unfold unit_ok. intros Hu HB He Hm [HA HU]. pose proof (Z.pow_pos_nonneg 2 (- e) ltac:(lia) ltac:(lia)).
  destruct m as [|m|m]; [simpl in *; split; nia| |lia]. simpl. unfold binary_round.
  assert (Zpos (digits2_pos m) + e ≤ 50 - u) as Hd.
  { pose proof (digits2_pos_lower m) as Hd. assert (2 ^ (Zpos (digits2_pos m) - 1 + u) < 2 ^ (50 - e)) as Hlt.
    { rewrite Z.pow_add_r by lia. replace (50 - e) with (50 + - e) by lia. rewrite Z.pow_add_r by lia.
      pose proof (Z.pow_pos_nonneg 2 u ltac:(lia) ltac:(lia)). nia. }
    apply Z.pow_lt_mono_r_iff in Hlt; lia. }
  pose proof (shl_align_spec m e (fexp f64_prec f64_emax (Zpos (digits2_pos m) + e))) as Hs.
  destruct (shl_align _ _ _) as [mz ez]. destruct Hs as [-> Hmz].
  set (ez := Z.min _ _) in *. assert (ez ≤ e ∧ ez ≤ - u) as [Hez Hezu].
  { unfold ez, fexp, emin, f64_prec, f64_emax. lia. }
  clearbody ez. apply binary_round_aux_in; [done|done|lia|]. unfold shr_in, shr_up; simpl. rewrite Hmz.
  assert (2 ^ u * 2 ^ (- ez - u) = 2 ^ (- e) * 2 ^ (e - ez)) as Hp by (rewrite <-!Z.pow_add_r by lia; f_equal; lia).
  pose proof (Z.pow_pos_nonneg 2 (e - ez) ltac:(lia) ltac:(lia)).
  pose proof (Z.pow_pos_nonneg 2 (- ez - u) ltac:(lia) ltac:(lia)).
  pose proof (Z.pow_pos_nonneg 2 u ltac:(lia) ltac:(lia)).
  generalize dependent (2 ^ (- e)); generalize dependent (2 ^ (e - ez)); generalize dependent (2 ^ (- ez - u));
    generalize dependent (2 ^ u). intros U HU0 V HV W Hmz HW E HA HU1 HE Hp. split; [nia|]. rewrite Z.add_0_r.
  split; apply (Z.mul_le_mono_pos_r _ _ U); try done.
  - replace (A * V * U) with (A * E * W) by (rewrite <-!Z.mul_assoc; f_equal; lia). nia.
  - replace (B * V * U) with (B * E * W) by (rewrite <-!Z.mul_assoc; f_equal; lia). nia.
Qed.

(** ** The arithmetic of the sources *)
Lemma f64_of_Z_at u z : unit_ok u → 0 ≤ z → z * 2 ^ u < 2 ^ 50 → f64_at u (z * 2 ^ u) (z * 2 ^ u) (f64_of_Z z).
Proof. intros Hu ? ?. apply binary_normalize_in; simpl; lia || done. Qed.
Lemma f64_of_Z_in z : 0 ≤ z < 2 ^ 50 → f64_in z z (f64_of_Z z).
Proof. intros [? ?]. apply binary_normalize_in; [by unfold unit_ok|simpl; lia..]. Qed.
Lemma f64_mul_at u u' A B C D x y :
  unit_ok u → unit_ok u' → unit_ok (u + u') → 0 ≤ A → 0 ≤ C → B * D < 2 ^ 50 → f64_at u A B x → f64_at u' C D y →
  f64_at (u + u') (A * C) (B * D) (f64_mul x y).
Proof.
  intros Hu Hu' Huu HA HC HBD. destruct x as [s|s| |[] m e], y as [s'|s'| |[] m' e']; simpl; try done.
  - nia.
  - intros ? [He ?]. pose proof (Z.pow_pos_nonneg 2 (- e' - u') ltac:(lia) ltac:(lia)). nia.
  - intros [He ?] ?. pose proof (Z.pow_pos_nonneg 2 (- e - u) ltac:(lia) ltac:(lia)). nia.
  - intros [He [Hl Hu1]] [He' [Hl' Hu1']]. apply binary_round_aux_in; [done|done|lia|].
    unfold shr_in, shr_up; simpl. replace (- (e + e') - (u + u')) with (- e - u + (- e' - u')) by lia.
    rewrite Z.pow_add_r, Pos2Z.inj_mul by lia.
    pose proof (Z.pow_pos_nonneg 2 (- e - u) ltac:(lia) ltac:(lia)).
    pose proof (Z.pow_pos_nonneg 2 (- e' - u') ltac:(lia) ltac:(lia)).
    generalize dependent (2 ^ (- e - u)). generalize dependent (2 ^ (- e' - u')). intros q Hl' Hu1' Hq p Hl Hu1 Hp.
    split; [lia|]. split.
    + replace (A * C * (p * q)) with (A * p * (C * q)) by lia. apply Z.mul_le_mono_nonneg; nia.
    + replace (B * D * (p * q)) with (B * p * (D * q)) by lia.
      rewrite Z.add_0_r. apply Z.mul_le_mono_nonneg; nia.
Qed.
Lemma f64_mul_in A B C D x y :
  0 ≤ A → 0 ≤ C → B * D < 2 ^ 50 → f64_in A B x → f64_in C D y →
  f64_in (A * C) (B * D) (f64_mul x y).
Proof. apply (f64_mul_at 0 0); by unfold unit_ok. Qed.
Lemma f64_add_at u A B C D x y :
  unit_ok u → 0 ≤ A → 0 ≤ C → B + D < 2 ^ 50 → f64_at u A B x → f64_at u C D y →
  f64_at u (A + C) (B + D) (f64_add x y).
Proof.
  intros Hu HA HC HBD. destruct x as [s|s| |[] m e], y as [s'|s'| |[] m' e']; simpl; try done.
  - intros. repeat case_match; simpl; lia.
  - intros ? [He ?]. pose proof (Z.pow_pos_nonneg 2 (- e' - u) ltac:(lia) ltac:(lia)). split; [lia|nia].
  - intros [He ?] ?. pose proof (Z.pow_pos_nonneg 2 (- e - u) ltac:(lia) ltac:(lia)). split; [lia|nia].
  - intros [He [Hl Hu1]] [He' [Hl' Hu1']]. unfold unit_ok in *.
    pose proof (shl_align_spec m e (Z.min e e')) as H1.
    pose proof (shl_align_spec m' e' (Z.min e e')) as H2.
    destruct (shl_align m e _) as [mz ez]; destruct (shl_align m' e' _) as [mz' ez'].
    destruct H1 as [-> H1], H2 as [-> H2]; simpl.
    replace (Z.min e (Z.min e e')) with (Z.min e e') in H1 by lia.
    replace (Z.min e' (Z.min e e')) with (Z.min e e') in H2 by lia.
    set (k := Z.min e e') in *. assert (k ≤ e ∧ k ≤ e') as [Hk Hk'] by lia.
    change (f64_at u (A + C) (B + D)
      (binary_normalize f64_prec f64_emax (Zpos mz + Zpos mz') k false)).
    apply binary_normalize_in; [done|done|lia|lia|]. rewrite H1, H2.
    assert (∀ f, k ≤ f → f ≤ - u → 2 ^ (- k) = 2 ^ (- f - u) * 2 ^ (f - k) * 2 ^ u) as Ek
      by (intros f ? ?; rewrite <-!Z.pow_add_r by lia; f_equal; lia).
    pose proof (Z.pow_pos_nonneg 2 (e - k) ltac:(lia) ltac:(lia)).
    pose proof (Z.pow_pos_nonneg 2 (e' - k) ltac:(lia) ltac:(lia)).
    pose proof (Z.pow_pos_nonneg 2 u ltac:(lia) ltac:(lia)).
    split; rewrite !Z.mul_add_distr_r; apply Z.add_le_mono;
      first [rewrite (Ek e) by lia; rewrite !Z.mul_assoc; do 2 (apply Z.mul_le_mono_nonneg_r; [lia|]); lia
            |rewrite (Ek e') by lia; rewrite !Z.mul_assoc; do 2 (apply Z.mul_le_mono_nonneg_r; [lia|]); lia].
Qed.
Lemma f64_add_in A B C D x y :
  0 ≤ A → 0 ≤ C → B + D < 2 ^ 50 → f64_in A B x → f64_in C D y →
  f64_in (A + C) (B + D) (f64_add x y).
Proof. apply (f64_add_at 0). by unfold unit_ok. Qed.

(** The exponent of a bounded quotient. *)
Lemma div_exponent u B C F m e m' e' :
  0 ≤ u → e ≤ - u → e' ≤ 0 → 0 < C → F < 2 ^ 50 → B ≤ F * C →
  Zpos m ≤ B * 2 ^ (- e - u) → C * 2 ^ (- e') ≤ Zpos m' →
  Zpos (digits2_pos m) + e - (Zpos (digits2_pos m') + e') ≤ 50 - u.
Proof.
  intros Hu0 He He' HC HF HB Hu Hl.
  pose proof (digits2_pos_lower m) as Hd. pose proof (digits2_pos_upper m') as Hd'.
  set (d := Zpos (digits2_pos m)) in *. set (d' := Zpos (digits2_pos m')) in *.
  assert (0 < d ∧ 0 < d') as [? ?] by (unfold d, d'; lia). clearbody d d'.
  assert (2 ^ (d - 1 + - e') < 2 ^ (50 + (- e - u) + d')) as Hlt.
  { rewrite !Z.pow_add_r by lia.
    pose proof (Z.pow_pos_nonneg 2 (- e - u) ltac:(lia) ltac:(lia)).
    pose proof (Z.pow_pos_nonneg 2 (- e') ltac:(lia) ltac:(lia)).
    pose proof (Z.pow_pos_nonneg 2 (d - 1) ltac:(lia) ltac:(lia)).
    generalize dependent (2 ^ (- e - u)); generalize dependent (2 ^ (- e'));
      generalize dependent (2 ^ (d - 1)); generalize dependent (2 ^ d').
    intros P HP Q HQ HQ0 R HR HR0 S HS HS0.
    assert (0 < B) by nia. assert (0 < F) by nia.
    assert (Q * R ≤ B * S * R) by (apply Z.mul_le_mono_nonneg_r; lia).
    assert (B * (S * R) ≤ F * C * (S * R)) by (apply Z.mul_le_mono_nonneg_r; nia).
    assert (F * S * (C * R) ≤ F * S * Zpos m') by (apply Z.mul_le_mono_nonneg_l; nia).
    assert (F * (S * Zpos m') ≤ 2 ^ 50 * (S * Zpos m')) by (apply Z.mul_le_mono_nonneg_r; nia).
    assert (2 ^ 50 * S * Zpos m' < 2 ^ 50 * S * P) by (apply Z.mul_lt_mono_pos_l; lia).
    lia. }
  apply Z.pow_lt_mono_r_iff in Hlt; lia.
Qed.
Lemma new_location_exact n k : new_location n k = loc_Exact ↔ k = 0.
Proof.
  unfold new_location, new_location_even, new_location_odd.
  repeat case_match; split; intros; try done; lia.
Qed.
Lemma shr_up_of_loc m l :
  shr_up (shr_record_of_loc m l) = m + (match l with loc_Exact => 0 | _ => 1 end).
Proof. by destruct l as [|[]]. Qed.
Lemma shr_m_of_loc m l : shr_m (shr_record_of_loc m l) = m.
Proof. by destruct l as [|[]]. Qed.

Lemma quotient_between A B C D E F p q r t m m' :
  0 ≤ E → 0 < C → E * D ≤ A → B ≤ F * C → p * t = q * r →
  0 < p → 0 < q → 0 < r → 0 < t → 0 < m →
  A * p ≤ m ≤ B * p → C * q ≤ m' ≤ D * q →
  E * r * m' ≤ m * t ∧ m * t ≤ F * r * m'.
Proof.
  intros HE HC HED HFC Hp ????? [Hl Hu] [Hl' Hu']. assert (0 < B) by nia. assert (0 < F) by nia.
  assert (E * r * m' ≤ E * r * (D * q)) by (apply Z.mul_le_mono_nonneg_l; nia).
  assert (E * D * (q * r) ≤ A * (q * r)) by (apply Z.mul_le_mono_nonneg_r; nia).
  assert (A * p * t ≤ m * t) by (apply Z.mul_le_mono_nonneg_r; lia).
  assert (m * t ≤ B * p * t) by (apply Z.mul_le_mono_nonneg_r; lia).
  assert (B * (q * r) ≤ F * C * (q * r)) by (apply Z.mul_le_mono_nonneg_r; nia).
  assert (F * r * (C * q) ≤ F * r * m') by (apply Z.mul_le_mono_nonneg_l; nia).
  assert (A * (p * t) = A * (q * r) ∧ B * (p * t) = B * (q * r)) by (by rewrite Hp). lia.
Qed.

(** A quotient: [E <= x / y <= F] from the bounds of [x] and [y]. *)
Lemma f64_div_at u A B C D E F x y :
  unit_ok u → 0 ≤ A → 0 < C → 0 ≤ E → F < 2 ^ 50 → E * D ≤ A → B ≤ F * C →
  f64_at u A B x → f64_in C D y → f64_at u E F (f64_div x y).
Proof.
  unfold unit_ok. intros Hu0 HA HC HE HF HED HFC.
  destruct x as [s|s| |[] m e], y as [s'|s'| |[] m' e']; simpl; try done; try lia.
  { intros ? [He ?]. pose proof (Z.pow_pos_nonneg 2 (- e' - 0) ltac:(lia) ltac:(lia)). nia. }
  rewrite Z.sub_0_r. intros [He [Hl Hu]] [He' [Hl' Hu']].
  pose proof (div_exponent u B C F m e m' e' ltac:(lia) He ltac:(lia) HC HF HFC Hu Hl') as Hexp.
  unfold SFdiv_core_binary, Zdigits2.
  set (k := Z.min _ _). assert (k ≤ - u ∧ k ≤ e - e') as [Hk Hk'].
  { unfold k, fexp, emin, f64_prec, f64_emax. lia. }
  clearbody k. set (n := match e - e' - k with Z0 => _ | Zpos _ => _ | Zneg _ => _ end).
  assert (n = Zpos m * 2 ^ (e - e' - k)) as Hn.
  { unfold n. destruct (e - e' - k) eqn:Ek; [lia| |lia]. by rewrite Z.shiftl_mul_pow2. }
  clearbody n. pose proof (Z.div_eucl_eq n (Zpos m') ltac:(done)) as Hq.
  pose proof (Z.mod_pos_bound n (Zpos m') ltac:(done)) as Hr. unfold Z.modulo in Hr.
  destruct (Z.div_eucl n (Zpos m')) as [q r].
  assert (E * 2 ^ (- k - u) * Zpos m' ≤ n ∧ n ≤ F * 2 ^ (- k - u) * Zpos m') as [H1 H2].
  { assert (2 ^ (- e - u) * 2 ^ (e - e' - k) = 2 ^ (- e') * 2 ^ (- k - u)) as Hp
      by (rewrite <-!Z.pow_add_r by lia; f_equal; lia).
    pose proof (Z.pow_pos_nonneg 2 (- e - u) ltac:(lia) ltac:(lia)).
    pose proof (Z.pow_pos_nonneg 2 (- e') ltac:(lia) ltac:(lia)).
    pose proof (Z.pow_pos_nonneg 2 (- k - u) ltac:(lia) ltac:(lia)).
    pose proof (Z.pow_pos_nonneg 2 (e - e' - k) ltac:(lia) ltac:(lia)). rewrite Hn.
    by apply (quotient_between A B C D E F (2 ^ (- e - u)) (2 ^ (- e'))). }
  apply binary_round_aux_in; [done|done|done|].
  unfold shr_in. rewrite shr_up_of_loc, shr_m_of_loc.
  pose proof (Z.pow_pos_nonneg 2 (- k - u) ltac:(lia) ltac:(lia)).
  pose proof (new_location_exact (Zpos m') r) as Hx.
  split; [nia|]. split; [nia|].
  destruct (new_location _ r); [nia|]. assert (r ≠ 0) by (intros ->; by destruct Hx as [_ Hx]; specialize (Hx eq_refl)). nia.
Qed.
Lemma f64_div_in A B C D E F x y :
  0 ≤ A → 0 < C → 0 ≤ E → F < 2 ^ 50 → E * D ≤ A → B ≤ F * C →
  f64_in A B x → f64_in C D y → f64_in E F (f64_div x y).
Proof. apply f64_div_at. by unfold unit_ok. Qed.

(** The cast rounds down. *)
Lemma f64_to_u32_at u A B x :
  unit_ok u → 0 ≤ A → B < 2 ^ 32 * 2 ^ u → f64_at u A B x →
  ∃ v, f64_to_u32 x = Ok v ∧ A - 2 ^ u < v * 2 ^ u ≤ B.
Proof.
  unfold unit_ok. intros Hu HA HB. pose proof (Z.pow_pos_nonneg 2 u ltac:(lia) ltac:(lia)) as Hp.
  unfold f64_to_u32. destruct x as [s|s| |[] m e]; simpl; try done.
  - intros [? ?]. exists 0. split; [done|lia].
  - intros [He [Hl Hu1]]. pose proof (Z.pow_pos_nonneg 2 (- e - u) ltac:(lia) ltac:(lia)).
    set (v := if 0 <=? e then _ else _).
    assert (0 ≤ v ∧ A - 2 ^ u < v * 2 ^ u ≤ B) as (H0 & Hv).
    { unfold v. destruct (Z.leb_spec 0 e).
      - replace e with 0 in * by lia. replace u with 0 in * by lia. simpl in *. lia.
      - assert (2 ^ (- e) = 2 ^ (- e - u) * 2 ^ u) as Ee by (rewrite <-Z.pow_add_r by lia; f_equal; lia).
        rewrite Ee. pose proof (Z.div_mod (Zpos m) (2 ^ (- e - u) * 2 ^ u) ltac:(nia)) as Hd.
        pose proof (Z.mod_pos_bound (Zpos m) (2 ^ (- e - u) * 2 ^ u) ltac:(nia)) as Hm.
        split; [apply Z.div_pos; nia|]. set (q := Zpos m / _) in *. clearbody q. split.
        + apply (Z.mul_lt_mono_pos_r (2 ^ (- e - u))); [done|]. nia.
        + apply (Z.mul_le_mono_pos_r _ _ (2 ^ (- e - u))); [done|]. nia. }
    exists v. split; [|done].
    rewrite (proj2 (Z.leb_le _ _)), (proj2 (Z.ltb_lt _ _)) by nia. done.
Qed.
Lemma f64_to_u32_in A B x :
  0 ≤ A → B < 2 ^ 32 → f64_in A B x → ∃ v, f64_to_u32 x = Ok v ∧ A ≤ v ≤ B.
Proof.
  intros HA HB Hx. destruct (f64_to_u32_at 0 A B x) as (v & E & Hv); [by unfold unit_ok|simpl; lia..|done|].
  exists v. split; [done|]. simpl in Hv. lia.
Qed.
