(* ===== verification/Congestion.v ===== *)
(** * Congestion control

    Models [include/protocoll/reliability/congestion.h] and
    [src/reliability/congestion.cpp]: the trendline estimator, the overuse detector
    and the rate controller, in double precision.  Every cast of a double to
    [uint32_t] is the partial [f64_to_u32], so a run that overflows one is [Oob];
    the theorems give the traces for which no cast overflows, the bounds of rate,
    window and pacing along them, and the reaction to each signal. *)
From S2P Require Import Prelude.
From S2P Require Import Float64.
From S2P Require Import FloatBounds.

(** ** TrendlineEstimator *)
Definition WINDOW_SIZE : nat := 20.
Definition SMOOTHING_COEFF : f64 := f64_lit 9 10.
Definition f64_0 : f64 := f64_of_Z 0.
Definition f64_1 : f64 := f64_of_Z 1.

Record Point := { pt_smoothed_delay : f64; pt_arrival_time : f64 }.
Record TrendlineEstimator := {
  te_window : list Point; te_accumulated_delay : f64; te_smoothed_delay : f64;
  te_slope : f64; te_count : Z
}.

(** The loop of the linear regression: [sum_x], [sum_y], [sum_xy], [sum_xx]. *)
Definition te_sums (w : list Point) : f64 * f64 * f64 * f64 :=
  foldl (λ '(sx, sy, sxy, sxx) p,
    (f64_add sx (pt_arrival_time p), f64_add sy (pt_smoothed_delay p),
     f64_add sxy (f64_mul (pt_arrival_time p) (pt_smoothed_delay p)),
     f64_add sxx (f64_mul (pt_arrival_time p) (pt_arrival_time p))))
    (f64_0, f64_0, f64_0, f64_0) w.
Definition te_compute_slope (w : list Point) : f64 :=
  if (length w <? 2)%nat then f64_0 else
  let '(sum_x, sum_y, sum_xy, sum_xx) := te_sums w in
  let n := f64_of_Z (Z.of_nat (length w)) in
  let denom := f64_sub (f64_mul n sum_xx) (f64_mul sum_x sum_x) in
  if f64_lt (f64_abs denom) (f64_lit 1 1000000000) then f64_0
  else f64_div (f64_sub (f64_mul n sum_xy) (f64_mul sum_x sum_y)) denom.
Definition te_push (w : list Point) (p : Point) : list Point :=
  let w := w ++ [p] in if (WINDOW_SIZE <? length w)%nat then tail w else w.
Definition te_update (t : TrendlineEstimator) (arrival_delta_ms send_delta_ms now_ms : f64)
    : TrendlineEstimator :=
  let delay_delta := f64_sub arrival_delta_ms send_delta_ms in
  let acc := f64_add (te_accumulated_delay t) delay_delta in
  let smoothed := f64_add (f64_mul SMOOTHING_COEFF (te_smoothed_delay t))
                          (f64_mul (f64_sub f64_1 SMOOTHING_COEFF) acc) in
  let w := te_push (te_window t) {| pt_smoothed_delay := smoothed; pt_arrival_time := now_ms |} in
  {| te_window := w; te_accumulated_delay := acc; te_smoothed_delay := smoothed;
     te_slope := if (2 <=? length w)%nat then te_compute_slope w else te_slope t;
     te_count := u64 (te_count t + 1) |}.
Definition te_new : TrendlineEstimator :=
  {| te_window := []; te_accumulated_delay := f64_0; te_smoothed_delay := f64_0;
     te_slope := f64_0; te_count := 0 |}.
(** Every field is overwritten, so the previous estimator does not matter. *)
Definition te_reset (_ : TrendlineEstimator) : TrendlineEstimator := te_new.

(** ** OveruseDetector *)
Inductive BandwidthUsage := NORMAL | OVERUSE | UNDERUSE.
#[global] Instance BandwidthUsage_eq_dec : EqDecision BandwidthUsage.
Proof. solve_decision. Defined.
Record OveruseDetector := { od_state : BandwidthUsage; od_overuse_timer : f64 }.
Definition od_new : OveruseDetector := {| od_state := NORMAL; od_overuse_timer := f64_0 |}.
Definition OVERUSE_THRESHOLD : f64 := f64_lit 25 2.
Definition UNDERUSE_THRESHOLD : f64 := f64_lit (-25) 2.
Definition OVERUSE_TIME_THRESHOLD_MS : f64 := f64_of_Z 10.

Definition od_detect (d : OveruseDetector) (slope : f64) : OveruseDetector :=
  if f64_gt slope OVERUSE_THRESHOLD then
    let timer := f64_add (od_overuse_timer d) f64_1 in
    {| od_state := if f64_gt timer OVERUSE_TIME_THRESHOLD_MS then OVERUSE else od_state d;
       od_overuse_timer := timer |}
  else if f64_lt slope UNDERUSE_THRESHOLD then
    {| od_state := UNDERUSE; od_overuse_timer := f64_0 |}
  else {| od_state := NORMAL; od_overuse_timer := f64_0 |}.

(** ** CongestionController *)
Inductive CongestionState := SLOW_START | STEADY | DRAIN.
#[global] Instance CongestionState_eq_dec : EqDecision CongestionState.
Proof. solve_decision. Defined.
Definition MIN_RATE_BPS : Z := 10000.
Definition INITIAL_RATE_BPS : Z := 300000.
Definition MAX_RATE_BPS : Z := 100000000.
Definition MIN_CWND : Z := 2400.
Definition INITIAL_CWND : Z := 15000.
Definition MULTIPLICATIVE_DECREASE : f64 := f64_lit 85 100.
Definition ADDITIVE_INCREASE_BPS : Z := 8000.

Record CongestionController := {
  cg_state : CongestionState; cg_send_rate_bps : Z; cg_cwnd : Z; cg_bytes_in_flight : Z;
  cg_last_update_us : Z; cg_trendline : TrendlineEstimator; cg_detector : OveruseDetector;
  cg_last_send_ts_us : Z; cg_last_arrival_ts_us : Z; cg_has_last_sample : bool
}.
(** [reset()] does not touch the detector. *)
Definition cg_reset (c : CongestionController) : CongestionController :=
  {| cg_state := SLOW_START; cg_send_rate_bps := INITIAL_RATE_BPS; cg_cwnd := INITIAL_CWND;
     cg_bytes_in_flight := 0; cg_last_update_us := 0; cg_trendline := te_reset (cg_trendline c);
     cg_detector := cg_detector c; cg_last_send_ts_us := 0; cg_last_arrival_ts_us := 0;
     cg_has_last_sample := false |}.
(** The member initialisers, then the constructor's [reset()]. *)
Definition cg_new : CongestionController :=
  cg_reset {| cg_state := SLOW_START; cg_send_rate_bps := INITIAL_RATE_BPS; cg_cwnd := INITIAL_CWND;
     cg_bytes_in_flight := 0; cg_last_update_us := 0; cg_trendline := te_new;
     cg_detector := od_new; cg_last_send_ts_us := 0; cg_last_arrival_ts_us := 0;
     cg_has_last_sample := false |}.

Definition cg_with_flight (c : CongestionController) (b : Z) : CongestionController :=
  {| cg_state := cg_state c; cg_send_rate_bps := cg_send_rate_bps c; cg_cwnd := cg_cwnd c;
     cg_bytes_in_flight := b; cg_last_update_us := cg_last_update_us c;
     cg_trendline := cg_trendline c; cg_detector := cg_detector c;
     cg_last_send_ts_us := cg_last_send_ts_us c; cg_last_arrival_ts_us := cg_last_arrival_ts_us c;
     cg_has_last_sample := cg_has_last_sample c |}.
Definition cg_with_rate (c : CongestionController) (s : CongestionState) (r : Z) : CongestionController :=
  {| cg_state := s; cg_send_rate_bps := r; cg_cwnd := cg_cwnd c;
     cg_bytes_in_flight := cg_bytes_in_flight c; cg_last_update_us := cg_last_update_us c;
     cg_trendline := cg_trendline c; cg_detector := cg_detector c;
     cg_last_send_ts_us := cg_last_send_ts_us c; cg_last_arrival_ts_us := cg_last_arrival_ts_us c;
     cg_has_last_sample := cg_has_last_sample c |}.
Definition cg_with_cwnd (c : CongestionController) (w : Z) : CongestionController :=
  {| cg_state := cg_state c; cg_send_rate_bps := cg_send_rate_bps c; cg_cwnd := w;
     cg_bytes_in_flight := cg_bytes_in_flight c; cg_last_update_us := cg_last_update_us c;
     cg_trendline := cg_trendline c; cg_detector := cg_detector c;
     cg_last_send_ts_us := cg_last_send_ts_us c; cg_last_arrival_ts_us := cg_last_arrival_ts_us c;
     cg_has_last_sample := cg_has_last_sample c |}.
Definition cg_with_detection (c : CongestionController) (t : TrendlineEstimator) (d : OveruseDetector)
    : CongestionController :=
  {| cg_state := cg_state c; cg_send_rate_bps := cg_send_rate_bps c; cg_cwnd := cg_cwnd c;
     cg_bytes_in_flight := cg_bytes_in_flight c; cg_last_update_us := cg_last_update_us c;
     cg_trendline := t; cg_detector := d;
     cg_last_send_ts_us := cg_last_send_ts_us c; cg_last_arrival_ts_us := cg_last_arrival_ts_us c;
     cg_has_last_sample := cg_has_last_sample c |}.
Definition cg_with_update (c : CongestionController) (ts : Z) : CongestionController :=
  {| cg_state := cg_state c; cg_send_rate_bps := cg_send_rate_bps c; cg_cwnd := cg_cwnd c;
     cg_bytes_in_flight := cg_bytes_in_flight c; cg_last_update_us := ts;
     cg_trendline := cg_trendline c; cg_detector := cg_detector c;
     cg_last_send_ts_us := cg_last_send_ts_us c; cg_last_arrival_ts_us := cg_last_arrival_ts_us c;
     cg_has_last_sample := cg_has_last_sample c |}.
Definition cg_with_sample (c : CongestionController) (send_ts arrival_ts : Z) : CongestionController :=
  {| cg_state := cg_state c; cg_send_rate_bps := cg_send_rate_bps c; cg_cwnd := cg_cwnd c;
     cg_bytes_in_flight := cg_bytes_in_flight c; cg_last_update_us := cg_last_update_us c;
     cg_trendline := cg_trendline c; cg_detector := cg_detector c;
     cg_last_send_ts_us := send_ts; cg_last_arrival_ts_us := arrival_ts;
     cg_has_last_sample := true |}.

Definition cg_on_packet_sent (c : CongestionController) (packet_number timestamp_us size : Z)
    : CongestionController := cg_with_flight c (u32 (cg_bytes_in_flight c + size)).

(** [static_cast<uint32_t>(static_cast<double>(rate) * MULTIPLICATIVE_DECREASE)] *)
Definition rate_decrease (rate : Z) : res Z :=
  f64_to_u32 (f64_mul (f64_of_Z rate) MULTIPLICATIVE_DECREASE).
Definition us_to_sec (us : Z) : f64 := f64_div (f64_of_Z us) (f64_of_Z 1000000).
Definition us_to_ms (us : Z) : f64 := f64_div (f64_of_Z us) (f64_of_Z 1000).
Definition clamp_rate (r : Z) : Z :=
  let r := if r <? MIN_RATE_BPS then MIN_RATE_BPS else r in
  if MAX_RATE_BPS <? r then MAX_RATE_BPS else r.

(** The [switch (state_)] of [update_rate]. *)
Definition rate_switch (state : CongestionState) (rate : Z) (usage : BandwidthUsage) (elapsed_us : Z)
    : res (CongestionState * Z) :=
  match state with
  | SLOW_START =>
      if decide (usage = OVERUSE) then
        let! r := rate_decrease rate in Ok (DRAIN, r)
      else
        let growth := us_to_sec elapsed_us in
        let! r := f64_to_u32 (f64_mul (f64_of_Z rate) (f64_add f64_1 growth)) in
        Ok (SLOW_START, r)
  | STEADY =>
      if decide (usage = OVERUSE) then
        let! r := rate_decrease rate in Ok (DRAIN, r)
      else if decide (usage = NORMAL) then
        let seconds := us_to_sec elapsed_us in
        let! d := f64_to_u32 (f64_mul (f64_of_Z ADDITIVE_INCREASE_BPS) seconds) in
        Ok (STEADY, u32 (rate + d))
      else Ok (STEADY, rate)
  | DRAIN => Ok (if decide (usage = OVERUSE) then DRAIN else STEADY, rate)
  end.
Definition cg_update_rate (c : CongestionController) (usage : BandwidthUsage) (timestamp_us : Z)
    : res CongestionController :=
  let elapsed_us := u32 (timestamp_us - cg_last_update_us c) in
  if elapsed_us =? 0 then Ok c else
  let! (s, r) := rate_switch (cg_state c) (cg_send_rate_bps c) usage elapsed_us in
  Ok (cg_with_rate c s (clamp_rate r)).

Definition cg_update_cwnd_from_rate (c : CongestionController) (rtt_us : Z) : res CongestionController :=
  let rtt_sec := us_to_sec rtt_us in
  let! new_cwnd := f64_to_u32 (f64_mul (f64_of_Z (cg_send_rate_bps c)) rtt_sec) in
  Ok (cg_with_cwnd c (if new_cwnd <? MIN_CWND then MIN_CWND else new_cwnd)).

(** [if (bytes_in_flight_ >= n) bytes_in_flight_ -= n; else bytes_in_flight_ = 0;] *)
Definition cg_leave_flight (c : CongestionController) (n : Z) : CongestionController :=
  cg_with_flight c (if n <=? cg_bytes_in_flight c then cg_bytes_in_flight c - n else 0).

(** The body of [if (has_last_sample_)]. *)
Definition cg_sample (c : CongestionController) (send_ts_us ack_ts_us arrival_ts_us : Z)
    : res CongestionController :=
  let send_delta_ms := us_to_ms (u32 (send_ts_us - cg_last_send_ts_us c)) in
  let arrival_delta_ms := us_to_ms (u32 (arrival_ts_us - cg_last_arrival_ts_us c)) in
  let now_ms := us_to_ms ack_ts_us in
  let t := te_update (cg_trendline c) arrival_delta_ms send_delta_ms now_ms in
  let d := od_detect (cg_detector c) (te_slope t) in
  let! c := cg_update_rate (cg_with_detection c t d) (od_state d) ack_ts_us in
  let rtt_us := u32 (ack_ts_us - send_ts_us) in
  if 0 <? rtt_us then cg_update_cwnd_from_rate c rtt_us else Ok c.
Definition cg_on_ack_received (c : CongestionController)
    (packet_number send_ts_us ack_ts_us ack_delay_us packet_size : Z) : res CongestionController :=
  let c := cg_leave_flight c packet_size in
  let arrival_ts_us := u32 (ack_ts_us - ack_delay_us) in
  let! c := if cg_has_last_sample c then cg_sample c send_ts_us ack_ts_us arrival_ts_us else Ok c in
  Ok (cg_with_update (cg_with_sample c send_ts_us arrival_ts_us) ack_ts_us).

Definition cg_on_packet_lost (c : CongestionController) (timestamp_us packet_size : Z)
    : res CongestionController :=
  let c := cg_leave_flight c packet_size in
  let! r := rate_decrease (cg_send_rate_bps c) in
  let c := cg_with_rate c DRAIN (if r <? MIN_RATE_BPS then MIN_RATE_BPS else r) in
  let! c := cg_update_cwnd_from_rate c 100000 in
  Ok (cg_with_update c timestamp_us).

Definition cg_can_send (c : CongestionController) (packet_size : Z) : bool :=
  u32 (cg_bytes_in_flight c + packet_size) <=? cg_cwnd c.
Definition cg_pacing_delay_us (c : CongestionController) : res Z :=
  if cg_send_rate_bps c =? 0 then Ok 0 else
  let MTU := 1200 in
  f64_to_u32 (f64_mul (f64_div (f64_of_Z MTU) (f64_of_Z (cg_send_rate_bps c))) (f64_of_Z 1000000)).

(** ** Traces of calls *)
Inductive CcEvent :=
| CcSent (packet_number timestamp_us size : Z)
| CcAck (packet_number send_ts_us ack_ts_us ack_delay_us packet_size : Z)
| CcLost (timestamp_us packet_size : Z)
| CcReset.
Definition cc_step (c : CongestionController) (ev : CcEvent) : res CongestionController :=
  match ev with
  | CcSent pn ts n => Ok (cg_on_packet_sent c pn ts n)
  | CcAck pn send_ts ack_ts delay n => cg_on_ack_received c pn send_ts ack_ts delay n
  | CcLost ts n => cg_on_packet_lost c ts n
  | CcReset => Ok (cg_reset c)
  end.
Definition cc_run : CongestionController → list CcEvent → res CongestionController := res_foldl cc_step.

(** The longest pause between two updates and the longest round trip for which
    no cast of the controller can overflow. *)
Definition MAX_ELAPSED_US : Z := 41000000.
Definition MAX_RTT_US : Z := 42000000.
(** The timing of a trace: once there is a sample ([has]), each acknowledgement
    comes at most [MAX_ELAPSED_US] after the last update and has a round trip of
    at most [MAX_RTT_US]; both are differences of 32-bit clocks. *)
Definition ev_timely (has : bool) (last : Z) (ev : CcEvent) : bool :=
  match ev with
  | CcAck _ send_ts ack_ts _ _ =>
      negb has || (u32 (ack_ts - last) <=? MAX_ELAPSED_US) && (u32 (ack_ts - send_ts) <=? MAX_RTT_US)
  | _ => true
  end.
Definition ev_has (has : bool) (ev : CcEvent) : bool :=
  match ev with CcAck _ _ _ _ _ => true | CcReset => false | CcSent _ _ _ | CcLost _ _ => has end.
Definition ev_last (last : Z) (ev : CcEvent) : Z :=
  match ev with CcAck _ _ ack_ts _ _ => ack_ts | CcLost ts _ => ts | CcReset => 0 | CcSent _ _ _ => last end.
Fixpoint timely (has : bool) (last : Z) (evs : list CcEvent) : bool :=
  match evs with
  | [] => true
  | ev :: evs' => ev_timely has last ev && timely (ev_has has ev) (ev_last last ev) evs'
  end.

(** ** Bounds *)
Record cg_ok (c : CongestionController) : Prop := {
  ok_rate : MIN_RATE_BPS ≤ cg_send_rate_bps c ≤ MAX_RATE_BPS;
  ok_cwnd : MIN_CWND ≤ cg_cwnd c ≤ 42 * MAX_RATE_BPS;
  ok_flight : 0 ≤ cg_bytes_in_flight c;
  ok_window : (length (te_window (cg_trendline c)) ≤ WINDOW_SIZE)%nat
}.

(** [v] is [n] millionths, rounded down, up to four millionths of [r]. *)
Definition close_to (n v r : Z) : Prop := n - 4 * r - 1000000 ≤ 1000000 * v ≤ n + 4 * r.

(** Multiplicative decrease: 85 per cent. *)
Lemma rate_decrease_ok r :
  0 ≤ r ≤ MAX_RATE_BPS → ∃ v, rate_decrease r = Ok v ∧ 0 ≤ v ≤ r ∧ close_to (850000 * r) v r.
Proof.
  unfold MAX_RATE_BPS. intros Hr.
  destruct (f64_to_u32_at 22 (r * 3565158) (r * 3565159) (f64_mul (f64_of_Z r) MULTIPLICATIVE_DECREASE))
    as (v & Hv & Hb); [by unfold unit_ok|lia|lia| |].
  - apply (f64_mul_at 0 22); [by unfold unit_ok..|lia|lia|lia|apply f64_of_Z_in; lia|].
    vm_compute. intuition congruence.
  - exists v. split; [done|]. unfold close_to. lia.
Qed.
Lemma us_to_sec_in us F : 0 ≤ us < 2 ^ 32 → 0 ≤ F < 2 ^ 32 → us ≤ F * 1000000 → f64_in 0 F (us_to_sec us).
Proof.
  intros Hus HF Hle. apply (f64_div_in us us 1000000 1000000); [lia..| |]; apply f64_of_Z_in; lia.
Qed.
(** Seconds to within 2^-18. *)
Lemma us_to_sec_at us :
  0 ≤ us < 2 ^ 32 → f64_at 18 (us * 2 ^ 18 / 1000000) (us * 2 ^ 18 / 1000000 + 1) (us_to_sec us).
Proof.
  intros Hus. pose proof (Z.div_mod (us * 2 ^ 18) 1000000 ltac:(lia)).
  pose proof (Z.mod_pos_bound (us * 2 ^ 18) 1000000 ltac:(lia)).
  apply (f64_div_at 18 (us * 2 ^ 18) (us * 2 ^ 18) 1000000 1000000); [by unfold unit_ok|lia..| |].
  - apply f64_of_Z_at; [by unfold unit_ok|lia|lia].
  - apply f64_of_Z_in; lia.
Qed.
(** Slow start multiplies the rate by one plus the elapsed seconds. *)
Lemma rate_growth_ok r us F :
  0 ≤ r ≤ MAX_RATE_BPS → 0 ≤ us < 2 ^ 32 → 0 ≤ F → us ≤ F * 1000000 → F ≤ 41 →
  ∃ v, f64_to_u32 (f64_mul (f64_of_Z r) (f64_add f64_1 (us_to_sec us))) = Ok v ∧
       r ≤ v ≤ r * (1 + F) ∧ close_to (r * (1000000 + us)) v r.
Proof.
  unfold MAX_RATE_BPS. intros Hr Hus HF Hle HF'.
  destruct (f64_to_u32_in (r * (1 + 0)) (r * (1 + F))
    (f64_mul (f64_of_Z r) (f64_add f64_1 (us_to_sec us)))) as (v & Hv & Hb); [lia|nia| |].
  - apply f64_mul_in; [lia|lia|nia|apply f64_of_Z_in; lia|].
    apply f64_add_in; [lia..| |]; [by apply f64_of_Z_in|apply us_to_sec_in; lia].
  - exists v. split; [done|]. split; [lia|]. pose proof (us_to_sec_at us Hus) as Hsec.
    pose proof (Z.div_mod (us * 2 ^ 18) 1000000 ltac:(lia)).
    pose proof (Z.mod_pos_bound (us * 2 ^ 18) 1000000 ltac:(lia)).
    set (q := us * 2 ^ 18 / 1000000) in *. assert (0 ≤ q ≤ 41 * 2 ^ 18) by lia. clearbody q.
    destruct (f64_to_u32_at 18 (r * (2 ^ 18 + q)) (r * (2 ^ 18 + (q + 1)))
      (f64_mul (f64_of_Z r) (f64_add f64_1 (us_to_sec us)))) as (v' & Hv' & Hb'); [by unfold unit_ok|nia|nia| |].
    + apply (f64_mul_at 0 18); [by unfold unit_ok..|lia|lia|nia|apply f64_of_Z_in; lia|].
      apply (f64_add_at 18 (1 * 2 ^ 18) (1 * 2 ^ 18)); [by unfold unit_ok|lia..| |done].
      by apply f64_of_Z_at.
    + rewrite Hv in Hv'. injection Hv' as <-. unfold close_to. nia.
Qed.
Lemma rate_times_ok r us F :
  0 ≤ r < 2 ^ 32 → 0 ≤ us < 2 ^ 32 → 0 ≤ F < 2 ^ 32 → us ≤ F * 1000000 → r * F < 2 ^ 32 →
  ∃ v, f64_to_u32 (f64_mul (f64_of_Z r) (us_to_sec us)) = Ok v ∧ 0 ≤ v ≤ r * F.
Proof.
  intros Hr Hus HF Hle Hrf.
  destruct (f64_to_u32_in (r * 0) (r * F) (f64_mul (f64_of_Z r) (us_to_sec us))) as (v & Hv & Hb); [lia..| |].
  - apply f64_mul_in; [lia..| |]; [apply f64_of_Z_in; lia|by apply us_to_sec_in].
  - exists v. split; [done|lia].
Qed.
Lemma clamp_rate_bounds r : MIN_RATE_BPS ≤ clamp_rate r ≤ MAX_RATE_BPS.
Proof. unfold clamp_rate, MIN_RATE_BPS, MAX_RATE_BPS. repeat case_match; lia. Qed.

(** What the controller decides, for a signal and the time since the last update: the
    successor state and the new rate, which is, between floor and ceiling, 85 per cent of
    the old one, or the old one times one plus the elapsed seconds, or more than the old one
    by an amount that is positive after a millisecond ([steady_increase] has the amount), or
    the old one. *)
Definition rate_reaction (s : CongestionState) (rate : Z) (usage : BandwidthUsage) (elapsed : Z)
    (s' : CongestionState) (rate' : Z) : Prop :=
  let secs := (elapsed + 999999) / 1000000 in
  match s, usage with
  | SLOW_START, OVERUSE | STEADY, OVERUSE =>
      s' = DRAIN ∧ rate' ≤ rate ∧ ∃ v, close_to (850000 * rate) v rate ∧ rate' = clamp_rate v
  | SLOW_START, _ =>
      s' = SLOW_START ∧ rate ≤ rate' ≤ rate * (1 + secs) ∧
      ∃ v, close_to (rate * (1000000 + elapsed)) v rate ∧ rate' = clamp_rate v
  | STEADY, NORMAL =>
      s' = STEADY ∧ rate ≤ rate' ∧ ∃ v, (1000 ≤ elapsed → 0 < v) ∧ rate' = clamp_rate (rate + v)
  | STEADY, UNDERUSE => s' = STEADY ∧ rate' = rate
  | DRAIN, OVERUSE => s' = DRAIN ∧ rate' = rate
  | DRAIN, _ => s' = STEADY ∧ rate' = rate
  end.

Lemma clamp_rate_grows lo v hi :
  MIN_RATE_BPS ≤ lo ≤ MAX_RATE_BPS → lo ≤ v ≤ hi → lo ≤ clamp_rate v ≤ hi.
Proof. unfold clamp_rate, MIN_RATE_BPS, MAX_RATE_BPS. intros. repeat case_match; lia. Qed.
Lemma clamp_rate_shrinks r v : MIN_RATE_BPS ≤ r ≤ MAX_RATE_BPS → v ≤ r → clamp_rate v ≤ r.
Proof. unfold clamp_rate, MIN_RATE_BPS, MAX_RATE_BPS. intros. repeat case_match; lia. Qed.
Lemma clamp_rate_id r : MIN_RATE_BPS ≤ r ≤ MAX_RATE_BPS → clamp_rate r = r.
Proof. unfold clamp_rate, MIN_RATE_BPS, MAX_RATE_BPS. intros. repeat case_match; lia. Qed.
Lemma secs_bound us :
  0 ≤ us → us ≤ (us + 999999) / 1000000 * 1000000 ∧ 0 ≤ (us + 999999) / 1000000.
Proof. intros. Z.to_euclidean_division_equations. lia. Qed.
Lemma secs_le us n : us ≤ n * 1000000 → (us + 999999) / 1000000 ≤ n.
Proof. intros. Z.to_euclidean_division_equations. lia. Qed.

Lemma additive_ok us :
  0 ≤ us < 2 ^ 32 → ∃ v, f64_to_u32 (f64_mul (f64_of_Z ADDITIVE_INCREASE_BPS) (us_to_sec us)) = Ok v ∧
    0 ≤ v ≤ ADDITIVE_INCREASE_BPS * ((us + 999999) / 1000000) ∧ v ≤ 8000 * 4296 ∧
    close_to (ADDITIVE_INCREASE_BPS * us) v ADDITIVE_INCREASE_BPS.
Proof.
  intros Hus. pose proof (secs_bound us ltac:(lia)) as [Hs Hs0].
  pose proof (secs_le us 4295 ltac:(lia)).
  destruct (rate_times_ok ADDITIVE_INCREASE_BPS us ((us + 999999) / 1000000)) as (v & E & Hv);
    unfold ADDITIVE_INCREASE_BPS in *; [lia..|]. exists v. split; [done|]. split; [lia|]. split; [lia|].
  pose proof (us_to_sec_at us Hus) as Hsec. pose proof (Z.div_mod (us * 2 ^ 18) 1000000 ltac:(lia)).
  pose proof (Z.mod_pos_bound (us * 2 ^ 18) 1000000 ltac:(lia)).
  set (q := us * 2 ^ 18 / 1000000) in *. clearbody q.
  destruct (f64_to_u32_at 18 (8000 * q) (8000 * (q + 1)) (f64_mul (f64_of_Z 8000) (us_to_sec us)))
    as (v' & Hv' & Hb'); [by unfold unit_ok|lia|lia| |].
  - apply (f64_mul_at 0 18); [by unfold unit_ok..|lia|lia|lia|by apply f64_of_Z_in|done].
  - rewrite E in Hv'. injection Hv' as <-. unfold close_to. lia.
Qed.
Lemma rate_switch_ok s rate usage us :
  MIN_RATE_BPS ≤ rate ≤ MAX_RATE_BPS → 0 ≤ us < 2 ^ 32 → (s = SLOW_START → us ≤ MAX_ELAPSED_US) →
  ∃ s' r, rate_switch s rate usage us = Ok (s', r) ∧ rate_reaction s rate usage us s' (clamp_rate r).
Proof.
  intros Hr Hus Hel. pose proof (secs_bound us ltac:(lia)) as [Hs Hs0].
  destruct (rate_decrease_ok rate) as (vd & Ed & Hd & Cd); [unfold MIN_RATE_BPS, MAX_RATE_BPS in *; lia|].
  destruct (additive_ok us Hus) as (va & Ea & Ha & Ha' & Ca).
  assert (1000 ≤ us → 0 < va) as Hpos by (unfold close_to, ADDITIVE_INCREASE_BPS in Ca; lia).
  unfold rate_switch, rate_reaction.
  assert (s = SLOW_START → ∃ v,
    f64_to_u32 (f64_mul (f64_of_Z rate) (f64_add f64_1 (us_to_sec us))) = Ok v ∧
    rate ≤ v ≤ rate * (1 + (us + 999999) / 1000000) ∧ close_to (rate * (1000000 + us)) v rate) as Hg.
  { intros Es. specialize (Hel Es). apply rate_growth_ok; [unfold MIN_RATE_BPS in *; lia|lia..|].
    apply secs_le. unfold MAX_ELAPSED_US in Hel. lia. }
  assert (is_u32 (rate + va)) by (unfold is_u, MIN_RATE_BPS, MAX_RATE_BPS in *; lia).
  destruct s; [destruct Hg as (vg & Eg & Hg & Cg); [done|]| |]; destruct usage;
    rewrite ?decide_True, ?decide_False by done;
    rewrite ?decide_True, ?decide_False by done;
    rewrite ?Ed, ?Ea, ?Eg; cbn [res_bind]; do 2 eexists; (split; [reflexivity|]); split; try done;
    rewrite ?(wrap_id 32) by done;
    first [by apply clamp_rate_id|split; [|by eauto]];
    first [by apply clamp_rate_grows|apply clamp_rate_shrinks; lia|by apply (clamp_rate_grows _ _ (rate + va)); lia].
Qed.
(** The additive increase is 8 kB/s for each elapsed second, which the header gives for each
    round trip. *)
Lemma steady_increase rate us :
  MIN_RATE_BPS ≤ rate ≤ MAX_RATE_BPS → 0 ≤ us < 2 ^ 32 →
  ∃ v, rate_switch STEADY rate NORMAL us = Ok (STEADY, rate + v) ∧
    close_to (ADDITIVE_INCREASE_BPS * us) v ADDITIVE_INCREASE_BPS.
Proof.
  intros Hr Hus. destruct (additive_ok us Hus) as (va & Ea & Ha & Ha' & Ca). exists va. split; [|done].
  unfold rate_switch. rewrite !decide_False, ?decide_True by done. rewrite Ea. cbn [res_bind].
  rewrite (wrap_id 32); [done|]. unfold is_u, MIN_RATE_BPS, MAX_RATE_BPS in *. lia.
Qed.

(** [update_rate] on every branch. *)
Lemma cg_update_rate_ok c usage ts :
  let elapsed := u32 (ts - cg_last_update_us c) in
  MIN_RATE_BPS ≤ cg_send_rate_bps c ≤ MAX_RATE_BPS →
  (cg_state c = SLOW_START → elapsed ≤ MAX_ELAPSED_US) →
  ∃ s r, cg_update_rate c usage ts = Ok (cg_with_rate c s r) ∧ MIN_RATE_BPS ≤ r ≤ MAX_RATE_BPS ∧
    if elapsed =? 0 then s = cg_state c ∧ r = cg_send_rate_bps c
    else rate_reaction (cg_state c) (cg_send_rate_bps c) usage elapsed s r.
Proof.
  cbv zeta. intros Hr Hel. unfold cg_update_rate.
  assert (0 ≤ u32 (ts - cg_last_update_us c) < 2 ^ 32) as Hu by (by apply wrap_is_u).
  set (us := u32 _) in *. clearbody us.
  destruct (Z.eqb_spec us 0) as [->|Hne].
  { exists (cg_state c), (cg_send_rate_bps c). by destruct c. }
  destruct (rate_switch_ok (cg_state c) (cg_send_rate_bps c) usage us) as (s & r & E & Hreact); [done..|].
  exists s, (clamp_rate r). rewrite E. split; [done|]. split; [apply clamp_rate_bounds|done].
Qed.
Lemma cg_update_cwnd_ok c rtt :
  MIN_RATE_BPS ≤ cg_send_rate_bps c ≤ MAX_RATE_BPS → 0 ≤ rtt ≤ MAX_RTT_US →
  ∃ w, cg_update_cwnd_from_rate c rtt = Ok (cg_with_cwnd c w) ∧ MIN_CWND ≤ w ≤ 42 * MAX_RATE_BPS.
Proof.
  unfold MIN_RATE_BPS, MAX_RATE_BPS, MAX_RTT_US, MIN_CWND. intros Hr Hrtt. unfold cg_update_cwnd_from_rate.
  destruct (rate_times_ok (cg_send_rate_bps c) rtt 42) as (v & E & Hv); [lia..|].
  rewrite E. simpl. eexists. split; [reflexivity|]. unfold MIN_CWND. case_match; lia.
Qed.
Lemma te_push_length w p : (length w ≤ WINDOW_SIZE → length (te_push w p) ≤ WINDOW_SIZE)%nat.
Proof.
  unfold te_push, WINDOW_SIZE. intros. case_match eqn:E.
  - destruct w; simpl in *; rewrite ?length_app; simpl; lia.
  - apply Nat.ltb_ge in E. done.
Qed.

(** What one call does to state, rate and bytes in flight. *)
Definition flight_after (b : Z) (ev : CcEvent) : Z :=
  match ev with
  | CcSent _ _ n => u32 (b + n)
  | CcAck _ _ _ _ n | CcLost _ n => Z.max 0 (b - n)
  | CcReset => 0
  end.
Definition reaction (c : CongestionController) (ev : CcEvent) (c' : CongestionController) : Prop :=
  cg_bytes_in_flight c' = flight_after (cg_bytes_in_flight c) ev ∧
  match ev with
  | CcSent _ _ _ => cg_state c' = cg_state c ∧ cg_send_rate_bps c' = cg_send_rate_bps c
  | CcAck _ _ ack_ts _ _ =>
      let elapsed := u32 (ack_ts - cg_last_update_us c) in
      if cg_has_last_sample c && negb (elapsed =? 0)
      then rate_reaction (cg_state c) (cg_send_rate_bps c) (od_state (cg_detector c')) elapsed
             (cg_state c') (cg_send_rate_bps c')
      else cg_state c' = cg_state c ∧ cg_send_rate_bps c' = cg_send_rate_bps c
  | CcLost _ _ =>
      cg_state c' = DRAIN ∧ cg_send_rate_bps c' ≤ cg_send_rate_bps c ∧
      ∃ v, close_to (850000 * cg_send_rate_bps c) v (cg_send_rate_bps c) ∧
        cg_send_rate_bps c' = Z.max MIN_RATE_BPS v
  | CcReset => cg_state c' = SLOW_START ∧ cg_send_rate_bps c' = INITIAL_RATE_BPS
  end.

Lemma cg_sample_ok c send_ts ack_ts arr :
  cg_ok c → u32 (ack_ts - cg_last_update_us c) ≤ MAX_ELAPSED_US → u32 (ack_ts - send_ts) ≤ MAX_RTT_US →
  ∃ c', cg_sample c send_ts ack_ts arr = Ok c' ∧ cg_ok c' ∧
    cg_bytes_in_flight c' = cg_bytes_in_flight c ∧
    if u32 (ack_ts - cg_last_update_us c) =? 0
    then cg_state c' = cg_state c ∧ cg_send_rate_bps c' = cg_send_rate_bps c
    else rate_reaction (cg_state c) (cg_send_rate_bps c) (od_state (cg_detector c'))
           (u32 (ack_ts - cg_last_update_us c)) (cg_state c') (cg_send_rate_bps c').
Proof.
  intros [Hr Hw Hf Hl] Hel Hrtt. unfold cg_sample.
  set (t := te_update _ _ _ _). set (d := od_detect _ _).
  assert (length (te_window t) ≤ WINDOW_SIZE)%nat by (by apply te_push_length).
  clearbody t d.
  destruct (cg_update_rate_ok (cg_with_detection c t d) (od_state d) ack_ts) as (s & r & E & Hb & Hre);
    [done|by intros _|]. simpl in Hre. rewrite E. cbn [res_bind].
  destruct (0 <? u32 (ack_ts - send_ts)) eqn:Epos; cycle 1.
  { eexists. split; [reflexivity|]. split; [by split|done]. }
  destruct (cg_update_cwnd_ok (cg_with_rate (cg_with_detection c t d) s r) (u32 (ack_ts - send_ts)))
    as (w & E' & Hw'); [done|split; [by apply wrap_is_u|done]|].
  rewrite E'. eexists. split; [reflexivity|]. split; [by split|done].
Qed.

Lemma cg_leave_flight_ok c n : cg_ok c → cg_ok (cg_leave_flight c n).
Proof. intros [Hr Hw Hf Hl]. split; try done. simpl. case_match; lia. Qed.
Lemma leave_flight_max c n : cg_bytes_in_flight (cg_leave_flight c n) = Z.max 0 (cg_bytes_in_flight c - n).
Proof. simpl. case_match; lia. Qed.
Lemma cc_step_ok c ev :
  cg_ok c → ev_timely (cg_has_last_sample c) (cg_last_update_us c) ev = true →
  ∃ c', cc_step c ev = Ok c' ∧ cg_ok c' ∧ reaction c ev c' ∧
    cg_has_last_sample c' = ev_has (cg_has_last_sample c) ev ∧
    cg_last_update_us c' = ev_last (cg_last_update_us c) ev.
Proof.
  intros Hok Ht. destruct ev as [pn ts n|pn send_ts ack_ts delay n|ts n|]; simpl cc_step.
  - eexists. split; [reflexivity|]. split; [|done]. destruct Hok. split; try done.
    by apply wrap_is_u.
  - unfold cg_on_ack_received. set (c1 := cg_leave_flight c n).
    assert (cg_ok c1) as Hok1 by (by apply cg_leave_flight_ok).
    pose proof (leave_flight_max c n : cg_bytes_in_flight c1 = _) as Hfl.
    unfold reaction. simpl in Ht. change (cg_has_last_sample c1) with (cg_has_last_sample c).
    destruct (cg_has_last_sample c) eqn:Eh; simpl in Ht.
    + apply andb_prop in Ht as [Hel Hrtt]. apply Z.leb_le in Hel, Hrtt.
      destruct (cg_sample_ok c1 send_ts ack_ts (u32 (ack_ts - delay)) Hok1 Hel Hrtt)
        as (c2 & E & Hok2 & Hf2 & Hre). rewrite E. cbn [res_bind].
      eexists. split; [reflexivity|]. split; [by destruct Hok2; split|].
      split; [|done]. simpl. split; [congruence|]. by destruct (_ =? 0).
    + cbn [res_bind]. eexists. split; [reflexivity|]. split; [by destruct Hok1; split|done].
  - unfold cg_on_packet_lost. set (c1 := cg_leave_flight c n).
    assert (cg_ok c1) as Hok1 by (by apply cg_leave_flight_ok).
    pose proof (leave_flight_max c n : cg_bytes_in_flight c1 = _) as Hfl.
    destruct Hok1 as [Hr Hw Hf Hl].
    destruct (rate_decrease_ok (cg_send_rate_bps c1)) as (v & E & Hv & Cv);
      [unfold MIN_RATE_BPS, MAX_RATE_BPS in *; lia|]. rewrite E. cbn [res_bind].
    set (r := if v <? MIN_RATE_BPS then _ else _).
    assert (MIN_RATE_BPS ≤ r ≤ cg_send_rate_bps c1) as Hr'
      by (unfold r; case_match; unfold MIN_RATE_BPS in *; lia).
    assert (r = Z.max MIN_RATE_BPS v) as Er by (unfold r; destruct (Z.ltb_spec v MIN_RATE_BPS); lia). clearbody r.
    destruct (cg_update_cwnd_ok (cg_with_rate c1 DRAIN r) 100000) as (w & E' & Hw');
      [simpl; lia|by unfold MAX_RTT_US|]. rewrite E'. cbn [res_bind].
    eexists. split; [reflexivity|]. split; [split; simpl; try done; lia|].
    split; [|done]. split; [done|]. split; [done|]. split; [apply Hr'|]. by exists v.
  - eexists. split; [reflexivity|]. split; [|done].
    split; simpl; try done; unfold WINDOW_SIZE; lia.
Qed.
Lemma cc_run_times evs c :
  cg_ok c → timely (cg_has_last_sample c) (cg_last_update_us c) evs = true →
  ∃ c', cc_run c evs = Ok c' ∧ cg_ok c' ∧
    cg_has_last_sample c' = foldl ev_has (cg_has_last_sample c) evs ∧
    cg_last_update_us c' = foldl ev_last (cg_last_update_us c) evs.
Proof.
  revert c. induction evs as [|ev evs IH]; intros c Hok Ht; [by exists c|].
  simpl in Ht. apply andb_prop in Ht as [Hev Ht].
  destruct (cc_step_ok c ev Hok Hev) as (c1 & E & Hok1 & _ & Eh & El).
  destruct (IH c1 Hok1) as (c' & E' & Hok' & Eh' & El'); [by rewrite Eh, El|].
  exists c'. unfold cc_run. simpl. rewrite E, Eh', El', Eh, El. done.
Qed.
Lemma cg_new_ok : cg_ok cg_new.
Proof. split; vm_compute; intuition (congruence || lia). Qed.
Lemma cg_pacing_ok c : cg_ok c → ∃ d, cg_pacing_delay_us c = Ok d ∧ 0 ≤ d ≤ 1000000.
Proof.
  intros [Hr _ _ _]. unfold cg_pacing_delay_us, MIN_RATE_BPS, MAX_RATE_BPS in *.
  rewrite (proj2 (Z.eqb_neq _ _)) by lia.
  apply (f64_to_u32_in (0 * 1000000) (1 * 1000000)); [lia..|].
  apply f64_mul_in; [lia..| |by apply f64_of_Z_in].
  apply (f64_div_in 1200 1200 (cg_send_rate_bps c) (cg_send_rate_bps c)); [lia..| |];
    apply f64_of_Z_in; lia.
Qed.

(** C21: Along every timely trace of calls the controller is defined (no cast
    overflows), the rate stays between 10 kB/s and 100 MB/s, the congestion window
    never falls below two packets, the regression window holds at most 20 samples
    and the pacing delay is defined and at most a second. *)
Theorem congestion_bounds evs :
  timely false 0 evs = true →
  ∃ c, cc_run cg_new evs = Ok c ∧
    MIN_RATE_BPS ≤ cg_send_rate_bps c ≤ MAX_RATE_BPS ∧
    MIN_CWND ≤ cg_cwnd c ≤ 42 * MAX_RATE_BPS ∧
    (length (te_window (cg_trendline c)) ≤ WINDOW_SIZE)%nat ∧
    ∃ d, cg_pacing_delay_us c = Ok d ∧ 0 ≤ d ≤ 1000000.
Proof.
  intros Ht. destruct (cc_run_times evs cg_new cg_new_ok Ht) as (c & E & Hok & _).
  exists c. split; [done|]. pose proof (cg_pacing_ok c Hok). by destruct Hok.
Qed.
Lemma congestion_bounds_witness :
  ∃ c, cc_run cg_new [CcSent 1 100 1200; CcAck 1 100 5100 10 1200; CcSent 2 6000 1200; CcLost 9000 1200] = Ok c ∧
    MIN_RATE_BPS ≤ cg_send_rate_bps c ≤ MAX_RATE_BPS ∧
    MIN_CWND ≤ cg_cwnd c ≤ 42 * MAX_RATE_BPS ∧
    (length (te_window (cg_trendline c)) ≤ WINDOW_SIZE)%nat ∧
    ∃ d, cg_pacing_delay_us c = Ok d ∧ 0 ≤ d ≤ 1000000.
Proof. apply congestion_bounds. vm_compute. reflexivity. Defined.

Lemma timely_app has last evs ev :
  timely has last (evs ++ [ev]) = true →
  timely has last evs = true ∧ ev_timely (foldl ev_has has evs) (foldl ev_last last evs) ev = true.
Proof.
  revert has last. induction evs as [|e evs IH]; intros has last; simpl.
  - by rewrite andb_true_r.
  - intros [He Ht]%andb_prop. rewrite He. by apply IH.
Qed.
(** C20: The reaction of the controller to every call, after any timely trace: a send
    adds to the bytes in flight, an acknowledgement or a loss removes from them and
    stops at zero.  A loss always drains and takes the rate to 85 per cent, not below the
    floor; an overuse signal does the same from SLOW_START and STEADY, between floor and
    ceiling; otherwise SLOW_START multiplies the rate by one plus the seconds since the
    last update, and STEADY adds a positive amount if usage is normal and a millisecond has
    passed, and holds if the link is underused; DRAIN holds the rate and leaves for STEADY
    when overuse has ended; only [reset] returns to SLOW_START, with the initial rate.  The
    rates of the decrease and of SLOW_START are given up to rounding down and four
    millionths.  (How much STEADY adds is not part of it: the header of the source says 8 kB/s
    per round trip, the code adds that per second, [steady_increase].) *)
Theorem congestion_reaction evs ev :
  timely false 0 (evs ++ [ev]) = true →
  ∃ c c', cc_run cg_new evs = Ok c ∧ cc_step c ev = Ok c' ∧ reaction c ev c'.
Proof.
  intros [Ht He]%timely_app.
  destruct (cc_run_times evs cg_new cg_new_ok Ht) as (c & E & Hok & Eh & El).
  destruct (cc_step_ok c ev Hok) as (c' & E' & _ & Hre & _); [by rewrite Eh, El|]. eauto.
Qed.
(** The second acknowledgement, half a second after the first, in slow start: half as
    much again. *)
Definition ok_or {A} (d : A) (r : res A) : A := match r with Ok a => a | _ => d end.
Definition sampled : CongestionController := ok_or cg_new (cc_run cg_new [CcAck 1 100 5100 10 1200]).
Definition resampled : CongestionController := ok_or cg_new (cc_step sampled (CcAck 2 200 505100 10 1200)).
Lemma congestion_reaction_witness :
  cc_step sampled (CcAck 2 200 505100 10 1200) = Ok resampled ∧
  reaction sampled (CcAck 2 200 505100 10 1200) resampled ∧
  cg_state resampled = SLOW_START ∧ cg_send_rate_bps sampled = 300000 ∧ cg_send_rate_bps resampled = 450000.
Proof.
  destruct (congestion_reaction [CcAck 1 100 5100 10 1200] (CcAck 2 200 505100 10 1200)) as (c & c' & E & E' & Hr).
  - vm_compute. reflexivity.
  - assert (sampled = c) as Ec by (unfold sampled; rewrite E; reflexivity). subst c.
    assert (resampled = c') as Ec by (unfold resampled; rewrite E'; reflexivity). subst c'.
    split; [exact E'|]. split; [exact Hr|]. vm_compute. repeat split; reflexivity.
Defined.

(** ** The bytes in flight are an exact ledger *)

(** The balance of a trace of sends, acknowledgements and losses. *)
Definition ev_bytes (ev : CcEvent) : Z :=
  match ev with CcSent _ _ n => n | CcAck _ _ _ _ n | CcLost _ n => - n | CcReset => 0 end.
(** Every prefix leaves a balance of a 32-bit unsigned integer, and the trace does
    not reset the controller. *)
Fixpoint balanced (b : Z) (evs : list CcEvent) : Prop :=
  match evs with
  | [] => True
  | ev :: evs' => ev ≠ CcReset ∧ is_u32 (b + ev_bytes ev) ∧ balanced (b + ev_bytes ev) evs'
  end.
Lemma flight_ledger evs c :
  cg_ok c → timely (cg_has_last_sample c) (cg_last_update_us c) evs = true →
  balanced (cg_bytes_in_flight c) evs →
  ∃ c', cc_run c evs = Ok c' ∧ cg_ok c' ∧
    cg_bytes_in_flight c' = cg_bytes_in_flight c + foldr (λ ev s, ev_bytes ev + s) 0 evs.
Proof.
  revert c. induction evs as [|ev evs IH]; intros c Hok Ht Hb; simpl in *.
  { exists c. split; [done|]. split; [done|lia]. }
  apply andb_prop in Ht as [Hev Ht]. destruct Hb as (Hnr & Hu & Hb).
  destruct (cc_step_ok c ev Hok Hev) as (c1 & E & Hok1 & [Hf _] & Eh & El).
  assert (cg_bytes_in_flight c1 = cg_bytes_in_flight c + ev_bytes ev) as Hf1.
  { rewrite Hf. destruct ev; simpl in *; try done; [by apply wrap_id| |]; unfold is_u in Hu; lia. }
  destruct (IH c1 Hok1) as (c' & E' & Hok' & Hc'); [by rewrite Eh, El|by rewrite Hf1|].
  exists c'. unfold cc_run. simpl. rewrite E. split; [done|]. split; [done|]. rewrite Hc', Hf1. lia.
Qed.

(** While every acknowledged or lost byte was sent and less than 4 GB is
    outstanding, the bytes in flight are exactly sent minus acknowledged minus lost,
    and the gate [can_send] admits a packet exactly when it fits the window. *)
Theorem congestion_ledger evs n :
  timely false 0 evs = true → balanced 0 evs → is_u16 n →
  foldr (λ ev s, ev_bytes ev + s) 0 evs + n < 2 ^ 32 →
  ∃ c, cc_run cg_new evs = Ok c ∧
    cg_bytes_in_flight c = foldr (λ ev s, ev_bytes ev + s) 0 evs ∧
    (cg_can_send c n = true ↔ cg_bytes_in_flight c + n ≤ cg_cwnd c).
Proof.
  intros Ht Hb Hn Hlt. destruct (flight_ledger evs cg_new cg_new_ok Ht Hb) as (c & E & Hok & Hf).
  exists c. rewrite Hf. split; [done|]. split; [done|]. unfold cg_can_send.
  destruct Hok as [_ _ H0 _]. unfold is_u in Hn. rewrite Hf in H0 |- *.
  change (cg_bytes_in_flight cg_new) with 0 in *. rewrite wrap_id; [apply Z.leb_le|].
  unfold is_u. lia.
Qed.
Lemma congestion_ledger_witness :
  ∃ c, cc_run cg_new [CcSent 1 100 1200; CcSent 2 200 800; CcAck 1 100 5100 10 1200] = Ok c ∧
    cg_bytes_in_flight c = 800 ∧ (cg_can_send c 1000 = true ↔ cg_bytes_in_flight c + 1000 ≤ cg_cwnd c).
Proof.
  apply (congestion_ledger [CcSent 1 100 1200; CcSent 2 200 800; CcAck 1 100 5100 10 1200] 1000);
    [vm_compute; reflexivity| |vm_compute; intuition congruence|vm_compute; reflexivity].
  simpl; unfold is_u; repeat split; try done; lia.
Defined.

(** ** The overuse signal is debounced *)
Inductive SlopeClass := Rising | Falling | Flat.
Definition slope_class (s : f64) : SlopeClass :=
  if f64_gt s OVERUSE_THRESHOLD then Rising
  else if f64_lt s UNDERUSE_THRESHOLD then Falling else Flat.
(** The reference: the newest slope comes first; more than ten rising slopes in a
    row are an overuse, otherwise the last slope that was not rising decides. *)
Fixpoint usage_of (rising : nat) (newest_first : list f64) : BandwidthUsage :=
  match newest_first with
  | [] => if (10 <? rising)%nat then OVERUSE else NORMAL
  | s :: l =>
      match slope_class s with
      | Rising => usage_of (S rising) l
      | Falling => if (10 <? rising)%nat then OVERUSE else UNDERUSE
      | Flat => if (10 <? rising)%nat then OVERUSE else NORMAL
      end
  end.
Fixpoint rising_run (newest_first : list f64) : nat :=
  match newest_first with
  | s :: l => match slope_class s with Rising => S (rising_run l) | _ => 0 end
  | [] => 0
  end.
(** The timer after [k] rising slopes. *)
Definition timer_at (k : nat) : f64 := Nat.iter k (λ t, f64_add t f64_1) f64_0.

Lemma timer_at_small k :
  (k ≤ 11)%nat → f64_gt (timer_at k) OVERUSE_TIME_THRESHOLD_MS = (10 <? k)%nat.
Proof. intros Hk. do 12 (destruct k as [|k]; [vm_compute; reflexivity|]). lia. Qed.
Lemma usage_of_long r l : (10 < r)%nat → usage_of r l = OVERUSE.
Proof.
  revert r. induction l as [|s l IH]; intros r Hr; simpl;
    rewrite ?(proj2 (Nat.ltb_lt 10 r)) by lia; [done|]. destruct (slope_class s); auto.
Qed.
(** With at most ten rising slopes in all, the count does not matter. *)
Lemma usage_of_short r l :
  (r + rising_run l ≤ 10)%nat → usage_of r l = usage_of 0 l.
Proof.
  assert (∀ r l, (r + rising_run l ≤ 10)%nat → ∀ r', (r' ≤ r)%nat → usage_of r' l = usage_of r l) as H.
  { clear. intros r l. revert r. induction l as [|s l IH]; intros r Hr r' Hle; simpl in *.
    - by rewrite !(proj2 (Nat.ltb_ge 10 _)) by lia.
    - destruct (slope_class s); [apply IH; lia|..];
        by rewrite !(proj2 (Nat.ltb_ge 10 _)) by lia. }
  intros Hr. symmetry. apply H; lia.
Qed.
Lemma usage_of_run r l : (10 < r + rising_run l)%nat → usage_of r l = OVERUSE.
Proof.
  revert r. induction l as [|s l IH]; intros r Hr; simpl in *.
  - by rewrite (proj2 (Nat.ltb_lt 10 r)) by lia.
  - destruct (slope_class s); [apply IH; lia|..]; by rewrite (proj2 (Nat.ltb_lt 10 r)) by lia.
Qed.

Definition od_run (slopes : list f64) : OveruseDetector := foldl od_detect od_new slopes.
Lemma od_run_spec newest_first :
  od_state (od_run (rev newest_first)) = usage_of 0 newest_first ∧
  od_overuse_timer (od_run (rev newest_first)) = timer_at (rising_run newest_first).
Proof.
  induction newest_first as [|s l [IHs IHt]]; [done|]. unfold od_run in *. simpl rev.
  rewrite foldl_app. cbn [foldl]. set (d := foldl od_detect od_new (rev l)) in *. clearbody d.
  unfold od_detect. simpl. unfold slope_class. destruct (f64_gt s OVERUSE_THRESHOLD) eqn:Eg; cycle 1.
  { by destruct (f64_lt s UNDERUSE_THRESHOLD). }
  simpl. rewrite IHt. split; [|done].
  change (f64_add (timer_at (rising_run l)) f64_1) with (timer_at (S (rising_run l))).
  destruct (le_lt_dec (rising_run l) 10) as [Hle|Hgt].
  - rewrite timer_at_small by lia. destruct (Nat.ltb_spec 10 (S (rising_run l))).
    + symmetry. apply usage_of_run. lia.
    + rewrite IHs. symmetry. apply usage_of_short. lia.
  - rewrite IHs, (usage_of_run 0) by lia. rewrite (usage_of_run 1) by lia. by case_match.
Qed.

(** The floating-point timer of the overuse detector implements the reference:
    after any sequence of slopes the detector reports OVERUSE exactly when the last
    eleven or more of them exceeded the threshold, and otherwise the class of the
    last slope that did not (NORMAL when there is none; a NaN slope counts as flat). *)
Theorem overuse_debounce slopes : od_state (od_run slopes) = usage_of 0 (rev slopes).
Proof. rewrite <-(rev_involutive slopes) at 1. apply od_run_spec. Qed.

(** ** Casts that overflow *)

(** Two acknowledgements whose clock reading lies before the previous update make
    the elapsed time wrap to over an hour; in slow start the second product leaves
    the range of [uint32_t] and its cast is undefined. *)
Theorem congestion_cast_overflow :
  cc_run cg_new [CcAck 1 0 1000 0 100; CcAck 2 0 999 0 100; CcAck 3 0 998 0 100] = Oob.
Proof. vm_compute. reflexivity. Qed.
