(* ===== verification/AsyncTransport.v ===== *)
(** * The asynchronous transport: a pool of threads around a transport

    Models [include/protocoll/transport/async_transport.h] and
    [src/transport/async_transport.cpp].  A thread is a program counter; what it
    does while it holds [send_mutex_], one call of the wrapped transport, one
    callback and one update of the atomic counters are atomic steps, and an
    execution is any interleaving of the steps of the threads with the calls of
    the users.  A wait on the condition variable ends at any time (it has a
    timeout of 50 ms).  [start], [stop] and [set_recv_handler] are called by one
    controlling thread, as the header asks; [async_send] and [send_to] by anyone.
    The wrapped transport is assumed to serialise its own operations, as the
    loopback bus does.

    The job tickets, the log of completions and the log of jobs handed to the
    wrapped transport are history variables; the code never reads them. *)
From S2P Require Import Prelude.
From S2P Require Import Frame Transport.

Record SendJob := {
  sj_ticket : nat; sj_data : bytes; sj_remote : Endpoint; sj_callback : bool }.

(** Where a thread of [send_loop] is: at the test of [running_]; in the wait under
    the mutex; holding a job it has popped; after the send, with its result; after
    the counters; returned. *)
Inductive SendPc :=
| SP_Top | SP_Wait | SP_Send (j : SendJob) | SP_Sent (j : SendJob) (result : Z)
| SP_Call (j : SendJob) (result : Z) | SP_Done.
(** Where the thread of [recv_loop] is. *)
Inductive RecvPc := RP_Top | RP_Recv | RP_Got (data : bytes) (from : Endpoint)
| RP_Call (data : bytes) (from : Endpoint) | RP_Done.
Inductive Thread := SendThread (pc : SendPc) | RecvThread (pc : RecvPc).

(** The controlling thread: outside [stop], joining the threads, about to drain. *)
Inductive Control := CtlIdle | CtlJoining | CtlDraining.
#[global] Instance Control_eq_dec : EqDecision Control.
Proof. solve_decision. Defined.

Record AsyncTransport (T : Type) := mkAsync {
  as_inner : T; as_num_threads : nat; as_running : bool; as_threads : list Thread;
  as_send_queue : list SendJob; as_recv_handler : bool;
  as_packets_sent : Z; as_bytes_sent : Z; as_packets_received : Z; as_bytes_received : Z;
  as_control : Control;
  (* history *)
  as_submitted : nat; as_done : list (SendJob * Z * Z); as_wire : list SendJob;
  as_received : list (bytes * Endpoint) }.
Arguments mkAsync {T}.
Arguments as_inner {T}.
Arguments as_num_threads {T}.
Arguments as_running {T}.
Arguments as_threads {T}.
Arguments as_send_queue {T}.
Arguments as_recv_handler {T}.
Arguments as_packets_sent {T}.
Arguments as_bytes_sent {T}.
Arguments as_packets_received {T}.
Arguments as_bytes_received {T}.
Arguments as_control {T}.
Arguments as_submitted {T}.
Arguments as_done {T}.
Arguments as_wire {T}.
Arguments as_received {T}.

Section Async.
Context {T : Type} `{!Transport T}.
Implicit Types s : AsyncTransport T.

Definition as_new (inner : T) (num_threads : nat) : AsyncTransport T :=
  mkAsync inner (if (num_threads <? 1)%nat then 1%nat else num_threads) false [] [] false 0 0 0 0
    CtlIdle 0 [] [] [].

(** ** The factory; the two flags are those of the build *)
Inductive AsyncBackend := AB_THREAD_POOL | AB_IO_URING | AB_IOCP | AB_BEST.
Definition best_async_backend (iouring_on_linux windows : bool) : AsyncBackend :=
  if iouring_on_linux then AB_IO_URING else if windows then AB_IOCP else AB_THREAD_POOL.
(** The backend is computed and not used. *)
Definition create_async_transport (iouring_on_linux windows : bool) (backend : AsyncBackend) (inner : T)
    (num_threads : nat) : AsyncTransport T :=
  let effective :=
    match backend with AB_BEST => best_async_backend iouring_on_linux windows | b => b end in
  as_new inner num_threads.

Definition as_set_threads s (run : bool) (ths : list Thread) (c : Control) : AsyncTransport T :=
  mkAsync (as_inner s) (as_num_threads s) run ths (as_send_queue s) (as_recv_handler s)
    (as_packets_sent s) (as_bytes_sent s) (as_packets_received s) (as_bytes_received s)
    c (as_submitted s) (as_done s) (as_wire s) (as_received s).
Definition as_set_queue s (q : list SendJob) (n : nat) (c : Control) (done : list (SendJob * Z * Z))
    : AsyncTransport T :=
  mkAsync (as_inner s) (as_num_threads s) (as_running s) (as_threads s) q (as_recv_handler s)
    (as_packets_sent s) (as_bytes_sent s) (as_packets_received s) (as_bytes_received s)
    c n done (as_wire s) (as_received s).
Definition as_set_inner s (t : T) (wire : list SendJob) : AsyncTransport T :=
  mkAsync t (as_num_threads s) (as_running s) (as_threads s) (as_send_queue s) (as_recv_handler s)
    (as_packets_sent s) (as_bytes_sent s) (as_packets_received s) (as_bytes_received s)
    (as_control s) (as_submitted s) (as_done s) wire (as_received s).
(** [fetch_add] on the two send counters. *)
Definition as_count_sent s (result : Z) : AsyncTransport T :=
  if 0 <? result then
    mkAsync (as_inner s) (as_num_threads s) (as_running s) (as_threads s) (as_send_queue s)
      (as_recv_handler s) (u64 (as_packets_sent s + 1)) (u64 (as_bytes_sent s + u64 result))
      (as_packets_received s) (as_bytes_received s)
      (as_control s) (as_submitted s) (as_done s) (as_wire s) (as_received s)
  else s.
Definition as_count_received s (n : Z) : AsyncTransport T :=
  mkAsync (as_inner s) (as_num_threads s) (as_running s) (as_threads s) (as_send_queue s)
    (as_recv_handler s) (as_packets_sent s) (as_bytes_sent s)
    (u64 (as_packets_received s + 1)) (u64 (as_bytes_received s + u64 n))
    (as_control s) (as_submitted s) (as_done s) (as_wire s) (as_received s).
Definition as_note_received s (data : bytes) (from : Endpoint) : AsyncTransport T :=
  mkAsync (as_inner s) (as_num_threads s) (as_running s) (as_threads s) (as_send_queue s)
    (as_recv_handler s) (as_packets_sent s) (as_bytes_sent s)
    (as_packets_received s) (as_bytes_received s)
    (as_control s) (as_submitted s) (as_done s) (as_wire s) (as_received s ++ [(data, from)]).

(** ** The controlling thread *)

(** One thread receives, the others send; there is always a sender. *)
Definition as_pool (num_threads : nat) : list Thread :=
  RecvThread RP_Top :: replicate (num_threads - 1) (SendThread SP_Top) ++
  (if (num_threads =? 1)%nat then [SendThread SP_Top] else []).
Definition as_start s : AsyncTransport T :=
  if as_running s then s
  else as_set_threads s true (as_threads s ++ as_pool (as_num_threads s)) (as_control s).
(** [stop] up to the joins, the joins, and the drain under the mutex. *)
Definition as_stop_begin s : AsyncTransport T :=
  if as_running s then as_set_threads s false (as_threads s) CtlJoining else s.
Definition thread_done (t : Thread) : bool :=
  match t with SendThread SP_Done | RecvThread RP_Done => true | _ => false end.
Definition as_join s : option (AsyncTransport T) :=
  if forallb thread_done (as_threads s) then Some (as_set_threads s (as_running s) [] CtlDraining)
  else None.
Definition as_drain s : AsyncTransport T :=
  as_set_queue s [] (as_submitted s) CtlIdle
    (as_done s ++ ((λ j, (j, -1, -1)) <$> as_send_queue s)).
(** [bind] only calls the wrapped transport. *)
Definition as_bind (bind : T → Endpoint → T * bool) s (local : Endpoint) : AsyncTransport T * bool :=
  let '(t, ok) := bind (as_inner s) local in (as_set_inner s t (as_wire s), ok).
Definition as_set_recv_handler s (b : bool) : AsyncTransport T :=
  mkAsync (as_inner s) (as_num_threads s) (as_running s) (as_threads s) (as_send_queue s) b
    (as_packets_sent s) (as_bytes_sent s) (as_packets_received s) (as_bytes_received s)
    (as_control s) (as_submitted s) (as_done s) (as_wire s) (as_received s).

(** ** The users *)
Definition as_async_send s (data : bytes) (remote : Endpoint) (cb : bool) : AsyncTransport T :=
  as_set_queue s
    (as_send_queue s ++ [{| sj_ticket := as_submitted s; sj_data := data; sj_remote := remote;
                            sj_callback := cb |}])
    (S (as_submitted s)) (as_control s) (as_done s).
Definition as_send_to s (data : bytes) (remote : Endpoint) : AsyncTransport T * Z :=
  let '(t, result) := t_send_to (as_inner s) data remote in
  (as_count_sent (as_set_inner s t (as_wire s)) result, result).

(** ** The threads of the pool *)
Definition send_loop_step s (pc : SendPc) : option (AsyncTransport T * SendPc) :=
  match pc with
  | SP_Top => Some (s, if as_running s then SP_Wait else SP_Done)
  | SP_Wait =>
      match as_send_queue s with
      | [] => Some (s, if negb (as_running s) then SP_Done else SP_Top)
      | job :: q => Some (as_set_queue s q (as_submitted s) (as_control s) (as_done s), SP_Send job)
      end
  | SP_Send job =>
      let '(t, result) := t_send_to (as_inner s) (sj_data job) (sj_remote job) in
      Some (as_set_inner s t (as_wire s ++ [job]), SP_Sent job result)
  | SP_Sent job result => Some (as_count_sent s result, SP_Call job result)
  | SP_Call job result =>
      Some (as_set_queue s (as_send_queue s) (as_submitted s) (as_control s)
              (as_done s ++ [(job, result, if 0 <? result then 0 else -1)]), SP_Top)
  | SP_Done => None
  end.
Definition recv_loop_step s (pc : RecvPc) : option (AsyncTransport T * RecvPc) :=
  match pc with
  | RP_Top => Some (s, if as_running s then RP_Recv else RP_Done)
  | RP_Recv =>
      let '(t, r) := t_recv_from (as_inner s) MAX_PACKET_SIZE 50 in
      Some (as_set_inner s t (as_wire s),
            match r with
            | None | Some ([], _) => RP_Top
            | Some (data, from) => RP_Got data from
            end)
  | RP_Got data from => Some (as_count_received s (Z.of_nat (length data)), RP_Call data from)
  | RP_Call data from =>
      Some (if as_recv_handler s then as_note_received s data from else s, RP_Top)
  | RP_Done => None
  end.
Definition as_set_thread s (i : nat) (t : Thread) : AsyncTransport T :=
  as_set_threads s (as_running s) (<[i := t]> (as_threads s)) (as_control s).
Definition as_thread_step s (i : nat) : option (AsyncTransport T) :=
  match as_threads s !! i with
  | Some (SendThread pc) =>
      match send_loop_step s pc with
      | Some (s', pc') => Some (as_set_thread s' i (SendThread pc'))
      | None => None
      end
  | Some (RecvThread pc) =>
      match recv_loop_step s pc with
      | Some (s', pc') => Some (as_set_thread s' i (RecvThread pc'))
      | None => None
      end
  | None => None
  end.

(** ** Executions *)
Inductive AsEvent :=
| AsStart | AsStop | AsJoin | AsDrain | AsHandler (b : bool)
| AsAsyncSend (data : bytes) (remote : Endpoint) (cb : bool)
| AsSendTo (data : bytes) (remote : Endpoint)
| AsThread (i : nat).
(** [None]: the event is not enabled in this state. *)
Definition as_exec s (e : AsEvent) : option (AsyncTransport T) :=
  match e with
  | AsStart => if decide (as_control s = CtlIdle) then Some (as_start s) else None
  | AsStop => if decide (as_control s = CtlIdle) then Some (as_stop_begin s) else None
  | AsJoin => if decide (as_control s = CtlJoining) then as_join s else None
  | AsDrain => if decide (as_control s = CtlDraining) then Some (as_drain s) else None
  | AsHandler b =>
      if decide (as_control s = CtlIdle) then
        if as_running s then None else Some (as_set_recv_handler s b)
      else None
  | AsAsyncSend data remote cb => Some (as_async_send s data remote cb)
  | AsSendTo data remote => Some (as_send_to s data remote).1
  | AsThread i => as_thread_step s i
  end.
Fixpoint as_run s (tr : list AsEvent) : option (AsyncTransport T) :=
  match tr with
  | [] => Some s
  | e :: tr' => match as_exec s e with Some s' => as_run s' tr' | None => None end
  end.
(** The states an execution can reach. *)
Inductive as_reach (s0 : AsyncTransport T) : AsyncTransport T → Prop :=
| reach_here : as_reach s0 s0
| reach_step s e s' : as_reach s0 s → as_exec s e = Some s' → as_reach s0 s'.
Lemma as_run_reach s0 tr s s' : as_reach s0 s → as_run s tr = Some s' → as_reach s0 s'.
Proof.
  revert s. induction tr as [|e tr IH]; intros s Hr; simpl; [by intros [= <-]|].
  destruct (as_exec s e) eqn:E; [|done]. apply IH. by econstructor.
Qed.
End Async.

(** ** Every job is completed exactly once *)
Definition inflight (t : Thread) : list SendJob :=
  match t with SendThread (SP_Send j | SP_Sent j _ | SP_Call j _) => [j] | _ => [] end.
Definition job_of (c : SendJob * Z * Z) : SendJob := c.1.1.

Lemma inflight_insert ths i t :
  ths !! i = Some t →
  ∃ rest, concat (inflight <$> ths) ≡ₚ inflight t ++ rest ∧
    ∀ t', concat (inflight <$> <[i := t']> ths) ≡ₚ inflight t' ++ rest.
Proof.
  intros Hi. exists (concat (inflight <$> take i ths) ++ concat (inflight <$> drop (S i) ths)).
  assert (i < length ths)%nat by (by eapply lookup_lt_Some). split; [|intros t'].
  - rewrite <-(take_drop_middle ths i t Hi) at 1.
    rewrite fmap_app, concat_app. cbn [fmap list_fmap concat]. solve_Permutation.
  - rewrite insert_take_drop by done.
    rewrite fmap_app, concat_app. cbn [fmap list_fmap concat]. solve_Permutation.
Qed.
Lemma inflight_pool n : concat (inflight <$> as_pool n) = [].
Proof.
  unfold as_pool. rewrite fmap_cons, fmap_app, fmap_replicate. simpl. rewrite concat_app.
  assert (∀ k, concat (replicate k ([] : list SendJob)) = []) as -> by (by induction k).
  by case_match.
Qed.
Lemma inflight_done ths : forallb thread_done ths = true → concat (inflight <$> ths) = [].
Proof.
  induction ths as [|t ths IH]; [done|]. rewrite fmap_cons. cbn [forallb concat].
  intros [Ht ?]%andb_prop. rewrite IH by done.
  by destruct t as [[]|[]].
Qed.

Lemma drained_jobs (q : list SendJob) : job_of <$> ((λ j : SendJob, (j, -1, -1)) <$> q) = q.
Proof. induction q as [|j q IH]; [done|]. by rewrite !fmap_cons, IH. Qed.

Section Accounting.
Context {T : Type} `{!Transport T}.
Implicit Types s : AsyncTransport T.

(** Completed, in a thread, or waiting. *)
Definition as_jobs s : list SendJob :=
  (job_of <$> as_done s) ++ concat (inflight <$> as_threads s) ++ as_send_queue s.
Definition accounted s : Prop := sj_ticket <$> as_jobs s ≡ₚ seq 0 (as_submitted s).

Lemma as_count_sent_jobs s r :
  as_jobs (as_count_sent s r) = as_jobs s ∧ as_submitted (as_count_sent s r) = as_submitted s ∧
  as_threads (as_count_sent s r) = as_threads s ∧ as_running (as_count_sent s r) = as_running s ∧
  as_control (as_count_sent s r) = as_control s ∧ as_done (as_count_sent s r) = as_done s ∧
  as_send_queue (as_count_sent s r) = as_send_queue s ∧ as_wire (as_count_sent s r) = as_wire s.
Proof. unfold as_count_sent. by case_match. Qed.

(** A step of a thread: it moves the job it holds along and leaves the rest alone. *)
Lemma send_loop_step_jobs s pc s' pc' :
  send_loop_step s pc = Some (s', pc') →
  as_threads s' = as_threads s ∧ as_running s' = as_running s ∧ as_control s' = as_control s ∧
  as_submitted s' = as_submitted s ∧
  (job_of <$> as_done s') ++ inflight (SendThread pc') ++ as_send_queue s' ≡ₚ
  (job_of <$> as_done s) ++ inflight (SendThread pc) ++ as_send_queue s.
Proof.
  destruct pc as [| |j|j r|j r|]; simpl.
  - intros [= <- <-]. by destruct (as_running s).
  - destruct (as_send_queue s) as [|j q] eqn:E; intros [= <- <-]; [|done].
    rewrite E. by destruct (as_running s).
  - destruct (t_send_to _ _ _) as [t r]. by intros [= <- <-].
  - intros [= <- <-]. destruct (as_count_sent_jobs s r) as (_ & -> & -> & -> & -> & -> & -> & _). done.
  - intros [= <- <-]. simpl. rewrite fmap_app. simpl. repeat split. solve_Permutation.
  - done.
Qed.
Lemma recv_loop_step_jobs s pc s' pc' :
  recv_loop_step s pc = Some (s', pc') →
  as_threads s' = as_threads s ∧ as_running s' = as_running s ∧ as_control s' = as_control s ∧
  as_submitted s' = as_submitted s ∧ as_done s' = as_done s ∧ as_send_queue s' = as_send_queue s ∧
  as_wire s' = as_wire s.
Proof.
  destruct pc; simpl; try (by intros [= <- <-]).
  - destruct (t_recv_from _ _ _) as [t r]. by intros [= <- <-].
  - destruct (as_recv_handler s); by intros [= <- <-].
Qed.
Lemma thread_step_jobs s i s' :
  as_thread_step s i = Some s' →
  as_jobs s' ≡ₚ as_jobs s ∧ as_running s' = as_running s ∧ as_control s' = as_control s ∧
  as_submitted s' = as_submitted s.
Proof.
  unfold as_thread_step. destruct (as_threads s !! i) as [[pc|pc]|] eqn:Hi; [| |done].
  - destruct (send_loop_step s pc) as [[s1 pc']|] eqn:E; [|done]. intros [= <-].
    apply send_loop_step_jobs in E as (Et & Er & Ec & En & Hj). simpl. split; [|done].
    unfold as_jobs. simpl. rewrite Et.
    destruct (inflight_insert _ _ _ Hi) as (rest & H1 & H2). rewrite H1, H2.
    transitivity (((job_of <$> as_done s1) ++ inflight (SendThread pc') ++ as_send_queue s1) ++ rest);
      [solve_Permutation|]. rewrite Hj. solve_Permutation.
  - destruct (recv_loop_step s pc) as [[s1 pc']|] eqn:E; [|done]. intros [= <-].
    apply recv_loop_step_jobs in E as (Et & Er & Ec & En & Ed & Eq & _). simpl. split; [|done].
    unfold as_jobs. simpl. rewrite Et, Ed, Eq.
    destruct (inflight_insert _ _ _ Hi) as (rest & H1 & H2). by rewrite H1, H2.
Qed.

Lemma accounted_exec s e s' : as_exec s e = Some s' → accounted s → accounted s'.
Proof.
  unfold accounted. intros E Ha. destruct e; simpl in E; try case_decide; try done.
  - injection E as <-. unfold as_start. destruct (as_running s); [done|].
    unfold as_jobs, as_set_threads in *. cbn [as_done as_threads as_send_queue as_submitted].
    by rewrite (fmap_app inflight), concat_app, inflight_pool, app_nil_r.
  - injection E as <-. unfold as_stop_begin. by destruct (as_running s).
  - unfold as_join in E. destruct (forallb _ _) eqn:Ed; [|done]. injection E as <-.
    unfold as_jobs in *. by rewrite (inflight_done _ Ed) in Ha.
  - injection E as <-. unfold as_jobs, as_drain, as_set_queue in *.
    cbn [as_done as_threads as_send_queue as_submitted].
    rewrite (fmap_app job_of), drained_jobs, app_nil_r.
    rewrite <-Ha. apply fmap_Permutation. rewrite <-app_assoc.
    apply Permutation_app_head, Permutation_app_comm.
  - destruct (as_running s); [done|]. by injection E as <-.
  - injection E as <-. unfold as_jobs, as_async_send, as_set_queue in *.
    cbn [as_done as_threads as_send_queue as_submitted].
    rewrite !app_assoc, fmap_app, <-app_assoc, Ha, seq_S. done.
  - injection E as <-. unfold as_send_to. destruct (t_send_to _ _ _) as [t r].
    cbn [fst]. destruct (as_count_sent_jobs (as_set_inner s t (as_wire s)) r) as (-> & -> & _). done.
  - apply thread_step_jobs in E as (Hj & _ & _ & ->). by rewrite Hj.
Qed.

(** The phases of the controlling thread. *)
Definition ctl_ok s : Prop :=
  match as_control s with
  | CtlIdle => as_running s = false → as_threads s = []
  | CtlJoining => as_running s = false
  | CtlDraining => as_running s = false ∧ as_threads s = []
  end.
Lemma ctl_ok_exec s e s' : as_exec s e = Some s' → ctl_ok s → ctl_ok s'.
Proof.
  unfold ctl_ok. intros E Hc. destruct e; simpl in E; try case_decide as Hctl; try done.
  - injection E as <-. unfold as_start. destruct (as_running s) eqn:Er; [by rewrite Hctl, Er|].
    simpl. by rewrite Hctl.
  - injection E as <-. unfold as_stop_begin. destruct (as_running s) eqn:Er; [done|].
    rewrite Hctl in *. by rewrite Er.
  - unfold as_join in E. destruct (forallb _ _); [|done]. injection E as <-. simpl.
    by rewrite Hctl in Hc.
  - injection E as <-. simpl. rewrite Hctl in Hc. by destruct Hc.
  - destruct (as_running s) eqn:Er; [done|]. injection E as <-. simpl. by rewrite Er.
  - by injection E as <-.
  - injection E as <-. unfold as_send_to. destruct (t_send_to _ _ _) as [t r]. cbn [fst].
    by destruct (as_count_sent_jobs (as_set_inner s t (as_wire s)) r) as (_ & _ & -> & -> & -> & _).
  - revert E. unfold as_thread_step. destruct (as_threads s !! i) as [th|] eqn:Hi; [|done].
    assert (as_threads s ≠ []) as Hne by (by intros Hn; rewrite Hn in Hi).
    intros E. assert (as_running s' = as_running s ∧ as_control s' = as_control s) as [-> ->].
    { destruct (thread_step_jobs s i s') as (_ & ? & ? & _); [|done].
      unfold as_thread_step. by rewrite Hi. }
    destruct (as_control s); [|done|by destruct Hc]. intros Hr. by destruct Hne; apply Hc.
Qed.
(** The status passed to a callback is zero exactly when bytes were sent. *)
Definition status_ok (c : SendJob * Z * Z) : Prop := c.2 = if 0 <? c.1.2 then 0 else -1.
Lemma status_exec s e s' :
  as_exec s e = Some s' → Forall status_ok (as_done s) → Forall status_ok (as_done s').
Proof.
  intros E Hs. destruct e; simpl in E; try case_decide; try done.
  - injection E as <-. unfold as_start. by destruct (as_running s).
  - injection E as <-. unfold as_stop_begin. by destruct (as_running s).
  - unfold as_join in E. destruct (forallb _ _); [|done]. by injection E as <-.
  - injection E as <-. simpl. apply Forall_app. split; [done|].
    apply Forall_fmap, Forall_forall. by intros.
  - destruct (as_running s); [done|]. by injection E as <-.
  - by injection E as <-.
  - injection E as <-. unfold as_send_to. destruct (t_send_to _ _ _) as [t r]. cbn [fst].
    by destruct (as_count_sent_jobs (as_set_inner s t (as_wire s)) r) as (_ & _ & _ & _ & _ & -> & _).
  - unfold as_thread_step in E. destruct (as_threads s !! i) as [[pc|pc]|]; [| |done].
    + destruct (send_loop_step s pc) as [[s1 pc']|] eqn:E1; [|done]. injection E as <-. simpl.
      destruct pc as [| |j|j r|j r|]; simpl in E1.
      * by injection E1 as <- <-.
      * destruct (as_send_queue s); by injection E1 as <- <-.
      * destruct (t_send_to _ _ _). by injection E1 as <- <-.
      * injection E1 as <- <-. by destruct (as_count_sent_jobs s r) as (_ & _ & _ & _ & _ & -> & _).
      * injection E1 as <- <-. simpl. apply Forall_app. split; [done|]. by constructor.
      * done.
    + destruct (recv_loop_step s pc) as [[s1 pc']|] eqn:E1; [|done]. injection E as <-. simpl.
      by apply recv_loop_step_jobs in E1 as (_ & _ & _ & _ & -> & _).
Qed.

Lemma as_reach_inv inner n s :
  as_reach (as_new inner n) s → accounted s ∧ ctl_ok s ∧ Forall status_ok (as_done s).
Proof.
  induction 1 as [|s e s' Hr (Ha & Hc & Hs) E]; [split; [apply Permutation_refl|split; [done|constructor]]|].
  split; [by eapply accounted_exec|]. split; [by eapply ctl_ok_exec|by eapply status_exec].
Qed.
Lemma NoDup_seq_perm (l1 l2 : list nat) n : l1 ++ l2 ≡ₚ seq 0 n → NoDup l1.
Proof.
  intros HP. assert (NoDup (l1 ++ l2)) as HN by (rewrite HP; apply NoDup_seq).
  by apply NoDup_app in HN as (? & _ & _).
Qed.
End Accounting.

(** C26: Every job is completed exactly once.  In every reachable state of the pool, the
    submitted jobs are, without loss or duplication, the completed ones, the ones
    a thread holds and the ones waiting; so no callback runs twice, and its status
    is zero exactly when bytes were sent.  When [stop] returns, every job submitted
    until then has been completed. *)
Theorem async_exactly_once {T} `{!Transport T} (inner : T) (num_threads : nat) (s : AsyncTransport T) :
  as_reach (as_new inner num_threads) s →
  sj_ticket <$> as_jobs s ≡ₚ seq 0 (as_submitted s) ∧
  NoDup (sj_ticket ∘ job_of <$> as_done s) ∧ Forall status_ok (as_done s) ∧
  (∀ s', as_exec s AsDrain = Some s' →
     as_control s' = CtlIdle ∧ as_running s' = false ∧ as_threads s' = [] ∧
     sj_ticket ∘ job_of <$> as_done s' ≡ₚ seq 0 (as_submitted s')).
Proof.
  intros Hr. destruct (as_reach_inv _ _ _ Hr) as (Ha & Hc & Hs). split; [done|]. split; [|split; [done|]].
  - rewrite list_fmap_compose. unfold accounted, as_jobs in Ha. rewrite fmap_app in Ha.
    by eapply NoDup_seq_perm.
  - intros s' E. assert (as_reach (as_new inner num_threads) s') as Hr' by (by econstructor).
    destruct (as_reach_inv _ _ _ Hr') as (Ha' & _ & _). simpl in E. case_decide as Hctl; [|done].
    injection E as <-. unfold ctl_ok in Hc. rewrite Hctl in Hc. destruct Hc as [Hrun Hth].
    repeat split; try done. unfold accounted, as_jobs in Ha'. simpl as_threads in Ha'.
    rewrite Hth, (app_nil_r (job_of <$> _)), <-list_fmap_compose in Ha'. done.
Qed.

(** ** [stop] terminates *)
Definition thread_rank (t : Thread) : nat :=
  match t with
  | SendThread SP_Done | RecvThread RP_Done => 0
  | SendThread SP_Top | RecvThread RP_Top => 1
  | SendThread (SP_Call _ _) | RecvThread (RP_Call _ _) => 2
  | SendThread (SP_Sent _ _) | RecvThread (RP_Got _ _) => 3
  | SendThread (SP_Send _) | RecvThread RP_Recv => 4
  | SendThread SP_Wait => 5
  end.
Definition is_thread_event (e : AsEvent) : bool := match e with AsThread _ => true | _ => false end.
Definition thread_events (tr : list AsEvent) : nat := length (filter (λ e, is_thread_event e = true) tr).

Lemma rank_insert ths i t t' :
  ths !! i = Some t →
  (sum_list (thread_rank <$> <[i := t']> ths) + thread_rank t =
   sum_list (thread_rank <$> ths) + thread_rank t')%nat.
Proof.
  revert i. induction ths as [|x ths IH]; intros [|i] Hi; simplify_eq/=; [lia|].
  specialize (IH i Hi). lia.
Qed.
Lemma rank_done ths : sum_list (thread_rank <$> ths) = 0%nat → forallb thread_done ths = true.
Proof.
  induction ths as [|t ths IH]; [done|]. rewrite fmap_cons. cbn [sum_list_with id forallb]. intros E.
  rewrite IH by lia. destruct t as [[]|[]]; simpl in *; try done; lia.
Qed.
Lemma rank_pos ths :
  sum_list (thread_rank <$> ths) ≠ 0%nat → ∃ i t, ths !! i = Some t ∧ thread_rank t ≠ 0%nat.
Proof.
  induction ths as [|t ths IH]; [done|]. rewrite fmap_cons. cbn [sum_list_with id]. intros E.
  destruct (decide (thread_rank t = 0%nat)) as [Et|Et]; [|by exists 0%nat, t].
  destruct IH as (i & t' & Hi & Ht); [lia|]. by exists (S i), t'.
Qed.
Lemma rank_bound ths : (sum_list (thread_rank <$> ths) ≤ 5 * length ths)%nat.
Proof.
  induction ths as [|t ths IH]; [done|]. rewrite fmap_cons. cbn [sum_list_with id length].
  assert (thread_rank t ≤ 5)%nat by (destruct t as [[]|[]]; simpl; lia). lia.
Qed.

Section Stop.
Context {T : Type} `{!Transport T}.
Implicit Types s : AsyncTransport T.
Definition as_rank s : nat := sum_list (thread_rank <$> as_threads s).

Lemma thread_step_rank s i s' :
  as_running s = false → as_thread_step s i = Some s' → (as_rank s' < as_rank s)%nat.
Proof.
  intros Hrun. unfold as_thread_step, as_rank.
  destruct (as_threads s !! i) as [[pc|pc]|] eqn:Hi; [| |done].
  - destruct (send_loop_step s pc) as [[s1 pc']|] eqn:E; [|done]. intros [= <-]. simpl as_threads.
    destruct (send_loop_step_jobs _ _ _ _ E) as (-> & _).
    pose proof (rank_insert _ _ _ (SendThread pc') Hi) as Hrk.
    assert (thread_rank (SendThread pc') < thread_rank (SendThread pc))%nat; [|lia].
    destruct pc; simpl in E; rewrite ?Hrun in E; repeat case_match; simplify_eq/=; lia.
  - destruct (recv_loop_step s pc) as [[s1 pc']|] eqn:E; [|done]. intros [= <-]. simpl as_threads.
    destruct (recv_loop_step_jobs _ _ _ _ E) as (-> & _).
    pose proof (rank_insert _ _ _ (RecvThread pc') Hi) as Hrk.
    assert (thread_rank (RecvThread pc') < thread_rank (RecvThread pc))%nat; [|lia].
    destruct pc; simpl in E; rewrite ?Hrun in E; repeat case_match; simplify_eq/=; lia.
Qed.
Lemma thread_step_progress s i t :
  as_threads s !! i = Some t → thread_rank t ≠ 0%nat → is_Some (as_thread_step s i).
Proof.
  intros Hi Ht. unfold as_thread_step. rewrite Hi.
  destruct t as [[]|[]]; simpl in *; try done; repeat case_match; simplify_eq; eauto.
Qed.

(** The calls that interleave with the joins do not disturb the threads. *)
Lemma joining_exec s e s' :
  as_control s = CtlJoining → as_running s = false → e ≠ AsJoin → as_exec s e = Some s' →
  as_control s' = CtlJoining ∧ as_running s' = false ∧
  (as_rank s' + (if is_thread_event e then 1 else 0) ≤ as_rank s)%nat.
Proof.
  intros Hc Hr Hne E. destruct e; simpl in E; rewrite ?Hc in E; try done.
  - injection E as <-. simpl. rewrite Hc, Hr. unfold as_rank. simpl. split_and!; [done..|lia].
  - injection E as <-. unfold as_send_to. destruct (t_send_to _ _ _) as [t r]. cbn [fst].
    unfold as_rank.
    destruct (as_count_sent_jobs (as_set_inner s t (as_wire s)) r) as (_ & _ & -> & -> & -> & _).
    simpl. split_and!; [done..|lia].
  - destruct (thread_step_jobs _ _ _ E) as (_ & -> & -> & _). split_and!; [done..|].
    pose proof (thread_step_rank _ _ _ Hr E). simpl. lia.
Qed.
Lemma joining_run s tr s' :
  as_control s = CtlJoining → as_running s = false → AsJoin ∉ tr → as_run s tr = Some s' →
  as_control s' = CtlJoining ∧ (as_rank s' + thread_events tr ≤ as_rank s)%nat.
Proof.
  revert s. induction tr as [|e tr IH]; intros s Hc Hr Hnj; simpl.
  { intros [= <-]. unfold thread_events. simpl. split; [done|lia]. }
  apply not_elem_of_cons in Hnj as [Hne Hnj].
  destruct (as_exec s e) as [s1|] eqn:E; [|done]. intros Hrun.
  destruct (joining_exec s e s1) as (Hc1 & Hr1 & Hrk); [done..|].
  destruct (IH s1 Hc1 Hr1 Hnj Hrun) as [? Hle]. split; [done|].
  unfold thread_events in *. rewrite filter_cons. destruct e; simpl in *; lia.
Qed.
End Stop.

(** C25: [stop] terminates under every schedule.  Once it has cleared [running_], the
    threads of the pool take at most five steps each before all have returned,
    however the users' calls interleave; and until the joins can proceed some
    thread can move (a wait ends by its timeout). *)
Theorem async_stop_terminates {T} `{!Transport T} (inner : T) (num_threads : nat) (s : AsyncTransport T) :
  as_reach (as_new inner num_threads) s → as_control s = CtlJoining →
  (∀ tr s', as_run s tr = Some s' → AsJoin ∉ tr →
     as_control s' = CtlJoining ∧ (as_rank s' + thread_events tr ≤ 5 * length (as_threads s))%nat ∧
     (is_Some (as_exec s' AsJoin) ∨ ∃ i, is_Some (as_exec s' (AsThread i)))).
Proof.
  intros Hr Hc tr s' Hrun Hnj. destruct (as_reach_inv _ _ _ Hr) as (_ & Hctl & _).
  unfold ctl_ok in Hctl. rewrite Hc in Hctl.
  destruct (joining_run s tr s' Hc Hctl Hnj Hrun) as [Hc' Hle].
  pose proof (rank_bound (as_threads s)). unfold as_rank in *. split; [done|]. split; [lia|].
  destruct (decide (sum_list (thread_rank <$> as_threads s') = 0%nat)) as [E|E].
  - left. simpl. rewrite Hc'. unfold as_join. rewrite rank_done by done. simpl. eauto.
  - right. destruct (rank_pos _ E) as (i & t & Hi & Ht). exists i. by eapply thread_step_progress.
Qed.

(** ** With one sender, the wire keeps the order of submission *)
Definition unsent (t : Thread) : list SendJob := match t with SendThread (SP_Send j) => [j] | _ => [] end.
Definition single_sender (ths : list Thread) : Prop :=
  ths = [] ∨ ∃ r pc, ths = [RecvThread r; SendThread pc].

Section Fifo.
Context {T : Type} `{!Transport T}.
Implicit Types s : AsyncTransport T.

Definition as_pending s : list nat :=
  sj_ticket <$> (as_wire s ++ concat (unsent <$> as_threads s) ++ as_send_queue s).
Record fifo_ok s : Prop := {
  fo_threads : single_sender (as_threads s);
  fo_num : as_num_threads s = 1%nat ∨ as_num_threads s = 2%nat;
  fo_sorted : StronglySorted lt (as_pending s);
  fo_below : Forall (λ t, (t < as_submitted s)%nat) (as_pending s)
}.

Lemma fifo_same s s' :
  as_threads s' = as_threads s → as_num_threads s' = as_num_threads s →
  as_submitted s' = as_submitted s → as_wire s' = as_wire s → as_send_queue s' = as_send_queue s →
  fifo_ok s → fifo_ok s'.
Proof.
  intros Et En Es Ew Eq [H1 H2 H3 H4]. unfold as_pending in *.
  split; unfold as_pending; rewrite ?Et, ?En, ?Es, ?Ew, ?Eq; done.
Qed.
Lemma fifo_prefix s s' l :
  as_num_threads s' = as_num_threads s → as_submitted s' = as_submitted s →
  single_sender (as_threads s') → as_pending s = as_pending s' ++ l → fifo_ok s → fifo_ok s'.
Proof.
  intros En Es Ht El [H1 H2 H3 H4]. rewrite El in H3, H4. split; rewrite ?En, ?Es; try done.
  - by apply StronglySorted_app in H3 as (_ & ? & _).
  - by apply Forall_app in H4 as [? _].
Qed.
Lemma fifo_num_count s r : as_num_threads (as_count_sent s r) = as_num_threads s.
Proof. unfold as_count_sent. by case_match. Qed.

Lemma fifo_thread s i s' : as_thread_step s i = Some s' → fifo_ok s → fifo_ok s'.
Proof.
  intros E Hf. pose proof Hf as [[Hn|(r & pc & Ht)] _ _ _].
  { unfold as_thread_step in E. by rewrite Hn in E. }
  unfold as_thread_step in E. rewrite Ht in E. destruct i as [|[|i]]; simpl in E; [| |done].
  - destruct (recv_loop_step s r) as [[s1 r']|] eqn:E1; [|done]. injection E as <-.
    assert (as_num_threads s1 = as_num_threads s) as En.
    { revert E1. destruct r; simpl; repeat case_match; by intros [= <- _]. }
    apply recv_loop_step_jobs in E1 as (Et & _ & _ & Es & _ & Eq & Ew).
    apply (fifo_prefix s _ []); simpl; try done; [by rewrite Et, Ht; right; eauto|].
    unfold as_pending. simpl. by rewrite Et, Eq, Ew, Ht, app_nil_r.
  - destruct (send_loop_step s pc) as [[s1 pc']|] eqn:E1; [|done]. injection E as <-.
    assert (as_num_threads s1 = as_num_threads s) as En.
    { revert E1. destruct pc; simpl; repeat case_match; intros [= <- _]; try done. apply fifo_num_count. }
    pose proof (send_loop_step_jobs _ _ _ _ E1) as (Et & _ & _ & Es & _).
    apply (fifo_prefix s _ []); simpl; try done; [by rewrite Et, Ht; right; eauto|].
    unfold as_pending. rewrite app_nil_r. simpl as_threads. simpl as_wire. simpl as_send_queue.
    rewrite Et, Ht. f_equal. destruct pc as [| |j|j k|j k|]; simpl in E1.
    + injection E1 as <- <-. by destruct (as_running s).
    + destruct (as_send_queue s) as [|j q] eqn:Eq; injection E1 as <- <-;
        [rewrite Eq; by destruct (as_running s)|done].
    + destruct (t_send_to _ _ _). injection E1 as <- <-. simpl. by rewrite <-app_assoc.
    + injection E1 as <- <-. by destruct (as_count_sent_jobs s k) as (_ & _ & _ & _ & _ & _ & -> & ->).
    + by injection E1 as <- <-.
    + done.
Qed.
Lemma fifo_exec s e s' : as_exec s e = Some s' → ctl_ok s → fifo_ok s → fifo_ok s'.
Proof.
  intros E Hctl Hf. destruct e; simpl in E; try case_decide as Hc; try done.
  - injection E as <-. unfold as_start. destruct (as_running s) eqn:Er; [done|].
    unfold ctl_ok in Hctl. rewrite Hc in Hctl. specialize (Hctl Er).
    destruct Hf as [H1 H2 H3 H4]. unfold as_pending in *. rewrite Hctl in *.
    split; unfold as_pending; simpl; try done.
    + right. destruct H2 as [->| ->]; by do 2 eexists.
    + by destruct H2 as [->| ->].
    + by destruct H2 as [->| ->].
  - injection E as <-. unfold as_stop_begin. destruct (as_running s); [|done].
    by apply (fifo_same s).
  - unfold as_join in E. destruct (forallb _ _) eqn:Ed; [|done]. injection E as <-.
    apply (fifo_prefix s _ []); simpl; try done; [by left|]. rewrite app_nil_r.
    unfold as_pending. simpl. destruct Hf as [[->|(r & pc & Ht)] _ _ _]; [done|].
    rewrite Ht in *. simpl in Ed. by destruct pc, r.
  - injection E as <-. pose proof Hf as [H1 _ _ _].
    apply (fifo_prefix s _ (sj_ticket <$> as_send_queue s)); simpl; try done.
    unfold as_pending. simpl. by rewrite app_nil_r, <-fmap_app, <-app_assoc.
  - destruct (as_running s); [done|]. injection E as <-. by apply (fifo_same s).
  - injection E as <-. destruct Hf as [H1 H2 H3 H4].
    assert (as_pending (as_async_send s data remote cb) = as_pending s ++ [as_submitted s]) as Hp.
    { unfold as_pending. simpl. by rewrite !app_assoc, fmap_app. }
    split; try done; rewrite Hp.
    + apply StronglySorted_app. split; [|split; [done|by repeat constructor]].
      intros x y Hx ->%list_elem_of_singleton. by eapply Forall_forall in H4.
    + simpl. apply Forall_app. split; [|by constructor; [lia|]].
      eapply Forall_impl; [done|]. intros x Hx. simpl in Hx. lia.
  - injection E as <-. unfold as_send_to. destruct (t_send_to _ _ _) as [t r]. cbn [fst].
    destruct (as_count_sent_jobs (as_set_inner s t (as_wire s)) r) as (_ & ? & ? & _ & _ & _ & ? & ?).
    apply (fifo_same s); try done. by rewrite fifo_num_count.
  - by eapply fifo_thread.
Qed.
End Fifo.

(** With at most two I/O threads (one receives, one sends) the jobs reach the
    wrapped transport in the order of their submission, also across a stop and a
    restart; jobs cancelled by [stop] are skipped. *)
Theorem async_fifo {T} `{!Transport T} (inner : T) (num_threads : nat) (s : AsyncTransport T) :
  (num_threads ≤ 2)%nat → as_reach (as_new inner num_threads) s →
  StronglySorted lt (sj_ticket <$> as_wire s).
Proof.
  intros Hn Hr. assert (fifo_ok s) as [_ _ Hs _].
  { induction Hr as [|s e s' Hr IH E].
    - split; unfold as_pending; simpl; [by left| |constructor|constructor].
      destruct num_threads as [|[|[|]]]; simpl; lia.
    - destruct (as_reach_inv _ _ _ Hr) as (_ & Hc & _). by eapply fifo_exec. }
  unfold as_pending in Hs. rewrite fmap_app in Hs. by apply StronglySorted_app in Hs as (_ & ? & _).
Qed.

(** ** A concrete run

    One I/O thread asked for, so one receives and one sends; two jobs are submitted,
    the first is sent, [stop] cancels the second. *)
Module AsyncRun.
Definition inner : ExternalTransport := (xt_bind xt_new {| ep_address := [97]; ep_port := 1 |}).1.
Definition peer : Endpoint := {| ep_address := [98]; ep_port := 2 |}.
Definition start_events : list AsEvent :=
  [AsStart; AsAsyncSend [1; 2] peer true; AsAsyncSend [3] peer true; AsThread 1; AsThread 1; AsThread 1].
Definition stop_events : list AsEvent :=
  [AsThread 1; AsThread 1; AsThread 1; AsThread 0; AsJoin].
Definition run_from (s : AsyncTransport ExternalTransport) (tr : list AsEvent)
    : AsyncTransport ExternalTransport := default s (as_run s tr).
Definition joining : AsyncTransport ExternalTransport :=
  run_from (as_new inner 1) (start_events ++ [AsStop]).
Definition draining : AsyncTransport ExternalTransport := run_from joining stop_events.

Lemma joining_reach : as_reach (as_new inner 1) joining.
Proof. apply (as_run_reach _ (start_events ++ [AsStop]) (as_new inner 1)); [constructor|vm_compute; reflexivity]. Qed.
Lemma draining_reach : as_reach (as_new inner 1) draining.
Proof. apply (as_run_reach _ stop_events joining); [apply joining_reach|vm_compute; reflexivity]. Qed.

Lemma async_exactly_once_witness :
  NoDup (sj_ticket ∘ job_of <$> as_done draining) ∧
  sj_ticket ∘ job_of <$> as_done (as_drain draining) ≡ₚ [0; 1]%nat.
Proof.
  destruct (async_exactly_once inner 1 draining draining_reach) as (_ & Hn & _ & Hd).
  split; [exact Hn|]. destruct (Hd (as_drain draining)) as (_ & _ & _ & Hp); [vm_compute; reflexivity|].
  exact Hp.
Defined.
Lemma async_stop_terminates_witness :
  as_control joining = CtlJoining ∧
  (thread_events (take 4 stop_events) ≤ 5 * length (as_threads joining))%nat.
Proof.
  split; [vm_compute; reflexivity|].
  assert (as_run joining (take 4 stop_events) = Some (run_from joining (take 4 stop_events))) as E
    by (vm_compute; reflexivity).
  destruct (async_stop_terminates inner 1 joining joining_reach ltac:(vm_compute; reflexivity)
    (take 4 stop_events) _ E) as (_ & Hle & _).
  - simpl. rewrite !not_elem_of_cons. repeat split; try discriminate. apply not_elem_of_nil.
  - lia.
Defined.
Lemma async_fifo_witness : StronglySorted lt (sj_ticket <$> as_wire draining).
Proof. apply (async_fifo inner 1); [lia|apply draining_reach]. Defined.
Example one_sent_one_cancelled :
  (λ c : SendJob * Z * Z, (sj_ticket (job_of c), c.1.2, c.2)) <$> as_done (as_drain draining) =
  [(0%nat, 2, 0); (1%nat, -1, -1)].
Proof. vm_compute. reflexivity. Qed.
End AsyncRun.
