(* ===== verification/Udp.v ===== *)
(** * The UDP transport

    Models [include/protocoll/transport/udp_transport.h] and
    [src/transport/udp_transport.cpp] in the POSIX build.  The operating system is the
    class [Sockets]: one operation per system call, and as laws how the calls move the
    set of open descriptors, that a receive writes at most the buffer, and that the
    address of a datagram has four bytes and a 16-bit port. *)
From S2P Require Import Prelude Platform Transport.

(** [struct sockaddr_in]: the port as stored (network order) and the address bytes. *)
Record SockAddr := { sin_port : Z; sin_addr : bytes }.
Definition sockaddr_ok (a : SockAddr) : Prop :=
  is_u16 (sin_port a) ∧ length (sin_addr a) = 4%nat ∧ wf_bytes (sin_addr a).
Definition INVALID_SOCK : Z := -1.

Class Sockets := {
  os : Type;
  sys_socket : os → os * Z;
  sys_bind : os → Z → SockAddr → os * Z;
  sys_close : os → Z → os;
  sys_reuseaddr : os → Z → os;
  sys_rcvtimeo : os → Z → Z * Z → os * Z; (* seconds and microseconds *)
  sys_poll : os → Z → os * Z; (* POLLIN, no waiting *)
  sys_sendto : os → Z → bytes → SockAddr → os * Z;
  sys_recvfrom : os → Z → nat → os * (Z * bytes * SockAddr);
  open_fds : os → gset Z;
  socket_spec : ∀ s s' fd, sys_socket s = (s', fd) →
    (fd = INVALID_SOCK ∧ open_fds s' = open_fds s) ∨
    (0 ≤ fd ∧ fd ∉ open_fds s ∧ open_fds s' = open_fds s ∪ {[fd]});
  close_fds : ∀ s fd, open_fds (sys_close s fd) = open_fds s ∖ {[fd]};
  bind_fds : ∀ s fd a, open_fds (sys_bind s fd a).1 = open_fds s;
  reuseaddr_fds : ∀ s fd, open_fds (sys_reuseaddr s fd) = open_fds s;
  rcvtimeo_fds : ∀ s fd tv, open_fds (sys_rcvtimeo s fd tv).1 = open_fds s;
  poll_fds : ∀ s fd, open_fds (sys_poll s fd).1 = open_fds s;
  sendto_fds : ∀ s fd data a, open_fds (sys_sendto s fd data a).1 = open_fds s;
  sendto_result : ∀ s fd data a, (sys_sendto s fd data a).2 ≤ Z.of_nat (length data);
  recvfrom_fds : ∀ s fd n, open_fds (sys_recvfrom s fd n).1 = open_fds s;
  recvfrom_spec : ∀ s fd n s' r data a, sys_recvfrom s fd n = (s', (r, data, a)) → 0 < r →
    r = Z.of_nat (length data) ∧ (length data ≤ n)%nat ∧ wf_bytes data ∧ sockaddr_ok a }.

Record UdpTransport := { ud_sock : Z }.
Definition ud_new : UdpTransport := {| ud_sock := INVALID_SOCK |}.

(** ["0.0.0.0"] *)
Definition ANY_TEXT : bytes := [48; 46; 48; 46; 48; 46; 48].
Definition INADDR_ANY : bytes := [0; 0; 0; 0].

Section Udp.
Context `{Sockets} `{Inet}.
Implicit Types (u : UdpTransport) (s : os).

(** The address of a value-initialised [sockaddr_in] is zero; a text that is not an
    address leaves it. *)
Definition sockaddr_of (ep : Endpoint) : SockAddr :=
  {| sin_port := host_to_net16 (ep_port ep); sin_addr := default INADDR_ANY (inet_pton (ep_address ep)) |}.
Definition bind_addr (local : Endpoint) : SockAddr :=
  if (length (ep_address local) =? 0)%nat || bool_decide (ep_address local = ANY_TEXT)
  then {| sin_port := host_to_net16 (ep_port local); sin_addr := INADDR_ANY |}
  else sockaddr_of local.
Definition endpoint_of (a : SockAddr) : Endpoint :=
  {| ep_address := inet_ntop (sin_addr a); ep_port := net_to_host16 (sin_port a) |}.

Definition set_recv_timeout s (fd timeout_ms : Z) : os * bool :=
  let timeout_ms := if timeout_ms <? 0 then 0 else timeout_ms in
  let '(s, r) := sys_rcvtimeo s fd (Z.quot timeout_ms 1000, Z.rem timeout_ms 1000 * 1000) in
  (s, r =? 0).
Definition ud_close u s : UdpTransport * os :=
  if ud_sock u =? INVALID_SOCK then (u, s)
  else ({| ud_sock := INVALID_SOCK |}, sys_close s (ud_sock u)).
Definition ud_bind u s (local : Endpoint) : UdpTransport * os * bool :=
  let '(u, s) := if negb (ud_sock u =? INVALID_SOCK) then ud_close u s else (u, s) in
  let '(s, fd) := sys_socket s in
  let u := {| ud_sock := fd |} in
  if fd =? INVALID_SOCK then (u, s, false) else
  let s := sys_reuseaddr s fd in
  let '(s, r) := sys_bind s fd (bind_addr local) in
  if negb (r =? 0) then let '(u, s) := ud_close u s in (u, s, false) else (u, s, true).
Definition ud_send_to u s (data : bytes) (remote : Endpoint) : os * Z :=
  if ud_sock u =? INVALID_SOCK then (s, -1) else sys_sendto s (ud_sock u) data (sockaddr_of remote).
(** The result, and for a positive one the bytes and the sender. *)
Definition ud_recv_from u s (buf_len : nat) (timeout_ms : Z)
    : os * (Z * option (bytes * Endpoint)) :=
  if ud_sock u =? INVALID_SOCK then (s, (-1, None)) else
  let '(s, ready) :=
    if timeout_ms =? 0 then let '(s, ret) := sys_poll s (ud_sock u) in (s, 0 <? ret)
    else if 0 <? timeout_ms then ((set_recv_timeout s (ud_sock u) timeout_ms).1, true)
    else ((set_recv_timeout s (ud_sock u) (-1)).1, true) in
  if negb ready then (s, (-1, None)) else
  let '(s, (r, data, a)) := sys_recvfrom s (ud_sock u) buf_len in
  (s, (r, if 0 <? r then Some (data, endpoint_of a) else None)).
Definition ud_destroy u s : os := (ud_close u s).2.

(** ** Ownership of the descriptor *)
Inductive UdpOp :=
| UBind (local : Endpoint) | UClose | USend (data : bytes) (remote : Endpoint)
| URecv (buf_len : nat) (timeout_ms : Z).
Definition ud_exec (us : UdpTransport * os) (o : UdpOp) : UdpTransport * os :=
  let '(u, s) := us in
  match o with
  | UBind local => (ud_bind u s local).1
  | UClose => ud_close u s
  | USend data remote => (u, (ud_send_to u s data remote).1)
  | URecv n timeout => (u, (ud_recv_from u s n timeout).1)
  end.
(** The descriptors the process holds for a transport. *)
Definition sock_set u : gset Z := if ud_sock u =? INVALID_SOCK then ∅ else {[ud_sock u]}.
Definition owns (base : gset Z) u s : Prop :=
  open_fds s = base ∪ sock_set u ∧ (ud_sock u ≠ INVALID_SOCK → ud_sock u ∉ base ∧ 0 ≤ ud_sock u).

Lemma ud_close_owns base u s :
  owns base u s → owns base (ud_close u s).1 (ud_close u s).2 ∧ ud_sock (ud_close u s).1 = INVALID_SOCK.
Proof.
  intros [Ho Hf]. unfold ud_close, owns, sock_set in *.
  destruct (Z.eqb_spec (ud_sock u) INVALID_SOCK) as [E|E]; simpl.
  - rewrite E, Z.eqb_refl. done.
  - split; [|done]. rewrite close_fds, Ho. destruct (Hf E) as [Hn _].
    split; [set_solver|done].
Qed.
Lemma ud_bind_owns base u s local :
  owns base u s →
  owns base (ud_bind u s local).1.1 (ud_bind u s local).1.2 ∧
  (ud_bind u s local).2 = negb (ud_sock (ud_bind u s local).1.1 =? INVALID_SOCK).
Proof.
  intros Ho. unfold ud_bind.
  assert (∃ u1 s1, (if negb (ud_sock u =? INVALID_SOCK) then ud_close u s else (u, s)) = (u1, s1) ∧
    owns base u1 s1 ∧ ud_sock u1 = INVALID_SOCK) as (u1 & s1 & -> & [Ho1 _] & Hu1).
  { destruct (ud_close_owns base u s Ho). destruct (Z.eqb_spec (ud_sock u) INVALID_SOCK); simpl.
    - by exists u, s.
    - destruct (ud_close u s) as [u1 s1]. by exists u1, s1. }
  unfold sock_set in Ho1. rewrite Hu1, Z.eqb_refl, union_empty_r_L in Ho1.
  destruct (sys_socket s1) as [s2 fd] eqn:Es. apply socket_spec in Es as [[-> E2]|(Hfd0 & Hn & E2)].
  - simpl. split; [|done]. split; [|done]. unfold sock_set. simpl. by rewrite E2, Ho1, union_empty_r_L.
  - assert (fd ≠ INVALID_SOCK) as Hfd by (unfold INVALID_SOCK; lia).
    rewrite (proj2 (Z.eqb_neq fd INVALID_SOCK)) by done.
    pose proof (bind_fds (sys_reuseaddr s2 fd) fd (bind_addr local)) as Eb.
    rewrite reuseaddr_fds in Eb.
    destruct (sys_bind _ _ _) as [s3 r]. simpl in Eb.
    assert (owns base {| ud_sock := fd |} s3) as Ho3.
    { unfold owns, sock_set. simpl. rewrite (proj2 (Z.eqb_neq fd INVALID_SOCK)) by done.
      rewrite Eb, E2, Ho1. split; [done|]. intros _. split; [congruence|done]. }
    destruct (r =? 0); simpl.
    + split; [done|]. by rewrite (proj2 (Z.eqb_neq fd INVALID_SOCK)).
    + destruct (ud_close_owns base _ _ Ho3) as [Hc Hi]. destruct (ud_close _ _) as [u4 s4]. simpl in *.
      by rewrite Hi.
Qed.
Lemma ud_send_fds u s data remote : open_fds (ud_send_to u s data remote).1 = open_fds s.
Proof. unfold ud_send_to. case_match; [done|apply sendto_fds]. Qed.
Lemma set_recv_timeout_fds s fd timeout : open_fds (set_recv_timeout s fd timeout).1 = open_fds s.
Proof.
  unfold set_recv_timeout. pose proof (rcvtimeo_fds s fd) as Hr.
  match goal with |- context [sys_rcvtimeo s fd ?tv] => specialize (Hr tv); destruct (sys_rcvtimeo s fd tv) end.
  done.
Qed.
Lemma ud_recv_spec u s n timeout s' r out :
  ud_recv_from u s n timeout = (s', (r, out)) →
  open_fds s' = open_fds s ∧
  match out with
  | Some (data, from) => r = Z.of_nat (length data) ∧ (length data ≤ n)%nat ∧ wf_bytes data ∧
      is_u16 (ep_port from) ∧ inet_pton (ep_address from) ≠ None
  | None => r ≤ 0
  end.
Proof.
  unfold ud_recv_from. destruct (ud_sock u =? INVALID_SOCK); [by intros [= <- <- <-]|].
  set (w := if timeout =? 0 then _ else _).
  assert (open_fds w.1 = open_fds s) as Hw.
  { subst w. repeat case_match; simplify_eq/=; rewrite ?set_recv_timeout_fds; try done.
    match goal with E : sys_poll s ?fd = _ |- _ => pose proof (poll_fds s fd) as Hp; by rewrite E in Hp end. }
  destruct w as [s1 ready]. simpl in Hw. destruct ready; simpl; [|by intros [= <- <- <-]].
  destruct (sys_recvfrom s1 (ud_sock u) n) as [s2 [[r' data] a]] eqn:Er.
  pose proof (recvfrom_fds s1 (ud_sock u) n) as Hf. rewrite Er in Hf. simpl in Hf.
  intros [= <- <- <-]. split; [congruence|].
  destruct (Z.ltb_spec 0 r'); [|done]. destruct (recvfrom_spec _ _ _ _ _ _ _ Er) as (? & ? & ? & Hp & Ha & Hwf); [done|].
  split_and!; try done.
  - unfold endpoint_of. simpl. unfold net_to_host16. rewrite bswap16_spec. ulia.
  - simpl. by rewrite pton_ntop.
Qed.

(** A UDP transport owns one descriptor at most.  Over every sequence of calls the
    descriptors open for it are the one it stores, which is none of the others, or none
    after [close] and after a [bind] that failed at any of its steps; [bind] reports
    exactly whether it is open, and the destructor leaves the process with the
    descriptors it started with. *)
Theorem udp_owns_descriptor (s0 : os) (ops : list UdpOp) (local : Endpoint) :
  let '(u, s) := foldl ud_exec (ud_new, s0) ops in
  owns (open_fds s0) u s ∧
  open_fds (ud_destroy u s) = open_fds s0 ∧
  (let '(u', _, ok) := ud_bind u s local in ok = negb (ud_sock u' =? INVALID_SOCK)) ∧
  (ud_sock u = INVALID_SOCK →
    (∀ data remote, ud_send_to u s data remote = (s, -1)) ∧
    (∀ n timeout, ud_recv_from u s n timeout = (s, (-1, None)))).
Proof.
  assert (∀ us, owns (open_fds s0) us.1 us.2 →
    owns (open_fds s0) (foldl ud_exec us ops).1 (foldl ud_exec us ops).2) as Hrun.
  { induction ops as [|o ops IH]; intros [u s] Ho; [done|]. simpl in Ho. cbn [foldl]. apply IH.
    destruct o; simpl.
    - pose proof (ud_bind_owns _ u s local0 Ho) as [? _]. by destruct (ud_bind u s local0) as [[] ?].
    - by apply ud_close_owns.
    - destruct Ho. split; [by rewrite ud_send_fds|done].
    - destruct (ud_recv_from u s buf_len timeout_ms) as [s' [r out]] eqn:E.
      apply ud_recv_spec in E as [E _]. destruct Ho. split; simpl; [congruence|done]. }
  specialize (Hrun (ud_new, s0)). destruct (foldl ud_exec _ ops) as [u s]. simpl in Hrun.
  destruct Hrun as [Ho Hn]; [unfold owns, sock_set; simpl; by rewrite union_empty_r_L|].
  assert (owns (open_fds s0) u s) as Hown by done. split_and!; [done| | |].
  - destruct (ud_close_owns _ _ _ Hown) as [[Hc _] Hi]. unfold ud_destroy, sock_set in *.
    rewrite Hi in Hc. simpl in Hc. by rewrite union_empty_r_L in Hc.
  - pose proof (ud_bind_owns _ _ _ local Hown) as [_ Hb]. by destruct (ud_bind u s local) as [[]].
  - intros E. unfold ud_send_to, ud_recv_from. rewrite E. done.
Qed.

(** A bound transport is one a peer can use. *)
#[global, refine] Instance UdpTransport_Transport : Transport (UdpTransport * os) := {|
  t_send_to us data remote := let '(s, r) := ud_send_to us.1 us.2 data remote in ((us.1, s), r);
  t_recv_from us n timeout :=
    let '(s, (_, out)) := ud_recv_from us.1 us.2 n timeout in ((us.1, s), out);
  t_ok _ := True
|}.
Proof.
  - done.
  - done.
  - intros [u s] n timeout t' data from _. simpl.
    destruct (ud_recv_from u s n timeout) as [s' [r out]] eqn:E. intros [= _ ->].
    by apply ud_recv_spec in E as (_ & _ & ? & ? & _).
Defined.
End Udp.

(** ** An operating system to run the examples with: datagrams wait in one queue *)
Module UdpRun.
#[local] Existing Instance toy_inet.
Record ToyOs := { to_fds : gset Z; to_queue : list (bytes * SockAddr) }.
Definition toy_fd (fds : gset Z) : Z := foldr Z.max 0 (elements fds) + 1.
Lemma toy_fd_fresh fds : 0 ≤ toy_fd fds ∧ toy_fd fds ∉ fds.
Proof.
  unfold toy_fd. assert (∀ l : list Z, 0 ≤ foldr Z.max 0 l ∧ ∀ z, z ∈ l → z ≤ foldr Z.max 0 l) as Hm.
  { induction l as [|x l [IH1 IH2]]; simpl; [split; [done|by intros z ?%elem_of_nil]|].
    split; [lia|]. intros z [->|Hz]%elem_of_cons; [lia|]. specialize (IH2 z Hz). lia. }
  destruct (Hm (elements fds)) as [? Hle]. split; [lia|].
  intros Hin%elem_of_elements%Hle. lia.
Qed.
Definition toy_addr_ok (a : SockAddr) : bool :=
  bool_decide (is_u16 (sin_port a) ∧ length (sin_addr a) = 4%nat ∧ wf_bytes (sin_addr a)).
(** What cannot be a datagram is not delivered. *)
Definition toy_recvfrom (s : ToyOs) (fd : Z) (n : nat) : ToyOs * (Z * bytes * SockAddr) :=
  match to_queue s with
  | (data, a) :: rest =>
      let s := {| to_fds := to_fds s; to_queue := rest |} in
      if bool_decide (wf_bytes data) && toy_addr_ok a
      then (s, (Z.of_nat (length (take n data)), take n data, a)) else (s, (-1, [], a))
  | [] => (s, (-1, [], {| sin_port := 0; sin_addr := [] |}))
  end.
#[global, refine] Instance toy_sockets : Sockets := {|
  os := ToyOs;
  sys_socket s := ({| to_fds := to_fds s ∪ {[toy_fd (to_fds s)]}; to_queue := to_queue s |}, toy_fd (to_fds s));
  sys_bind s _ a := (s, if sin_port a =? 0 then -1 else 0);
  sys_close s fd := {| to_fds := to_fds s ∖ {[fd]}; to_queue := to_queue s |};
  sys_reuseaddr s _ := s;
  sys_rcvtimeo s _ _ := (s, 0);
  sys_poll s _ := (s, Z.of_nat (length (to_queue s)));
  sys_sendto s _ data a :=
    ({| to_fds := to_fds s; to_queue := to_queue s ++ [(data, a)] |}, Z.of_nat (length data));
  sys_recvfrom := toy_recvfrom;
  open_fds := to_fds |}.
Proof.
  all: try done.
  - intros s s' fd [= <- <-]. right. destruct (toy_fd_fresh (to_fds s)). done.
  - intros s fd n. unfold toy_recvfrom. by repeat case_match.
  - intros s fd n s' r data a. unfold toy_recvfrom. destruct (to_queue s) as [|[data' a'] rest]; [intros [= <- <- <- <-]; lia|].
    destruct (bool_decide_reflect (wf_bytes data')) as [Hwf|]; simpl; [|intros [= <- <- <- <-]; lia].
    unfold toy_addr_ok. case_bool_decide as Ha; intros [= <- <- <- <-]; [|lia]. intros _.
    split; [done|]. rewrite length_take. split_and!; [lia|by apply Forall_take|done].
Defined.

Definition here : Endpoint := {| ep_address := []; ep_port := 9000 |}.
Definition there : Endpoint := {| ep_address := [10; 0; 0; 2]; ep_port := 9001 |}.
Definition boot : ToyOs := {| to_fds := {[0; 1; 2]}; to_queue := [] |}.
Definition opened : UdpTransport * ToyOs := foldl ud_exec (ud_new, boot) [UBind here; USend [7; 8; 9] there].
(** What is sent to an endpoint is received as coming from it: the queue reflects. *)
Example udp_reflects :
  (ud_recv_from opened.1 opened.2 2 0).2 = (2, Some ([7; 8], there)).
Proof. vm_compute. reflexivity. Qed.
(** A bind that fails leaves no descriptor behind. *)
Example udp_failed_bind :
  let '(u, s, ok) := ud_bind ud_new boot {| ep_address := []; ep_port := 0 |} in
  ok = false ∧ ud_sock u = -1 ∧ to_fds s = to_fds boot.
Proof. by_decide. Qed.
End UdpRun.
