(* ===== verification/OpHeap.v ===== *)
(** * Operations of completion-based transports

    What the io_uring and the IOCP transport share.  An operation is an object on the heap
    whose address is given to the kernel and comes back with its completion.  [heap_ok]
    says who may touch which object: it relates the heap to the list [fl] of operations
    in flight (with the kernel, in the completion queue, in the hands of a thread) and to
    the history of the sends: which were submitted, which of them with a callback, which
    have ended, and which callbacks were made.  The class [AsyncOp] is what it needs to
    know of an operation: whether it is a send, whether it has a callback, and with which
    codes it may end. *)
From S2P Require Import Prelude.

Class AsyncOp (Op : Type) := {
  op_is_send : Op → Prop;
  op_has_cb : Op → bool;
  op_code_ok : nat * Z * Z → Prop }.
Definition called_ids (called : list (nat * Z * Z)) : list nat := (λ c, c.1.1) <$> called.
(** The history of the sends; the codes are the byte count and the error. *)
Record SendLog := {
  sl_sent : list nat; sl_asked : list nat; sl_ended : list (nat * Z * Z); sl_called : list (nat * Z * Z) }.
Definition sl_new : SendLog := {| sl_sent := []; sl_asked := []; sl_ended := []; sl_called := [] |}.
Definition sl_submit (l : SendLog) (id : nat) (cb : bool) : SendLog :=
  {| sl_sent := sl_sent l ++ [id]; sl_asked := sl_asked l ++ (if cb then [id] else []);
     sl_ended := sl_ended l; sl_called := sl_called l |}.
(** [if (op->send_cb) op->send_cb(bytes, error); delete op;] *)
Definition sl_end (l : SendLog) (id : nat) (cb : bool) (b e : Z) : SendLog :=
  {| sl_sent := sl_sent l; sl_asked := sl_asked l; sl_ended := sl_ended l ++ [(id, b, e)];
     sl_called := sl_called l ++ (if cb then [(id, b, e)] else []) |}.
(** The kernel gives an operation back. *)
Definition remove_id (id : nat) (l : list nat) : list nat := filter (λ j, j ≠ id) l.
Lemma remove_id_notin id l : id ∉ l → remove_id id l = l.
Proof.
  unfold remove_id. induction l as [|x l IH]; intros Hn; [done|].
  apply not_elem_of_cons in Hn as [? ?]. rewrite filter_cons_True by done. by rewrite IH.
Qed.
Lemma remove_id_perm id l : NoDup l → id ∈ l → l ≡ₚ id :: remove_id id l.
Proof.
  induction 1 as [|x l Hx Hl IH]; intros Hin; [by apply elem_of_nil in Hin|].
  apply elem_of_cons in Hin as [->|Hin].
  - unfold remove_id. rewrite filter_cons_False by (by intros []). fold (remove_id x l).
    by rewrite remove_id_notin.
  - unfold remove_id. rewrite filter_cons_True by (intros ->; done). fold (remove_id id l).
    rewrite Permutation_swap. f_equiv. by apply IH.
Qed.
Lemma cq_ids_snoc (q : list (option nat * Z)) o r : omap fst (q ++ [(o, r)]) = omap fst q ++ option_list o.
Proof. rewrite omap_app. by destruct o. Qed.

(** Filters that agree on the elements of the list. *)
Lemma list_filter_iff_in {A} (P Q : A → Prop) `{∀ x, Decision (P x)} `{∀ x, Decision (Q x)} (l : list A) :
  (∀ x, x ∈ l → P x ↔ Q x) → filter P l = filter Q l.
Proof.
  induction l as [|x l IH]; intros Hpq; [done|].
  assert (filter P l = filter Q l) as E by (apply IH; intros y Hy; apply Hpq; by right).
  destruct (decide (Q x)) as [Hq|Hq].
  - assert (P x) by (apply Hpq; [by left|done]). by rewrite !filter_cons_True, E by done.
  - assert (¬ P x) by (intros Hp; apply Hq, Hpq; [by left|done]). by rewrite !filter_cons_False, E by done.
Qed.

Section OpHeap.
Context {Op : Type} `{AsyncOp Op}.
Record heap_ok (h : gmap nat Op) (next : nat) (fl : list nat) (log : SendLog) : Prop := {
  ho_next : ∀ id, is_Some (h !! id) → (id < next)%nat;
  ho_nodup : NoDup fl;
  ho_live : ∀ id, id ∈ fl → is_Some (h !! id);
  ho_sends : ∀ id op, h !! id = Some op → op_is_send op → id ∈ fl ∧ id ∈ sl_sent log;
  ho_sent : NoDup (sl_sent log) ∧ ∀ id, id ∈ sl_sent log → (id < next)%nat ∧
    (id ∈ called_ids (sl_ended log) ∨ ∃ op, h !! id = Some op ∧ op_is_send op);
  ho_ended : NoDup (called_ids (sl_ended log)) ∧
    ∀ id, id ∈ called_ids (sl_ended log) → id ∈ sl_sent log ∧ h !! id = None;
  ho_codes : Forall op_code_ok (sl_ended log);
  ho_asked : (∀ id, id ∈ sl_asked log → id ∈ sl_sent log) ∧
    ∀ id op, h !! id = Some op → op_is_send op → (op_has_cb op = true ↔ id ∈ sl_asked log);
  ho_called : sl_called log = filter (λ c, c.1.1 ∈ sl_asked log) (sl_ended log) }.

Lemma heap_ok_perm h n fl fl' log : fl ≡ₚ fl' → heap_ok h n fl log → heap_ok h n fl' log.
Proof.
  intros Hp [? ? Hl Hs ? ? ? ? ?]. split; try done.
  - by rewrite <-Hp.
  - intros id Hid. apply Hl. by rewrite Hp.
  - intros id op E Ht. destruct (Hs id op E Ht). by rewrite <-Hp.
Qed.
(** A new receive operation, and giving live operations away. *)
Lemma heap_ok_alloc h n fl log op :
  ¬ op_is_send op → heap_ok h n fl log → heap_ok (<[n := op]> h) (S n) fl log.
Proof.
  intros Ht [Hn Hd Hl Hs [Hsd Hse] [Hcd Hc] Hk [Ha Hcb] Hca].
  assert (h !! n = None) as Hnn by (destruct (h !! n) eqn:E; [|done]; specialize (Hn n ltac:(done)); lia).
  split; try done.
  - intros id [op' Hid]. destruct (decide (n = id)); [lia|]. rewrite lookup_insert_ne in Hid by done.
    specialize (Hn id ltac:(done)). lia.
  - intros id Hid. destruct (Hl id Hid) as [op' Hop]. rewrite lookup_insert_ne; [done|]. congruence.
  - intros id op'. destruct (decide (n = id)) as [->|]; [rewrite lookup_insert_eq; intros [= <-]; congruence|].
    rewrite lookup_insert_ne by done. apply Hs.
  - split; [done|]. intros id Hid. destruct (Hse id Hid) as [? [?|(op' & ? & ?)]]; (split; [lia|auto]).
    right. exists op'. rewrite lookup_insert_ne; [done|]. congruence.
  - split; [done|]. intros id Hid. destruct (Hc id Hid) as [Hs' ?]. split; [done|].
    destruct (Hse id Hs') as [? _]. rewrite lookup_insert_ne by lia. done.
  - split; [done|]. intros id op'. destruct (decide (n = id)) as [->|]; [rewrite lookup_insert_eq; intros [= <-]; congruence|].
    rewrite lookup_insert_ne by done. apply Hcb.
Qed.
Lemma heap_ok_give h n fl log ids :
  NoDup ids → (∀ id, id ∈ ids → is_Some (h !! id) ∧ id ∉ fl) → heap_ok h n fl log →
  heap_ok h n (fl ++ ids) log.
Proof.
  intros Hd Hids [? ? Hl Hs ? ? ? ? ?]. split; try done.
  - apply NoDup_app. split_and!; [done| |done]. intros id Hfl Hid. by destruct (Hids id Hid).
  - intros id [?|?]%elem_of_app; [by apply Hl|by apply Hids].
  - intros id op E Ht. destruct (Hs id op E Ht). split; [apply elem_of_app; by left|done].
Qed.
(** A receive the program keeps to itself, and an operation it writes to. *)
Lemma heap_ok_keep h n fl log id op :
  h !! id = Some op → ¬ op_is_send op → heap_ok h n (id :: fl) log → heap_ok h n fl log.
Proof.
  intros E Ht [? Hd Hl Hs ? ? ? ? ?]. apply NoDup_cons in Hd as [Hni Hd]. split; try done.
  - intros j Hj. apply Hl. by right.
  - intros j op' E' Ht'. destruct (Hs j op' E' Ht') as [[->|?]%elem_of_cons ?]; [congruence|done].
Qed.
Lemma heap_ok_write h n fl log id op op' :
  h !! id = Some op → (op_is_send op' ↔ op_is_send op) → op_has_cb op' = op_has_cb op → heap_ok h n fl log →
  heap_ok (<[id := op']> h) n fl log.
Proof.
  intros E Ht Hcb' [Hn Hd Hl Hs [? Hse] [? Hc] ? [? Hcb] ?].
  assert (∀ j, is_Some (<[id := op']> h !! j) ↔ is_Some (h !! j)) as Hdom.
  { intros j. destruct (decide (id = j)) as [->|]; [rewrite lookup_insert_eq, E; split; by eexists|].
    by rewrite lookup_insert_ne. }
  assert (∀ j x, <[id := op']> h !! j = Some x →
    ∃ y, h !! j = Some y ∧ (op_is_send y ↔ op_is_send x) ∧ op_has_cb y = op_has_cb x) as Hty.
  { intros j x. destruct (decide (id = j)) as [->|].
    - rewrite lookup_insert_eq. intros [= <-]. by exists op.
    - rewrite lookup_insert_ne by done. by exists x. }
  split; try done.
  - intros j Hj. apply Hn. by apply Hdom.
  - intros j Hj. by apply Hdom, Hl.
  - intros j x Hx Htx. destruct (Hty j x Hx) as (y & Hy & Hyx & _). apply (Hs j y Hy). by apply Hyx.
  - split; [done|]. intros j Hj. destruct (Hse j Hj) as [? [?|(x & Hx & Hxt)]]; (split; [done|auto]).
    right. destruct (decide (id = j)) as [->|].
    + exists op'. rewrite lookup_insert_eq. split; [done|]. apply Ht. congruence.
    + exists x. by rewrite lookup_insert_ne.
  - split; [done|]. intros j Hj. destruct (Hc j Hj) as [? Hnone]. split; [done|].
    destruct (decide (id = j)) as [->|]; [congruence|]. by rewrite lookup_insert_ne.
  - split; [done|]. intros j x Hx Htx. destruct (Hty j x Hx) as (y & Hy & Hyx & <-). apply (Hcb j y Hy). by apply Hyx.
Qed.
(** A send, submitted; and the end of a send. *)
Lemma heap_ok_send h n fl log op :
  op_is_send op → heap_ok h n fl log →
  heap_ok (<[n := op]> h) (S n) (n :: fl) (sl_submit log n (op_has_cb op)).
Proof.
  intros Ht [Hn Hd Hl Hs [Hsd Hse] [Hcd Hc] Hk [Ha Hcb] Hca].
  assert (h !! n = None) as Hnn by (destruct (h !! n) eqn:E; [|done]; specialize (Hn n ltac:(done)); lia).
  assert (∀ j x, h !! j = Some x → <[n := op]> h !! j = Some x) as Hkeep.
  { intros j x Hj. rewrite lookup_insert_ne; [done|]. congruence. }
  assert (∀ id, id ≠ n → id ∈ sl_asked (sl_submit log n (op_has_cb op)) ↔ id ∈ sl_asked log) as Hsame.
  { intros id Hne. simpl. rewrite elem_of_app. destruct (op_has_cb op); set_solver. }
  assert (n ∉ sl_asked log) as Hna by (intros Hin%Ha; destruct (Hse n Hin); lia).
  split; try done.
  - intros id [op' Hid]. destruct (decide (n = id)); [lia|]. rewrite lookup_insert_ne in Hid by done.
    specialize (Hn id ltac:(done)). lia.
  - apply NoDup_cons. split; [|done]. intros [? ?]%Hl. congruence.
  - intros id [->|Hid]%elem_of_cons; [rewrite lookup_insert_eq; by eexists|].
    destruct (Hl id Hid) as [x Hx]. exists x. by apply Hkeep.
  - intros id op'. destruct (decide (n = id)) as [->|].
    + intros _ _. split; [by left|]. apply elem_of_app. right. by apply list_elem_of_singleton.
    + rewrite lookup_insert_ne by done. intros E E'. destruct (Hs id op' E E').
      split; [by right|]. apply elem_of_app. by left.
  - split.
    + apply NoDup_app. split_and!; [done| |apply NoDup_singleton].
      intros id Hid Hin%list_elem_of_singleton. subst id. destruct (Hse n Hid). lia.
    + intros id [Hid|Hid%list_elem_of_singleton]%elem_of_app; [|subst id].
      * destruct (Hse id Hid) as [? [?|(x & ? & ?)]]; (split; [lia|auto]). right. exists x. auto.
      * split; [lia|]. right. exists op. by rewrite lookup_insert_eq.
  - split; [done|]. intros id Hid. destruct (Hc id Hid) as [Hi ?]. split; [apply elem_of_app; by left|].
    destruct (Hse id Hi). rewrite lookup_insert_ne by lia. done.
  - split; simpl.
    + intros id. rewrite !elem_of_app. destruct (op_has_cb op); set_solver.
    + intros id op'. destruct (decide (n = id)) as [<-|Hne].
      * rewrite lookup_insert_eq. intros [= <-] _. destruct (op_has_cb op); set_solver.
      * rewrite lookup_insert_ne by done. intros E E'. etrans; [by apply Hcb|]. symmetry. by apply Hsame.
  - simpl. rewrite Hca. apply list_filter_iff_in. intros c Hin. symmetry. apply Hsame. intros Heq.
    assert (c.1.1 ∈ called_ids (sl_ended log)) as Hin' by (apply list_elem_of_fmap; by exists c).
    destruct (Hc _ Hin') as [Hs' _]. destruct (Hse _ Hs'). lia.
Qed.
Lemma heap_ok_finish h n fl log id op b e :
  h !! id = Some op → op_is_send op → op_code_ok (id, b, e) →
  heap_ok h n (id :: fl) log →
  heap_ok (delete id h) n fl (sl_end log id (op_has_cb op) b e).
Proof.
  intros E Ht Hcode [Hn Hd Hl Hs [Hsd Hse] [Hcd Hc] Hk [Ha Hcb] Hca]. apply NoDup_cons in Hd as [Hni Hd].
  assert (called_ids (sl_ended log ++ [(id, b, e)]) = called_ids (sl_ended log) ++ [id]) as Hids
    by (unfold called_ids; by rewrite fmap_app).
  split; simpl; rewrite ?Hids; try done.
  - intros j [x Hx]. apply lookup_delete_Some in Hx as [_ Hx]. apply Hn. by eexists.
  - intros j Hj. rewrite lookup_delete_ne by (intros ->; done). apply Hl. by right.
  - intros j x Hx Htx. apply lookup_delete_Some in Hx as [Hne Hx].
    destruct (Hs j x Hx Htx) as [[->|?]%elem_of_cons ?]; done.
  - split; [done|]. intros j Hj. destruct (Hse j Hj) as [? Hor]. split; [done|].
    destruct (decide (id = j)) as [->|]; [left; apply elem_of_app; right; by apply list_elem_of_singleton|].
    destruct Hor as [?|(x & ? & ?)]; [left; apply elem_of_app; by left|]. right. exists x.
    by rewrite lookup_delete_ne.
  - split.
    + apply NoDup_app. split_and!; [done| |apply NoDup_singleton].
      intros j Hj Hin%list_elem_of_singleton. subst j. destruct (Hc id Hj). congruence.
    + intros j [Hj|Hj%list_elem_of_singleton]%elem_of_app; [|subst j].
      * destruct (Hc j Hj) as [? Hnone]. split; [done|].
        destruct (decide (id = j)) as [->|]; [congruence|]. by rewrite lookup_delete_ne.
      * split; [|by rewrite lookup_delete_eq]. by destruct (Hs id op E Ht).
  - apply Forall_app. split; [done|]. by apply Forall_singleton.
  - split; [done|]. intros j x Hx. apply lookup_delete_Some in Hx as [_ Hx]. by apply Hcb.
  - rewrite filter_app, Hca. f_equal. pose proof (Hcb id op E Ht) as Hb. destruct (op_has_cb op).
    + rewrite filter_cons_True; [done|]. by apply Hb.
    + rewrite filter_cons_False; [done|]. simpl. intros Hin%Hb. done.
Qed.
(** Nothing yet. *)
Lemma heap_ok_new : heap_ok ∅ 0 [] sl_new.
Proof.
  split; try done.
  - by intros id [? ?].
  - constructor.
  - by intros id ?%elem_of_nil.
  - split; [constructor|]. by intros id ?%elem_of_nil.
  - split; [constructor|]. by intros id ?%elem_of_nil.
Qed.
(** The history of the sends. *)
Lemma heap_ok_sent_iff h n fl log id :
  heap_ok h n fl log →
  id ∈ sl_sent log ↔ id ∈ called_ids (sl_ended log) ∨ ∃ op, h !! id = Some op ∧ op_is_send op.
Proof.
  intros [_ _ _ Hs [_ Hse] [_ Hc] _ _ _]. split; [intros Hid; by apply Hse|].
  intros [?|(op & Hop & Ht)]; [by apply Hc|by apply (Hs id op)].
Qed.
(** The next address is free, and stays different from every live one. *)
Lemma heap_ok_fresh h n fl log op id x :
  heap_ok h n fl log → h !! id = Some x → <[n := op]> h !! id = Some x.
Proof.
  intros Hh Hid. rewrite lookup_insert_ne; [done|]. intros <-.
  pose proof (ho_next _ _ _ _ Hh _ (mk_is_Some _ _ Hid)). lia.
Qed.
End OpHeap.
