(* ===== verification/Uring.v ===== *)
(** * The io_uring transport

    Models [include/protocoll/transport/iouring_transport.h] and
    [src/transport/iouring_transport.cpp] with io_uring enabled.  The program and the
    kernel share memory: an operation is an object on the heap whose address travels
    through the submission queue, the kernel and the completion queue and comes back to
    the event thread, which reads and, for a send, deletes it.  The heap is explicit, a
    completion or an access of a deleted object is [Oob], and an execution is any
    interleaving of the users, the event thread and the kernel, which completes pending
    operations in any order with any result.

    Whether [io_uring_get_sqe] finds a free entry is a choice of each step.  The calls that
    take entries of the submission queue ([start], [stop], [async_send] and the event
    thread's resubmission) are two steps, entering and doing their work, with anything
    between them; [liburing] does not lock its queues and neither does the source, so
    entering while another thread is inside is a data race: [Oob].  Using the ring before
    [bind] has made it is [Oob] too.  The histories (the sends and their callbacks, received
    datagrams) are not read by the code. *)
From S2P Require Import Prelude Platform Frame Transport Udp OpHeap.

Inductive UringOpType := OP_RECV | OP_SEND.
#[global] Instance UringOpType_eq_dec : EqDecision UringOpType.
Proof. solve_decision. Defined.
(** [buffer], [iov_len] and [from_addr]; the message header only points to them. *)
Record UringOp := {
  uo_type : UringOpType; uo_buffer : bytes; uo_iov_len : nat; uo_addr : SockAddr; uo_send_cb : bool }.
Definition zero_addr : SockAddr := {| sin_port := 0; sin_addr := [0; 0; 0; 0] |}.
Definition uo_new (ty : UringOpType) : UringOp :=
  {| uo_type := ty; uo_buffer := []; uo_iov_len := MAX_PACKET_SIZE; uo_addr := zero_addr;
     uo_send_cb := false |}.

(** The heap, what the kernel holds, and the completion queue ([None]: the no-op). *)
Record UMem := {
  um_heap : gmap nat UringOp; um_next : nat; um_pending : list nat; um_nops : nat;
  um_cq : list (option nat * Z) }.
Record UStats := {
  us_packets_sent : Z; us_packets_received : Z; us_bytes_sent : Z; us_bytes_received : Z }.
(** Where the event thread is: at the test of [running_], in the wait, before the
    resubmission of a receive, returned. *)
Inductive LoopPc := LP_Top | LP_Wait | LP_Resubmit (op : nat) | LP_Done.
#[global] Instance LoopPc_eq_dec : EqDecision LoopPc.
Proof. solve_decision. Defined.
Record IoUringTransport := mkUring {
  iu_queue_depth : nat; iu_running : bool; iu_thread : option LoopPc; iu_recv_handler : bool;
  iu_sock_fd : Z; iu_ring_initialized : bool; iu_recv_ops : list nat; iu_stats : UStats;
  iu_mem : UMem;
  (* history *)
  iu_log : SendLog; iu_received : list (bytes * Endpoint) }.
Definition iu_sent (t : IoUringTransport) : list nat := sl_sent (iu_log t).
Definition iu_ended (t : IoUringTransport) : list (nat * Z * Z) := sl_ended (iu_log t).
(** The sends that were given a callback, and the calls made. *)
Definition iu_asked (t : IoUringTransport) : list nat := sl_asked (iu_log t).
Definition iu_called (t : IoUringTransport) : list (nat * Z * Z) := sl_called (iu_log t).

Definition iu_new (queue_depth : nat) : IoUringTransport :=
  mkUring queue_depth false None false (-1) false [] {| us_packets_sent := 0;
    us_packets_received := 0; us_bytes_sent := 0; us_bytes_received := 0 |}
    {| um_heap := ∅; um_next := 0; um_pending := []; um_nops := 0; um_cq := [] |} sl_new [].

(** ** Memory *)
Definition um_alloc (m : UMem) (op : UringOp) : UMem * nat :=
  ({| um_heap := <[um_next m := op]> (um_heap m); um_next := S (um_next m);
      um_pending := um_pending m; um_nops := um_nops m; um_cq := um_cq m |}, um_next m).
Definition um_delete (m : UMem) (ids : list nat) : UMem :=
  {| um_heap := foldr delete (um_heap m) ids; um_next := um_next m; um_pending := um_pending m;
     um_nops := um_nops m; um_cq := um_cq m |}.
Definition um_write (m : UMem) (id : nat) (op : UringOp) : UMem :=
  {| um_heap := <[id := op]> (um_heap m); um_next := um_next m; um_pending := um_pending m;
     um_nops := um_nops m; um_cq := um_cq m |}.
(** A submitted entry belongs to the kernel. *)
Definition um_submit (m : UMem) (ids : list nat) : UMem :=
  {| um_heap := um_heap m; um_next := um_next m; um_pending := um_pending m ++ ids;
     um_nops := um_nops m; um_cq := um_cq m |}.
Definition um_submit_nop (m : UMem) : UMem :=
  {| um_heap := um_heap m; um_next := um_next m; um_pending := um_pending m;
     um_nops := S (um_nops m); um_cq := um_cq m |}.

(** ** The kernel *)
Definition um_complete (m : UMem) (id : nat) (r : Z) : UMem :=
  {| um_heap := um_heap m; um_next := um_next m; um_pending := remove_id id (um_pending m);
     um_nops := um_nops m; um_cq := um_cq m ++ [(Some id, r)] |}.
(** A completed receive writes the datagram and its sender into the operation. *)
Definition kernel_recv (m : UMem) (id : nat) (data : bytes) (from : SockAddr) : res UMem :=
  match um_heap m !! id with
  | None => Oob
  | Some op =>
      let n := Nat.min (length data) (uo_iov_len op) in
      let op := {| uo_type := uo_type op; uo_buffer := take n data; uo_iov_len := uo_iov_len op;
                   uo_addr := from; uo_send_cb := uo_send_cb op |} in
      Ok (um_complete (um_write m id op) id (Z.of_nat n))
  end.
(** A completed send, or an error of either kind; a send has read its buffer. *)
Definition kernel_result (m : UMem) (id : nat) (r : Z) : res UMem :=
  match um_heap m !! id with
  | None => Oob
  | Some op => Ok (um_complete m id r)
  end.
Definition kernel_nop (m : UMem) : option UMem :=
  match um_nops m with
  | O => None
  | S n => Some {| um_heap := um_heap m; um_next := um_next m; um_pending := um_pending m;
                   um_nops := n; um_cq := um_cq m ++ [(None, 0)] |}
  end.

(** ** Updates of the transport *)
Definition iu_set_mem (t : IoUringTransport) (m : UMem) : IoUringTransport :=
  mkUring (iu_queue_depth t) (iu_running t) (iu_thread t) (iu_recv_handler t) (iu_sock_fd t)
    (iu_ring_initialized t) (iu_recv_ops t) (iu_stats t) m (iu_log t) (iu_received t).
Definition iu_set_thread (t : IoUringTransport) (pc : option LoopPc) : IoUringTransport :=
  mkUring (iu_queue_depth t) (iu_running t) pc (iu_recv_handler t) (iu_sock_fd t)
    (iu_ring_initialized t) (iu_recv_ops t) (iu_stats t) (iu_mem t) (iu_log t)
    (iu_received t).
Definition iu_set_running (t : IoUringTransport) (b : bool) (ops : list nat) : IoUringTransport :=
  mkUring (iu_queue_depth t) b (iu_thread t) (iu_recv_handler t) (iu_sock_fd t)
    (iu_ring_initialized t) ops (iu_stats t) (iu_mem t) (iu_log t) (iu_received t).
Definition iu_set_fds (t : IoUringTransport) (fd : Z) (ring : bool) : IoUringTransport :=
  mkUring (iu_queue_depth t) (iu_running t) (iu_thread t) (iu_recv_handler t) fd ring
    (iu_recv_ops t) (iu_stats t) (iu_mem t) (iu_log t) (iu_received t).
Definition iu_set_recv_handler (t : IoUringTransport) (b : bool) : IoUringTransport :=
  mkUring (iu_queue_depth t) (iu_running t) (iu_thread t) b (iu_sock_fd t)
    (iu_ring_initialized t) (iu_recv_ops t) (iu_stats t) (iu_mem t) (iu_log t)
    (iu_received t).
Definition iu_note_sent (t : IoUringTransport) (id : nat) (cb : bool) : IoUringTransport :=
  mkUring (iu_queue_depth t) (iu_running t) (iu_thread t) (iu_recv_handler t) (iu_sock_fd t)
    (iu_ring_initialized t) (iu_recv_ops t) (iu_stats t) (iu_mem t) (sl_submit (iu_log t) id cb)
    (iu_received t).
(** The callback of a send, if it has one, and the operation deleted after it. *)
Definition iu_finish_send (t : IoUringTransport) (id : nat) (cb : bool) (bytes_sent error : Z) : IoUringTransport :=
  mkUring (iu_queue_depth t) (iu_running t) (iu_thread t) (iu_recv_handler t) (iu_sock_fd t)
    (iu_ring_initialized t) (iu_recv_ops t) (iu_stats t) (um_delete (iu_mem t) [id])
    (sl_end (iu_log t) id cb bytes_sent error) (iu_received t).
Definition iu_count_sent (t : IoUringTransport) (r : Z) : IoUringTransport :=
  if 0 <? r then
    let s := iu_stats t in
    mkUring (iu_queue_depth t) (iu_running t) (iu_thread t) (iu_recv_handler t) (iu_sock_fd t)
      (iu_ring_initialized t) (iu_recv_ops t)
      {| us_packets_sent := u64 (us_packets_sent s + 1); us_packets_received := us_packets_received s;
         us_bytes_sent := u64 (us_bytes_sent s + u64 r); us_bytes_received := us_bytes_received s |}
      (iu_mem t) (iu_log t) (iu_received t)
  else t.
Definition iu_count_received (t : IoUringTransport) (r : Z) : IoUringTransport :=
  let s := iu_stats t in
  mkUring (iu_queue_depth t) (iu_running t) (iu_thread t) (iu_recv_handler t) (iu_sock_fd t)
    (iu_ring_initialized t) (iu_recv_ops t)
    {| us_packets_sent := us_packets_sent s; us_packets_received := u64 (us_packets_received s + 1);
       us_bytes_sent := us_bytes_sent s; us_bytes_received := u64 (us_bytes_received s + u64 r) |}
    (iu_mem t) (iu_log t) (iu_received t).
Definition iu_note_received (t : IoUringTransport) (data : bytes) (from : Endpoint) : IoUringTransport :=
  mkUring (iu_queue_depth t) (iu_running t) (iu_thread t) (iu_recv_handler t) (iu_sock_fd t)
    (iu_ring_initialized t) (iu_recv_ops t) (iu_stats t) (iu_mem t) (iu_log t)
    (iu_received t ++ [(data, from)]).

Section Uring.
Context `{Sockets} `{Inet}.
Implicit Types (t : IoUringTransport) (s : os).

(** ** bind, close, send_to; [queue_init] is the result of [io_uring_queue_init] *)
Definition iu_bind t s (local : Endpoint) (queue_init : Z) : IoUringTransport * os * bool :=
  let '(s, fd) := sys_socket s in
  if fd <? 0 then (iu_set_fds t fd (iu_ring_initialized t), s, false) else
  let '(s, r) := sys_bind s fd (bind_addr local) in
  if r <? 0 then (iu_set_fds t (-1) (iu_ring_initialized t), sys_close s fd, false) else
  if queue_init <? 0 then (iu_set_fds t (-1) (iu_ring_initialized t), sys_close s fd, false) else
  (iu_set_fds t fd true, s, true).
Definition iu_send_to t s (data : bytes) (remote : Endpoint) : IoUringTransport * os * Z :=
  if iu_sock_fd t <? 0 then (t, s, -1) else
  let '(s, r) := sys_sendto s (iu_sock_fd t) data (sockaddr_of remote) in
  (iu_count_sent t r, s, r).

(** ** start: [sqe] says for each receive whether a queue entry was free *)
Fixpoint alloc_recv_ops (n : nat) (m : UMem) : UMem * list nat :=
  match n with
  | O => (m, [])
  | S n' =>
      let '(m, id) := um_alloc m (uo_new OP_RECV) in
      let '(m, ids) := alloc_recv_ops n' m in (m, id :: ids)
  end.
Definition granted (ids : list nat) (sqe : nat → bool) : list nat := filter (λ id, sqe id = true) ids.
(** [recv_ops.clear()] deletes what the vector held.  The ring is used whether or not
    [bind] has initialised it, and an event thread that was not joined yet is overwritten,
    which ends the program. *)
Definition iu_start t (sqe : nat → bool) : res IoUringTransport :=
  if iu_running t then Ok t else
  if negb (iu_ring_initialized t) || bool_decide (is_Some (iu_thread t)) then Oob else
  let m := um_delete (iu_mem t) (iu_recv_ops t) in
  let '(m, ids) := alloc_recv_ops (Nat.min (iu_queue_depth t) 64) m in
  Ok (iu_set_thread (iu_set_mem (iu_set_running t true ids) (um_submit m (granted ids sqe)))
        (Some LP_Top)).

(** ** stop: up to the join, and after it *)
Definition iu_stop_begin t (sqe : bool) : IoUringTransport :=
  if negb (iu_running t) then t else
  let t := iu_set_running t false (iu_recv_ops t) in
  if iu_ring_initialized t && sqe then iu_set_mem t (um_submit_nop (iu_mem t)) else t.
Definition iu_stop_end t : IoUringTransport :=
  iu_set_thread
    (iu_set_mem (iu_set_running t (iu_running t) []) (um_delete (iu_mem t) (iu_recv_ops t))) None.
(** [close] after its [stop]; [io_uring_queue_exit] takes the operations back from the
    kernel and drops the queues. *)
Definition um_exit (m : UMem) : UMem :=
  {| um_heap := um_heap m; um_next := um_next m; um_pending := []; um_nops := 0; um_cq := [] |}.
Definition iu_close t s : IoUringTransport * os :=
  let s := if 0 <=? iu_sock_fd t then sys_close s (iu_sock_fd t) else s in
  let t := if iu_ring_initialized t then iu_set_mem t (um_exit (iu_mem t)) else t in
  (iu_set_fds t (if 0 <=? iu_sock_fd t then -1 else iu_sock_fd t) false, s).

(** ** async_send *)
Definition send_op (data : bytes) (remote : Endpoint) (cb : bool) : UringOp :=
  let copy_len := if (length data <? MAX_PACKET_SIZE)%nat then length data else MAX_PACKET_SIZE in
  {| uo_type := OP_SEND; uo_buffer := take copy_len data; uo_iov_len := copy_len;
     uo_addr := sockaddr_of remote; uo_send_cb := cb |}.
Definition iu_async_send t (data : bytes) (remote : Endpoint) (cb : bool) (sqe : bool)
    : res IoUringTransport :=
  if negb (iu_ring_initialized t) then Oob else
  let '(m, id) := um_alloc (iu_mem t) (send_op data remote cb) in
  let t := iu_note_sent (iu_set_mem t m) id cb in
  Ok (if sqe then iu_set_mem t (um_submit (iu_mem t) [id]) else iu_finish_send t id cb (-1) (-1)).

(** ** The event thread *)
Definition loop_top t : IoUringTransport :=
  iu_set_thread t (Some (if iu_running t then LP_Wait else LP_Done)).
(** An interrupted wait. *)
Definition loop_error t : IoUringTransport :=
  iu_set_thread t (Some (if negb (iu_running t) then LP_Done else LP_Top)).
Definition pop_cq (m : UMem) (rest : list (option nat * Z)) : UMem :=
  {| um_heap := um_heap m; um_next := um_next m; um_pending := um_pending m; um_nops := um_nops m;
     um_cq := rest |}.
(** What is done with a completed operation, up to the resubmission of a receive. *)
Definition handle_op t (id : nat) (op : UringOp) (result : Z) : IoUringTransport :=
  match uo_type op with
  | OP_RECV =>
      let t :=
        if 0 <? result then
          let t := iu_count_received t result in
          if iu_recv_handler t
          then iu_note_received t (take (Z.to_nat result) (uo_buffer op)) (endpoint_of (uo_addr op))
          else t
        else t in
      iu_set_thread t (Some (LP_Resubmit id))
  | OP_SEND =>
      let t := iu_count_sent t result in
      iu_set_thread
        (iu_finish_send t id (uo_send_cb op) (if 0 <? result then result else -1) (if 0 <? result then 0 else -1))
        (Some LP_Top)
  end.
(** One completion; [None] is an empty queue. *)
Definition loop_wait t : option (res IoUringTransport) :=
  match um_cq (iu_mem t) with
  | [] => None
  | (data, result) :: rest =>
      let t := iu_set_mem t (pop_cq (iu_mem t) rest) in
      Some match data with
           | None => Ok (iu_set_thread t (Some LP_Top))
           | Some id =>
               match um_heap (iu_mem t) !! id with
               | None => Oob
               | Some op => Ok (handle_op t id op result)
               end
           end
  end.
Definition loop_resubmit t (id : nat) (sqe : bool) : res IoUringTransport :=
  if negb (iu_running t) then Ok (iu_set_thread t (Some LP_Top)) else
  match um_heap (iu_mem t) !! id with
  | None => Oob
  | Some op =>
      let op := {| uo_type := uo_type op; uo_buffer := uo_buffer op; uo_iov_len := MAX_PACKET_SIZE;
                   uo_addr := uo_addr op; uo_send_cb := uo_send_cb op |} in
      let m := um_write (iu_mem t) id op in
      Ok (iu_set_thread (iu_set_mem t (if sqe then um_submit m [id] else m)) (Some LP_Top))
  end.

(** ** Interleavings, up to the first [stop] that returns *)

(** The calls that use the submission queue. *)
Inductive RingCall :=
| RC_start (sqe : nat → bool)
| RC_stop (sqe : bool)
| RC_send (data : bytes) (remote : Endpoint) (cb sqe : bool)
| RC_resubmit (id : nat) (sqe : bool).
Definition ring_call t (c : RingCall) : res IoUringTransport :=
  match c with
  | RC_start sqe => iu_start t sqe
  | RC_stop sqe => Ok (iu_stop_begin t sqe)
  | RC_send data remote cb sqe => iu_async_send t data remote cb sqe
  | RC_resubmit id sqe => loop_resubmit t id sqe
  end.
(** The transport and the calls that are in the ring's functions. *)
Record UWorld := { uw_transport : IoUringTransport; uw_in_ring : list RingCall }.
Definition uw_put (w : UWorld) t : UWorld := {| uw_transport := t; uw_in_ring := uw_in_ring w |}.
(** Any user may make any call at any time; the event thread makes its own, once. *)
Definition may_enter (w : UWorld) (c : RingCall) : Prop :=
  match c with
  | RC_resubmit id _ =>
      iu_thread (uw_transport w) = Some (LP_Resubmit id) ∧ ∀ sqe, RC_resubmit id sqe ∉ uw_in_ring w
  | _ => True
  end.
Inductive UringEvent := UE_bind | UE_enter (c : RingCall) | UE_use (c : RingCall) | UE_other.
Inductive uring_step : UWorld → UringEvent → res UWorld → Prop :=
| st_bind w s local q t' s' ok :
    iu_bind (uw_transport w) s local q = (t', s', ok) → uring_step w UE_bind (Ok (uw_put w t'))
| st_enter w c :
    may_enter w c →
    uring_step w (UE_enter c)
      match uw_in_ring w with
      | [] => Ok {| uw_transport := uw_transport w; uw_in_ring := [c] |}
      | _ :: _ => Oob
      end
| st_use w c :
    uw_in_ring w = [c] →
    uring_step w (UE_use c)
      (let! t := ring_call (uw_transport w) c in Ok {| uw_transport := t; uw_in_ring := [] |})
| st_handler w b : uring_step w UE_other (Ok (uw_put w (iu_set_recv_handler (uw_transport w) b)))
| st_send_to w s data remote t' s' r :
    iu_send_to (uw_transport w) s data remote = (t', s', r) → uring_step w UE_other (Ok (uw_put w t'))
| st_top w :
    iu_thread (uw_transport w) = Some LP_Top → uring_step w UE_other (Ok (uw_put w (loop_top (uw_transport w))))
| st_error w :
    iu_thread (uw_transport w) = Some LP_Wait → uring_step w UE_other (Ok (uw_put w (loop_error (uw_transport w))))
| st_wait w r :
    iu_thread (uw_transport w) = Some LP_Wait → loop_wait (uw_transport w) = Some r →
    uring_step w UE_other (let! t := r in Ok (uw_put w t))
| st_kernel_recv w id data from :
    id ∈ um_pending (iu_mem (uw_transport w)) →
    (∀ op, um_heap (iu_mem (uw_transport w)) !! id = Some op → uo_type op = OP_RECV) →
    uring_step w UE_other
      (let! m := kernel_recv (iu_mem (uw_transport w)) id data from in Ok (uw_put w (iu_set_mem (uw_transport w) m)))
| st_kernel_result w id r :
    id ∈ um_pending (iu_mem (uw_transport w)) →
    (∀ op, um_heap (iu_mem (uw_transport w)) !! id = Some op → uo_type op = OP_RECV → r ≤ 0) →
    uring_step w UE_other
      (let! m := kernel_result (iu_mem (uw_transport w)) id r in Ok (uw_put w (iu_set_mem (uw_transport w) m)))
| st_nop w m :
    kernel_nop (iu_mem (uw_transport w)) = Some m →
    uring_step w UE_other (Ok (uw_put w (iu_set_mem (uw_transport w) m))).

(** The contract: [bind] once, before the ring is used; [start] not between the beginning
    and the end of a [stop]; and no two threads in the ring's functions at once.  The code
    ensures none of it; against the event thread a user cannot ensure the last. *)
Definition ring_ready t (c : RingCall) : Prop :=
  match c with
  | RC_start _ => iu_ring_initialized t = true ∧ (iu_running t = true ∨ iu_thread t = None)
  | RC_send _ _ _ _ => iu_ring_initialized t = true
  | RC_stop _ | RC_resubmit _ _ => True
  end.
Definition uring_contract (w : UWorld) (e : UringEvent) : Prop :=
  match e with
  | UE_bind => iu_ring_initialized (uw_transport w) = false
  | UE_enter _ => uw_in_ring w = []
  | UE_use c => ring_ready (uw_transport w) c
  | UE_other => True
  end.
Inductive uring_run (depth : nat) : res UWorld → Prop :=
| ur_new : uring_run depth (Ok {| uw_transport := iu_new depth; uw_in_ring := [] |})
| ur_step w e r : uring_run depth (Ok w) → uring_contract w e → uring_step w e r → uring_run depth r.

(** ** Ownership of the operations *)
Definition code_ok (c : nat * Z * Z) : Prop := (0 < c.1.2 ∧ c.2 = 0) ∨ (c.1.2 = -1 ∧ c.2 = -1).
#[local] Instance UringOp_AsyncOp : AsyncOp UringOp :=
  {| op_is_send op := uo_type op = OP_SEND; op_has_cb := uo_send_cb; op_code_ok := code_ok |}.
Definition cq_ids (m : UMem) : list nat := omap fst (um_cq m).
Definition pc_ids (pc : option LoopPc) : list nat :=
  match pc with Some (LP_Resubmit id) => [id] | _ => [] end.
Definition flight t : list nat := um_pending (iu_mem t) ++ cq_ids (iu_mem t) ++ pc_ids (iu_thread t).
Record uring_ok t : Prop := {
  uk_heap : heap_ok (um_heap (iu_mem t)) (um_next (iu_mem t)) (flight t) (iu_log t);
  uk_pc : ∀ id, iu_thread t = Some (LP_Resubmit id) →
    ∃ op, um_heap (iu_mem t) !! id = Some op ∧ uo_type op = OP_RECV;
  uk_idle : iu_thread t = None → iu_running t = false ∧ iu_recv_ops t = [] }.

Lemma alloc_recv_ops_ok k m m' ids fl log :
  alloc_recv_ops k m = (m', ids) →
  heap_ok (um_heap m) (um_next m) fl log →
  heap_ok (um_heap m') (um_next m') fl log ∧ NoDup ids ∧
  (∀ id, id ∈ ids → is_Some (um_heap m' !! id) ∧ (um_next m ≤ id)%nat) ∧
  um_pending m' = um_pending m ∧ um_cq m' = um_cq m ∧
  (∀ id op, um_heap m !! id = Some op → um_heap m' !! id = Some op).
Proof.
  revert m m' ids. induction k as [|k IH]; intros m m' ids; cbn [alloc_recv_ops um_alloc].
  { intros [= <- <-] ?. split_and!; try done; [constructor|]. by intros id ?%elem_of_nil. }
  destruct (alloc_recv_ops k _) as [m1 ids1] eqn:E. simpl. intros [= <- <-] Hok.
  assert (um_heap m !! um_next m = None) as Hnn.
  { destruct (um_heap m !! um_next m) eqn:En; [|done].
    pose proof (ho_next _ _ _ _ Hok (um_next m) ltac:(done)). lia. }
  destruct (IH _ _ _ E) as (Hok1 & Hd & Hids & Hp & Hc & Hk); [by apply heap_ok_alloc|]. simpl in *.
  split_and!; try done.
  - apply NoDup_cons. split; [|done]. intros [_ ?]%Hids. lia.
  - intros id [->|Hid]%elem_of_cons.
    + split; [|lia]. eexists. apply Hk. by rewrite lookup_insert_eq.
    + destruct (Hids id Hid). split; [done|lia].
  - intros id op Hid. apply Hk. rewrite lookup_insert_ne; [done|]. congruence.
Qed.

(** Steps that leave the memory, the thread's operation and the histories alone. *)
Lemma uring_ok_same t t' :
  uring_ok t → iu_mem t' = iu_mem t → pc_ids (iu_thread t') = pc_ids (iu_thread t) →
  iu_log t' = iu_log t →
  (iu_thread t' = None → iu_running t' = false ∧ iu_recv_ops t' = []) → uring_ok t'.
Proof.
  intros [Hh Hp Hi] Em Ep El Hi'. split; [| |done].
  - unfold flight. by rewrite Em, Ep, El.
  - intros id E. rewrite Em. apply Hp. rewrite E in Ep. simpl in Ep.
    destruct (iu_thread t) as [[]|]; simpl in Ep; congruence.
Qed.
(** The kernel moves an operation to the completion queue. *)
Lemma uring_ok_complete t m id r op op' :
  uring_ok t → id ∈ um_pending (iu_mem t) → um_heap (iu_mem t) !! id = Some op →
  uo_type op' = uo_type op → uo_send_cb op' = uo_send_cb op → m = um_complete (um_write (iu_mem t) id op') id r →
  uring_ok (iu_set_mem t m).
Proof.
  intros [Hh Hp Hi] Hin E Ht Hcb ->. split; [| |done]; simpl.
  - eapply heap_ok_perm; [|eapply (heap_ok_write _ _ _ _ id op op' E); [simpl; by rewrite Ht|exact Hcb|exact Hh]]. unfold flight, cq_ids.
    cbn [iu_mem iu_set_mem um_complete um_cq um_write um_pending iu_thread]. rewrite cq_ids_snoc.
    change (option_list (Some id)) with [id].
    pose proof (ho_nodup _ _ _ _ Hh) as Hd. apply NoDup_app in Hd as (Hd & _ & _).
    rewrite (remove_id_perm id (um_pending (iu_mem t)) Hd Hin) at 1. solve_Permutation.
  - intros j Ej. destruct (Hp j Ej) as (x & Hx & Htx). destruct (decide (id = j)) as [->|].
    + exists op'. rewrite lookup_insert_eq. split; [done|]. congruence.
    + exists x. by rewrite lookup_insert_ne.
Qed.

Lemma iu_start_ok t sqe :
  uring_ok t → iu_ring_initialized t = true → iu_running t = true ∨ iu_thread t = None →
  ∃ t', iu_start t sqe = Ok t' ∧ uring_ok t'.
Proof.
  intros Hok Hring Hor. unfold iu_start. destruct (iu_running t) eqn:Er; [by exists t|].
  destruct Hor as [|Hth]; [done|]. destruct Hok as [Hh Hp Hi]. destruct (Hi Hth) as [_ Hro].
  rewrite Hring, Hro, (bool_decide_eq_false_2 (is_Some (iu_thread t))) by (rewrite Hth; by intros [? ?]).
  simpl negb. cbv iota. simpl orb. cbv iota.
  change (um_delete (iu_mem t) []) with
    {| um_heap := um_heap (iu_mem t); um_next := um_next (iu_mem t); um_pending := um_pending (iu_mem t);
       um_nops := um_nops (iu_mem t); um_cq := um_cq (iu_mem t) |}.
  destruct (alloc_recv_ops _ _) as [m ids] eqn:Ea. eexists; split; [done|].
  destruct (alloc_recv_ops_ok _ _ _ _ _ _ Ea Hh) as (Hh' & Hd & Hids & Hpe & Hcq & _). simpl in *.
  split; simpl; [|done|done]. eapply heap_ok_perm; [|eapply (heap_ok_give _ _ _ _ (granted ids sqe)); [| |exact Hh']].
  - unfold flight, cq_ids. simpl. rewrite Hth, Hpe, Hcq. simpl. rewrite !app_nil_r. solve_Permutation.
  - by apply NoDup_filter.
  - intros id [_ Hid]%list_elem_of_filter. destruct (Hids id Hid) as [? Hge]. split; [done|].
    intros Hf%(ho_live _ _ _ _ Hh)%(ho_next _ _ _ _ Hh). lia.
Qed.
Lemma iu_async_send_ok t data remote cb sqe :
  uring_ok t → iu_ring_initialized t = true →
  ∃ t', iu_async_send t data remote cb sqe = Ok t' ∧ uring_ok t'.
Proof.
  intros [Hh Hp Hi] Hring. unfold iu_async_send. rewrite Hring. simpl negb. cbv iota. cbn [um_alloc].
  eexists; split; [done|].
  pose proof (heap_ok_send _ _ _ _ (send_op data remote cb) eq_refl Hh) as Hs.
  assert (∀ id op, um_heap (iu_mem t) !! id = Some op →
    <[um_next (iu_mem t) := send_op data remote cb]> (um_heap (iu_mem t)) !! id = Some op) as Hk.
  { intros id op. by apply (heap_ok_fresh _ _ _ _ _ _ _ Hh). }
  destruct sqe; split; simpl; try done.
  - eapply heap_ok_perm; [|exact Hs]. unfold flight, cq_ids. simpl. solve_Permutation.
  - intros id E. destruct (Hp id E) as (op & ? & ?). exists op. auto.
  - refine (heap_ok_finish _ _ _ _ _ (send_op data remote cb) (-1) (-1) _ _ _ Hs);
      [by rewrite lookup_insert_eq|done|by right].
  - intros id E. destruct (Hp id E) as (op & Hop & ?). exists op. split; [|done].
    rewrite lookup_delete_ne; [by apply Hk|]. intros <-.
    pose proof (ho_next _ _ _ _ Hh _ (mk_is_Some _ _ Hop)). lia.
Qed.
Lemma loop_wait_ok t r :
  uring_ok t → iu_thread t = Some LP_Wait → loop_wait t = Some r → ∃ t', r = Ok t' ∧ uring_ok t'.
Proof.
  intros [Hh Hp Hi] Hth. unfold loop_wait. destruct (um_cq (iu_mem t)) as [|[[id|] result] rest] eqn:Ecq; [done| |].
  - simpl. assert (flight t ≡ₚ id :: (um_pending (iu_mem t) ++ omap fst rest)) as Hfl.
    { unfold flight, cq_ids. rewrite Ecq, Hth. simpl. rewrite app_nil_r. solve_Permutation. }
    apply (heap_ok_perm _ _ _ _ _ Hfl) in Hh.
    destruct (ho_live _ _ _ _ Hh id ltac:(by left)) as [op Hop]. rewrite Hop. intros [= <-].
    eexists; split; [done|]. unfold handle_op. destruct (uo_type op) eqn:Ht.
    + set (t1 := if 0 <? result then _ else _).
      assert (iu_mem t1 = pop_cq (iu_mem t) rest ∧ iu_log t1 = iu_log t)
        as (Em & El) by (subst t1; repeat case_match; done).
      split; simpl; rewrite ?Em; [| |done].
      * rewrite El. eapply heap_ok_perm; [|exact Hh]. unfold flight, cq_ids. simpl. rewrite Em. simpl.
        solve_Permutation.
      * intros j [= <-]. by exists op.
    + set (t1 := iu_count_sent _ result).
      assert (iu_mem t1 = pop_cq (iu_mem t) rest ∧ iu_log t1 = iu_log t)
        as (Em & El) by (subst t1; unfold iu_count_sent; repeat case_match; done).
      split; simpl; rewrite ?Em; [|done|done].
      rewrite El. unfold flight, cq_ids. simpl. rewrite Em. simpl. rewrite app_nil_r.
      refine (heap_ok_finish _ _ _ _ _ op _ _ Hop Ht _ Hh). unfold op_code_ok. simpl. unfold code_ok. simpl.
      destruct (Z.ltb_spec 0 result); [by left|by right].
  - intros [= <-]. eexists; split; [done|]. split; simpl; [|done|done].
    eapply heap_ok_perm; [|exact Hh]. unfold flight, cq_ids. simpl. rewrite Ecq, Hth. done.
Qed.
Lemma loop_resubmit_ok t id sqe :
  uring_ok t → iu_thread t = Some (LP_Resubmit id) →
  ∃ t', loop_resubmit t id sqe = Ok t' ∧ uring_ok t'.
Proof.
  intros [Hh Hp Hi] Hth. destruct (Hp id Hth) as (op & Hop & Ht).
  assert (flight t ≡ₚ id :: (um_pending (iu_mem t) ++ cq_ids (iu_mem t))) as Hfl.
  { unfold flight. rewrite Hth. simpl. solve_Permutation. }
  apply (heap_ok_perm _ _ _ _ _ Hfl) in Hh.
  unfold loop_resubmit. destruct (negb (iu_running t)).
  - eexists; split; [done|]. split; simpl; [|done|done]. unfold flight. simpl. rewrite app_nil_r.
    eapply heap_ok_keep; [exact Hop|simpl; congruence|exact Hh].
  - rewrite Hop. eexists; split; [done|]. set (op' := Build_UringOp _ _ _ _ _).
    assert (heap_ok (<[id := op']> (um_heap (iu_mem t))) (um_next (iu_mem t))
      (id :: (um_pending (iu_mem t) ++ cq_ids (iu_mem t))) (iu_log t)) as Hw
      by (eapply heap_ok_write; [exact Hop|done|done|exact Hh]).
    destruct sqe; split; simpl; try done; unfold flight, cq_ids in *; simpl; rewrite app_nil_r.
    + eapply heap_ok_perm; [|exact Hw]. solve_Permutation.
    + apply (heap_ok_keep _ _ _ _ id op'); [by rewrite lookup_insert_eq|simpl; congruence|exact Hw].
Qed.
Lemma um_write_id m id op : um_heap m !! id = Some op → um_write m id op = m.
Proof. intros E. unfold um_write. rewrite insert_id by done. by destruct m. Qed.
Lemma stop_begin_ok t sqe : uring_ok t → uring_ok (iu_stop_begin t sqe).
Proof.
  intros Hok. unfold iu_stop_begin. destruct (iu_running t) eqn:Er; simpl; [|done].
  destruct Hok as [Hh Hp Hi]. destruct (_ && _); split; simpl; try done; intros Hn; destruct (Hi Hn); by split.
Qed.
(** What holds between the steps: the event thread that has entered is still there. *)
Definition entered_ok t (c : RingCall) : Prop :=
  match c with RC_resubmit id _ => iu_thread t = Some (LP_Resubmit id) | _ => True end.
Definition uworld_ok (w : UWorld) : Prop :=
  uring_ok (uw_transport w) ∧ Forall (entered_ok (uw_transport w)) (uw_in_ring w).
Lemma ring_call_ok t c :
  uring_ok t → entered_ok t c → ring_ready t c → ∃ t', ring_call t c = Ok t' ∧ uring_ok t'.
Proof.
  intros Hok He Hr. destruct c; simpl in *.
  - destruct Hr. by apply iu_start_ok.
  - eexists; split; [done|]. by apply stop_begin_ok.
  - by apply iu_async_send_ok.
  - by apply loop_resubmit_ok.
Qed.
(** A step outside the ring leaves the thread that is inside where it is. *)
Lemma uworld_put w t :
  uworld_ok w → uring_ok t →
  (∀ id, iu_thread (uw_transport w) = Some (LP_Resubmit id) → iu_thread t = Some (LP_Resubmit id)) →
  uworld_ok (uw_put w t).
Proof.
  intros [_ Hin] Hok Hth. split; [done|]. eapply Forall_impl; [exact Hin|]. intros [] He; try done. by apply Hth.
Qed.
Lemma kernel_recv_ok t id data from :
  uring_ok t → id ∈ um_pending (iu_mem t) →
  ∃ m, kernel_recv (iu_mem t) id data from = Ok m ∧ uring_ok (iu_set_mem t m).
Proof.
  intros Hok Hin.
  destruct (ho_live _ _ _ _ (uk_heap _ Hok) id) as [op Hop]; [apply elem_of_app; by left|].
  unfold kernel_recv. rewrite Hop. eexists; split; [done|].
  eapply (uring_ok_complete t _ id _ op); [exact Hok|exact Hin|exact Hop| | |reflexivity]; done.
Qed.
Lemma kernel_result_ok t id r :
  uring_ok t → id ∈ um_pending (iu_mem t) →
  ∃ m, kernel_result (iu_mem t) id r = Ok m ∧ uring_ok (iu_set_mem t m).
Proof.
  intros Hok Hin.
  destruct (ho_live _ _ _ _ (uk_heap _ Hok) id) as [op Hop]; [apply elem_of_app; by left|].
  unfold kernel_result. rewrite Hop. eexists; split; [done|].
  eapply (uring_ok_complete t _ id _ op op); try done. by rewrite um_write_id.
Qed.
Lemma kernel_nop_ok t m : uring_ok t → kernel_nop (iu_mem t) = Some m → uring_ok (iu_set_mem t m).
Proof.
  intros [Hh Hp Hi] E. unfold kernel_nop in E. destruct (um_nops (iu_mem t)); [done|].
  injection E as <-. split; simpl; try done.
  eapply heap_ok_perm; [|exact Hh]. unfold flight, cq_ids. cbn [iu_mem iu_set_mem um_cq].
  rewrite cq_ids_snoc. simpl. by rewrite app_nil_r.
Qed.
Lemma uring_step_ok w e r : uworld_ok w → uring_contract w e → uring_step w e r → ∃ w', r = Ok w' ∧ uworld_ok w'.
Proof.
  intros Hw Hc Hstep. pose proof Hw as [Hok Hin]. pose proof (uk_idle _ Hok) as Hidle. destruct Hstep as
    [w s local q t' s' ok E|w c Hm|w c E|w b|w s data remote t' s' r E|w Hth|w Hth
    |w r Hth E|w id data from Hp Hty|w id r Hp Hty|w m E]; simpl in Hc.
  - eexists; split; [done|]. apply uworld_put; [done|..]; unfold iu_bind in E.
    + eapply uring_ok_same; [exact Hok|..]; repeat case_match; simplify_eq; (done || exact Hidle).
    + repeat case_match; simplify_eq; done.
  - rewrite Hc. eexists; split; [done|]. split; [done|]. apply Forall_singleton. destruct c; try done. apply Hm.
  - rewrite E in Hin. apply Forall_cons in Hin as [Hin _].
    destruct (ring_call_ok _ c Hok Hin Hc) as (t' & -> & Hok'). eexists; split; [done|]. by split.
  - eexists; split; [done|]. apply uworld_put; [done| |done]. by eapply uring_ok_same.
  - eexists; split; [done|]. apply uworld_put; [done|..]; unfold iu_send_to, iu_count_sent in E.
    + eapply uring_ok_same; [exact Hok|..]; repeat case_match; simplify_eq; (done || exact Hidle).
    + repeat case_match; simplify_eq; done.
  - eexists; split; [done|]. apply uworld_put; [done| |intros id Ei; congruence].
    eapply uring_ok_same; [exact Hok|..]; try done. simpl. rewrite Hth. by destruct (iu_running _).
  - eexists; split; [done|]. apply uworld_put; [done| |intros id Ei; congruence].
    eapply uring_ok_same; [exact Hok|..]; try done. simpl. rewrite Hth. by destruct (iu_running _).
  - destruct (loop_wait_ok _ r Hok Hth E) as (t' & -> & Hok'). eexists; split; [done|].
    apply uworld_put; [done..|]. intros id Ei; congruence.
  - destruct (kernel_recv_ok _ id data from Hok Hp) as (m & -> & Hok'). eexists; split; [done|].
    by apply uworld_put.
  - destruct (kernel_result_ok _ id r Hok Hp) as (m & -> & Hok'). eexists; split; [done|].
    by apply uworld_put.
  - eexists; split; [done|]. apply uworld_put; [done| |done]. by apply kernel_nop_ok.
Qed.

(** C27: Runs of the users, the event thread and the kernel, in any interleaving up to the
    return of the first [stop], that keep the contract: the ring is bound once and before
    it is used, and no two of [start], [stop], [async_send] and the event thread's
    resubmission overlap.  (The code has neither a check nor a lock for this; an overlap is
    undefined, [UringRun.racing_send].)  In such a run no deleted operation is touched by
    anyone: what the kernel holds, what waits in the completion queue and what the event
    thread works on are different live objects.  A send is either still on its way (its
    operation is alive and in one of these places) or it has ended exactly once, with the
    positive byte count and 0 or with -1 and -1; the callbacks made are those of the ended
    sends that were given one, each once and with these codes. *)
Theorem uring_sends_once (depth : nat) (r : res UWorld) :
  uring_run depth r →
  ∃ w, r = Ok w ∧
    let t := uw_transport w in
    NoDup (flight t) ∧
    (∀ id, id ∈ flight t → is_Some (um_heap (iu_mem t) !! id)) ∧
    NoDup (called_ids (iu_ended t)) ∧ Forall code_ok (iu_ended t) ∧
    (∀ id, id ∈ iu_sent t ↔
      id ∈ called_ids (iu_ended t) ∨
      ∃ op, um_heap (iu_mem t) !! id = Some op ∧ uo_type op = OP_SEND) ∧
    (∀ id op, um_heap (iu_mem t) !! id = Some op → uo_type op = OP_SEND →
      id ∉ called_ids (iu_ended t) ∧ id ∈ um_pending (iu_mem t) ++ cq_ids (iu_mem t)) ∧
    (∀ id op, um_heap (iu_mem t) !! id = Some op → uo_type op = OP_SEND → (uo_send_cb op = true ↔ id ∈ iu_asked t)) ∧
    iu_called t = filter (λ c, c.1.1 ∈ iu_asked t) (iu_ended t).
Proof.
  intros Hrun. assert (∃ w, r = Ok w ∧ uworld_ok w) as (w & -> & [[Hh Hp _] _]).
  { induction Hrun as [|w e r _ (w' & [= <-] & Hok) Hc Hstep].
    - eexists; split; [done|]. split; [|done]. split; [apply heap_ok_new|done..].
    - by eapply uring_step_ok. }
  exists w. split; [done|]. cbv zeta. pose proof (λ id, heap_ok_sent_iff _ _ _ _ id Hh) as Hiff.
  destruct Hh as [? Hd Hl Hs [? Hse] [? Hc] ? [? Hcb] ?]. split_and!; try done.
  - intros id op Hop Ht. split; [intros [_ ?]%Hc; congruence|]. destruct (Hs id op Hop Ht) as [Hin _].
    unfold flight in Hin. rewrite app_assoc in Hin. apply elem_of_app in Hin as [?|Hin]; [done|].
    destruct (iu_thread (uw_transport w)) as [[| |j|]|] eqn:Eth; simpl in Hin; try by apply elem_of_nil in Hin.
    apply list_elem_of_singleton in Hin as ->. destruct (Hp j eq_refl) as (? & ? & ?). congruence.
Qed.
End Uring.

(** ** The build without io_uring: nothing is bound, sent or started *)
Module UringStub.
Definition iu_stub_bind (t : IoUringTransport) (local : Endpoint) : IoUringTransport * bool := (t, false).
Definition iu_stub_start (t : IoUringTransport) : IoUringTransport := t.
Definition iu_stub_stop (t : IoUringTransport) : IoUringTransport := iu_set_running t false (iu_recv_ops t).
Definition iu_stub_close (t : IoUringTransport) : IoUringTransport := t.
Definition iu_stub_set_recv_handler (t : IoUringTransport) (b : bool) : IoUringTransport := t.
(** What the callback gets, if there is one. *)
Definition iu_stub_async_send (t : IoUringTransport) (data : bytes) (remote : Endpoint) (cb : bool)
    : IoUringTransport * option (Z * Z) := (t, if cb then Some (-1, -1) else None).
Definition iu_stub_send_to (t : IoUringTransport) (data : bytes) (remote : Endpoint) : IoUringTransport * Z := (t, -1).
End UringStub.

(** ** Runs on the operating system of the UDP examples *)
Module UringRun.
Import UdpRun.
#[local] Existing Instance toy_inet.
Definition all_granted (id : nat) : bool := true.
Definition bound : IoUringTransport := (iu_bind (iu_new 1) boot here 0).1.1.
Definition or_new (r : res IoUringTransport) : IoUringTransport := match r with Ok t => t | _ => iu_new 0 end.
Definition started : IoUringTransport := or_new (iu_start bound all_granted).
(** One send is on its way; the kernel completes it and the event thread handles it. *)
Definition sending : IoUringTransport := or_new (iu_async_send (loop_top started) [7; 8] there true true).
Definition completed : IoUringTransport :=
  iu_set_mem sending match kernel_result (iu_mem sending) 1 2 with Ok m => m | _ => iu_mem sending end.
Definition handled : IoUringTransport := or_new (default Oob (loop_wait completed)).

Definition world (t : IoUringTransport) : UWorld := {| uw_transport := t; uw_in_ring := [] |}.
(** A call that uses the ring, alone. *)
Lemma run_call depth t c t' :
  uring_run depth (Ok (world t)) → may_enter (world t) c → ring_ready t c → ring_call t c = Ok t' →
  uring_run depth (Ok (world t')).
Proof.
  intros Hr Hm Hc E. eapply (ur_step _ {| uw_transport := t; uw_in_ring := [c] |} (UE_use c)); [|done|].
  - eapply (ur_step _ (world t) (UE_enter c)); [done..|]. by apply (st_enter (world t) c).
  - replace (Ok (world t')) with
      (let! x := ring_call t c in Ok {| uw_transport := x; uw_in_ring := [] |}) by (by rewrite E).
    by apply (st_use {| uw_transport := t; uw_in_ring := [c] |} c).
Qed.
Lemma started_run : uring_run 1 (Ok (world started)).
Proof.
  apply (run_call _ bound (RC_start all_granted)); [|done|split; [done|by right]|done].
  eapply (ur_step _ (world (iu_new 1)) UE_bind); [apply ur_new|done|].
  by eapply (@st_bind toy_sockets toy_inet (world (iu_new 1)) boot here 0).
Qed.
Lemma looping_run : uring_run 1 (Ok (world (loop_top started))).
Proof. eapply (ur_step _ (world started) UE_other); [apply started_run|done|]. by apply (st_top (world started)). Qed.
Lemma handled_run : uring_run 1 (Ok (world handled)).
Proof.
  apply (ur_step _ (world completed) UE_other); [|done|].
  - apply (ur_step _ (world sending) UE_other); [|done|].
    + apply (run_call _ (loop_top started) (RC_send [7; 8] there true true)); [apply looping_run|done..].
    + apply (st_kernel_result (world sending) 1 2); [by_decide|]. by intros op [= <-].
  - by apply (st_wait (world completed) (Ok handled)).
Qed.
Lemma uring_sends_once_witness :
  iu_ended handled = [(1%nat, 2, 0)] ∧ iu_called handled = [(1%nat, 2, 0)] ∧
  NoDup (called_ids (iu_ended handled)) ∧ us_bytes_sent (iu_stats handled) = 2.
Proof.
  destruct (uring_sends_once 1 (Ok (world handled)) handled_run) as (w & [= <-] & _ & _ & Hd & _).
  split_and!; [reflexivity|reflexivity|exact Hd|reflexivity].
Defined.
(** A user sends while the event thread is about to resubmit a receive. *)
Definition received : IoUringTransport :=
  let t := loop_top started in
  let t := iu_set_mem t match kernel_recv (iu_mem t) 0 [5] zero_addr with Ok m => m | _ => iu_mem t end in
  or_new (default Oob (loop_wait t)).
Example racing_send :
  let c := RC_send [7] there true true in
  let inside := {| uw_transport := received; uw_in_ring := [RC_resubmit 0 true] |} in
  uring_run 1 (Ok inside) ∧ uring_step inside (UE_enter c) Oob ∧ ¬ uring_contract inside (UE_enter c).
Proof.
  intros c inside. split_and!; [|by apply (st_enter inside c)|done].
  eapply (ur_step _ (world received) (UE_enter (RC_resubmit 0 true))); [|done|].
  - set (got := iu_set_mem (loop_top started)
      match kernel_recv (iu_mem (loop_top started)) 0 [5] zero_addr with Ok m => m | _ => iu_mem (loop_top started) end).
    apply (ur_step _ (world got) UE_other); [|done|by apply (st_wait (world got) (Ok received))].
    eapply (ur_step _ (world (loop_top started)) UE_other); [apply looping_run|done|].
    apply (st_kernel_recv (world (loop_top started)) 0 [5] zero_addr); [by_decide|]. by intros op [= <-].
  - apply (st_enter (world received) (RC_resubmit 0 true)). split; [done|]. by intros sqe ?%elem_of_nil.
Qed.
(** A send without a callback: it ends, nobody is told. *)
Example silent_send :
  let t := or_new (iu_async_send (loop_top started) [7; 8] there false false) in
  iu_ended t = [(1%nat, -1, -1)] ∧ iu_called t = [].
Proof. done. Qed.

(** [stop] deletes the receive operations while the kernel still holds them: the next
    datagram is written to freed memory, and after another [start] the event thread
    would read the freed operation. *)
Example stop_dangles :
  let t := loop_top (iu_stop_begin started true) in
  let t' := iu_stop_end t in
  uring_run 1 (Ok (world t)) ∧ iu_thread t = Some LP_Done ∧ um_pending (iu_mem t') = [0%nat] ∧
  kernel_recv (iu_mem t') 0 [1] zero_addr = Oob.
Proof.
  split_and!; try done.
  eapply (ur_step _ (world (iu_stop_begin started true)) UE_other); [|done|by apply (st_top (world (iu_stop_begin started true)))].
  apply (run_call _ started (RC_stop true)); [apply started_run|done..].
Qed.
(** Sends that are on their way at [stop] are never completed: no callback, no delete. *)
Example stop_forgets_sends :
  let t := iu_stop_end (loop_top (iu_stop_begin (iu_set_thread sending (Some LP_Top)) true)) in
  iu_sent t = [1%nat] ∧ iu_ended t = [] ∧ iu_called t = [] ∧ is_Some (um_heap (iu_mem t) !! 1%nat) ∧ iu_thread t = None.
Proof. split_and!; try done. Qed.
(** Without a free queue entry [stop] wakes nobody, and the wait has no timeout: the
    event thread stays in it until the kernel completes something by itself. *)
Example stop_waits :
  let t := iu_stop_begin (loop_top started) false in
  uring_run 1 (Ok (world t)) ∧ iu_running t = false ∧ iu_thread t = Some LP_Wait ∧
  loop_wait t = None ∧ um_nops (iu_mem t) = 0%nat.
Proof.
  split_and!; try done. apply (run_call _ (loop_top started) (RC_stop false)); [apply looping_run|done..].
Qed.
(** The functions that need the ring do not look whether [bind] has made it. *)
Example start_unbound : iu_start (iu_new 1) all_granted = Oob ∧ iu_async_send (iu_new 1) [1] there true true = Oob.
Proof. done. Qed.
End UringRun.
