(* ===== verification/Iocp.v ===== *)
(** * The IOCP transport

    Models [include/protocoll/transport/iocp_transport.h] and
    [src/transport/iocp_transport.cpp].  An operation is an object on the heap whose
    address travels through the socket's driver and the completion port to one of the
    worker threads.  As in Uring.v the heap is explicit, an access of a deleted object
    is [Oob], and an execution is any interleaving of the users, the workers and the
    kernel.

    The socket calls are those of [Sockets]; [CompletionPorts] adds the calls on ports,
    with the documented results: [CreateIoCompletionPort] answers NULL when it fails, and
    makes a port of its own when it is given NULL as the port.  Whether [WSARecvFrom] and
    [WSASendTo] accept an operation is a choice of each step.  [WSAStartup] and
    [local_ep], which nothing reads, are left out.  The histories (sends, their ends,
    received datagrams) are not read by the code. *)
From S2P Require Import Prelude Platform Frame Transport Udp OpHeap Uring.

Definition NULL_HANDLE : Z := 0.
Definition INVALID_HANDLE_VALUE : Z := -1.
Class CompletionPorts `{Sockets} := {
  sys_create_port : os → nat → os * Z;
  sys_associate : os → Z → Z → os * Z;
  sys_close_handle : os → Z → os;
  open_ports : os → gset Z;
  create_port_spec : ∀ s n s' h, sys_create_port s n = (s', h) → open_fds s' = open_fds s ∧
    ((h = NULL_HANDLE ∧ open_ports s' = open_ports s) ∨
     (0 < h ∧ h ∉ open_ports s ∧ open_ports s' = open_ports s ∪ {[h]}));
  associate_spec : ∀ s fd p s' h, sys_associate s fd p = (s', h) → open_fds s' = open_fds s ∧
    (p ≠ NULL_HANDLE ∨ h = NULL_HANDLE → open_ports s' = open_ports s);
  close_handle_spec : ∀ s h, open_fds (sys_close_handle s h) = open_fds s ∧
    open_ports (sys_close_handle s h) = open_ports s ∖ {[h]};
  socket_ports : ∀ s, open_ports (sys_socket s).1 = open_ports s;
  bind_ports : ∀ s fd a, open_ports (sys_bind s fd a).1 = open_ports s;
  close_ports : ∀ s fd, open_ports (sys_close s fd) = open_ports s;
  null_port : ∀ s, NULL_HANDLE ∉ open_ports s }.

Inductive IoOpType := IO_RECV | IO_SEND | IO_QUIT.
#[global] Instance IoOpType_eq_dec : EqDecision IoOpType.
Proof. solve_decision. Defined.
(** [buffer], [wsa_buf.len] and [from_addr]; [wsa_buf.buf] only points to the buffer. *)
Record IoOperation := {
  wo_type : IoOpType; wo_buffer : bytes; wo_len : nat; wo_from : SockAddr; wo_send_cb : bool }.
Definition wo_new (ty : IoOpType) : IoOperation :=
  {| wo_type := ty; wo_buffer := []; wo_len := MAX_PACKET_SIZE; wo_from := zero_addr; wo_send_cb := false |}.
(** What waits in the port: a packet posted by [stop], with no operation, or a completed
    operation with its success and byte count. *)
Inductive PortPacket := PP_Quit | PP_Op (success : bool) (bytes_transferred : Z) (op : nat).
Record WMem := {
  wm_heap : gmap nat IoOperation; wm_next : nat; wm_pending : list nat; wm_port : list PortPacket }.
(** Where a worker is: at the test of [running_], in the wait, before the second test of
    [running_] with a receive in its hands, returned. *)
Inductive WorkerPc := WK_Top | WK_Wait | WK_Repost (op : nat) | WK_Done.
#[global] Instance WorkerPc_eq_dec : EqDecision WorkerPc.
Proof. solve_decision. Defined.
(** [ic_starting]: the receives the loop at the end of [start] has still to post. *)
Record IocpTransport := mkIocp {
  ic_num_workers : nat; ic_running : bool; ic_workers : list WorkerPc; ic_recv_handler : bool;
  ic_sock : Z; ic_iocp : Z; ic_recv_ops : list nat; ic_starting : list nat; ic_stats : UStats;
  ic_mem : WMem;
  (* history *)
  ic_log : SendLog; ic_received : list (bytes * Endpoint) }.
Definition ic_sent (t : IocpTransport) : list nat := sl_sent (ic_log t).
Definition ic_ended (t : IocpTransport) : list (nat * Z * Z) := sl_ended (ic_log t).
(** The sends that were given a callback, and the calls made. *)
Definition ic_asked (t : IocpTransport) : list nat := sl_asked (ic_log t).
Definition ic_called (t : IocpTransport) : list (nat * Z * Z) := sl_called (ic_log t).
Definition ic_new (num_workers : nat) : IocpTransport :=
  mkIocp (if (num_workers <? 1)%nat then 1%nat else num_workers) false [] false INVALID_SOCK
    INVALID_HANDLE_VALUE [] [] {| us_packets_sent := 0; us_packets_received := 0;
      us_bytes_sent := 0; us_bytes_received := 0 |}
    {| wm_heap := ∅; wm_next := 0; wm_pending := []; wm_port := [] |} sl_new [].

(** ** Updates *)
Definition ic_set_mem (t : IocpTransport) (m : WMem) : IocpTransport :=
  mkIocp (ic_num_workers t) (ic_running t) (ic_workers t) (ic_recv_handler t) (ic_sock t) (ic_iocp t)
    (ic_recv_ops t) (ic_starting t) (ic_stats t) m (ic_log t) (ic_received t).
Definition ic_set_worker (t : IocpTransport) (i : nat) (pc : WorkerPc) : IocpTransport :=
  mkIocp (ic_num_workers t) (ic_running t) (<[i := pc]> (ic_workers t)) (ic_recv_handler t) (ic_sock t)
    (ic_iocp t) (ic_recv_ops t) (ic_starting t) (ic_stats t) (ic_mem t) (ic_log t)
    (ic_received t).
Definition ic_set_threads (t : IocpTransport) (running : bool) (ws : list WorkerPc)
    (ops starting : list nat) : IocpTransport :=
  mkIocp (ic_num_workers t) running ws (ic_recv_handler t) (ic_sock t) (ic_iocp t) ops starting
    (ic_stats t) (ic_mem t) (ic_log t) (ic_received t).
Definition ic_set_handles (t : IocpTransport) (sock iocp : Z) : IocpTransport :=
  mkIocp (ic_num_workers t) (ic_running t) (ic_workers t) (ic_recv_handler t) sock iocp
    (ic_recv_ops t) (ic_starting t) (ic_stats t) (ic_mem t) (ic_log t) (ic_received t).
Definition ic_set_recv_handler (t : IocpTransport) (b : bool) : IocpTransport :=
  mkIocp (ic_num_workers t) (ic_running t) (ic_workers t) b (ic_sock t) (ic_iocp t)
    (ic_recv_ops t) (ic_starting t) (ic_stats t) (ic_mem t) (ic_log t) (ic_received t).
Definition ic_set_stats (t : IocpTransport) (s : UStats) : IocpTransport :=
  mkIocp (ic_num_workers t) (ic_running t) (ic_workers t) (ic_recv_handler t) (ic_sock t) (ic_iocp t)
    (ic_recv_ops t) (ic_starting t) s (ic_mem t) (ic_log t) (ic_received t).
Definition ic_note_sent (t : IocpTransport) (id : nat) (cb : bool) : IocpTransport :=
  mkIocp (ic_num_workers t) (ic_running t) (ic_workers t) (ic_recv_handler t) (ic_sock t) (ic_iocp t)
    (ic_recv_ops t) (ic_starting t) (ic_stats t) (ic_mem t) (sl_submit (ic_log t) id cb)
    (ic_received t).
Definition ic_note_received (t : IocpTransport) (data : bytes) (from : Endpoint) : IocpTransport :=
  mkIocp (ic_num_workers t) (ic_running t) (ic_workers t) (ic_recv_handler t) (ic_sock t) (ic_iocp t)
    (ic_recv_ops t) (ic_starting t) (ic_stats t) (ic_mem t) (ic_log t)
    (ic_received t ++ [(data, from)]).
Definition ic_count_sent (t : IocpTransport) (n : Z) : IocpTransport :=
  let s := ic_stats t in
  ic_set_stats t
    {| us_packets_sent := u64 (us_packets_sent s + 1); us_packets_received := us_packets_received s;
       us_bytes_sent := u64 (us_bytes_sent s + u64 n); us_bytes_received := us_bytes_received s |}.
Definition ic_count_received (t : IocpTransport) (n : Z) : IocpTransport :=
  let s := ic_stats t in
  ic_set_stats t
    {| us_packets_sent := us_packets_sent s; us_packets_received := u64 (us_packets_received s + 1);
       us_bytes_sent := us_bytes_sent s; us_bytes_received := u64 (us_bytes_received s + u64 n) |}.

(** ** Memory *)
Definition wm_set_heap (m : WMem) (h : gmap nat IoOperation) (next : nat) : WMem :=
  {| wm_heap := h; wm_next := next; wm_pending := wm_pending m; wm_port := wm_port m |}.
Definition wm_set_queues (m : WMem) (pending : list nat) (port : list PortPacket) : WMem :=
  {| wm_heap := wm_heap m; wm_next := wm_next m; wm_pending := pending; wm_port := port |}.
Definition wm_alloc (m : WMem) (op : IoOperation) : WMem * nat :=
  (wm_set_heap m (<[wm_next m := op]> (wm_heap m)) (S (wm_next m)), wm_next m).
Definition wm_write (m : WMem) (id : nat) (op : IoOperation) : WMem :=
  wm_set_heap m (<[id := op]> (wm_heap m)) (wm_next m).
Definition wm_delete (m : WMem) (ids : list nat) : WMem :=
  wm_set_heap m (foldr delete (wm_heap m) ids) (wm_next m).
(** The callback of a send with these arguments, if it has one, and the delete. *)
Definition ic_finish_send (t : IocpTransport) (id : nat) (cb : bool) (bytes_sent error : Z) : IocpTransport :=
  mkIocp (ic_num_workers t) (ic_running t) (ic_workers t) (ic_recv_handler t) (ic_sock t) (ic_iocp t)
    (ic_recv_ops t) (ic_starting t) (ic_stats t) (wm_delete (ic_mem t) [id])
    (sl_end (ic_log t) id cb bytes_sent error) (ic_received t).

(** ** The kernel *)
Definition wm_complete (m : WMem) (id : nat) (success : bool) (n : Z) : WMem :=
  wm_set_queues m (remove_id id (wm_pending m)) (wm_port m ++ [PP_Op success n id]).
(** A datagram that does not fit fills the buffer and is reported as an error. *)
Definition driver_recv (m : WMem) (id : nat) (data : bytes) (from : SockAddr) : res WMem :=
  match wm_heap m !! id with
  | None => Oob
  | Some op =>
      let n := Nat.min (length data) (wo_len op) in
      let op' := {| wo_type := wo_type op; wo_buffer := take n data; wo_len := wo_len op;
                    wo_from := from; wo_send_cb := wo_send_cb op |} in
      Ok (wm_complete (wm_write m id op') id (bool_decide (length data ≤ wo_len op)%nat) (Z.of_nat n))
  end.
(** A send, or a failed operation; the driver writes the status into the operation. *)
Definition driver_result (m : WMem) (id : nat) (success : bool) (n : Z) : res WMem :=
  match wm_heap m !! id with
  | None => Oob
  | Some op => Ok (wm_complete m id success n)
  end.

Section Iocp.
Context `{CompletionPorts} `{Inet}.
Implicit Types (t : IocpTransport) (s : os).

(** ** bind and close *)
Definition ic_bind t s (local : Endpoint) : IocpTransport * os * bool :=
  let '(s, sock) := sys_socket s in
  if sock =? INVALID_SOCK then (ic_set_handles t sock (ic_iocp t), s, false) else
  let '(s, r) := sys_bind s sock (bind_addr local) in
  if r =? -1 then (ic_set_handles t INVALID_SOCK (ic_iocp t), sys_close s sock, false) else
  let '(s, iocp) := sys_create_port s (ic_num_workers t) in
  if iocp =? INVALID_HANDLE_VALUE then (ic_set_handles t INVALID_SOCK iocp, sys_close s sock, false) else
  let '(s, h) := sys_associate s sock iocp in
  if h =? NULL_HANDLE then
    (ic_set_handles t INVALID_SOCK INVALID_HANDLE_VALUE, sys_close (sys_close_handle s iocp) sock, false)
  else (ic_set_handles t sock iocp, s, true).
(** [close] after its [stop]. *)
Definition ic_close t s : IocpTransport * os :=
  let '(t, s) := if negb (ic_sock t =? INVALID_SOCK)
                 then (ic_set_handles t INVALID_SOCK (ic_iocp t), sys_close s (ic_sock t)) else (t, s) in
  if negb (ic_iocp t =? INVALID_HANDLE_VALUE)
  then (ic_set_handles t (ic_sock t) INVALID_HANDLE_VALUE, sys_close_handle s (ic_iocp t)) else (t, s).

(** ** send_to and async_send *)
Definition ic_send_to t s (data : bytes) (remote : Endpoint) : IocpTransport * os * Z :=
  if ic_sock t =? INVALID_SOCK then (t, s, -1) else
  let '(s, r) := sys_sendto s (ic_sock t) data (sockaddr_of remote) in
  (if 0 <? r then ic_count_sent t r else t, s, r).
Definition io_send_op (data : bytes) (cb : bool) : IoOperation :=
  let copy_len := if (length data <? MAX_PACKET_SIZE)%nat then length data else MAX_PACKET_SIZE in
  {| wo_type := IO_SEND; wo_buffer := take copy_len data; wo_len := copy_len; wo_from := zero_addr;
     wo_send_cb := cb |}.
(** [WSASendTo] accepts the operation, at once or as pending, or fails with [error]; the
    address is read by the call. *)
Definition ic_async_send t (data : bytes) (cb accept : bool) (error : Z) : IocpTransport :=
  let '(m, id) := wm_alloc (ic_mem t) (io_send_op data cb) in
  let t := ic_note_sent (ic_set_mem t m) id cb in
  if accept && negb (ic_sock t =? INVALID_SOCK)
  then ic_set_mem t (wm_set_queues (ic_mem t) (wm_pending (ic_mem t) ++ [id]) (wm_port (ic_mem t)))
  else ic_finish_send t id cb (-1) error.

(** ** start and stop *)
Fixpoint alloc_io_ops (n : nat) (m : WMem) : WMem * list nat :=
  match n with
  | O => (m, [])
  | S n' =>
      let '(m, id) := wm_alloc m (wo_new IO_RECV) in
      let '(m, ids) := alloc_io_ops n' m in (m, id :: ids)
  end.
Definition ic_start t : IocpTransport :=
  if ic_running t then t else
  let m := wm_delete (ic_mem t) (ic_recv_ops t) in
  let '(m, ids) := alloc_io_ops (ic_num_workers t) m in
  ic_set_threads (ic_set_mem t m) true (ic_workers t ++ replicate (ic_num_workers t) WK_Top) ids ids.
(** The answer of [WSARecvFrom] is not looked at. *)
Definition post_recv_operation t (id : nat) (accept : bool) : res IocpTransport :=
  match wm_heap (ic_mem t) !! id with
  | None => Oob
  | Some op =>
      let op := {| wo_type := wo_type op; wo_buffer := wo_buffer op; wo_len := MAX_PACKET_SIZE;
                   wo_from := wo_from op; wo_send_cb := wo_send_cb op |} in
      let m := wm_write (ic_mem t) id op in
      Ok (ic_set_mem t (if accept && negb (ic_sock t =? INVALID_SOCK)
                        then wm_set_queues m (wm_pending m ++ [id]) (wm_port m) else m))
  end.
(** One turn of the loop that posts the receives. *)
Definition ic_start_post t (accept : bool) : res IocpTransport :=
  match ic_starting t with
  | [] => Ok t
  | id :: rest =>
      post_recv_operation (ic_set_threads t (ic_running t) (ic_workers t) (ic_recv_ops t) rest) id accept
  end.
Definition has_port t : bool := 0 <? ic_iocp t.
(** [stop] up to the joins, and after them. *)
Definition ic_stop_begin t : IocpTransport :=
  if negb (ic_running t) then t else
  let t := ic_set_threads t false (ic_workers t) (ic_recv_ops t) (ic_starting t) in
  if has_port t then
    ic_set_mem t (wm_set_queues (ic_mem t) (wm_pending (ic_mem t))
                    (wm_port (ic_mem t) ++ replicate (length (ic_workers t)) PP_Quit))
  else t.
Definition ic_stop_end t : IocpTransport :=
  ic_set_threads (ic_set_mem t (wm_delete (ic_mem t) (ic_recv_ops t))) (ic_running t) [] [] (ic_starting t).

(** ** A worker *)
Definition worker_top t (i : nat) : IocpTransport :=
  ic_set_worker t i (if ic_running t then WK_Wait else WK_Done).
(** [GetQueuedCompletionStatus] fails without an operation: after 100 ms, or at once when
    the handle is no port. *)
Definition worker_timeout t (i : nat) : IocpTransport := ic_set_worker t i WK_Top.
Definition handle_completion t (i id : nat) (op : IoOperation) (success : bool) (n : Z) : IocpTransport :=
  match wo_type op with
  | IO_RECV =>
      let t :=
        if success && (0 <? n) then
          let t := ic_count_received t n in
          if ic_recv_handler t
          then ic_note_received t (take (Z.to_nat n) (wo_buffer op)) (endpoint_of (wo_from op)) else t
        else t in
      ic_set_worker t i (WK_Repost id)
  | IO_SEND =>
      let t := if success && (0 <? n) then ic_count_sent t n else t in
      ic_set_worker (ic_finish_send t id (wo_send_cb op) (if success then i32 n else -1) (if success then 0 else -1))
        i WK_Top
  | IO_QUIT => ic_set_worker t i WK_Top
  end.
(** One packet of the port; [None]: there is none. *)
Definition worker_dequeue t (i : nat) : option (res IocpTransport) :=
  if negb (has_port t) then None else
  match wm_port (ic_mem t) with
  | [] => None
  | p :: rest =>
      let t := ic_set_mem t (wm_set_queues (ic_mem t) (wm_pending (ic_mem t)) rest) in
      Some match p with
           | PP_Quit => Ok (ic_set_worker t i WK_Done)
           | PP_Op success n id =>
               match wm_heap (ic_mem t) !! id with
               | None => Oob
               | Some op => Ok (handle_completion t i id op success n)
               end
           end
  end.
Definition worker_repost t (i id : nat) (accept : bool) : res IocpTransport :=
  let! t := if ic_running t then post_recv_operation t id accept else Ok t in
  Ok (ic_set_worker t i WK_Top).

(** ** Handles *)
Lemma ic_close_handles t s :
  let '(t', s') := ic_close t s in
  ic_sock t' = INVALID_SOCK ∧ ic_iocp t' = INVALID_HANDLE_VALUE ∧
  open_fds s' = (if ic_sock t =? INVALID_SOCK then open_fds s else open_fds s ∖ {[ic_sock t]}) ∧
  open_ports s' = (if ic_iocp t =? INVALID_HANDLE_VALUE then open_ports s else open_ports s ∖ {[ic_iocp t]}).
Proof.
  unfold ic_close. destruct (Z.eqb_spec (ic_sock t) INVALID_SOCK), (Z.eqb_spec (ic_iocp t) INVALID_HANDLE_VALUE);
    simpl; rewrite ?(proj2 (Z.eqb_eq _ _)), ?(proj2 (Z.eqb_neq (ic_iocp t) _)) by done; simpl;
    rewrite ?(proj1 (close_handle_spec _ _)), ?(proj2 (close_handle_spec _ _)), ?close_fds, ?close_ports; done.
Qed.
(** [bind] is all or nothing: one that fails leaves no socket and no port behind, and
    what one that succeeds has opened, [close] closes; unless the port could not be made,
    which [bind] looks for under the wrong value. *)
Lemma ic_bind_owns t s local :
  ic_sock t = INVALID_SOCK → ic_iocp t = INVALID_HANDLE_VALUE →
  let '(t1, s1, ok) := ic_bind t s local in
  (ok = false → ic_sock t1 = INVALID_SOCK ∧ ic_iocp t1 = INVALID_HANDLE_VALUE ∧
     open_fds s1 = open_fds s ∧ open_ports s1 = open_ports s) ∧
  (ok = true → ic_iocp t1 ≠ NULL_HANDLE →
     let '(t2, s2) := ic_close t1 s1 in
     has_port t1 = true ∧ open_fds s2 = open_fds s ∧ open_ports s2 = open_ports s).
Proof.
  intros Hs Hi. unfold ic_bind.
  destruct (sys_socket s) as [s1 sock] eqn:E1. pose proof (socket_ports s) as P1. rewrite E1 in P1. simpl in P1.
  apply socket_spec in E1 as [[-> F1]|(Hpos & Hn & F1)]; [simpl; done|].
  assert (sock ≠ INVALID_SOCK) as Hsock by (unfold INVALID_SOCK; lia).
  rewrite (proj2 (Z.eqb_neq sock _)) by done.
  pose proof (bind_fds s1 sock (bind_addr local)) as F2. pose proof (bind_ports s1 sock (bind_addr local)) as P2.
  destruct (sys_bind s1 sock _) as [s2 r]. simpl in F2, P2.
  assert ((open_fds s ∪ {[sock]}) ∖ {[sock]} = open_fds s) as Hback by set_solver.
  destruct (r =? -1); [simpl; split; [|done]; intros _; by rewrite close_fds, close_ports, F2, F1, P2, P1|].
  destruct (sys_create_port s2 _) as [s3 p] eqn:E3. apply create_port_spec in E3 as [F3 P3].
  rewrite (proj2 (Z.eqb_neq p INVALID_HANDLE_VALUE)) by (unfold INVALID_HANDLE_VALUE; destruct P3 as [[-> _]|[? _]]; unfold NULL_HANDLE; lia).
  destruct (sys_associate s3 sock p) as [s4 h] eqn:E4. apply associate_spec in E4 as [F4 P4].
  destruct (Z.eqb_spec h NULL_HANDLE) as [Hh|Hh]; simpl; (split; [|try done]).
  - intros _. rewrite close_fds, close_ports, (proj1 (close_handle_spec _ _)), (proj2 (close_handle_spec _ _)).
    rewrite P4 by auto. rewrite F4, F3, F2, F1. split_and!; try done.
    pose proof (null_port s2). destruct P3 as [[-> ->]|(_ & ? & ->)]; rewrite ?P2, ?P1 in *; set_solver.
  - done.
  - intros _ Hp. pose proof (ic_close_handles (ic_set_handles t sock p) s4) as Hc.
    destruct (ic_close _ s4) as [t2 s5]. simpl in Hc. destruct Hc as (_ & _ & -> & ->).
    destruct P3 as [[-> _]|(Hp0 & Hnp & P3)]; [done|].
    rewrite (proj2 (Z.eqb_neq sock _)) by done.
    rewrite (proj2 (Z.eqb_neq p INVALID_HANDLE_VALUE)) by (unfold INVALID_HANDLE_VALUE; lia).
    split; [by apply Z.ltb_lt|]. rewrite F4, F3, F2, F1, P4 by auto. split; [done|].
    rewrite P3, P2, P1 in *. set_solver.
Qed.

(** ** Interleavings, up to the first [stop] that returns

    The contract of the users: [bind] only on a transport that has no socket, and no
    [start] or [stop] while another of them is running. *)
Inductive iocp_step : IocpTransport → res IocpTransport → Prop :=
| is_bind t s local t' s' ok :
    ic_sock t = INVALID_SOCK → ic_bind t s local = (t', s', ok) → iocp_step t (Ok t')
| is_handler t b : iocp_step t (Ok (ic_set_recv_handler t b))
| is_send t data cb accept error : error ≠ 0 → iocp_step t (Ok (ic_async_send t data cb accept error))
| is_send_to t s data remote t' s' r :
    ic_send_to t s data remote = (t', s', r) → iocp_step t (Ok t')
| is_start t : ic_running t = true ∨ ic_workers t = [] → iocp_step t (Ok (ic_start t))
| is_start_post t accept : iocp_step t (ic_start_post t accept)
| is_stop t : ic_starting t = [] → iocp_step t (Ok (ic_stop_begin t))
| is_top t i : ic_workers t !! i = Some WK_Top → iocp_step t (Ok (worker_top t i))
| is_timeout t i : ic_workers t !! i = Some WK_Wait → iocp_step t (Ok (worker_timeout t i))
| is_dequeue t i r :
    ic_workers t !! i = Some WK_Wait → worker_dequeue t i = Some r → iocp_step t r
| is_repost t i id accept :
    ic_workers t !! i = Some (WK_Repost id) → iocp_step t (worker_repost t i id accept)
| is_driver_recv t id data from :
    id ∈ wm_pending (ic_mem t) →
    (∀ op, wm_heap (ic_mem t) !! id = Some op → wo_type op = IO_RECV) →
    iocp_step t (let! m := driver_recv (ic_mem t) id data from in Ok (ic_set_mem t m))
| is_driver_result t id success n :
    id ∈ wm_pending (ic_mem t) → 0 ≤ n ≤ Z.of_nat MAX_PACKET_SIZE →
    (∀ op, wm_heap (ic_mem t) !! id = Some op → wo_type op = IO_RECV → success = false) →
    iocp_step t (let! m := driver_result (ic_mem t) id success n in Ok (ic_set_mem t m)).
Inductive iocp_run (num_workers : nat) : res IocpTransport → Prop :=
| ir_new : iocp_run num_workers (Ok (ic_new num_workers))
| ir_step t r : iocp_run num_workers (Ok t) → iocp_step t r → iocp_run num_workers r.

(** ** Ownership of the operations *)
Definition io_code_ok (c : nat * Z * Z) : Prop :=
  (0 ≤ c.1.2 ≤ Z.of_nat MAX_PACKET_SIZE ∧ c.2 = 0) ∨ (c.1.2 = -1 ∧ c.2 ≠ 0).
#[local] Instance IoOperation_AsyncOp : AsyncOp IoOperation :=
  {| op_is_send op := wo_type op = IO_SEND; op_has_cb := wo_send_cb; op_code_ok := io_code_ok |}.
Definition packet_ids (p : PortPacket) : list nat := match p with PP_Op _ _ id => [id] | PP_Quit => [] end.
Definition packet_ok (p : PortPacket) : Prop :=
  match p with PP_Op _ n _ => 0 ≤ n ≤ Z.of_nat MAX_PACKET_SIZE | PP_Quit => True end.
Definition port_ids (q : list PortPacket) : list nat := q ≫= packet_ids.
Definition wk_ids (pc : WorkerPc) : list nat := match pc with WK_Repost id => [id] | _ => [] end.
Definition held t : list nat := (ic_workers t ≫= wk_ids) ++ ic_starting t.
Definition io_flight t : list nat := wm_pending (ic_mem t) ++ port_ids (wm_port (ic_mem t)) ++ held t.
(** The invariant while [x] is in the hands of the code that is running. *)
Record iocp_ok (x : list nat) t : Prop := {
  ik_heap : heap_ok (wm_heap (ic_mem t)) (wm_next (ic_mem t)) (x ++ io_flight t) (ic_log t);
  ik_held : ∀ id, id ∈ held t → ∃ op, wm_heap (ic_mem t) !! id = Some op ∧ wo_type op = IO_RECV;
  ik_port : Forall packet_ok (wm_port (ic_mem t));
  ik_idle : ic_workers t = [] → ic_recv_ops t = [] ∧ ic_starting t = [];
  ik_len : ∀ id op, wm_heap (ic_mem t) !! id = Some op → (wo_len op ≤ MAX_PACKET_SIZE)%nat;
  ik_num : (0 < ic_num_workers t)%nat }.

(** The operations of the workers when one of them moves. *)
Lemma wk_ids_at (ws : list WorkerPc) i old :
  ws !! i = Some old →
  ∃ rest, ws ≫= wk_ids ≡ₚ wk_ids old ++ rest ∧ ∀ pc, <[i := pc]> ws ≫= wk_ids ≡ₚ wk_ids pc ++ rest.
Proof.
  intros Hi. exists ((take i ws ≫= wk_ids) ++ (drop (S i) ws ≫= wk_ids)).
  rewrite <-(take_drop_middle ws i old Hi) at 1. split.
  - rewrite bind_app, bind_cons. solve_Permutation.
  - intros pc. rewrite insert_take_drop by (by eapply lookup_lt_Some).
    rewrite bind_app, bind_cons. solve_Permutation.
Qed.

(** Steps that leave the memory and the histories alone. *)
Lemma iocp_ok_same x t x' t' :
  iocp_ok x t → ic_mem t' = ic_mem t → x' ++ held t' ≡ₚ x ++ held t →
  (∀ id, id ∈ held t' → id ∈ held t ∨ ∃ op, wm_heap (ic_mem t) !! id = Some op ∧ wo_type op = IO_RECV) →
  ic_log t' = ic_log t → ic_num_workers t' = ic_num_workers t →
  (ic_workers t' = [] → ic_recv_ops t' = [] ∧ ic_starting t' = []) → iocp_ok x' t'.
Proof.
  intros [Hh Hp Hq Hi Hl Hw] Em Ep Hin El En Hi'. split; rewrite ?Em, ?El, ?En; try done.
  - eapply heap_ok_perm; [|exact Hh]. unfold io_flight. rewrite Em.
    transitivity (wm_pending (ic_mem t) ++ port_ids (wm_port (ic_mem t)) ++ (x ++ held t)); [solve_Permutation|].
    rewrite <-Ep. solve_Permutation.
  - intros id Hid. destruct (Hin id Hid) as [?|?]; [by apply Hp|done].
Qed.
Lemma insert_nil_inv {A} (l : list A) i y : <[i := y]> l = [] → l = [].
Proof. intros E. apply length_zero_iff_nil. by rewrite <-(length_insert l i y), E. Qed.
(** A worker moves without an operation, puts the one it has down, takes one up. *)
Lemma iocp_ok_worker x t i old pc :
  iocp_ok x t → ic_workers t !! i = Some old → wk_ids pc = wk_ids old →
  iocp_ok x (ic_set_worker t i pc).
Proof.
  intros Hok Hi Epc. destruct (wk_ids_at _ _ _ Hi) as (rest & E1 & E2).
  assert (held (ic_set_worker t i pc) ≡ₚ held t) as Hheld by (unfold held; simpl; by rewrite E2, E1, Epc).
  eapply iocp_ok_same; [exact Hok|try done..].
  - by rewrite Hheld.
  - intros id Hid. left. by rewrite <-Hheld.
  - simpl. intros E%insert_nil_inv. by apply (ik_idle _ _ Hok).
Qed.
Lemma iocp_ok_put x t i id pc :
  iocp_ok x t → ic_workers t !! i = Some (WK_Repost id) → wk_ids pc = [] →
  iocp_ok (id :: x) (ic_set_worker t i pc).
Proof.
  intros Hok Hi Epc. destruct (wk_ids_at _ _ _ Hi) as (rest & E1 & E2).
  assert (id :: held (ic_set_worker t i pc) ≡ₚ held t) as Hheld
    by (unfold held; simpl; by rewrite E2, E1, Epc).
  eapply iocp_ok_same; [exact Hok|try done..].
  - rewrite <-Hheld. solve_Permutation.
  - intros j Hj. left. rewrite <-Hheld. by right.
  - simpl. intros E%insert_nil_inv. by apply (ik_idle _ _ Hok).
Qed.
Lemma iocp_ok_take x t i old id op :
  iocp_ok (id :: x) t → ic_workers t !! i = Some old → wk_ids old = [] →
  wm_heap (ic_mem t) !! id = Some op → wo_type op = IO_RECV → iocp_ok x (ic_set_worker t i (WK_Repost id)).
Proof.
  intros Hok Hi Eo Hop Ht. destruct (wk_ids_at _ _ _ Hi) as (rest & E1 & E2).
  assert (held (ic_set_worker t i (WK_Repost id)) ≡ₚ id :: held t) as Hheld
    by (unfold held; simpl; by rewrite E2, E1, Eo).
  eapply iocp_ok_same; [exact Hok|try done..].
  - rewrite Hheld. solve_Permutation.
  - intros j. rewrite Hheld. intros [->|?]%elem_of_cons; [right; by exists op|by left].
  - simpl. intros E%insert_nil_inv. by apply (ik_idle _ _ Hok).
Qed.
(** A packet leaves the port. *)
Lemma iocp_ok_pop x t p rest :
  iocp_ok x t → wm_port (ic_mem t) = p :: rest →
  iocp_ok (packet_ids p ++ x)
    (ic_set_mem t (wm_set_queues (ic_mem t) (wm_pending (ic_mem t)) rest)).
Proof.
  intros [Hh Hp Hq Hi Hl Hw] E. rewrite E in Hq. apply Forall_cons in Hq as [_ Hq]. split; simpl; try done.
  eapply heap_ok_perm; [|exact Hh]. unfold io_flight, port_ids. simpl. rewrite E, bind_cons. unfold held. simpl.
  solve_Permutation.
Qed.
(** A receive is posted, or forgotten. *)
Lemma iocp_ok_drop x t id op :
  iocp_ok (id :: x) t → wm_heap (ic_mem t) !! id = Some op → wo_type op = IO_RECV → iocp_ok x t.
Proof.
  intros [Hh Hp Hq Hi Hl Hw] Hop Ht. split; try done. eapply heap_ok_keep; [exact Hop|simpl; congruence|exact Hh].
Qed.
Lemma held_write t m id op op' :
  (∀ j, j ∈ held t → ∃ op, wm_heap m !! j = Some op ∧ wo_type op = IO_RECV) →
  wm_heap m !! id = Some op → wo_type op' = wo_type op →
  ∀ j, j ∈ held t → ∃ op, <[id := op']> (wm_heap m) !! j = Some op ∧ wo_type op = IO_RECV.
Proof.
  intros Hp Hop Ht j Hj. destruct (Hp j Hj) as (y & Hy & Hyt). destruct (decide (id = j)) as [->|].
  - exists op'. rewrite lookup_insert_eq. split; [done|]. congruence.
  - exists y. by rewrite lookup_insert_ne.
Qed.
Lemma len_write (h : gmap nat IoOperation) id op' :
  (∀ j op, h !! j = Some op → (wo_len op ≤ MAX_PACKET_SIZE)%nat) → (wo_len op' ≤ MAX_PACKET_SIZE)%nat →
  ∀ j op, <[id := op']> h !! j = Some op → (wo_len op ≤ MAX_PACKET_SIZE)%nat.
Proof. intros Hl Hop j y [[_ <-]|[_ Hy]]%lookup_insert_Some; [done|by apply (Hl j)]. Qed.
Lemma iocp_ok_post x t id op accept :
  iocp_ok (id :: x) t → wm_heap (ic_mem t) !! id = Some op → wo_type op = IO_RECV →
  ∃ t', post_recv_operation t id accept = Ok t' ∧ iocp_ok x t' ∧ ic_workers t' = ic_workers t.
Proof.
  intros Hok Hop Ht. unfold post_recv_operation. rewrite Hop. eexists; split; [done|].
  set (op' := Build_IoOperation _ _ _ _ _). split; [|by case_match].
  assert (iocp_ok (id :: x) (ic_set_mem t (wm_write (ic_mem t) id op'))) as Hwr.
  { destruct Hok as [Hh Hp Hq Hi Hl Hw]. split; simpl; try done.
    - eapply heap_ok_write; [exact Hop|done|done|exact Hh].
    - by eapply held_write.
    - by apply len_write. }
  destruct (accept && _).
  - destruct Hwr as [Hh Hp Hq Hi Hl Hw]. split; try done. eapply heap_ok_perm; [|exact Hh].
    unfold io_flight, held. simpl. solve_Permutation.
  - eapply iocp_ok_drop; [exact Hwr|simpl; by rewrite lookup_insert_eq|done].
Qed.
(** A send ends. *)
Lemma iocp_ok_finish x t id op b e :
  iocp_ok (id :: x) t → wm_heap (ic_mem t) !! id = Some op → wo_type op = IO_SEND → io_code_ok (id, b, e) →
  iocp_ok x (ic_finish_send t id (wo_send_cb op) b e).
Proof.
  intros [Hh Hp Hq Hi Hl Hw] Hop Ht Hc. split; simpl; try done.
  - exact (heap_ok_finish _ _ _ _ _ op b e Hop Ht Hc Hh).
  - intros j Hj. destruct (Hp j Hj) as (y & Hy & Hyt). exists y. rewrite lookup_delete_ne; [done|]. congruence.
  - intros j y [_ Hy]%lookup_delete_Some. by apply (Hl j).
Qed.
(** The driver completes an operation. *)
Lemma iocp_ok_complete t id op op' success n :
  iocp_ok [] t → id ∈ wm_pending (ic_mem t) → wm_heap (ic_mem t) !! id = Some op →
  wo_type op' = wo_type op → wo_send_cb op' = wo_send_cb op → wo_len op' = wo_len op → 0 ≤ n ≤ Z.of_nat MAX_PACKET_SIZE →
  iocp_ok [] (ic_set_mem t (wm_complete (wm_write (ic_mem t) id op') id success n)).
Proof.
  intros [Hh Hp Hq Hi Hl Hw] Hin Hop Ht Hcb Hlen Hn. split; simpl; try done.
  - eapply heap_ok_perm; [|eapply (heap_ok_write _ _ _ _ id op op' Hop); [simpl; by rewrite Ht|exact Hcb|exact Hh]].
    unfold io_flight, port_ids, held. simpl. rewrite bind_app. simpl.
    pose proof (ho_nodup _ _ _ _ Hh) as Hd. rewrite app_nil_l in Hd. apply NoDup_app in Hd as (Hd & _ & _).
    rewrite (remove_id_perm id (wm_pending (ic_mem t)) Hd Hin) at 1. solve_Permutation.
  - by eapply held_write.
  - apply Forall_app. split; [done|]. by apply Forall_singleton.
  - apply len_write; [done|]. rewrite Hlen. by apply (Hl id).
Qed.

Lemma alloc_io_ops_ok k m m' ids fl log :
  alloc_io_ops k m = (m', ids) →
  heap_ok (wm_heap m) (wm_next m) fl log →
  heap_ok (wm_heap m') (wm_next m') fl log ∧ NoDup ids ∧
  (∀ id, id ∈ ids → wm_heap m' !! id = Some (wo_new IO_RECV) ∧ (wm_next m ≤ id)%nat) ∧
  wm_pending m' = wm_pending m ∧ wm_port m' = wm_port m ∧
  (∀ id op, wm_heap m !! id = Some op → wm_heap m' !! id = Some op) ∧
  (∀ id op, wm_heap m' !! id = Some op → wm_heap m !! id = Some op ∨ op = wo_new IO_RECV) ∧
  length ids = k.
Proof.
  revert m m' ids. induction k as [|k IH]; intros m m' ids; cbn [alloc_io_ops wm_alloc].
  { intros [= <- <-] ?. split_and!; try done; [constructor|by intros id ?%elem_of_nil|by left]. }
  destruct (alloc_io_ops k _) as [m1 ids1] eqn:E. simpl. intros [= <- <-] Hok.
  destruct (IH _ _ _ E) as (Hok1 & Hd & Hids & Hp & Hc & Hk & Hb & Hl); [by apply heap_ok_alloc|]. simpl in *.
  split_and!; try done; [| | | |lia].
  - apply NoDup_cons. split; [|done]. intros [_ ?]%Hids. lia.
  - intros id [->|Hid]%elem_of_cons.
    + split; [|lia]. apply Hk. by rewrite lookup_insert_eq.
    + destruct (Hids id Hid). split; [done|lia].
  - intros id op Hid. apply Hk. by apply (heap_ok_fresh _ _ _ _ _ _ _ Hok).
  - intros id op [[[_ <-]|[_ ?]]%lookup_insert_Some|?]%Hb; auto.
Qed.
Lemma ic_start_ok t :
  iocp_ok [] t → ic_running t = true ∨ ic_workers t = [] → iocp_ok [] (ic_start t).
Proof.
  intros Hok Hor. unfold ic_start. destruct (ic_running t) eqn:Er; [done|].
  destruct Hor as [|Hws]; [done|]. destruct Hok as [Hh Hp Hq Hi Hl Hw]. destruct (Hi Hws) as [Hro Hst].
  rewrite Hro. change (foldr delete (wm_heap (ic_mem t)) []) with (wm_heap (ic_mem t)).
  destruct (alloc_io_ops _ _) as [m ids] eqn:Ea.
  destruct (alloc_io_ops_ok _ _ _ _ (io_flight t) _ Ea Hh) as (Hh' & Hd & Hids & Hpe & Hpo & _ & Hb & Hlen).
  simpl in *. rewrite Hws. simpl.
  assert (∀ n, replicate n WK_Top ≫= wk_ids = []) as Hrep
    by (intros n; induction n as [|n IHn]; [done|exact IHn]).
  split; simpl.
  - eapply heap_ok_perm; [|eapply (heap_ok_give _ _ _ _ ids Hd); [|exact Hh']].
    + unfold io_flight, held. simpl. rewrite Hpe, Hpo, Hst, Hws, Hrep. simpl. rewrite app_nil_r. solve_Permutation.
    + intros id Hid. destruct (Hids id Hid) as [-> Hge]. split; [done|].
      intros Hf%(ho_live _ _ _ _ Hh)%(ho_next _ _ _ _ Hh). lia.
  - unfold held. simpl. rewrite Hrep. intros id Hid. eexists. by destruct (Hids id Hid) as [-> _].
  - by rewrite Hpo.
  - intros E. apply (f_equal length) in E. rewrite length_replicate in E. simpl in E. lia.
  - intros id op [Hop| ->]%Hb; [by apply (Hl id)|done].
  - done.
Qed.
Lemma ic_async_send_ok t data cb accept error :
  iocp_ok [] t → error ≠ 0 → iocp_ok [] (ic_async_send t data cb accept error).
Proof.
  intros [Hh Hp Hq Hi Hl Hw] He. unfold ic_async_send. cbn [wm_alloc].
  set (op := io_send_op data cb). set (t1 := ic_note_sent _ _ _).
  assert (iocp_ok [wm_next (ic_mem t)] t1) as Hok.
  { split; simpl; try done.
    - exact (heap_ok_send _ _ _ _ op eq_refl Hh).
    - intros id Hid. destruct (Hp id Hid) as (y & Hy & Ht). exists y. split; [|done].
      by apply (heap_ok_fresh _ _ _ _ _ _ _ Hh).
    - apply len_write; [done|]. simpl. destruct (Nat.ltb_spec (length data) MAX_PACKET_SIZE); lia. }
  destruct (accept && _).
  - destruct Hok as [Hh1 Hp1 Hq1 Hi1 Hl1 Hw1]. split; try done. eapply heap_ok_perm; [|exact Hh1].
    unfold io_flight, held. simpl. solve_Permutation.
  - apply (iocp_ok_finish [] t1 _ op); [exact Hok|simpl; by rewrite lookup_insert_eq|done|by right].
Qed.
Lemma worker_dequeue_ok t i r :
  iocp_ok [] t → ic_workers t !! i = Some WK_Wait → worker_dequeue t i = Some r →
  ∃ t', r = Ok t' ∧ iocp_ok [] t'.
Proof.
  intros Hok Hi. unfold worker_dequeue. destruct (negb _); [done|].
  destruct (wm_port (ic_mem t)) as [|p rest] eqn:Ep; [done|]. intros [= <-].
  pose proof (ik_port _ _ Hok) as Hq. rewrite Ep in Hq. apply Forall_cons in Hq as [Hpk _].
  pose proof (iocp_ok_pop _ _ _ _ Hok Ep) as Hpop. set (t1 := ic_set_mem _ _) in *.
  assert (ic_workers t1 !! i = Some WK_Wait) as Hi1 by done.
  destruct p as [|success n id]; [eexists; split; [done|by eapply iocp_ok_worker]|].
  destruct (ho_live _ _ _ _ (ik_heap _ _ Hpop) id ltac:(by left)) as [op Hop].
  change (wm_heap (ic_mem t) !! id) with (wm_heap (ic_mem t1) !! id). rewrite Hop.
  eexists; split; [done|]. unfold handle_completion. destruct (wo_type op) eqn:Ht.
  - eapply (iocp_ok_take [] _ i WK_Wait id op); repeat case_match; try done;
      by (eapply iocp_ok_same; [exact Hpop|..]; try done; [by left|apply (ik_idle _ _ Hpop)]).
  - eapply iocp_ok_worker; [|repeat case_match; exact Hi1|done].
    eapply iocp_ok_finish; [|repeat case_match; exact Hop|done|].
    + repeat case_match; try done;
      by (eapply iocp_ok_same; [exact Hpop|..]; try done; [by left|apply (ik_idle _ _ Hpop)]).
    + simpl in Hpk. destruct success; [left|by right]. simpl. split; [|done].
      unfold signed, wrap. rewrite Z.mod_small by (unfold MAX_PACKET_SIZE in *; lia).
      case_match; unfold MAX_PACKET_SIZE in *; lia.
  - assert (iocp_ok [] t1) as Hk; [|by eapply iocp_ok_worker].
    destruct Hpop as [Hh Hp Hq Hidle Hl Hw]. split; try done.
    eapply heap_ok_keep; [exact Hop|simpl; congruence|exact Hh].
Qed.

Lemma ic_start_post_ok t accept :
  iocp_ok [] t → ∃ t', ic_start_post t accept = Ok t' ∧ iocp_ok [] t' ∧ ic_workers t' = ic_workers t.
Proof.
  intros Hok. unfold ic_start_post. destruct (ic_starting t) as [|id rest] eqn:Es; [by exists t|].
  destruct (ik_held _ _ Hok id) as (op & Hop & Ht); [unfold held; rewrite Es; apply elem_of_app; right; by left|].
  eapply (iocp_ok_post [] (ic_set_threads t (ic_running t) (ic_workers t) (ic_recv_ops t) rest) id op);
    [|exact Hop|exact Ht].
  assert (held t ≡ₚ id :: held (ic_set_threads t (ic_running t) (ic_workers t) (ic_recv_ops t) rest)) as Hheld
    by (unfold held; rewrite Es; simpl; solve_Permutation).
  eapply iocp_ok_same; [exact Hok|try done..].
  - intros j Hj. left. rewrite Hheld. by right.
  - intros Hn. destruct (ik_idle _ _ Hok Hn). congruence.
Qed.
Lemma worker_repost_ok t i id accept :
  iocp_ok [] t → ic_workers t !! i = Some (WK_Repost id) →
  ∃ t', worker_repost t i id accept = Ok t' ∧ iocp_ok [] t' ∧ ic_workers t' = <[i := WK_Top]> (ic_workers t).
Proof.
  intros Hok Hi. destruct (ik_held _ _ Hok id) as (op & Hop & Ht).
  { unfold held. apply elem_of_app. left. apply list_elem_of_bind. exists (WK_Repost id).
    split; [by left|by eapply list_elem_of_lookup_2]. }
  pose proof (iocp_ok_put _ _ _ _ WK_Top Hok Hi eq_refl) as Hput. unfold worker_repost.
  destruct (ic_running t); cbn [res_bind].
  - destruct (iocp_ok_post _ _ id op accept Hput Hop Ht) as (t' & E & Hok' & Ew). revert E.
    unfold post_recv_operation. simpl. rewrite Hop. intros [= <-]. eexists; split; [done|].
    cbn [res_bind]. split; [|by case_match]. revert Hok'. by case_match.
  - eexists; split; [done|]. split; [|done]. by eapply iocp_ok_drop.
Qed.
Lemma wm_write_id m id op : wm_heap m !! id = Some op → wm_write m id op = m.
Proof. intros E. unfold wm_write, wm_set_heap. rewrite insert_id by done. by destruct m. Qed.
Lemma port_ids_quits n : port_ids (replicate n PP_Quit) = [].
Proof. induction n as [|n IH]; [done|exact IH]. Qed.
Lemma ic_stop_begin_ok t : iocp_ok [] t → iocp_ok [] (ic_stop_begin t).
Proof.
  intros Hok. unfold ic_stop_begin. destruct (negb _); [done|].
  assert (iocp_ok [] (ic_set_threads t false (ic_workers t) (ic_recv_ops t) (ic_starting t))) as Hok1.
  { eapply iocp_ok_same; [exact Hok|try done..]; [by left|]. apply (ik_idle _ _ Hok). }
  destruct (has_port _); [|done]. destruct Hok1 as [Hh Hp Hq Hi Hl Hw]. split; simpl; try done.
  - eapply heap_ok_perm; [|exact Hh]. unfold io_flight, held, port_ids. simpl. rewrite bind_app.
    fold (port_ids (replicate (length (ic_workers t)) PP_Quit)). by rewrite port_ids_quits, app_nil_r.
  - apply Forall_app. split; [done|]. by apply Forall_replicate.
Qed.
Lemma iocp_step_ok t r : iocp_ok [] t → iocp_step t r → ∃ t', r = Ok t' ∧ iocp_ok [] t'.
Proof.
  intros Hok Hstep. pose proof (ik_idle _ _ Hok) as Hidle.
  assert (∀ t', ic_mem t' = ic_mem t → ic_workers t' = ic_workers t → ic_starting t' = ic_starting t →
    ic_recv_ops t' = ic_recv_ops t → ic_log t' = ic_log t →
    ic_num_workers t' = ic_num_workers t → ∃ t0, Ok t' = Ok t0 ∧ iocp_ok [] t0) as Hsame.
  { intros t' Em Ew Est Ero Elg En. exists t'. split; [done|].
    assert (held t' = held t) as Eh by (unfold held; by rewrite Ew, Est).
    eapply iocp_ok_same; [exact Hok|done|by rewrite Eh|rewrite Eh; intros ? ?; by left|done..|by rewrite Ew, Est, Ero]. }
  destruct Hstep as [t s local t' s' ok _ E|t b|t data cb accept error He|t s data remote t' s' r E|t Hor|t accept
    |t Hst|t i Hi|t i Hi|t i r Hi E|t i id accept Hi|t id data from Hin Hty|t id success n Hin Hn Hty].
  - unfold ic_bind in E. repeat case_match; simplify_eq; by apply Hsame.
  - by apply Hsame.
  - eexists; split; [done|by apply ic_async_send_ok].
  - unfold ic_send_to in E. repeat case_match; simplify_eq; by apply Hsame.
  - eexists; split; [done|by apply ic_start_ok].
  - destruct (ic_start_post_ok t accept Hok) as (t' & -> & ? & _). by exists t'.
  - eexists; split; [done|by apply ic_stop_begin_ok].
  - eexists; split; [done|]. eapply iocp_ok_worker; [done|exact Hi|]. by destruct (ic_running t).
  - eexists; split; [done|]. by eapply iocp_ok_worker.
  - by eapply worker_dequeue_ok.
  - destruct (worker_repost_ok t i id accept Hok Hi) as (t' & -> & ? & _). by exists t'.
  - destruct (ho_live _ _ _ _ (ik_heap _ _ Hok) id) as [op Hop]; [simpl; apply elem_of_app; by left|].
    unfold driver_recv. rewrite Hop. eexists; split; [done|]. eapply iocp_ok_complete; try done.
    pose proof (ik_len _ _ Hok id op Hop). lia.
  - destruct (ho_live _ _ _ _ (ik_heap _ _ Hok) id) as [op Hop]; [simpl; apply elem_of_app; by left|].
    unfold driver_result. rewrite Hop. eexists; split; [done|].
    pose proof (iocp_ok_complete t id op op success n Hok Hin Hop eq_refl eq_refl eq_refl Hn) as Hc.
    by rewrite wm_write_id in Hc.
Qed.
Lemma iocp_run_ok num_workers r : iocp_run num_workers r → ∃ t, r = Ok t ∧ iocp_ok [] t.
Proof.
  induction 1 as [|t r _ (t' & [= <-] & Hok) Hstep]; [|by eapply iocp_step_ok].
  eexists; split; [done|]. split; simpl; try done.
  - apply heap_ok_new.
  - by intros id ?%elem_of_nil.
  - destruct (Nat.ltb_spec num_workers 1); lia.
Qed.

(** C28: In every interleaving of the users, the workers and the driver, up to the return
    of the first [stop], no deleted operation is touched by anyone: what the driver
    holds, what waits in the completion port, what a worker works on and what [start] has
    still to post are different live objects.  A send is either still on its way (its
    operation is alive, with the driver or in the port) or over, and then it ended exactly
    once, with a byte count of at most a packet and 0, or with -1 and an error.  The
    callbacks made are those of the ended sends that were given one, each once and with
    these codes. *)
Theorem iocp_sends_once (num_workers : nat) (r : res IocpTransport) :
  iocp_run num_workers r →
  ∃ t, r = Ok t ∧ NoDup (io_flight t) ∧
    (∀ id, id ∈ io_flight t → is_Some (wm_heap (ic_mem t) !! id)) ∧
    NoDup (called_ids (ic_ended t)) ∧ Forall io_code_ok (ic_ended t) ∧
    (∀ id, id ∈ ic_sent t ↔
      id ∈ called_ids (ic_ended t) ∨
      ∃ op, wm_heap (ic_mem t) !! id = Some op ∧ wo_type op = IO_SEND) ∧
    (∀ id op, wm_heap (ic_mem t) !! id = Some op → wo_type op = IO_SEND →
      id ∉ called_ids (ic_ended t) ∧ id ∈ wm_pending (ic_mem t) ++ port_ids (wm_port (ic_mem t))) ∧
    (∀ id op, wm_heap (ic_mem t) !! id = Some op → wo_type op = IO_SEND → (wo_send_cb op = true ↔ id ∈ ic_asked t)) ∧
    ic_called t = filter (λ c, c.1.1 ∈ ic_asked t) (ic_ended t).
Proof.
  intros Hrun. destruct (iocp_run_ok _ _ Hrun) as (t & -> & [Hh Hp _ _ _ _]). rewrite app_nil_l in Hh.
  exists t. pose proof (λ id, heap_ok_sent_iff _ _ _ _ id Hh) as Hiff.
  destruct Hh as [? Hd Hl Hs _ [? Hc] ? [? Hcb] ?]. split_and!; try done.
  intros id op Hop Ht. split; [intros [_ ?]%Hc; congruence|]. destruct (Hs id op Hop Ht) as [Hin _].
  unfold io_flight in Hin. rewrite app_assoc in Hin. apply elem_of_app in Hin as [?|Hin]; [done|].
  destruct (Hp id Hin) as (? & ? & ?). congruence.
Qed.

(** ** stop returns *)
Definition wk_rank (pc : WorkerPc) : nat :=
  match pc with WK_Done => 0 | WK_Top => 1 | WK_Repost _ => 2 | WK_Wait => 3 end.
Definition work t : nat := sum_list (wk_rank <$> ic_workers t).
Lemma sum_list_insert (ws : list WorkerPc) i old pc :
  ws !! i = Some old →
  (sum_list (wk_rank <$> <[i := pc]> ws) + wk_rank old = sum_list (wk_rank <$> ws) + wk_rank pc)%nat.
Proof.
  revert i. induction ws as [|w ws IH]; intros [|i] Hi; simplify_eq/=; [lia|]. specialize (IH i Hi). lia.
Qed.
Lemma work_set_worker t i old pc :
  ic_workers t !! i = Some old → (wk_rank pc < wk_rank old)%nat → (work (ic_set_worker t i pc) < work t)%nat.
Proof. intros Hi Hlt. unfold work. simpl. pose proof (sum_list_insert _ _ _ pc Hi). lia. Qed.
Lemma worker_dequeue_work t i t' :
  ic_workers t !! i = Some WK_Wait → worker_dequeue t i = Some (Ok t') →
  (work t' < work t)%nat ∧ ic_running t' = ic_running t.
Proof.
  intros Hi. unfold worker_dequeue. destruct (negb _); [done|].
  destruct (wm_port (ic_mem t)) as [|p rest]; [done|]. intros [= E].
  assert (∀ t1 pc, ic_workers t1 = ic_workers t → ic_running t1 = ic_running t → (wk_rank pc < 3)%nat →
    (work (ic_set_worker t1 i pc) < work t)%nat ∧ ic_running (ic_set_worker t1 i pc) = ic_running t) as Hset.
  { intros t1 pc Ew Er Hpc. split; [|done]. assert (work t1 = work t) as <- by (unfold work; by rewrite Ew).
    apply (work_set_worker _ _ WK_Wait); [by rewrite Ew|done]. }
  destruct p as [|success n id]; [simplify_eq; apply Hset; simpl; done || lia|].
  simpl in E. destruct (wm_heap _ !! id) as [op|]; [|done]. simplify_eq.
  unfold handle_completion. destruct (wo_type op); apply Hset; repeat case_match; simpl; done || lia.
Qed.
(** Once [stop] has cleared the flag. *)
Definition stopping t : Prop := ic_running t = false ∧ ic_workers t ≠ [].
Lemma post_recv_operation_threads t id accept t' :
  post_recv_operation t id accept = Ok t' → ic_workers t' = ic_workers t ∧ ic_running t' = ic_running t.
Proof. unfold post_recv_operation. by case_match; intros [= <-]. Qed.
Lemma stopping_step t t' :
  stopping t → iocp_step t (Ok t') →
  ic_running t' = false ∧
  ((work t' < work t)%nat ∧ length (ic_workers t') = length (ic_workers t) ∨ ic_workers t' = ic_workers t).
Proof.
  intros [Hr Hne] Hstep. remember (Ok t') as r eqn:Er.
  assert (∀ i old pc, ic_workers t !! i = Some old → (wk_rank pc < wk_rank old)%nat →
    ∀ t1, ic_workers t1 = <[i := pc]> (ic_workers t) →
    (work t1 < work t)%nat ∧ length (ic_workers t1) = length (ic_workers t)) as Hset.
  { intros i old pc Hi Hlt t1 Ew. split; [|by rewrite Ew, length_insert].
    pose proof (work_set_worker t i old pc Hi Hlt) as Hw. unfold work in *. simpl in Hw. by rewrite Ew. }
  destruct Hstep as [t s local t1 s' ok _ E|t b|t data cb accept error He|t s data remote t1 s' r E|t Hor|t accept
    |t Hst|t i Hi|t i Hi|t i r Hi E|t i id accept Hi|t id data from Hin Hty|t id success n Hin Hn Hty].
  - injection Er as <-. unfold ic_bind in E. repeat case_match; simplify_eq; auto.
  - injection Er as <-. auto.
  - injection Er as <-. unfold ic_async_send. simpl. case_match; auto.
  - injection Er as <-. unfold ic_send_to in E. repeat case_match; simplify_eq; auto.
  - destruct Hor; congruence.
  - unfold ic_start_post in Er. destruct (ic_starting t); [injection Er as <-; auto|].
    apply post_recv_operation_threads in Er as [-> ->]. auto.
  - injection Er as <-. unfold ic_stop_begin. rewrite Hr. auto.
  - injection Er as <-. split; [done|]. left. unfold worker_top. rewrite Hr.
    apply (Hset i WK_Top WK_Done); [done|simpl; lia|done].
  - injection Er as <-. split; [done|]. left. apply (Hset i WK_Wait WK_Top); [done|simpl; lia|done].
  - subst r. pose proof (worker_dequeue_work _ _ _ Hi E) as [Hw ->]. split; [done|]. left. split; [done|].
    revert E. unfold worker_dequeue. destruct (negb _); [done|].
    destruct (wm_port (ic_mem t)) as [|[|success n id] rest]; [done|intros [= <-]; apply length_insert|].
    simpl. destruct (_ !! id) as [op|]; [|done]. intros [= <-]. unfold handle_completion.
    repeat case_match; apply length_insert.
  - unfold worker_repost in Er. rewrite Hr in Er. cbn [res_bind] in Er. injection Er as <-. split; [done|]. left.
    apply (Hset i (WK_Repost id) WK_Top); [done|simpl; lia|done].
  - unfold driver_recv in Er. destruct (_ !! id); [|done]. injection Er as <-. auto.
  - unfold driver_result in Er. destruct (_ !! id); [|done]. injection Er as <-. auto.
Qed.
(** C29: [stop] returns.  Once it has cleared the flag, in every interleaving, every step
    of a worker brings the workers strictly nearer to their end and no step of anyone
    else (sends, completions, packets in the port) takes them back; each worker has at
    most three steps left.  While a worker has not returned one can move, whatever the
    port holds and whether or not the kernel completes anything; when none can move they
    have all returned, which is what the joins wait for. *)
Theorem iocp_stop_terminates (num_workers : nat) (t : IocpTransport) :
  iocp_run num_workers (Ok t) → stopping t →
  (work t ≤ 3 * length (ic_workers t))%nat ∧
  (∀ r, iocp_step t r → ∃ t', r = Ok t' ∧ stopping t' ∧
     ((work t' < work t)%nat ∨ ic_workers t' = ic_workers t)) ∧
  ((0 < work t)%nat → ∃ t', iocp_step t (Ok t') ∧ (work t' < work t)%nat) ∧
  (work t = 0%nat ↔ Forall (λ pc, pc = WK_Done) (ic_workers t)).
Proof.
  intros Hrun Hst. destruct (iocp_run_ok _ _ Hrun) as (t0 & [= <-] & Hok).
  assert (work t = 0%nat ↔ Forall (λ pc, pc = WK_Done) (ic_workers t)) as Hdone.
  { unfold work. clear. induction (ic_workers t) as [|pc ws IH]; [by split|]. rewrite Forall_cons, <-IH.
    change (sum_list (wk_rank <$> pc :: ws)) with (wk_rank pc + sum_list (wk_rank <$> ws))%nat.
    split; [|intros [-> E]; exact E]. intros E. split; [|lia]. destruct pc; simpl in E; (done || lia). }
  split_and!; [|intros r Hstep|intros Hpos|exact Hdone].
  - unfold work. clear. induction (ic_workers t) as [|pc ws IH]; [simpl; lia|].
    change (sum_list (wk_rank <$> pc :: ws)) with (wk_rank pc + sum_list (wk_rank <$> ws))%nat.
    destruct pc; simpl in *; lia.
  - destruct (iocp_step_ok t r Hok Hstep) as (t' & -> & _). exists t'. split; [done|].
    destruct (stopping_step t t' Hst Hstep) as [Hr Hw]. unfold stopping. destruct Hst as [_ Hne].
    split; [split; [done|]|by destruct Hw as [[? _]|?]; auto].
    destruct Hw as [[_ El]| ->]; [|done]. intros E. rewrite E in El. by destruct (ic_workers t).
  - assert (¬ Forall (λ pc, pc = WK_Done) (ic_workers t)) as Hn by (rewrite <-Hdone; lia).
    apply not_Forall_Exists in Hn; [|intros ?; apply _]. apply Exists_exists in Hn as (pc & Hin & Hpc).
    apply list_elem_of_lookup in Hin as [i Hi]. destruct Hst as [Hr _]. destruct pc as [| |id|]; [..|by destruct Hpc].
    + eexists. split; [by apply is_top|]. unfold worker_top. rewrite Hr. eapply work_set_worker; [exact Hi|simpl; lia].
    + eexists. split; [by apply is_timeout|]. eapply work_set_worker; [exact Hi|simpl; lia].
    + destruct (worker_repost_ok t i id true Hok Hi) as (t' & E & _ & _). exists t'.
      split; [rewrite <-E; by apply is_repost|]. unfold worker_repost in E. rewrite Hr in E.
      injection E as <-. eapply work_set_worker; [exact Hi|simpl; lia].
Qed.
End Iocp.

(** ** Runs *)
Module IocpRun.
Import UdpRun.
#[local] Existing Instance toy_inet.
(** The operating system of the UDP examples with ports; making one may fail. *)
Record WinOs := { win_os : ToyOs; win_ports : gset Z; win_port_fails : bool }.
Definition lift {A} (w : WinOs) (p : ToyOs * A) : WinOs * A :=
  ({| win_os := p.1; win_ports := win_ports w; win_port_fails := win_port_fails w |}, p.2).
#[local] Instance win_sockets : Sockets.
Proof.
  refine {|
    os := WinOs;
    sys_socket w := lift w (sys_socket (Sockets := toy_sockets) (win_os w));
    sys_bind w fd a := lift w (sys_bind (Sockets := toy_sockets) (win_os w) fd a);
    sys_close w fd := (lift w (sys_close (Sockets := toy_sockets) (win_os w) fd, tt)).1;
    sys_reuseaddr w fd := (lift w (sys_reuseaddr (Sockets := toy_sockets) (win_os w) fd, tt)).1;
    sys_rcvtimeo w fd tv := lift w (sys_rcvtimeo (Sockets := toy_sockets) (win_os w) fd tv);
    sys_poll w fd := lift w (sys_poll (Sockets := toy_sockets) (win_os w) fd);
    sys_sendto w fd data a := lift w (sys_sendto (Sockets := toy_sockets) (win_os w) fd data a);
    sys_recvfrom w fd n := lift w (sys_recvfrom (Sockets := toy_sockets) (win_os w) fd n);
    open_fds w := open_fds (Sockets := toy_sockets) (win_os w) |}.
  all: intros w *.
  - intros [= <- <-]. by apply (socket_spec (Sockets := toy_sockets) (win_os w)), surjective_pairing.
  - apply (close_fds (Sockets := toy_sockets)).
  - apply (bind_fds (Sockets := toy_sockets)).
  - apply (reuseaddr_fds (Sockets := toy_sockets)).
  - apply (rcvtimeo_fds (Sockets := toy_sockets)).
  - apply (poll_fds (Sockets := toy_sockets)).
  - apply (sendto_fds (Sockets := toy_sockets)).
  - apply (sendto_result (Sockets := toy_sockets)).
  - apply (recvfrom_fds (Sockets := toy_sockets)).
  - unfold lift. destruct (sys_recvfrom _ _ _) as [s1 [[r1 data1] a1]] eqn:E. intros [= <- <- <- <-].
    by apply (recvfrom_spec (Sockets := toy_sockets) _ _ _ _ _ _ _ E).
Defined.
Definition with_port (w : WinOs) : WinOs * Z :=
  ({| win_os := win_os w; win_ports := win_ports w ∪ {[toy_fd (win_ports w)]};
      win_port_fails := win_port_fails w |}, toy_fd (win_ports w)).
#[local, refine] Instance win_completion_ports : CompletionPorts := {|
  sys_create_port w n := if win_port_fails w then (w, NULL_HANDLE) else with_port w;
  sys_associate w fd p := if p =? NULL_HANDLE then with_port w else (w, p);
  sys_close_handle w h := {| win_os := win_os w; win_ports := win_ports w ∖ {[h]};
                             win_port_fails := win_port_fails w |};
  open_ports w := win_ports w ∖ {[NULL_HANDLE]} |}.
Proof.
  all: intros w *; try done; unfold NULL_HANDLE, with_port; simpl.
  all: assert (0 < toy_fd (win_ports w) ∧ toy_fd (win_ports w) ∉ win_ports w) as [Hpos Hn]
    by (split; [unfold toy_fd; induction (elements (win_ports w)); simpl in *; lia|apply toy_fd_fresh]).
  - intros _ s' h. destruct (win_port_fails w); intros [= <- <-]; (split; [done|]); [by left|right]. simpl.
    split_and!; [done|set_solver|]. apply set_eq. intros z. rewrite !elem_of_difference, !elem_of_union, !elem_of_difference.
    rewrite !elem_of_singleton. destruct (decide (z = toy_fd (win_ports w))) as [->|]; naive_solver lia.
  - intros _ p s' h. destruct (Z.eqb_spec p 0) as [->|]; intros [= <- <-]; (split; [done|]); [|done]. intros [?|E]; [done|lia].
  - split; [done|]. set_solver.
  - set_solver.
Defined.

Definition win_boot (port_fails : bool) : WinOs :=
  {| win_os := boot; win_ports := ∅; win_port_fails := port_fails |}.
Definition or_new (r : res IocpTransport) : IocpTransport := match r with Ok t => t | _ => ic_new 1 end.
Definition bound : IocpTransport := (ic_bind (ic_new 1) (win_boot false) here).1.1.
Definition started : IocpTransport := or_new (ic_start_post (ic_start bound) true).
(** The worker waits; one send is on its way, is completed and handled. *)
Definition sending : IocpTransport := ic_async_send (worker_top started 0) [7; 8] true true 1.
Definition completed : IocpTransport :=
  ic_set_mem sending match driver_result (ic_mem sending) 1 true 2 with Ok m => m | _ => ic_mem sending end.
Definition handled : IocpTransport := or_new (default Oob (worker_dequeue completed 0)).
Lemma iocp_started_run : iocp_run 1 (Ok started).
Proof.
  apply (ir_step _ (ic_start bound)); [|by apply (is_start_post (ic_start bound) true)].
  apply (ir_step _ bound); [|apply is_start; by right].
  eapply ir_step; [apply ir_new|]. by eapply (@is_bind win_sockets win_completion_ports toy_inet (ic_new 1) (win_boot false) here).
Qed.
Lemma iocp_handled_run : iocp_run 1 (Ok handled).
Proof.
  apply (ir_step _ completed); [|by apply (is_dequeue completed 0)].
  apply (ir_step _ sending).
  - apply (ir_step _ (worker_top started 0)); [|by apply is_send].
    eapply ir_step; [apply iocp_started_run|]. by apply is_top.
  - apply (is_driver_result sending 1 true 2); [by_decide|split; vm_compute; discriminate|]. by intros op [= <-].
Qed.
Lemma iocp_sends_once_witness :
  ic_ended handled = [(1%nat, 2, 0)] ∧ NoDup (called_ids (ic_ended handled)) ∧
  us_bytes_sent (ic_stats handled) = 2.
Proof.
  destruct (iocp_sends_once 1 (Ok handled) iocp_handled_run) as (t & [= <-] & _ & _ & Hd & _).
  split_and!; [reflexivity|exact Hd|reflexivity].
Defined.
(** [stop] while the worker waits. *)
Definition stopped : IocpTransport := ic_stop_begin (worker_top started 0).
Lemma iocp_stopped_run : iocp_run 1 (Ok stopped).
Proof.
  eapply ir_step; [|by apply is_stop]. eapply ir_step; [apply iocp_started_run|]. by apply is_top.
Qed.
Lemma iocp_stop_terminates_witness :
  stopping stopped ∧ work stopped = 3%nat ∧ ∃ t', iocp_step stopped (Ok t') ∧ (work t' < work stopped)%nat.
Proof.
  assert (stopping stopped) as Hst by (split; [reflexivity|discriminate]).
  destruct (iocp_stop_terminates 1 stopped iocp_stopped_run Hst) as (_ & _ & Hmove & _).
  split_and!; [exact Hst|reflexivity|]. apply Hmove. vm_compute. lia.
Defined.

(** [stop] deletes the receives while the driver still holds them: the next datagram, or
    the cancellation when [close] closes the socket, is written to freed memory. *)
Definition returned : IocpTransport := worker_top (worker_timeout stopped 0) 0.
Example iocp_stop_dangles :
  let t := ic_stop_end returned in
  iocp_run 1 (Ok returned) ∧ ic_workers returned = [WK_Done] ∧ wm_pending (ic_mem t) = [0%nat] ∧
  driver_recv (ic_mem t) 0 [1] zero_addr = Oob ∧ driver_result (ic_mem t) 0 false 0 = Oob.
Proof.
  split_and!; try reflexivity. eapply ir_step; [|by apply is_top].
  eapply ir_step; [apply iocp_stopped_run|]. by apply is_timeout.
Qed.
(** A worker that returns because of the flag leaves its quit packet in the port.  After
    another [start] a new worker takes it and returns at once: the transport runs
    without a worker. *)
Definition restarted : IocpTransport := worker_top (ic_start (ic_stop_end returned)) 0.
Definition threads_of (r : res IocpTransport) : res (bool * list WorkerPc) :=
  let! t := r in Ok (ic_running t, ic_workers t).
Example iocp_restart_loses_worker :
  threads_of (Ok restarted) = Ok (true, [WK_Wait]) ∧
  (threads_of <$> worker_dequeue restarted 0) = Some (Ok (true, [WK_Done])).
Proof. split; vm_compute; reflexivity. Qed.
(** A port that could not be made: [bind] succeeds, with a port nobody closes, and no
    completion ever reaches a worker. *)
Definition portless : IocpTransport * WinOs * bool := ic_bind (ic_new 1) (win_boot true) here.
Example iocp_null_port :
  portless.2 = true ∧ ic_iocp portless.1.1 = NULL_HANDLE ∧
  win_ports (ic_close portless.1.1 portless.1.2).2 = {[1]} ∧
  ∀ t i, ic_iocp t = NULL_HANDLE → worker_dequeue t i = None.
Proof.
  split_and!; [reflexivity..|]. intros t i E. unfold worker_dequeue, has_port. by rewrite E.
Qed.
(** A datagram longer than a packet is not handed over, and not counted. *)
Example iocp_long_datagram :
  let m := match driver_recv (ic_mem started) 0 (replicate 1453 7) zero_addr with Ok m => m | _ => ic_mem started end in
  wm_port m = [PP_Op false 1452 0].
Proof. reflexivity. Qed.
End IocpRun.
