(* ===== verification/Dtls.v ===== *)
(** * The DTLS transport

    Models [include/protocoll/transport/dtls_transport.h] and
    [src/transport/dtls_transport.cpp]: a transport that wraps another one and
    hands every record to mbedTLS, which reads and writes the wrapped transport
    through three callbacks.  mbedTLS is third-party code: the class [MbedTls] has
    one operation per function the source calls, each a function of the context and
    of the state behind the callbacks.  Its laws are a contract: if the callbacks
    keep to what [mbedtls_ssl_set_bio] documents, mbedTLS touches the other side
    only through them, and a read delivers at most the bytes asked for.  The
    callbacks of this file are proved to keep their part of it.

    The readings of the steady clock are an argument of [handshake]: reading 0 is
    the start, reading [S i] follows attempt [i], in nanoseconds. *)
From S2P Require Import Prelude Transport.

(** ** What mbedTLS sees of the program: the callbacks *)

(** A receive callback returns its result and the bytes it wrote to the buffer. *)
Record Bio (W : Type) := {
  cb_send : W → bytes → W * Z;
  cb_recv : W → nat → W * (Z * bytes);
  cb_recv_timeout : W → nat → Z → W * (Z * bytes) }.
Arguments cb_send {W}.
Arguments cb_recv {W}.
Arguments cb_recv_timeout {W}.

(** A positive result counts the bytes written, at most the length of the buffer. *)
Definition read_result_ok (n : nat) (r : Z * bytes) : Prop :=
  0 < r.1 → Z.of_nat (length r.2) = r.1 ∧ (length r.2 ≤ n)%nat ∧ wf_bytes r.2.
(** The callbacks keep [P] and the contract of a read. *)
Record bio_keeps {W} (b : Bio W) (P : W → Prop) : Prop := {
  keep_send : ∀ w data, P w → P (cb_send b w data).1;
  keep_recv : ∀ w n, P w → P (cb_recv b w n).1 ∧ read_result_ok n (cb_recv b w n).2;
  keep_recv_timeout : ∀ w n timeout, P w →
    P (cb_recv_timeout b w n timeout).1 ∧ read_result_ok n (cb_recv_timeout b w n timeout).2 }.

(** ** mbedTLS *)
Inductive AuthMode := VERIFY_NONE | VERIFY_REQUIRED.
Inductive CertSlot := OwnCert | CaCert.

(** The argument of [mbedtls_init] is what the entropy source and the timer of the
    new context will produce. *)
Class MbedTls := {
  mctx : Type;
  WANT_READ : Z; WANT_WRITE : Z; SSL_TIMEOUT : Z;
  mbedtls_init : nat → mctx;
  mbedtls_ctr_drbg_seed : mctx → bytes → mctx * Z;
  mbedtls_ssl_config_defaults : mctx → bool → mctx * Z;
  mbedtls_ssl_conf_rng : mctx → mctx;
  mbedtls_x509_crt_parse : CertSlot → mctx → bytes → mctx * Z;
  mbedtls_pk_parse_key : mctx → bytes → mctx * Z;
  mbedtls_ssl_conf_own_cert : mctx → mctx * Z;
  mbedtls_ssl_conf_ca_chain : mctx → mctx;
  mbedtls_ssl_conf_authmode : AuthMode → mctx → mctx;
  mbedtls_ssl_cookie_setup : mctx → mctx * Z;
  mbedtls_ssl_conf_dtls_cookies : mctx → mctx;
  mbedtls_ssl_setup : mctx → mctx * Z;
  mbedtls_ssl_set_timer_cb : mctx → mctx;
  mbedtls_ssl_set_bio : mctx → mctx;
  mbedtls_ssl_handshake : ∀ W, Bio W → mctx → W → mctx * W * Z;
  mbedtls_ssl_write : ∀ W, Bio W → mctx → W → bytes → mctx * W * Z;
  mbedtls_ssl_read : ∀ W, Bio W → mctx → W → nat → mctx * W * (Z * bytes);
  mbedtls_ssl_close_notify : ∀ W, Bio W → mctx → W → mctx * W * Z;
  mbedtls_ssl_get_version : mctx → bytes;
  mbedtls_ssl_get_ciphersuite : mctx → bytes;
  (* error codes are negative *)
  err_negative : WANT_READ < 0 ∧ WANT_WRITE < 0 ∧ SSL_TIMEOUT < 0;
  (* the other side is reached through the callbacks only *)
  handshake_io : ∀ W (b : Bio W) (P : W → Prop) c w, bio_keeps b P → P w →
    P (mbedtls_ssl_handshake W b c w).1.2;
  write_io : ∀ W (b : Bio W) (P : W → Prop) c w data, bio_keeps b P → P w →
    P (mbedtls_ssl_write W b c w data).1.2;
  read_io : ∀ W (b : Bio W) (P : W → Prop) c w n, bio_keeps b P → P w →
    P (mbedtls_ssl_read W b c w n).1.2;
  close_io : ∀ W (b : Bio W) (P : W → Prop) c w, bio_keeps b P → P w →
    P (mbedtls_ssl_close_notify W b c w).1.2;
  (* the result of a write and of a read *)
  write_result : ∀ W (b : Bio W) c w data,
    (mbedtls_ssl_write W b c w data).2 ≤ Z.of_nat (length data);
  read_result : ∀ W (b : Bio W) (P : W → Prop) c w n, bio_keeps b P → P w →
    read_result_ok n (mbedtls_ssl_read W b c w n).2 }.
Arguments mbedtls_ssl_handshake {_ W}.
Arguments mbedtls_ssl_write {_ W}.
Arguments mbedtls_ssl_read {_ W}.
Arguments mbedtls_ssl_close_notify {_ W}.

(** ** The state of the transport *)
Record DtlsConfig := {
  dc_is_server : bool; dc_cert_pem : bytes; dc_key_pem : bytes; dc_ca_pem : bytes;
  dc_verify_peer : bool; dc_handshake_timeout_ms : Z; dc_min_retransmit_ms : Z;
  dc_max_retransmit_ms : Z }.
Definition DtlsConfig_default : DtlsConfig :=
  {| dc_is_server := false; dc_cert_pem := []; dc_key_pem := []; dc_ca_pem := [];
     dc_verify_peer := false; dc_handshake_timeout_ms := 5000; dc_min_retransmit_ms := 1000;
     dc_max_retransmit_ms := 60000 |}.
Inductive DtlsState := DS_IDLE | DS_HANDSHAKING | DS_CONNECTED | DS_CLOSED | DS_ERROR.
#[global] Instance DtlsState_eq_dec : EqDecision DtlsState.
Proof. solve_decision. Defined.

Record DtlsTransport `{MbedTls} (T : Type) := mkDtls {
  dt_inner : T; dt_config : DtlsConfig; dt_state : DtlsState; dt_remote_ep : Endpoint;
  dt_bytes_encrypted : Z; dt_bytes_decrypted : Z; dt_ctx : option mctx }.
Arguments mkDtls {_ T}.
Arguments dt_inner {_ T}.
Arguments dt_config {_ T}.
Arguments dt_state {_ T}.
Arguments dt_remote_ep {_ T}.
Arguments dt_bytes_encrypted {_ T}.
Arguments dt_bytes_decrypted {_ T}.
Arguments dt_ctx {_ T}.

Section Dtls.
Context `{MbedTls} {T : Type} `{!Transport T} `{!Bindable T} `{!Closable T}.
Implicit Types d : DtlsTransport T.

Definition dt_new (inner : T) (config : DtlsConfig) : DtlsTransport T :=
  mkDtls inner config DS_IDLE Endpoint_default 0 0 None.
Definition dt_set_state d (s : DtlsState) : DtlsTransport T :=
  mkDtls (dt_inner d) (dt_config d) s (dt_remote_ep d) (dt_bytes_encrypted d)
    (dt_bytes_decrypted d) (dt_ctx d).
Definition dt_set_inner d (t : T) : DtlsTransport T :=
  mkDtls t (dt_config d) (dt_state d) (dt_remote_ep d) (dt_bytes_encrypted d)
    (dt_bytes_decrypted d) (dt_ctx d).
Definition dt_set_io d (c : option mctx) (t : T) : DtlsTransport T :=
  mkDtls t (dt_config d) (dt_state d) (dt_remote_ep d) (dt_bytes_encrypted d)
    (dt_bytes_decrypted d) c.
Definition dt_set_remote d (ep : Endpoint) : DtlsTransport T :=
  mkDtls (dt_inner d) (dt_config d) (dt_state d) ep (dt_bytes_encrypted d)
    (dt_bytes_decrypted d) (dt_ctx d).
Definition dt_count_encrypted d (ret : Z) : DtlsTransport T :=
  mkDtls (dt_inner d) (dt_config d) (dt_state d) (dt_remote_ep d)
    (u64 (dt_bytes_encrypted d + u64 ret)) (dt_bytes_decrypted d) (dt_ctx d).
Definition dt_count_decrypted d (ret : Z) : DtlsTransport T :=
  mkDtls (dt_inner d) (dt_config d) (dt_state d) (dt_remote_ep d)
    (dt_bytes_encrypted d) (u64 (dt_bytes_decrypted d + u64 ret)) (dt_ctx d).

(** ** The callbacks *)
Definition bio_send (remote_ep : Endpoint) (t : T) (buf : bytes) : T * Z :=
  let '(t, ret) := t_send_to t buf remote_ep in
  (t, if ret <? 0 then WANT_WRITE else ret).
(** Nothing received and an empty datagram both end in the error code. *)
Definition bio_result (code : Z) (r : option (bytes * Endpoint)) : Z * bytes :=
  match r with
  | None => (code, [])
  | Some (data, _) =>
      if (length data =? 0)%nat then (code, data) else (Z.of_nat (length data), data)
  end.
Definition bio_recv (t : T) (len : nat) : T * (Z * bytes) :=
  let '(t, r) := t_recv_from t len 0 in (t, bio_result WANT_READ r).
Definition bio_recv_timeout (t : T) (len : nat) (timeout : Z) : T * (Z * bytes) :=
  let '(t, r) := t_recv_from t len (i32 timeout) in (t, bio_result SSL_TIMEOUT r).
Definition dt_bio (remote_ep : Endpoint) : Bio T :=
  {| cb_send := bio_send remote_ep; cb_recv := bio_recv; cb_recv_timeout := bio_recv_timeout |}.

(** ** setup_context: steps on the new context, the first failing one returns false *)
Definition SetupStep : Type := mctx → mctx * bool.
Definition must (f : mctx → mctx * Z) : SetupStep := λ c, let '(c, ret) := f c in (c, ret =? 0).
Definition always (f : mctx → mctx) : SetupStep := λ c, (f c, true).
Definition when (b : bool) (m : SetupStep) : SetupStep := λ c, if b then m c else (c, true).
Definition and_then (m k : SetupStep) : SetupStep :=
  λ c, let '(c, ok) := m c in if ok then k c else (c, false).
Definition nonempty (s : bytes) : bool := negb (length s =? 0)%nat.
(** [c_str()] with [size() + 1]: the string and its terminator. *)
Definition c_str (s : bytes) : bytes := s ++ [0].
(** ["protocoll_dtls"] *)
Definition pers : bytes := [112; 114; 111; 116; 111; 99; 111; 108; 108; 95; 100; 116; 108; 115].

Definition setup_steps (cfg : DtlsConfig) : SetupStep :=
  foldr and_then (always id)
    [ must (λ c, mbedtls_ctr_drbg_seed c pers);
      must (λ c, mbedtls_ssl_config_defaults c (dc_is_server cfg));
      always mbedtls_ssl_conf_rng;
      when (nonempty (dc_cert_pem cfg))
        (must (λ c, mbedtls_x509_crt_parse OwnCert c (c_str (dc_cert_pem cfg))));
      when (nonempty (dc_key_pem cfg))
        (must (λ c, mbedtls_pk_parse_key c (c_str (dc_key_pem cfg))));
      when (nonempty (dc_cert_pem cfg) && nonempty (dc_key_pem cfg)) (must mbedtls_ssl_conf_own_cert);
      when (nonempty (dc_ca_pem cfg))
        (and_then (must (λ c, mbedtls_x509_crt_parse CaCert c (c_str (dc_ca_pem cfg))))
                  (always mbedtls_ssl_conf_ca_chain));
      always (mbedtls_ssl_conf_authmode (if dc_verify_peer cfg then VERIFY_REQUIRED else VERIFY_NONE));
      when (dc_is_server cfg)
        (and_then (must mbedtls_ssl_cookie_setup) (always mbedtls_ssl_conf_dtls_cookies));
      must mbedtls_ssl_setup;
      always mbedtls_ssl_set_timer_cb;
      always mbedtls_ssl_set_bio ].
(** The old context, if any, is freed without a close notification.  On success
    the result is the new [*ctx_]. *)
Definition setup_context (entropy : nat) d : DtlsTransport T * option mctx :=
  let '(c, ok) := setup_steps (dt_config d) (mbedtls_init entropy) in
  (dt_set_io d (Some c) (dt_inner d), if ok then Some c else None).
Definition teardown_context d : DtlsTransport T :=
  match dt_ctx d with
  | Some c =>
      let '(_, t, _) := mbedtls_ssl_close_notify (dt_bio (dt_remote_ep d)) c (dt_inner d) in
      dt_set_io d None t
  | None => d
  end.

(** ** The interface *)
Definition dt_bind d (local : Endpoint) : DtlsTransport T * bool :=
  let '(t, ok) := t_bind (dt_inner d) local in (dt_set_inner d t, ok).
Definition dt_close d : DtlsTransport T :=
  let d := match dt_state d with
           | DS_CONNECTED | DS_HANDSHAKING => teardown_context d
           | _ => d
           end in
  let d := dt_set_state d DS_CLOSED in
  dt_set_inner d (t_close (dt_inner d)).

(** [duration_cast<milliseconds>] *)
Definition elapsed_ms (start now : Z) : Z := Z.quot (now - start) 1000000.
(** One turn of the loop of [handshake] with [*ctx_] being [c]: the result, or the
    state of the next turn. *)
Definition handshake_turn (start now timeout_ms : Z) d (c : mctx)
    : DtlsTransport T * bool + DtlsTransport T * mctx :=
  let '(c, t, ret) := mbedtls_ssl_handshake (dt_bio (dt_remote_ep d)) c (dt_inner d) in
  let d := dt_set_io d (Some c) t in
  if ret =? 0 then inl (dt_set_state d DS_CONNECTED, true) else
  if negb (ret =? WANT_READ) && negb (ret =? WANT_WRITE) then
    inl (teardown_context (dt_set_state d DS_ERROR), false) else
  if timeout_ms <=? elapsed_ms start now then
    inl (teardown_context (dt_set_state d DS_ERROR), false) else
  inr (d, c).
Fixpoint handshake_loop (fuel i : nat) (clock : nat → Z) (timeout_ms : Z) d (c : mctx)
    : option (DtlsTransport T * bool) :=
  match fuel with
  | O => None
  | S fuel =>
      match handshake_turn (clock 0%nat) (clock (S i)) timeout_ms d c with
      | inl r => Some r
      | inr (d, c) => handshake_loop fuel (S i) clock timeout_ms d c
      end
  end.
Definition handshake (fuel : nat) (entropy : nat) (clock : nat → Z) d (remote : Endpoint)
    (timeout_ms : Z) : option (DtlsTransport T * bool) :=
  let d := dt_set_remote d remote in
  match setup_context entropy d with
  | (d, Some c) => handshake_loop fuel 0 clock timeout_ms (dt_set_state d DS_HANDSHAKING) c
  | (d, None) => Some (dt_set_state d DS_ERROR, false)
  end.

Definition dt_send_to d (data : bytes) (remote : Endpoint) : DtlsTransport T * Z :=
  match dt_ctx d with
  | Some c =>
      if negb (bool_decide (dt_state d = DS_CONNECTED)) then (d, -1) else
      let '(c, t, ret) := mbedtls_ssl_write (dt_bio (dt_remote_ep d)) c (dt_inner d) data in
      let d := dt_set_io d (Some c) t in
      (if 0 <? ret then dt_count_encrypted d ret else d, ret)
  | None => (d, -1)
  end.
(** The result, and for a positive one the bytes and the sender. *)
Definition dt_recv_from d (buf_len : nat) (timeout_ms : Z)
    : DtlsTransport T * (Z * option (bytes * Endpoint)) :=
  match dt_ctx d with
  | Some c =>
      if negb (bool_decide (dt_state d = DS_CONNECTED)) then (d, (-1, None)) else
      let '(c, t, (ret, data)) :=
        mbedtls_ssl_read (dt_bio (dt_remote_ep d)) c (dt_inner d) buf_len in
      let d := dt_set_io d (Some c) t in
      if 0 <? ret then (dt_count_decrypted d ret, (ret, Some (data, dt_remote_ep d)))
      else (d, (ret, None))
  | None => (d, (-1, None))
  end.
Definition negotiated_version d : bytes :=
  match dt_ctx d with
  | Some c => if negb (bool_decide (dt_state d = DS_CONNECTED)) then [] else mbedtls_ssl_get_version c
  | None => []
  end.
Definition cipher_suite d : bytes :=
  match dt_ctx d with
  | Some c => if negb (bool_decide (dt_state d = DS_CONNECTED)) then [] else mbedtls_ssl_get_ciphersuite c
  | None => []
  end.
Definition dt_destroy d : DtlsTransport T := dt_close d.

(** ** Executions, and the session they amount to *)
Inductive DtlsEvent :=
| EvBind (local : Endpoint) (ok : bool) | EvClose | EvHandshake (remote : Endpoint) (ok : bool)
| EvSend (data : bytes) (remote : Endpoint) (ret : Z) | EvRecv (ret : Z).
Inductive dtls_step : DtlsTransport T → DtlsEvent → DtlsTransport T → Prop :=
| ds_bind d local d' ok : dt_bind d local = (d', ok) → dtls_step d (EvBind local ok) d'
| ds_close d : dtls_step d EvClose (dt_close d)
| ds_handshake d fuel entropy clock remote timeout d' ok :
    handshake fuel entropy clock d remote timeout = Some (d', ok) →
    dtls_step d (EvHandshake remote ok) d'
| ds_send d data remote d' ret :
    dt_send_to d data remote = (d', ret) → dtls_step d (EvSend data remote ret) d'
| ds_recv d n timeout d' ret out :
    dt_recv_from d n timeout = (d', (ret, out)) → dtls_step d (EvRecv ret) d'.
Inductive dtls_run (d0 : DtlsTransport T) : list DtlsEvent → DtlsTransport T → Prop :=
| dr_nil : dtls_run d0 [] d0
| dr_snoc tr d e d' : dtls_run d0 tr d → dtls_step d e d' → dtls_run d0 (tr ++ [e]) d'.

(** The specification: the endpoint of the open session, if there is one. *)
Definition session_step (s : option Endpoint) (e : DtlsEvent) : option Endpoint :=
  match e with
  | EvHandshake remote ok => if ok then Some remote else None
  | EvClose => None
  | EvBind _ _ | EvSend _ _ _ | EvRecv _ => s
  end.
Definition session (tr : list DtlsEvent) : option Endpoint := foldl session_step None tr.
Definition in_session d (s : option Endpoint) : Prop :=
  match s with
  | Some e => dt_state d = DS_CONNECTED ∧ dt_remote_ep d = e
  | None => dt_state d ≠ DS_CONNECTED
  end.

(** What the wrapped transport sees of a session with [remote]. *)
Inductive inner_step (remote : Endpoint) : T → T → Prop :=
| inner_send t data : inner_step remote t (t_send_to t data remote).1
| inner_recv t n timeout : inner_step remote t (t_recv_from t n timeout).1.
Definition inner_path (remote : Endpoint) (t t' : T) : Prop :=
  t_ok t → t_ok t' ∧ rtc (inner_step remote) t t'.

Record dt_ok d : Prop := {
  dt_ok_inner : t_ok (dt_inner d);
  dt_ok_state : dt_state d ≠ DS_HANDSHAKING;
  dt_ok_ctx : dt_state d = DS_CONNECTED → is_Some (dt_ctx d);
  dt_ok_encrypted : is_u64 (dt_bytes_encrypted d);
  dt_ok_decrypted : is_u64 (dt_bytes_decrypted d) }.

(** ** The callbacks keep the contract *)
Lemma bio_result_ok code n t timeout t' r :
  code < 0 → t_ok t → t_recv_from t n timeout = (t', r) → read_result_ok n (bio_result code r).
Proof.
  intros Hc Ht E. unfold read_result_ok, bio_result. destruct r as [[data from]|]; simpl; [|lia].
  destruct (t_recv_wf t n timeout t' data from Ht E) as [Hl Hw].
  destruct (Nat.eqb_spec (length data) 0); simpl; [lia|done].
Qed.
Lemma inner_path_refl remote t : inner_path remote t t.
Proof. by split. Qed.
Lemma dt_bio_keeps remote t0 :
  bio_keeps (dt_bio remote) (λ t, t_ok t ∧ rtc (inner_step remote) t0 t).
Proof.
  destruct err_negative as (? & ? & ?). split; simpl.
  - intros t data [Ht Hp]. unfold bio_send.
    pose proof (t_send_ok t data remote Ht) as Hok. pose proof (inner_send remote t data) as Hs.
    destruct (t_send_to t data remote) as [t' r]. split; [done|]. by eapply rtc_r.
  - intros t n [Ht Hp]. unfold bio_recv.
    pose proof (t_recv_ok t n 0 Ht) as Hok. pose proof (inner_recv remote t n 0) as Hs.
    destruct (t_recv_from t n 0) as [t' r] eqn:E.
    split; [split; [done|by eapply rtc_r]|]. eapply bio_result_ok; [|exact Ht|exact E]. done.
  - intros t n timeout [Ht Hp]. unfold bio_recv_timeout.
    pose proof (t_recv_ok t n (i32 timeout) Ht) as Hok.
    pose proof (inner_recv remote t n (i32 timeout)) as Hs.
    destruct (t_recv_from t n (i32 timeout)) as [t' r] eqn:E.
    split; [split; [done|by eapply rtc_r]|]. eapply bio_result_ok; [|exact Ht|exact E]. done.
Qed.

(** Each call of mbedTLS on the wrapped transport is a path of the session. *)
Lemma handshake_path remote c t c' t' ret :
  mbedtls_ssl_handshake (dt_bio remote) c t = (c', t', ret) → inner_path remote t t'.
Proof.
  intros E Ht. pose proof (handshake_io T _ _ c t (dt_bio_keeps remote t)) as Hio.
  rewrite E in Hio. by apply Hio.
Qed.
Lemma write_path remote c t data c' t' ret :
  mbedtls_ssl_write (dt_bio remote) c t data = (c', t', ret) → inner_path remote t t'.
Proof.
  intros E Ht. pose proof (write_io T _ _ c t data (dt_bio_keeps remote t)) as Hio.
  rewrite E in Hio. by apply Hio.
Qed.
Lemma read_path remote c t n c' t' r :
  mbedtls_ssl_read (dt_bio remote) c t n = (c', t', r) → inner_path remote t t'.
Proof.
  intros E Ht. pose proof (read_io T _ _ c t n (dt_bio_keeps remote t)) as Hio.
  rewrite E in Hio. by apply Hio.
Qed.
Lemma close_path remote c t c' t' ret :
  mbedtls_ssl_close_notify (dt_bio remote) c t = (c', t', ret) → inner_path remote t t'.
Proof.
  intros E Ht. pose proof (close_io T _ _ c t (dt_bio_keeps remote t)) as Hio.
  rewrite E in Hio. by apply Hio.
Qed.
Lemma inner_path_trans remote t1 t2 t3 :
  inner_path remote t1 t2 → inner_path remote t2 t3 → inner_path remote t1 t3.
Proof. intros H1 H2 Ht. destruct (H1 Ht) as [Ht2 ?], (H2 Ht2). split; [done|by etrans]. Qed.

(** ** The operations *)
(** [d'] differs from [d] in the context and the wrapped transport only. *)
Record same_session d d' : Prop := {
  ss_inner : inner_path (dt_remote_ep d) (dt_inner d) (dt_inner d');
  ss_config : dt_config d' = dt_config d;
  ss_remote : dt_remote_ep d' = dt_remote_ep d;
  ss_encrypted : dt_bytes_encrypted d' = dt_bytes_encrypted d;
  ss_decrypted : dt_bytes_decrypted d' = dt_bytes_decrypted d }.
Lemma same_session_trans d1 d2 d3 :
  same_session d1 d2 → same_session d2 d3 → same_session d1 d3.
Proof.
  intros [? ? Hr ? ?] [Hi ? ? ? ?]. rewrite Hr in Hi.
  split; [by eapply inner_path_trans|congruence..].
Qed.
Lemma teardown_same d :
  same_session d (teardown_context d) ∧ dt_state (teardown_context d) = dt_state d ∧
  dt_ctx (teardown_context d) = None.
Proof.
  unfold teardown_context. destruct (dt_ctx d) as [c|] eqn:Ec.
  - destruct (mbedtls_ssl_close_notify _ c _) as [[c' t] r] eqn:E. apply close_path in E. done.
  - split; [split; try done; apply inner_path_refl|done].
Qed.

(** The two outcomes of a handshake whose set-up succeeded. *)
Definition handshake_outcome (r : DtlsTransport T * bool) : Prop :=
  if r.2 then dt_state r.1 = DS_CONNECTED ∧ is_Some (dt_ctx r.1)
  else dt_state r.1 = DS_ERROR ∧ dt_ctx r.1 = None.
Lemma handshake_turn_spec start now timeout d c :
  match handshake_turn start now timeout d c with
  | inl r => same_session d r.1 ∧ handshake_outcome r
  | inr (d', _) => same_session d d' ∧ elapsed_ms start now < timeout
  end.
Proof.
  unfold handshake_turn.
  destruct (mbedtls_ssl_handshake _ c _) as [[c' t] ret] eqn:E. apply handshake_path in E.
  assert (∀ s, same_session d (dt_set_state (dt_set_io d (Some c') t) s)) as Hs by done.
  assert (same_session d (dt_set_io d (Some c') t)) as Hs' by done.
  assert (∀ d1, same_session d d1 → dt_state d1 = DS_ERROR →
    same_session d (teardown_context d1) ∧ handshake_outcome (teardown_context d1, false)) as Herr.
  { intros d1 H1 He. destruct (teardown_same d1) as (H2 & H3 & H4).
    split; [by eapply same_session_trans|]. split; simpl; congruence. }
  destruct (ret =? 0); [split; [apply Hs|split; [done|by eexists]]|].
  destruct (negb _ && negb _); [by apply Herr|].
  destruct (timeout <=? _) eqn:Hle; [by apply Herr|]. split; [done|]. by apply Z.leb_gt in Hle.
Qed.
Lemma handshake_loop_spec fuel i clock timeout d c r :
  handshake_loop fuel i clock timeout d c = Some r → same_session d r.1 ∧ handshake_outcome r.
Proof.
  revert i d c; induction fuel as [|fuel IH]; intros i d c; simpl; [done|].
  pose proof (handshake_turn_spec (clock 0%nat) (clock (S i)) timeout d c) as Ht.
  destruct (handshake_turn _ _ _ _ _) as [r'|[d' c']]; [by intros [= <-]|].
  destruct Ht as [Hs _]. intros [Hs' Ho]%IH. split; [by eapply same_session_trans|done].
Qed.
(** Enough turns for the clock to pass the timeout are enough for a result, and more
    turns give the same one. *)
Lemma handshake_loop_terminates fuel i k clock timeout d c :
  (i ≤ k < i + fuel)%nat → timeout * 1000000 ≤ clock (S k) - clock 0%nat →
  is_Some (handshake_loop fuel i clock timeout d c).
Proof.
  revert i d c; induction fuel as [|fuel IH]; intros i d c Hk Hc; simpl; [lia|].
  pose proof (handshake_turn_spec (clock 0%nat) (clock (S i)) timeout d c) as Ht.
  destruct (handshake_turn _ _ _ _ _) as [r|[d' c']]; [by eexists|].
  destruct Ht as [_ Hlt]. apply IH; [|done]. assert (i ≠ k); [|lia]. intros ->.
  unfold elapsed_ms in Hlt. Z.quot_rem_to_equations. lia.
Qed.
Lemma handshake_loop_mono fuel fuel' i clock timeout d c r :
  (fuel ≤ fuel')%nat → handshake_loop fuel i clock timeout d c = Some r →
  handshake_loop fuel' i clock timeout d c = Some r.
Proof.
  revert fuel' i d c; induction fuel as [|fuel IH]; intros [|fuel'] i d c Hf; simpl; try done; [lia|].
  destruct (handshake_turn _ _ _ _ _) as [r'|[d' c']]; [done|]. apply IH. lia.
Qed.

Lemma handshake_spec fuel entropy clock d remote timeout d' ok :
  handshake fuel entropy clock d remote timeout = Some (d', ok) →
  same_session (dt_set_remote d remote) d' ∧
  (if ok then dt_state d' = DS_CONNECTED ∧ is_Some (dt_ctx d') else dt_state d' = DS_ERROR).
Proof.
  unfold handshake, setup_context. destruct (setup_steps _ _) as [c [|]].
  - intros [Hs Ho]%handshake_loop_spec. split; [by destruct Hs|].
    destruct ok; [done|by destruct Ho].
  - intros [= <- <-]. split; [split; try done; apply inner_path_refl|done].
Qed.

(** What [send_to] and [recv_from] do outside and inside a session. *)
Lemma dt_send_spec d data remote d' ret :
  dt_ok d → dt_send_to d data remote = (d', ret) →
  (dt_state d ≠ DS_CONNECTED ∧ d' = d ∧ ret = -1) ∨
  (dt_state d = DS_CONNECTED ∧ dt_state d' = DS_CONNECTED ∧ is_Some (dt_ctx d') ∧
   dt_remote_ep d' = dt_remote_ep d ∧ inner_path (dt_remote_ep d) (dt_inner d) (dt_inner d') ∧
   ret ≤ Z.of_nat (length data) ∧ dt_bytes_decrypted d' = dt_bytes_decrypted d ∧
   dt_bytes_encrypted d' = u64 (dt_bytes_encrypted d + Z.max 0 ret)).
Proof.
  intros [_ _ Hctx Henc _]. unfold dt_send_to. destruct (dt_ctx d) as [c|] eqn:Ec.
  - case_bool_decide as Hst; simpl; [|intros [= <- <-]; by left].
    pose proof (write_result T (dt_bio (dt_remote_ep d)) c (dt_inner d) data) as Hr.
    destruct (mbedtls_ssl_write _ c _ _) as [[c' t] r] eqn:E. apply write_path in E.
    intros [= <- <-]. right. destruct (Z.ltb_spec 0 r); simpl.
    + split_and!; try done. rewrite Z.max_r by lia. unfold wrap. by rewrite Zplus_mod_idemp_r.
    + split_and!; try done. rewrite Z.max_l, Z.add_0_r by lia. by rewrite wrap_id.
  - intros [= <- <-]. left. split; [|done]. intros Hst. destruct (Hctx Hst). congruence.
Qed.
Lemma dt_recv_spec d n timeout d' ret out :
  dt_ok d → dt_recv_from d n timeout = (d', (ret, out)) →
  (dt_state d ≠ DS_CONNECTED ∧ d' = d ∧ ret = -1 ∧ out = None) ∨
  (dt_state d = DS_CONNECTED ∧ dt_state d' = DS_CONNECTED ∧ is_Some (dt_ctx d') ∧
   dt_remote_ep d' = dt_remote_ep d ∧ inner_path (dt_remote_ep d) (dt_inner d) (dt_inner d') ∧
   dt_bytes_encrypted d' = dt_bytes_encrypted d ∧
   dt_bytes_decrypted d' = u64 (dt_bytes_decrypted d + Z.max 0 ret) ∧
   match out with
   | Some (data, from) => from = dt_remote_ep d ∧ ret = Z.of_nat (length data) ∧ 0 < ret ∧
       (length data ≤ n)%nat ∧ wf_bytes data
   | None => ret ≤ 0
   end).
Proof.
  intros [Hin _ Hctx _ Hdec]. unfold dt_recv_from. destruct (dt_ctx d) as [c|] eqn:Ec.
  - case_bool_decide as Hst; simpl; [|intros [= <- <- <-]; by left].
    pose proof (read_result T _ _ c (dt_inner d) n (dt_bio_keeps (dt_remote_ep d) (dt_inner d)))
      as Hr.
    destruct (mbedtls_ssl_read _ c _ _) as [[c' t] [r data]] eqn:E. apply read_path in E.
    destruct (Z.ltb_spec 0 r); intros [= <- <- <-]; right; simpl.
    + destruct Hr as (? & ? & ?); [by split|done|]; simpl in *. split_and!; try done.
      rewrite Z.max_r by lia. unfold wrap. by rewrite Zplus_mod_idemp_r.
    + split_and!; try done. rewrite Z.max_l, Z.add_0_r by lia. by rewrite wrap_id.
  - intros [= <- <- <-]. left. split; [|done]. intros Hst. destruct (Hctx Hst). congruence.
Qed.
Lemma dt_close_spec d :
  dt_ok d → dt_ok (dt_close d) ∧ dt_state (dt_close d) = DS_CLOSED ∧
  ∃ t, inner_path (dt_remote_ep d) (dt_inner d) t ∧ dt_inner (dt_close d) = t_close t.
Proof.
  intros [Hin Hst _ He Hd]. destruct (teardown_same d) as ([Hp _ _ He' Hd'] & _ & _).
  assert (∀ d1, same_session d d1 →
    dt_ok (dt_set_inner (dt_set_state d1 DS_CLOSED) (t_close (dt_inner d1)))) as Hok.
  { intros d1 [Hp1 _ _ He1 Hd1]. split; simpl; try done; [|congruence..].
    by apply t_close_ok, Hp1. }
  assert (same_session d d) as Hrefl by (split; try done; apply inner_path_refl).
  unfold dt_close. destruct (dt_state d) eqn:E; simpl; try done.
  all: split_and!; [apply Hok; try done; apply teardown_same|done|].
  all: eexists; split; [|done]; try done; apply inner_path_refl.
Qed.

Lemma dtls_step_ok d e d' s :
  dtls_step d e d' → dt_ok d → in_session d s → dt_ok d' ∧ in_session d' (session_step s e).
Proof.
  intros Hstep Hok Hs. destruct Hstep as
    [d local d' ok E|d|d fuel entropy clock remote timeout d' ok E
    |d data remote d' ret E|d n timeout d' ret out E]; cbn [session_step].
  - unfold dt_bind in E. destruct Hok as [Hin ? ? ? ?]. pose proof (t_bind_ok (dt_inner d) local Hin).
    destruct (t_bind (dt_inner d) local). injection E as <- <-. done.
  - destruct (dt_close_spec d Hok) as (? & Hst & _). split; [done|]. unfold in_session. by rewrite Hst.
  - destruct Hok as [Hin ? ? He Hd].
    apply handshake_spec in E as [[Hp _ Hr He' Hd'] Ho]. simpl in *.
    destruct (Hp Hin) as [Hin' _]. destruct ok.
    + destruct Ho as [Hst Hc].
      split; [split; [done|congruence|done|by rewrite He'|by rewrite Hd']|done].
    + split; [split; [done|congruence..|by rewrite He'|by rewrite Hd']|congruence].
  - destruct (dt_send_spec _ _ _ _ _ Hok E) as [(? & -> & _)|(Hc & Hc' & Hx & Hr & Hp & _ & Hd & He)];
      [done|].
    destruct Hok as [Hin _ _ ? ?]. destruct (Hp Hin) as [Hin' _].
    split; [split; rewrite ?Hd, ?He; auto with rom; congruence|].
    destruct s; simpl in *; [destruct Hs; split; congruence|done].
  - destruct (dt_recv_spec _ _ _ _ _ _ Hok E)
      as [(? & -> & _)|(Hc & Hc' & Hx & Hr & Hp & He & Hd & _)]; [done|].
    destruct Hok as [Hin _ _ ? ?]. destruct (Hp Hin) as [Hin' _].
    split; [split; rewrite ?Hd, ?He; auto with rom; congruence|].
    destruct s; simpl in *; [destruct Hs; split; congruence|done].
Qed.
Lemma dtls_run_ok inner config tr d :
  t_ok inner → dtls_run (dt_new inner config) tr d → dt_ok d ∧ in_session d (session tr).
Proof.
  intros Ht. induction 1 as [|tr d e d' _ [IHok IHs] Hstep].
  - split; [split; simpl; try done; by split|done].
  - unfold session. rewrite foldl_snoc. by eapply dtls_step_ok.
Qed.

(** A handshake that mbedTLS ends with any other code fails at once; that includes
    the request of a server to verify the client's cookie, after which the caller is
    to reset the context and try again. *)
Lemma handshake_other_error entropy clock d remote timeout c c' t ret :
  setup_steps (dt_config d) (mbedtls_init entropy) = (c, true) →
  mbedtls_ssl_handshake (dt_bio remote) c (dt_inner d) = (c', t, ret) →
  ret ≠ 0 → ret ≠ WANT_READ → ret ≠ WANT_WRITE →
  ∃ d', handshake 1 entropy clock d remote timeout = Some (d', false) ∧ dt_state d' = DS_ERROR.
Proof.
  intros Es Eh H0 H1 H2. unfold handshake, setup_context. simpl. rewrite Es.
  unfold handshake_loop, handshake_turn. simpl. rewrite Eh.
  rewrite !(proj2 (Z.eqb_neq _ _)) by done. simpl. eexists; split; [done|].
  by rewrite (proj1 (proj2 (teardown_same _))).
Qed.

(** ** What a caller relies on *)

(** C30: Over every sequence of calls, each with every result mbedTLS and
    the wrapped transport can give it, the transport is the session of its last
    handshake.  Outside a session [send_to] and [recv_from] return -1 and change
    nothing.  In a session with an endpoint, a [send_to] that names this endpoint and a
    [recv_from] use the wrapped transport only to receive and to send to it; received
    bytes fit the buffer, and the sender reported is the endpoint of the session, since the
    receive callback drops the address a datagram came from; the two counters add up the
    positive results modulo 2^64.  (A [send_to] that names another endpoint is not covered:
    the comment in the source says that the destination is verified, the code does not look
    at it, [DtlsRun.send_ignores_destination].) *)
Theorem dtls_session (inner : T) (config : DtlsConfig) (tr : list DtlsEvent) (d : DtlsTransport T) :
  t_ok inner → dtls_run (dt_new inner config) tr d →
  in_session d (session tr) ∧
  (∀ data remote d' ret, dt_send_to d data remote = (d', ret) →
    match session tr with
    | None => d' = d ∧ ret = -1
    | Some e => remote = e → rtc (inner_step e) (dt_inner d) (dt_inner d') ∧ ret ≤ Z.of_nat (length data) ∧
        dt_bytes_encrypted d' = u64 (dt_bytes_encrypted d + Z.max 0 ret)
    end) ∧
  (∀ n timeout d' ret out, dt_recv_from d n timeout = (d', (ret, out)) →
    match session tr with
    | None => d' = d ∧ ret = -1 ∧ out = None
    | Some e => rtc (inner_step e) (dt_inner d) (dt_inner d') ∧
        dt_bytes_decrypted d' = u64 (dt_bytes_decrypted d + Z.max 0 ret) ∧
        match out with
        | Some (data, from) =>
            from = e ∧ ret = Z.of_nat (length data) ∧ (0 < length data ≤ n)%nat ∧ wf_bytes data
        | None => ret ≤ 0
        end
    end).
Proof.
  intros Ht Hrun. destruct (dtls_run_ok _ _ _ _ Ht Hrun) as [Hok Hs]. pose proof (dt_ok_inner d Hok).
  split_and!; [done| |].
  - intros data remote d' ret E. apply dt_send_spec in E; [|done].
    destruct (session tr) as [e|]; simpl in Hs; [destruct Hs as [? <-]|];
      destruct E as [(? & ? & ?)|(? & _ & _ & _ & Hp & ? & _ & ?)]; try done.
    intros _. split; [by apply Hp|done].
  - intros n timeout d' ret out E. apply dt_recv_spec in E; [|done].
    destruct (session tr) as [e|]; simpl in Hs; [destruct Hs as [? <-]|];
      destruct E as [(? & ? & ? & ?)|(? & _ & _ & _ & Hp & _ & ? & Ho)]; try done.
    split_and!; [by apply Hp|done|]. destruct out as [[data from]|]; [|done].
    destruct Ho as (? & ? & ? & ? & ?). split_and!; try done; lia.
Qed.

(** C31: A handshake returns.  If reading [S k] of the clock is
    [timeout_ms] after the start, at most [k + 1] calls of mbedTLS are made, whatever
    they return, and the result does not depend on the fuel.  The transport is then
    CONNECTED with a context exactly if the result is true, and in ERROR otherwise;
    on the way the wrapped transport only received and sent to [remote]. *)
Theorem dtls_handshake_terminates (entropy : nat) (clock : nat → Z) (d : DtlsTransport T)
    (remote : Endpoint) (timeout_ms : Z) (k : nat) :
  t_ok (dt_inner d) → timeout_ms * 1000000 ≤ clock (S k) - clock 0%nat →
  ∃ d' ok, (∀ fuel, (k < fuel)%nat → handshake fuel entropy clock d remote timeout_ms = Some (d', ok)) ∧
    rtc (inner_step remote) (dt_inner d) (dt_inner d') ∧ dt_remote_ep d' = remote ∧
    if ok then dt_state d' = DS_CONNECTED ∧ is_Some (dt_ctx d') else dt_state d' = DS_ERROR.
Proof.
  intros Ht Hk.
  assert (∃ r, ∀ fuel, (k < fuel)%nat → handshake fuel entropy clock d remote timeout_ms = Some r)
    as [[d' ok] Hr].
  { unfold handshake. destruct (setup_context _ _) as [d1 [c|]]; [|by eexists].
    destruct (handshake_loop_terminates (S k) 0 k clock timeout_ms (dt_set_state d1 DS_HANDSHAKING) c)
      as [r Hr]; [lia|done|].
    exists r. intros fuel Hf. eapply handshake_loop_mono; [|exact Hr]. lia. }
  exists d', ok. split; [done|].
  destruct (handshake_spec _ _ _ _ _ _ _ _ (Hr (S k) (Nat.lt_succ_diag_r k))) as [[Hp _ Hrem _ _] Ho].
  split_and!; [by apply Hp|done|done].
Qed.

(** The DTLS transport is a transport: the theorems about peers apply to it. *)
#[global, refine] Instance DtlsTransport_Transport : Transport (DtlsTransport T) := {|
  t_send_to := dt_send_to;
  t_recv_from d n timeout := let '(d, (_, out)) := dt_recv_from d n timeout in (d, out);
  t_ok := dt_ok
|}.
Proof.
  - intros d data to Hok. destruct (dt_send_to d data to) as [d' ret] eqn:E. simpl.
    destruct (decide (dt_state d = DS_CONNECTED)) as [Hc|Hc].
    + by eapply (dtls_step_ok _ _ _ (Some _) (ds_send _ _ _ _ _ E)).
    + by eapply (dtls_step_ok _ _ _ None (ds_send _ _ _ _ _ E)).
  - intros d n timeout Hok. destruct (dt_recv_from d n timeout) as [d' [ret out]] eqn:E. simpl.
    destruct (decide (dt_state d = DS_CONNECTED)) as [Hc|Hc].
    + by eapply (dtls_step_ok _ _ _ (Some _) (ds_recv _ _ _ _ _ _ E)).
    + by eapply (dtls_step_ok _ _ _ None (ds_recv _ _ _ _ _ _ E)).
  - intros d n timeout d' data from Hok.
    destruct (dt_recv_from d n timeout) as [d1 [ret out]] eqn:E. intros [= <- ->].
    apply dt_recv_spec in E as [(_ & _ & _ & [=])|(_ & _ & _ & _ & _ & _ & _ & ? & ? & ? & ? & ?)]; done.
Defined.
End Dtls.

(** ** The build without mbedTLS

    The stub never has a context: only [bind] and [close] reach the wrapped transport. *)
Module Stub.
Section Stub.
Context `{MbedTls} {T : Type} `{!Transport T} `{!Bindable T} `{!Closable T}.
Implicit Types d : DtlsTransport T.

Definition stub_bind d (local : Endpoint) : DtlsTransport T * bool :=
  let '(t, ok) := t_bind (dt_inner d) local in (dt_set_inner d t, ok).
Definition stub_close d : DtlsTransport T :=
  let d := dt_set_state d DS_CLOSED in dt_set_inner d (t_close (dt_inner d)).
Definition stub_handshake d (remote : Endpoint) (timeout_ms : Z) : DtlsTransport T * bool :=
  (dt_set_state d DS_ERROR, false).
Definition stub_send_to d (data : bytes) (remote : Endpoint) : DtlsTransport T * Z := (d, -1).
Definition stub_recv_from d (buf_len : nat) (timeout_ms : Z)
    : DtlsTransport T * (Z * option (bytes * Endpoint)) := (d, (-1, None)).

(** The stub is the full transport in a build whose [setup_context] fails: outside
    a session the two agree on everything a caller sees. *)
Lemma stub_agrees d data remote n timeout :
  dt_state d ≠ DS_CONNECTED → dt_state d ≠ DS_HANDSHAKING →
  stub_send_to d data remote = dt_send_to d data remote ∧
  stub_recv_from d n timeout = dt_recv_from d n timeout ∧
  stub_close d = dt_close d.
Proof.
  intros Hc Hh. unfold stub_send_to, stub_recv_from, stub_close, dt_send_to, dt_recv_from, dt_close.
  rewrite bool_decide_eq_false_2 by done. simpl. split_and!; [by case_match..|].
  by destruct (dt_state d).
Qed.
End Stub.
End Stub.

(** ** A record layer to run the examples with

    One byte of content type in front of the data, no cryptography: 22 is the whole
    handshake, 23 is application data. *)
Module DtlsRun.
Definition toy_handshake (W : Type) (b : Bio W) (sent : bool) (w : W) : bool * W * Z :=
  let w := if sent then w else (cb_send b w [22]).1 in
  let '(w, (r, data)) := cb_recv_timeout b w 1 1000 in
  (true, w, if (0 <? r) && bool_decide (data = [22]) then 0 else -26880).
Definition toy_write (W : Type) (b : Bio W) (sent : bool) (w : W) (data : bytes) : bool * W * Z :=
  let '(w, r) := cb_send b w (23 :: data) in
  (sent, w, if r <? 0 then r else Z.of_nat (length data)).
Definition toy_read (W : Type) (b : Bio W) (sent : bool) (w : W) (n : nat)
    : bool * W * (Z * bytes) :=
  let '(w, (r, data)) := cb_recv_timeout b w (S n) 0 in
  (sent, w, if 0 <? r then
              match data with
              | t :: rest => if t =? 23 then (r - 1, rest) else (-1, [])
              | [] => (-1, [])
              end
            else (r, [])).
Definition toy_close (W : Type) (b : Bio W) (sent : bool) (w : W) : bool * W * Z :=
  let '(w, r) := cb_send b w [21] in (sent, w, r).

#[global, refine] Instance toy_mbedtls : MbedTls := {|
  mctx := bool;
  WANT_READ := -26880; WANT_WRITE := -26752; SSL_TIMEOUT := -26624;
  mbedtls_init _ := false;
  mbedtls_ctr_drbg_seed c _ := (c, 0);
  mbedtls_ssl_config_defaults c _ := (c, 0);
  mbedtls_ssl_conf_rng c := c;
  (* a certificate text starts with a dash *)
  mbedtls_x509_crt_parse _ c pem := (c, match pem with 45 :: _ => 0 | _ => -8576 end);
  mbedtls_pk_parse_key c _ := (c, 0);
  mbedtls_ssl_conf_own_cert c := (c, 0);
  mbedtls_ssl_conf_ca_chain c := c;
  mbedtls_ssl_conf_authmode _ c := c;
  mbedtls_ssl_cookie_setup c := (c, 0);
  mbedtls_ssl_conf_dtls_cookies c := c;
  mbedtls_ssl_setup c := (c, 0);
  mbedtls_ssl_set_timer_cb c := c;
  mbedtls_ssl_set_bio c := c;
  mbedtls_ssl_handshake := toy_handshake;
  mbedtls_ssl_write := toy_write;
  mbedtls_ssl_read := toy_read;
  mbedtls_ssl_close_notify := toy_close;
  mbedtls_ssl_get_version _ := [];
  mbedtls_ssl_get_ciphersuite _ := [] |}.
Proof.
  - done.
  - intros W b P c w [Hs _ Ht] Hw. unfold toy_handshake.
    assert (P (if c then w else (cb_send b w [22]).1)) as Hw' by (destruct c; auto).
    specialize (Ht _ 1%nat 1000 Hw'). destruct (cb_recv_timeout _ _ _ _) as [w' [r data]]. apply Ht.
  - intros W b P c w data [Hs _ _] Hw. unfold toy_write. specialize (Hs w (23 :: data) Hw).
    by destruct (cb_send _ _ _).
  - intros W b P c w n [_ _ Ht] Hw. unfold toy_read. specialize (Ht w (S n) 0 Hw).
    destruct (cb_recv_timeout _ _ _ _) as [w' [r data]]. apply Ht.
  - intros W b P c w [Hs _ _] Hw. unfold toy_close. specialize (Hs w [21] Hw). by destruct (cb_send _ _ _).
  - intros W b c w data. unfold toy_write. destruct (cb_send _ _ _) as [w' r]. simpl.
    destruct (Z.ltb_spec r 0); lia.
  - intros W b P c w n [_ _ Ht] Hw. unfold toy_read. specialize (Ht w (S n) 0 Hw).
    destruct (cb_recv_timeout _ _ _ _) as [w' [r data]]. destruct Ht as [_ Ht]. unfold read_result_ok in *.
    simpl in *. destruct (Z.ltb_spec 0 r); simpl; [|lia]. destruct Ht as (? & ? & Hwf); [done|].
    destruct data as [|t rest]; simpl in *; [lia|]. apply Forall_cons in Hwf as [_ ?].
    destruct (t =? 23); simpl; [|lia]. intros; split_and!; [lia|lia|done].
Defined.

Definition server : Endpoint := {| ep_address := [49]; ep_port := 4433 |}.
Definition other : Endpoint := {| ep_address := [50]; ep_port := 4433 |}.
(** The wrapped transport holds the server's answer to the handshake and one record. *)
Definition wire : ExternalTransport :=
  xt_push_recv (xt_push_recv (xt_bind xt_new server).1 [22] server) [23; 7; 8] server.
(** One second between two readings. *)
Definition clock (i : nat) : Z := Z.of_nat i * 1000000000.
Definition run_handshake (fuel : nat) (config : DtlsConfig) (t : ExternalTransport)
    : option (DtlsTransport ExternalTransport * bool) :=
  handshake fuel 0 clock (dt_new t config) server 5000.
Definition connected : DtlsTransport ExternalTransport :=
  match run_handshake 6 DtlsConfig_default wire with Some (d, _) => d | None => dt_new wire DtlsConfig_default end.

Example handshake_succeeds : run_handshake 1 DtlsConfig_default wire = Some (connected, true).
Proof. reflexivity. Qed.
(** Without an answer the handshake makes five attempts and gives up. *)
Example handshake_times_out :
  (λ r, (dt_state r.1, r.2)) <$> run_handshake 6 DtlsConfig_default (xt_bind xt_new server).1 =
    Some (DS_ERROR, false) ∧
  run_handshake 4 DtlsConfig_default (xt_bind xt_new server).1 = None.
Proof. repeat split. Qed.
(** A certificate that does not parse ends the set-up; nothing is sent. *)
Example handshake_bad_certificate :
  (λ r, (dt_state r.1, r.2, dt_inner r.1)) <$>
    run_handshake 1 {| dc_is_server := true; dc_cert_pem := [1]; dc_key_pem := []; dc_ca_pem := [];
      dc_verify_peer := false; dc_handshake_timeout_ms := 5000; dc_min_retransmit_ms := 0;
      dc_max_retransmit_ms := 0 |} wire = Some (DS_ERROR, false, wire).
Proof. repeat split. Qed.
(** Data for another endpoint goes to the endpoint of the session. *)
Example send_ignores_destination :
  xp_endpoint <$> last (xt_send_queue (dt_inner (dt_send_to connected [9] other).1)) = Some server.
Proof. repeat split. Qed.

Lemma dtls_session_witness :
  session [EvHandshake server true] = Some server ∧
  (∃ d', dt_recv_from connected 16 0 = (d', (2, Some ([7; 8], server)))) ∧
  in_session connected (session [EvHandshake server true]).
Proof.
  split_and!; [done|eexists; reflexivity|].
  apply (dtls_session wire DtlsConfig_default [EvHandshake server true] connected).
  - repeat constructor; by_decide.
  - apply (dr_snoc _ [] (dt_new wire DtlsConfig_default)); [constructor|].
    apply (ds_handshake _ 1 0 clock _ 5000). reflexivity.
Defined.
Lemma dtls_handshake_terminates_witness :
  ∃ d' ok, ∀ fuel, (4 < fuel)%nat → run_handshake fuel DtlsConfig_default wire = Some (d', ok).
Proof.
  destruct (dtls_handshake_terminates 0 clock (dt_new wire DtlsConfig_default) server 5000 4)
    as (d' & ok & Hd & _).
  - repeat constructor; by_decide.
  - vm_compute. discriminate.
  - by exists d', ok.
Defined.
End DtlsRun.
