(* ===== verification/CTransport.v ===== *)
(** * The transports behind the C handles

    Models the transport part of [src/protocoll_c_api.cpp]: the handles of the four
    transports, the registry of the loopback buses and the lifetimes that tie them
    together.  A handle is an address of the heap [THeap].  A loopback transport shares
    its bus with every transport of the same bus number; the registry holds the buses by
    weak pointers, so a bus lives as long as some transport does.  A UDP transport
    works on the operating system of the process.  A DTLS transport refers to the
    transport it wraps by its address: [DtlsTransport nat] of Dtls.v.

    A call works on a transport together with everything it refers to: [load] follows
    the references of a handle and [store] writes the result back.  [Loaded n] is the
    type of what [load] finds, for at most [n] DTLS transports on top of each other. *)
From S2P Require Import Prelude Transport Udp Dtls.

(** ** protocoll.h *)
Definition PCOL_OK : Z := 0.
Definition PCOL_ERR_INVALID : Z := -1.
Definition PCOL_ERR_NOT_FOUND : Z := -2.
Definition PCOL_ERR_NO_CONNECT : Z := -3.
Definition PCOL_ERR_TIMEOUT : Z := -4.
Record PcolEndpoint := { pe_address : option bytes; pe_port : Z }.
Record PcolDtlsConfig := {
  pd_is_server : Z; pd_cert_pem : option bytes; pd_key_pem : option bytes; pd_ca_pem : option bytes;
  pd_verify_peer : Z; pd_handshake_timeout_ms : Z }.

Definition to_ep (ep : PcolEndpoint) : Endpoint :=
  {| ep_address := default [] (pe_address ep); ep_port := pe_port ep |}.
Definition to_dtls_config (config : PcolDtlsConfig) : DtlsConfig :=
  {| dc_is_server := negb (pd_is_server config =? 0);
     dc_cert_pem := default [] (pd_cert_pem config);
     dc_key_pem := default [] (pd_key_pem config);
     dc_ca_pem := default [] (pd_ca_pem config);
     dc_verify_peer := negb (pd_verify_peer config =? 0);
     dc_handshake_timeout_ms :=
       if 0 <? pd_handshake_timeout_ms config then pd_handshake_timeout_ms config else 5000;
     dc_min_retransmit_ms := dc_min_retransmit_ms DtlsConfig_default;
     dc_max_retransmit_ms := dc_max_retransmit_ms DtlsConfig_default |}.

(** ** What a call works on *)
Section Base.
Context `{Sockets} `{Inet}.
Inductive Base :=
| B_Loopback (t : LoopbackTransport) (b : LoopbackBus)
| B_Udp (u : UdpTransport) (s : os)
| B_External (t : ExternalTransport).

(** A buffer holds bytes.  A loopback receive that waits in vain answers nothing when its
    timeout has passed; one without a timeout would not return. *)
#[global, refine] Instance Base_Transport : Transport Base := {|
  t_send_to x data to :=
    match x with
    | B_Loopback t b =>
        let '(x, n) := t_send_to {| lp_transport := t; lp_bus := b |} data to in
        (B_Loopback (lp_transport x) (lp_bus x), n)
    | B_Udp u s => let '(s, n) := ud_send_to u s data to in (B_Udp u s, n)
    | B_External t => let '(t, n) := t_send_to t data to in (B_External t, n)
    end;
  t_recv_from x n timeout :=
    match x with
    | B_Loopback t b =>
        let '(x, r) := t_recv_from {| lp_transport := t; lp_bus := b |} n timeout in
        (B_Loopback (lp_transport x) (lp_bus x), r)
    | B_Udp u s => let '(s, (_, r)) := ud_recv_from u s n timeout in (B_Udp u s, r)
    | B_External t => let '(t, r) := t_recv_from t n timeout in (B_External t, r)
    end;
  t_ok x :=
    match x with B_Loopback _ b => bus_ok b | B_Udp _ _ => True | B_External t => t_ok t end
|}.
Proof.
  - intros [t b|u s|t] data to Ht.
    + pose proof (t_send_ok {| lp_transport := t; lp_bus := b |} data to Ht). by destruct (t_send_to _ data to).
    + by destruct (ud_send_to u s data to).
    + pose proof (t_send_ok t data to Ht). by destruct (t_send_to t data to).
  - intros [t b|u s|t] n timeout Ht.
    + pose proof (t_recv_ok {| lp_transport := t; lp_bus := b |} n timeout Ht). by destruct (t_recv_from _ n timeout).
    + by destruct (ud_recv_from u s n timeout) as [? [? ?]].
    + pose proof (t_recv_ok t n timeout Ht). by destruct (t_recv_from t n timeout).
  - intros [t b|u s|t] n timeout x' data from Ht.
    + destruct (t_recv_from _ n timeout) as [y r] eqn:E; intros [= _ ->].
      exact (t_recv_wf {| lp_transport := t; lp_bus := b |} n timeout y data from Ht E).
    + destruct (ud_recv_from u s n timeout) as [s' [r out]] eqn:E. intros [= _ ->].
      by apply ud_recv_spec in E as (_ & _ & ? & ? & _).
    + destruct (t_recv_from t n timeout) eqn:E; intros [= _ ->]; exact (t_recv_wf t n timeout _ data from Ht E).
Defined.
#[global, refine] Instance Base_Bindable : Bindable Base := {|
  t_bind x ep :=
    match x with
    | B_Loopback t b => let '(t, ok) := lt_bind t ep in (B_Loopback t b, ok)
    | B_Udp u s => let '(u, s, ok) := ud_bind u s ep in (B_Udp u s, ok)
    | B_External t => let '(t, ok) := xt_bind t ep in (B_External t, ok)
    end |}.
Proof. intros [t b|u s|t] ep Ht; [done| |done]. by destruct (ud_bind u s ep) as [[]]. Defined.
#[global, refine] Instance Base_Closable : Closable Base := {|
  t_close x :=
    match x with
    | B_Loopback t b => let '(t, b) := lt_close t b in B_Loopback t b
    | B_Udp u s => let '(u, s) := ud_close u s in B_Udp u s
    | B_External t => B_External (xt_close t)
    end |}.
Proof.
  intros [t b|u s|t] Ht.
  - unfold lt_close. destruct (lt_bound t); [|done]. by apply map_Forall_delete.
  - by destruct (ud_close u s).
  - constructor.
Defined.
End Base.

(** The three parts of the interface together, for a sum and for the DTLS transport. *)
Record TOps (T : Type) := { to_t :: Transport T; to_b :: Bindable T; to_c :: Closable T }.
Arguments to_t {T}.
Arguments to_b {T}.
Arguments to_c {T}.
Section Sum.
Context {A B : Type} `{!Transport A} `{!Bindable A} `{!Closable A}.
Context `{!Transport B} `{!Bindable B} `{!Closable B}.
Definition on_sum {C} (f : A → A * C) (g : B → B * C) (x : A + B) : (A + B) * C :=
  match x with
  | inl a => let '(a, c) := f a in (inl a, c)
  | inr b => let '(b, c) := g b in (inr b, c)
  end.
Definition sum_ok (x : A + B) : Prop := match x with inl a => t_ok a | inr b => t_ok b end.
Lemma on_sum_ok {C} (f : A → A * C) (g : B → B * C) x :
  (∀ a, t_ok a → t_ok (f a).1) → (∀ b, t_ok b → t_ok (g b).1) → sum_ok x → sum_ok (on_sum f g x).1.
Proof.
  intros Hf Hg. destruct x as [a|b]; simpl; intros Hx; [specialize (Hf a Hx)|specialize (Hg b Hx)].
  - by destruct (f a).
  - by destruct (g b).
Qed.
#[refine] Definition sum_transport : Transport (A + B) := {|
  t_send_to x data to := on_sum (λ a, t_send_to a data to) (λ b, t_send_to b data to) x;
  t_recv_from x n timeout := on_sum (λ a, t_recv_from a n timeout) (λ b, t_recv_from b n timeout) x;
  t_ok := sum_ok |}.
Proof.
  - intros x data to. apply on_sum_ok; intros; by apply t_send_ok.
  - intros x n timeout. apply on_sum_ok; intros; by apply t_recv_ok.
  - intros [t|t] n timeout x' data from Ht; simpl;
      destruct (t_recv_from t n timeout) eqn:E; intros [= _ ->]; exact (t_recv_wf t n timeout _ data from Ht E).
Defined.
Definition sum_ops : TOps (A + B).
Proof.
  refine {| to_t := sum_transport |}.
  - refine {| t_bind x ep := on_sum (λ a, t_bind a ep) (λ b, t_bind b ep) x |}.
    intros x ep. apply on_sum_ok; intros; by apply t_bind_ok.
  - refine {| t_close x := match x with inl a => inl (t_close a) | inr b => inr (t_close b) end |}.
    intros [a|b]; simpl; apply t_close_ok.
Defined.
End Sum.
Section DtlsOps.
Context `{MbedTls} {T : Type} `{!Transport T} `{!Bindable T} `{!Closable T}.
Definition dtls_ops : TOps (DtlsTransport T).
Proof.
  refine {| to_t := @DtlsTransport_Transport _ T Transport0 Bindable0 Closable0 |}.
  - refine {| t_bind := dt_bind |}. intros d ep [Hi ? ? ? ?]. unfold dt_bind.
    pose proof (t_bind_ok (dt_inner d) ep Hi). destruct (t_bind (dt_inner d) ep). by split.
  - refine {| t_close := dt_close |}. intros d Hd. by apply dt_close_spec.
Defined.
End DtlsOps.

Section Heap.
Context `{Sockets} `{Inet} `{MbedTls}.

(** ** Loaded transports *)
Fixpoint Loaded (n : nat) : Type :=
  match n with O => Base | S n => Base + DtlsTransport (Loaded n) end.
Fixpoint loaded_ops (n : nat) : TOps (Loaded n) :=
  match n return TOps (Loaded n) with
  | O => {| to_t := Base_Transport; to_b := Base_Bindable; to_c := Base_Closable |}
  | S n =>
      let ops := loaded_ops n in
      let dtls := @dtls_ops _ (Loaded n) (to_t ops) (to_b ops) (to_c ops) in
      @sum_ops Base (DtlsTransport (Loaded n)) Base_Transport Base_Bindable Base_Closable
        (to_t dtls) (to_b dtls) (to_c dtls)
  end.
#[global] Instance Loaded_Transport n : Transport (Loaded n) := to_t (loaded_ops n).
#[global] Instance Loaded_Bindable n : Bindable (Loaded n) := to_b (loaded_ops n).
#[global] Instance Loaded_Closable n : Closable (Loaded n) := to_c (loaded_ops n).

(** ** The heap *)

(** The transports, each with what it refers to.  The bus number of a loopback
    transport is a history: the code does not keep it. *)
Inductive PcolTransport :=
| PT_Loopback (t : LoopbackTransport) (bus_id : Z) (bus : nat)
| PT_Udp (u : UdpTransport)
| PT_External (t : ExternalTransport)
| PT_Dtls (d : DtlsTransport nat).
Record THeap := mkHeap {
  h_transports : gmap nat PcolTransport; h_buses : gmap nat LoopbackBus; s_buses : gmap Z nat;
  h_os : os; h_next : nat }.
Definition heap_new (s : os) : THeap := mkHeap ∅ ∅ ∅ s 0.
Implicit Types hp : THeap.
Definition h_put hp (h : nat) (o : PcolTransport) : THeap :=
  mkHeap (<[h := o]> (h_transports hp)) (h_buses hp) (s_buses hp) (h_os hp) (h_next hp).
Definition h_set_bus hp (bus : nat) (b : LoopbackBus) : THeap :=
  mkHeap (h_transports hp) (<[bus := b]> (h_buses hp)) (s_buses hp) (h_os hp) (h_next hp).
Definition h_set_os hp (s : os) : THeap :=
  mkHeap (h_transports hp) (h_buses hp) (s_buses hp) s (h_next hp).
Definition h_alloc hp (o : PcolTransport) : THeap * nat :=
  (mkHeap (<[h_next hp := o]> (h_transports hp)) (h_buses hp) (s_buses hp) (h_os hp) (S (h_next hp)),
   h_next hp).
(** The same DTLS transport around something else. *)
Definition dt_rewrap {A B} (d : DtlsTransport A) (x : B) : DtlsTransport B :=
  mkDtls x (dt_config d) (dt_state d) (dt_remote_ep d) (dt_bytes_encrypted d) (dt_bytes_decrypted d)
    (dt_ctx d).

Definition load_base hp (o : PcolTransport) : option Base :=
  match o with
  | PT_Loopback t _ bus => B_Loopback t <$> h_buses hp !! bus
  | PT_Udp u => Some (B_Udp u (h_os hp))
  | PT_External t => Some (B_External t)
  | PT_Dtls _ => None
  end.
(** [None]: a dangling pointer, or more than [n] DTLS transports. *)
Fixpoint load (n : nat) hp (h : nat) : option (Loaded n) :=
  match h_transports hp !! h with
  | None => None
  | Some o =>
      match n return option (Loaded n) with
      | O => load_base hp o
      | S n =>
          match o with
          | PT_Dtls d => (λ x, inr (dt_rewrap d x)) <$> load n hp (dt_inner d)
          | _ => inl <$> load_base hp o
          end
      end
  end.
(** An operation keeps_handles the class of the transport it works on. *)
Definition store_base hp (h : nat) (x : Base) : THeap :=
  match x, h_transports hp !! h with
  | B_Loopback t b, Some (PT_Loopback _ id bus) => h_set_bus (h_put hp h (PT_Loopback t id bus)) bus b
  | B_Udp u s, Some (PT_Udp _) => h_set_os (h_put hp h (PT_Udp u)) s
  | B_External t, Some (PT_External _) => h_put hp h (PT_External t)
  | _, _ => hp
  end.
Fixpoint store (n : nat) hp (h : nat) : Loaded n → THeap :=
  match n return Loaded n → THeap with
  | O => store_base hp h
  | S n => λ x,
      match x with
      | inl b => store_base hp h b
      | inr d =>
          match h_transports hp !! h with
          | Some (PT_Dtls d0) =>
              store n (h_put hp h (PT_Dtls (dt_rewrap d (dt_inner d0)))) (dt_inner d0) (dt_inner d)
          | _ => hp
          end
      end
  end.

(** ** The calls *)
Context (depth : nat).
Definition HM (A : Type) : Type := THeap → res (THeap * A).
Definition h_call {A} (h : nat) (f : Loaded depth → Loaded depth * A) : HM A := λ hp,
  match load depth hp h with
  | None => Oob
  | Some x => let '(x, a) := f x in Ok (store depth hp h x, a)
  end.
(** [if (!t) return null; ...] *)
Definition on_transport {A} (t : option nat) (null : A) (k : nat → PcolTransport → HM A) : HM A := λ hp,
  match t with
  | None => Ok (hp, null)
  | Some h => match h_transports hp !! h with None => Oob | Some o => k h o hp end
  end.

(** [it->second.lock()] *)
Definition lock_bus hp (bus_id : Z) : option nat :=
  match s_buses hp !! bus_id with
  | Some bus => if bool_decide (is_Some (h_buses hp !! bus)) then Some bus else None
  | None => None
  end.
Definition pcol_transport_loopback_create (bus_id : Z) : HM nat := λ hp,
  match lock_bus hp bus_id with
  | Some bus => Ok (h_alloc hp (PT_Loopback lt_new bus_id bus))
  | None =>
      let bus := h_next hp in
      let hp := mkHeap (h_transports hp) (<[bus := lb_new]> (h_buses hp)) (<[bus_id := bus]> (s_buses hp))
                  (h_os hp) (S bus) in
      Ok (h_alloc hp (PT_Loopback lt_new bus_id bus))
  end.
Definition pcol_transport_udp_create : HM nat := λ hp, Ok (h_alloc hp (PT_Udp ud_new)).
Definition pcol_transport_external_create : HM nat := λ hp, Ok (h_alloc hp (PT_External xt_new)).
Definition pcol_transport_dtls_create (inner : option nat) (config : option PcolDtlsConfig) : HM (option nat) :=
  on_transport inner None (λ h _ hp,
    match config with
    | None => Ok (hp, None)
    | Some config => let '(hp, t) := h_alloc hp (PT_Dtls (dt_new h (to_dtls_config config))) in Ok (hp, Some t)
    end).
Definition pcol_transport_bind (t : option nat) (ep : PcolEndpoint) : HM Z :=
  on_transport t PCOL_ERR_INVALID (λ h _,
    h_call h (λ x, let '(x, ok) := t_bind x (to_ep ep) in
                   (x, if (ok : bool) then PCOL_OK else PCOL_ERR_INVALID))).
(** [delete t]: the destructor closes the transport, a DTLS transport the one it wraps
    too; then the pointer to the bus goes, and with the last one the bus. *)
Definition uses_bus (bus : nat) (o : PcolTransport) : Prop :=
  match o with PT_Loopback _ _ b => b = bus | _ => False end.
#[global] Instance uses_bus_dec bus o : Decision (uses_bus bus o).
Proof. destruct o; simpl; apply _. Defined.
Definition release_bus hp (bus : nat) : THeap :=
  if bool_decide (map_Forall (λ _ o, ¬ uses_bus bus o) (h_transports hp))
  then mkHeap (h_transports hp) (delete bus (h_buses hp)) (s_buses hp) (h_os hp) (h_next hp) else hp.
Definition h_remove hp (h : nat) (o : PcolTransport) : THeap :=
  let hp := mkHeap (delete h (h_transports hp)) (h_buses hp) (s_buses hp) (h_os hp) (h_next hp) in
  match o with PT_Loopback _ _ bus => release_bus hp bus | _ => hp end.
Definition pcol_transport_destroy (t : option nat) : HM () :=
  on_transport t () (λ h o hp,
    let! (hp, _) := h_call h (λ x, (t_close x, ())) hp in Ok (h_remove hp h o, ())).
Definition pcol_transport_external_push_recv (t : option nat) (data : option bytes)
    (from_addr : option bytes) (from_port : Z) : HM Z :=
  on_transport t PCOL_ERR_INVALID (λ h o hp,
    match data, o with
    | None, _ | Some [], _ => Ok (hp, PCOL_ERR_INVALID)
    | Some data, PT_External e =>
        Ok (h_put hp h (PT_External (xt_push_recv e data
              {| ep_address := default [] from_addr; ep_port := from_port |})), PCOL_OK)
    | _, _ => Ok (hp, PCOL_ERR_INVALID)
    end).
(** What [pop_send] writes: the packet bytes, [*out_len], the address buffer with
    its terminating zero, the port. *)
Record PopOut := { po_data : bytes; po_len : nat; po_addr : option bytes; po_port : Z }.
Definition pcol_transport_external_pop_send (t : option nat) (buf_len : option nat) (out_len : bool)
    (to_addr_buf_len : option nat) : HM (Z * option PopOut) :=
  on_transport t (PCOL_ERR_INVALID, None) (λ h o hp,
    match buf_len, out_len, o with
    | Some buf_len, true, PT_External e =>
        let '(e, r) := xt_pop_send e in
        let hp := h_put hp h (PT_External e) in
        match r with
        | None => Ok (hp, (PCOL_ERR_NOT_FOUND, None))
        | Some pkt =>
            let copy_len := if (length (xp_data pkt) <? buf_len)%nat then length (xp_data pkt) else buf_len in
            let addr := ep_address (xp_endpoint pkt) in
            Ok (hp, (PCOL_OK, Some
              {| po_data := take copy_len (xp_data pkt); po_len := length (xp_data pkt);
                 po_addr :=
                   match to_addr_buf_len with
                   | Some (S n) =>
                       let addr_copy := if (length addr <? n)%nat then length addr else n in
                       Some (take addr_copy addr ++ [0])
                   | _ => None
                   end;
                 po_port := ep_port (xp_endpoint pkt) |}))
        end
    | _, _, _ => Ok (hp, (PCOL_ERR_INVALID, None))
    end).
Definition pcol_transport_external_send_queue_size (t : option nat) : HM nat :=
  on_transport t O (λ h o hp,
    Ok (hp, match o with PT_External e => xt_send_queue_size e | _ => O end)).
(** [dynamic_cast<DtlsTransport*>] and the handshake; [None], and [Fail] below: still in
    the handshake after [fuel] attempts. *)
Definition l_handshake (n fuel entropy : nat) (clock : nat → Z) (remote : Endpoint) (timeout_ms : Z)
    : Loaded n → option (Loaded n * Z) :=
  match n return Loaded n → option (Loaded n * Z) with
  | O => λ x, Some (x, PCOL_ERR_INVALID)
  | S n => λ (x : Base + DtlsTransport (Loaded n)),
      match x with
      | inl b => Some (inl b, PCOL_ERR_INVALID)
      | inr d =>
          (λ r, (inr r.1, if (r.2 : bool) then PCOL_OK else PCOL_ERR_TIMEOUT)) <$>
            handshake fuel entropy clock d remote timeout_ms
      end
  end.
Definition pcol_transport_dtls_handshake (fuel entropy : nat) (clock : nat → Z) (t : option nat)
    (remote : PcolEndpoint) (timeout_ms : Z) : HM Z :=
  on_transport t PCOL_ERR_INVALID (λ h _ hp,
    match load depth hp h with
    | None => Oob
    | Some x =>
        match l_handshake depth fuel entropy clock (to_ep remote) timeout_ms x with
        | None => Fail
        | Some (x, r) => Ok (store depth hp h x, r)
        end
    end).

(** ** The invariant *)
Definition dt_flags {A} (d : DtlsTransport A) : Prop :=
  dt_state d ≠ DS_HANDSHAKING ∧ (dt_state d = DS_CONNECTED → is_Some (dt_ctx d)) ∧
  is_u64 (dt_bytes_encrypted d) ∧ is_u64 (dt_bytes_decrypted d).
Definition obj_ok (o : PcolTransport) : Prop :=
  match o with PT_External t => t_ok t | PT_Dtls d => dt_flags d | _ => True end.
(** What a call keeps_handles of a transport. *)
Inductive Shape := Sh_Loopback (bus_id : Z) (bus : nat) | Sh_Udp | Sh_External | Sh_Dtls (inner : nat).
Definition shape (o : PcolTransport) : Shape :=
  match o with
  | PT_Loopback _ id bus => Sh_Loopback id bus
  | PT_Udp _ => Sh_Udp
  | PT_External _ => Sh_External
  | PT_Dtls d => Sh_Dtls (dt_inner d)
  end.
(** The transports [h] whose references all lead to something, which is as it should
    be; a loopback transport is on the bus registered for its number, no bus has two
    numbers, and every bus but [pending] has a transport. *)
Record heap_inv_but (pending : option nat) hp : Prop := {
  hv_next_t : ∀ h, is_Some (h_transports hp !! h) → (h < h_next hp)%nat;
  hv_next_b : ∀ b, is_Some (h_buses hp !! b) → (b < h_next hp)%nat;
  hv_next_r : ∀ id b, s_buses hp !! id = Some b → (b < h_next hp)%nat;
  hv_load : ∀ h, is_Some (h_transports hp !! h) → is_Some (load depth hp h);
  hv_obj : map_Forall (λ _ o, obj_ok o) (h_transports hp);
  hv_bus : map_Forall (λ _ b, bus_ok b) (h_buses hp);
  hv_reg : ∀ h o id b, h_transports hp !! h = Some o → shape o = Sh_Loopback id b →
    s_buses hp !! id = Some b ∧ is_Some (h_buses hp !! b);
  hv_inj : ∀ id1 id2 b, s_buses hp !! id1 = Some b → s_buses hp !! id2 = Some b → id1 = id2;
  hv_used : ∀ b, is_Some (h_buses hp !! b) →
    pending = Some b ∨ ∃ h o id, h_transports hp !! h = Some o ∧ shape o = Sh_Loopback id b }.
Definition heap_inv hp : Prop := heap_inv_but None hp.

Lemma load_unfold n hp h :
  load n hp h =
    match h_transports hp !! h with
    | None => None
    | Some o =>
        match n return option (Loaded n) with
        | O => load_base hp o
        | S n =>
            match o with
            | PT_Dtls d => (λ x, inr (dt_rewrap d x)) <$> load n hp (dt_inner d)
            | _ => inl <$> load_base hp o
            end
        end
    end.
Proof. by destruct n. Qed.
(** What [load] finds depends on the shapes: it still finds something in a heap that
    has kept the transports in [P], which refer to transports in [P] only. *)
Lemma load_keeps (P : nat → Prop) hp hp' :
  (∀ h o, P h → h_transports hp !! h = Some o →
    ∃ o', h_transports hp' !! h = Some o' ∧ shape o' = shape o ∧
      match shape o with
      | Sh_Loopback _ b => is_Some (h_buses hp !! b) → is_Some (h_buses hp' !! b)
      | Sh_Dtls inner => P inner
      | _ => True
      end) →
  ∀ n h, P h → is_Some (load n hp h) → is_Some (load n hp' h).
Proof.
  intros Hk. induction n as [|n IH]; intros h Hh; rewrite !load_unfold;
    (destruct (h_transports hp !! h) as [o|] eqn:E; [|by intros [? ?]]);
    destruct (Hk h o Hh E) as (o' & -> & Hs & Hm).
  - destruct o, o'; simpl in *; simplify_eq; rewrite ?fmap_is_Some; done.
  - destruct o, o'; simpl in *; simplify_eq; rewrite ?fmap_is_Some; try done.
    match goal with E : dt_inner _ = dt_inner _ |- _ => rewrite E end. by apply IH.
Qed.
Lemma load_mono n hp h : is_Some (load n hp h) → is_Some (load (S n) hp h).
Proof.
  revert h. induction n as [|n IH]; intros h; rewrite (load_unfold (S _)), load_unfold;
    (destruct (h_transports hp !! h) as [o|] eqn:E; [|by intros [? ?]]).
  - destruct o; rewrite ?fmap_is_Some; try done. simpl. by intros [? ?].
  - destruct o; rewrite ?fmap_is_Some; try done. apply IH.
Qed.
(** What is loaded is well-formed, and storing something well-formed keeps_handles the shapes. *)
Lemma load_ok n hp h x :
  map_Forall (λ _ o, obj_ok o) (h_transports hp) → map_Forall (λ _ b, bus_ok b) (h_buses hp) →
  load n hp h = Some x → t_ok x.
Proof.
  intros Ho Hb. assert (∀ h o b, h_transports hp !! h = Some o → load_base hp o = Some b → t_ok b) as Hbase.
  { intros k o b Hk. specialize (Ho k o Hk). destruct o; simpl; try (by intros [= <-]).
    destruct (h_buses hp !! bus) as [q|] eqn:Eq; [|done]. intros [= <-]. exact (Hb _ _ Eq). }
  revert h x. induction n as [|n IH]; intros h x; rewrite load_unfold;
    (destruct (h_transports hp !! h) as [o|] eqn:E; [|done]); [intros Eb; by apply (Hbase h o)|].
  assert (∀ b, load_base hp o = Some b → x = inl b → t_ok x) as Hl by (intros b Eb ->; by apply (Hbase h o b)).
  destruct o as [t id bus|u|t|d].
  1-3: intros (b & Eb & ->)%fmap_Some; by apply (Hl b).
  intros (y & Ey & ->)%fmap_Some. destruct (Ho h _ E) as (? & ? & ? & ?). by split; [apply (IH _ _ Ey)|..].
Qed.
(** The heap a call leaves: the same shapes. *)
Record same_shape hp hp' : Prop := {
  sh_objs : ∀ k, shape <$> h_transports hp' !! k = shape <$> h_transports hp !! k;
  sh_buses : ∀ b, is_Some (h_buses hp' !! b) ↔ is_Some (h_buses hp !! b);
  sh_reg : s_buses hp' = s_buses hp;
  sh_next : h_next hp' = h_next hp;
  sh_obj_ok : map_Forall (λ _ o, obj_ok o) (h_transports hp) → map_Forall (λ _ o, obj_ok o) (h_transports hp');
  sh_bus_ok : map_Forall (λ _ b, bus_ok b) (h_buses hp) → map_Forall (λ _ b, bus_ok b) (h_buses hp') }.
Lemma same_shape_refl hp : same_shape hp hp.
Proof. by split. Qed.
Lemma same_shape_trans hp1 hp2 hp3 : same_shape hp1 hp2 → same_shape hp2 hp3 → same_shape hp1 hp3.
Proof.
  intros [A1 B1 C1 D1 E1 F1] [A2 B2 C2 D2 E2 F2]. split; try congruence; auto.
  - intros b. by rewrite B2.
Qed.
Lemma same_shape_put hp h o o' :
  h_transports hp !! h = Some o → shape o' = shape o → obj_ok o' → same_shape hp (h_put hp h o').
Proof.
  intros E Hs Ho. split; simpl; try done.
  - intros k. destruct (decide (h = k)) as [->|]; [rewrite lookup_insert_eq, E; simpl; by f_equal|].
    by rewrite lookup_insert_ne.
  - intros Hall. by apply map_Forall_insert_2.
Qed.
Lemma same_shape_bus hp bus b : is_Some (h_buses hp !! bus) → bus_ok b → same_shape hp (h_set_bus hp bus b).
Proof.
  intros Hb Hok. split; simpl; try done.
  - intros k. destruct (decide (bus = k)) as [->|]; [rewrite lookup_insert_eq; split; by eauto|].
    by rewrite lookup_insert_ne.
  - intros Hall. by apply map_Forall_insert_2.
Qed.
Lemma same_shape_os hp s : same_shape hp (h_set_os hp s).
Proof. by split. Qed.
Lemma store_base_shape hp h o b x :
  h_transports hp !! h = Some o → load_base hp o = Some b → t_ok x → same_shape hp (store_base hp h x).
Proof.
  intros E El Hx. unfold store_base. rewrite E. destruct x, o; try apply same_shape_refl; simpl in *.
  - eapply same_shape_trans; [|apply same_shape_bus; [|done]]; [by apply (same_shape_put hp h _ _ E)|].
    simpl. by destruct (h_buses hp !! bus).
  - eapply same_shape_trans; [|apply same_shape_os]. by apply (same_shape_put hp h _ _ E).
  - by apply (same_shape_put hp h _ _ E).
Qed.
Lemma store_shape n hp h x y : load n hp h = Some y → t_ok x → same_shape hp (store n hp h x).
Proof.
  revert hp h x y. induction n as [|n IH]; intros hp h x y; rewrite load_unfold;
    (destruct (h_transports hp !! h) as [o|] eqn:E; [|done]).
  { intros El Hx. simpl. by eapply store_base_shape. }
  destruct x as [x|d]; intros El Hx; cbn [store].
  - destruct o as [t id bus|u|t|d0]; [apply fmap_Some in El as (b & Eb & _); by eapply store_base_shape..|].
    unfold store_base. rewrite E. destruct x; apply same_shape_refl.
  - rewrite E. destruct o as [t id bus|u|t|d0]; try apply same_shape_refl.
    apply fmap_Some in El as (z & Ez & _). destruct Hx as [Hi ? ? ? ?].
    set (hp1 := h_put hp h _). assert (same_shape hp hp1) as Hs1 by (by eapply same_shape_put).
    destruct (load_keeps (λ _, True) hp hp1) with (n := n) (h := dt_inner d0) as [z' Ez']; [|done|by exists z|].
    { intros k ok _ Ek. pose proof (sh_objs _ _ Hs1 k) as Hk. rewrite Ek in Hk.
      destruct (h_transports hp1 !! k) as [o'|] eqn:Eo'; [|done]. injection Hk as Hk. exists o'.
      split_and!; [done|done|]. by destruct (shape ok). }
    eapply same_shape_trans; [exact Hs1|]. by eapply IH.
Qed.
Lemma heap_inv_same hp hp' : heap_inv hp → same_shape hp hp' → heap_inv hp'.
Proof.
  intros [Ht Hb Hr Hl Ho Hbu Hreg Hinj Hu] [S1 S2 S3 S4 S5 S6].
  assert (∀ k o', h_transports hp' !! k = Some o' → ∃ o, h_transports hp !! k = Some o ∧ shape o' = shape o) as Hback.
  { intros k o' Ek. specialize (S1 k). rewrite Ek in S1. destruct (h_transports hp !! k) as [o|]; [|done].
    exists o. split; [done|]. by injection S1. }
  assert (∀ k o, h_transports hp !! k = Some o → ∃ o', h_transports hp' !! k = Some o' ∧ shape o' = shape o) as Hfwd.
  { intros k o Ek. specialize (S1 k). rewrite Ek in S1. destruct (h_transports hp' !! k) as [o'|]; [|done].
    exists o'. split; [done|]. by injection S1. }
  split; rewrite ?S3, ?S4; auto.
  - intros h [o' E]. destruct (Hback h o' E) as (o & Eo & _). apply Ht. by exists o.
  - intros b Hbb. apply Hb. by apply S2.
  - intros h [o' E]. destruct (Hback h o' E) as (o & Eo & _).
    apply (load_keeps (λ _, True) hp hp'); [|done|apply Hl; by exists o].
    intros k ok _ Ek. destruct (Hfwd k ok Ek) as (o2 & ? & ?). exists o2. split_and!; [done..|].
    destruct (shape ok); try done. by apply S2.
  - intros h o' id b E Hs. destruct (Hback h o' E) as (o & Eo & Hs'). rewrite S2.
    apply (Hreg h o); [done|congruence].
  - intros b Hbb. destruct (Hu b) as [?|(h & o & id & Eo & Hs)]; [by apply S2|done|].
    destruct (Hfwd h o Eo) as (o' & ? & ?). right. exists h, o', id. split; [done|congruence].
Qed.
(** An address is given to something else. *)
Lemma heap_inv_next hp :
  heap_inv hp → heap_inv (mkHeap (h_transports hp) (h_buses hp) (s_buses hp) (h_os hp) (S (h_next hp))).
Proof.
  intros [Ht Hb Hr Hl Ho Hbu Hreg Hinj Hu]. split; simpl; try done.
  - intros h Hh. specialize (Ht h Hh). lia.
  - intros b Hbb. specialize (Hb b Hbb). lia.
  - intros id b Hid. specialize (Hr id b Hid). lia.
  - intros h Hh. apply (load_keeps (λ _, True) hp); [|done|by apply Hl]. intros k o _ Ek. exists o.
    split_and!; [done..|]. by destruct (shape o).
Qed.
Lemma h_call_ok {A} hp h (f : Loaded depth → Loaded depth * A) :
  heap_inv hp → is_Some (h_transports hp !! h) → (∀ x, t_ok x → t_ok (f x).1) →
  ∃ hp' a, h_call h f hp = Ok (hp', a) ∧ heap_inv hp' ∧ same_shape hp hp'.
Proof.
  intros Hi Hh Hf. unfold h_call. destruct (hv_load _ _ Hi h Hh) as [x Hx]. rewrite Hx.
  pose proof (load_ok _ _ _ _ (hv_obj _ _ Hi) (hv_bus _ _ Hi) Hx) as Hok. specialize (Hf x Hok).
  destruct (f x) as [x' a]. pose proof (store_shape _ _ _ _ _ Hx Hf) as Hs.
  eexists _, _. split_and!; [done| |done]. by eapply heap_inv_same.
Qed.
(** A new transport may refer to a registered bus or to a transport that leaves room for
    one more. *)
Lemma heap_inv_alloc pending hp o :
  heap_inv_but pending hp → obj_ok o →
  match shape o with
  | Sh_Loopback id b => s_buses hp !! id = Some b ∧ is_Some (h_buses hp !! b) ∧ pending ∈ [None; Some b]
  | Sh_Dtls inner => pending = None ∧ ∃ n, depth = S n ∧ is_Some (load n hp inner)
  | _ => pending = None
  end → heap_inv (h_alloc hp o).1.
Proof.
  intros [Ht Hb Hr Hl Ho Hbu Hreg Hinj Hu] Hoo Hsh. set (hp' := (h_alloc hp o).1).
  assert (h_transports hp !! h_next hp = None) as Hnew.
  { destruct (h_transports hp !! h_next hp) eqn:E; [|done]. specialize (Ht _ (mk_is_Some _ _ E)). lia. }
  assert (∀ k ok, h_transports hp !! k = Some ok → h_transports hp' !! k = Some ok) as Hold.
  { intros k ok Ek. simpl. rewrite lookup_insert_ne; [done|]. congruence. }
  assert (∀ n k, is_Some (load n hp k) → is_Some (load n hp' k)) as Hload.
  { intros n k. apply (load_keeps (λ _, True)); [|done]. intros j oj _ Ej. exists oj.
    split_and!; [by apply Hold|done|]. by destruct (shape oj). }
  split; simpl; try done.
  - intros h [ok Hk]. apply lookup_insert_Some in Hk as [[<- _]|[_ Hk]]; [lia|].
    specialize (Ht h (mk_is_Some _ _ Hk)). lia.
  - intros b Hbb. specialize (Hb b Hbb). lia.
  - intros id b Hid. specialize (Hr id b Hid). lia.
  - intros h [ok Hk]. apply lookup_insert_Some in Hk as [[<- <-]|[_ Hk]]; [|apply Hload, Hl; by exists ok].
    rewrite load_unfold. simpl. rewrite lookup_insert_eq. destruct o as [t id b|u|t|d]; simpl in Hsh.
    + destruct Hsh as (_ & Hbus & _). destruct depth; simpl; rewrite ?fmap_is_Some; done.
    + by destruct depth.
    + by destruct depth.
    + destruct Hsh as (_ & n & -> & Hn). rewrite fmap_is_Some. by apply Hload.
  - by apply map_Forall_insert_2.
  - intros h ok id b Hk Hs. apply lookup_insert_Some in Hk as [[<- <-]|[_ Hk]]; [|by apply (Hreg h ok)].
    rewrite Hs in Hsh. by destruct Hsh as (? & ? & _).
  - intros b Hbb. right. destruct (Hu b Hbb) as [->|(h & ok & id & Hk & Hs)].
    + destruct (shape o) as [id b'| | |] eqn:Es; try done; [|by destruct Hsh].
      destruct Hsh as (? & ? & [?|[= ->]%list_elem_of_singleton]%elem_of_cons); [done|].
      exists (h_next hp), o, id. by rewrite lookup_insert_eq.
    + exists h, ok, id. split; [by apply Hold|done].
Qed.
Lemma heap_inv_new_bus hp bus_id :
  heap_inv hp → lock_bus hp bus_id = None →
  heap_inv_but (Some (h_next hp))
    (mkHeap (h_transports hp) (<[h_next hp := lb_new]> (h_buses hp)) (<[bus_id := h_next hp]> (s_buses hp))
       (h_os hp) (S (h_next hp))).
Proof.
  intros [Ht Hb Hr Hl Ho Hbu Hreg Hinj Hu] Hlock.
  assert (∀ b, is_Some (h_buses hp !! b) → h_next hp ≠ b) as Hfresh by (intros b Hbb <-; specialize (Hb _ Hbb); lia).
  assert (∀ id b, s_buses hp !! id = Some b → is_Some (h_buses hp !! b) → bus_id ≠ id) as Hdead.
  { intros id b Hid Hbb ->. unfold lock_bus in Hlock. rewrite Hid in Hlock.
    by rewrite bool_decide_eq_true_2 in Hlock. }
  split; simpl; try done.
  - intros h Hh. specialize (Ht h Hh). lia.
  - intros b [x Hx]. apply lookup_insert_Some in Hx as [[<- _]|[_ Hx]]; [lia|].
    specialize (Hb b (mk_is_Some _ _ Hx)). lia.
  - intros id b [[_ <-]|[_ Hid]]%lookup_insert_Some; [lia|]. specialize (Hr id b Hid). lia.
  - intros h Hh. apply (load_keeps (λ _, True) hp); [|done|by apply Hl]. intros k ok _ Ek. exists ok.
    split_and!; [done..|]. destruct (shape ok) as [id b| | |]; try done. intros Hbb. simpl.
    rewrite lookup_insert_ne; [done|by apply Hfresh].
  - by apply map_Forall_insert_2.
  - intros h ok id b Hk Hs. destruct (Hreg h ok id b Hk Hs) as [Hid Hbb].
    rewrite !lookup_insert_ne; [done|by apply Hfresh|by apply (Hdead id b)].
  - intros id1 id2 b [[<- <-]|[? H1']]%lookup_insert_Some [[<- E]|[? H2']]%lookup_insert_Some; try done.
    + by specialize (Hr _ _ H2'); lia.
    + subst b. by specialize (Hr _ _ H1'); lia.
    + by eapply Hinj.
  - intros b [x Hx]. apply lookup_insert_Some in Hx as [[<- _]|[_ Hx]]; [by left|].
    destruct (Hu b (mk_is_Some _ _ Hx)) as [?|?]; [done|by right].
Qed.
(** A heap without handle [h], whose buses are exactly those the other handles use. *)
Lemma heap_inv_delete hp h hp' :
  heap_inv hp → map_Forall (λ _ o', shape o' ≠ Sh_Dtls h) (h_transports hp) →
  h_transports hp' = delete h (h_transports hp) → s_buses hp' = s_buses hp → h_next hp' = h_next hp →
  (∀ b x, h_buses hp' !! b = Some x → h_buses hp !! b = Some x) →
  (∀ k ok id b, k ≠ h → h_transports hp !! k = Some ok → shape ok = Sh_Loopback id b → is_Some (h_buses hp' !! b)) →
  (∀ b, is_Some (h_buses hp' !! b) →
    ∃ k ok id, k ≠ h ∧ h_transports hp !! k = Some ok ∧ shape ok = Sh_Loopback id b) →
  heap_inv hp'.
Proof.
  intros [Ht Hb Hr Hl Ho Hbu Hreg Hinj Hu] Hno E1 E2 E3 Hsub Hkeep Hused. split; rewrite ?E1, ?E2, ?E3; try done.
  - intros k [ok Hk]. apply lookup_delete_Some in Hk as [_ Hk]. apply Ht. by exists ok.
  - intros b [x Hx]. apply Hb. exists x. by apply Hsub.
  - intros k [ok Hk]. apply lookup_delete_Some in Hk as [Hne Hk].
    apply (load_keeps (λ j, j ≠ h) hp); [|done|apply Hl; by exists ok].
    intros j oj Hj Ej. exists oj. rewrite E1, lookup_delete_ne by done. split_and!; [done..|].
    destruct (shape oj) as [id b| | |inner] eqn:Es; try done; [intros _; by eapply Hkeep|].
    intros ->. by apply (Hno j oj Ej).
  - by apply map_Forall_delete.
  - intros b x Hx. by apply (Hbu b), Hsub.
  - intros k ok id b Hk Hs. apply lookup_delete_Some in Hk as [Hne Hk].
    split; [by apply (Hreg k ok)|by eapply Hkeep].
  - intros b Hbb. right. destruct (Hused b Hbb) as (k & ok & id & ? & ? & ?). exists k, ok, id.
    by rewrite lookup_delete_ne.
Qed.

Lemma heap_inv_remove hp h o :
  heap_inv hp → h_transports hp !! h = Some o →
  map_Forall (λ _ o', shape o' ≠ Sh_Dtls h) (h_transports hp) → heap_inv (h_remove hp h o).
Proof.
  intros Hi Hh Hno.
  assert (∀ k ok id b, k ≠ h → h_transports hp !! k = Some ok → shape ok = Sh_Loopback id b → is_Some (h_buses hp !! b))
    as Hkeep by (destruct Hi as [_ _ _ _ _ _ Hreg _ _]; intros k ok id b _ Hk Hs; by apply (Hreg k ok id b)).
  assert (∀ b, is_Some (h_buses hp !! b) → (∃ id, shape o = Sh_Loopback id b) ∨
    ∃ k ok id, k ≠ h ∧ h_transports hp !! k = Some ok ∧ shape ok = Sh_Loopback id b) as Huse.
  { destruct Hi as [_ _ _ _ _ _ _ _ Hu].
    intros b Hbb. destruct (Hu b Hbb) as [?|(k & ok & id & Hk & Hs)]; [done|].
    destruct (decide (k = h)) as [->|]; [left; exists id; congruence|right; by exists k, ok, id]. }
  pose proof (λ hp', heap_inv_delete hp h hp' Hi Hno) as Hgen.
  unfold h_remove. destruct o as [t id bus|u|t|d];
    try (apply Hgen; [done..|exact Hkeep|]; intros b [[? ?]|?]%Huse; done).
  unfold release_bus. case_bool_decide as Hfree.
  - apply Hgen; simpl; try done.
    + intros b x [_ ?]%lookup_delete_Some. done.
    + intros k ok id' b Hne Hk Hs. rewrite lookup_delete_ne; [by eapply Hkeep|]. intros <-.
      apply (Hfree k ok); [simpl; by rewrite lookup_delete_ne|]. destruct ok; simpl in *; congruence.
    + intros b [x Hx]. apply lookup_delete_Some in Hx as [Hne Hx].
      destruct (Huse b (mk_is_Some _ _ Hx)) as [[id' [= _ ?]]|?]; done.
  - apply Hgen; try done. intros b [[id' [= -> ->]]|?]%Huse; [|done].
    apply map_not_Forall in Hfree as (k & ok & Hk & Huses); [|intros ? ?; apply _].
    simpl in Hk. apply lookup_delete_Some in Hk as [Hne Hk]. apply dec_stable in Huses.
    destruct ok as [t' id'' b'| | |]; simpl in Huses; try done. subst b'. by eexists k, _, id''.
Qed.

(** ** The calls keep it *)
Definition live {A} (m : gmap nat A) (h : option nat) : Prop :=
  match h with None => True | Some h => is_Some (m !! h) end.
(** No transport disappears. *)
Definition keeps_handles hp hp' : Prop := ∀ k, is_Some (h_transports hp !! k) → is_Some (h_transports hp' !! k).
Definition call_good {A} (m : HM A) hp : Prop := ∃ hp' a, m hp = Ok (hp', a) ∧ heap_inv hp' ∧ keeps_handles hp hp'.
Lemma same_shape_keeps hp hp' : same_shape hp hp' → keeps_handles hp hp'.
Proof.
  intros Hs k [o Ho]. pose proof (sh_objs _ _ Hs k) as E. rewrite Ho in E.
  by destruct (h_transports hp' !! k).
Qed.
Lemma alloc_keeps hp o : keeps_handles hp (h_alloc hp o).1.
Proof.
  intros k Hk. simpl. destruct (decide (h_next hp = k)) as [->|]; [by rewrite lookup_insert_eq|].
  by rewrite lookup_insert_ne.
Qed.
Lemma ret_good {A} hp (a : A) : heap_inv hp → call_good (λ hp, Ok (hp, a)) hp.
Proof. intros Hi. exists hp, a. split_and!; [done..|]. by intros k. Qed.
Lemma on_transport_good {A} hp t (null : A) k :
  heap_inv hp → live (h_transports hp) t →
  (∀ h o, t = Some h → h_transports hp !! h = Some o → call_good (k h o) hp) →
  call_good (on_transport t null k) hp.
Proof.
  intros Hi Hl Hk. unfold call_good, on_transport. destruct t as [h|]; [|by apply ret_good].
  destruct Hl as [o Ho]. rewrite Ho. by apply Hk.
Qed.
Lemma h_call_good {A} hp h (f : Loaded depth → Loaded depth * A) :
  heap_inv hp → is_Some (h_transports hp !! h) → (∀ x, t_ok x → t_ok (f x).1) → call_good (h_call h f) hp.
Proof.
  intros Hi Hh Hf. destruct (h_call_ok hp h f Hi Hh Hf) as (hp' & a & E & ? & ?).
  exists hp', a. split_and!; [done..|]. by apply same_shape_keeps.
Qed.
Lemma put_external_good {A} hp h e e' (a : A) :
  heap_inv hp → h_transports hp !! h = Some (PT_External e) → t_ok e' →
  call_good (λ hp, Ok (h_put hp h (PT_External e'), a)) hp.
Proof.
  intros Hi Hh He. eexists _, _. split; [done|].
  assert (same_shape hp (h_put hp h (PT_External e'))) as Hs by (by eapply same_shape_put).
  split; [by eapply heap_inv_same|by apply same_shape_keeps].
Qed.

Lemma loopback_create_good hp bus_id : heap_inv hp → call_good (pcol_transport_loopback_create bus_id) hp.
Proof.
  intros Hi. unfold call_good, pcol_transport_loopback_create. destruct (lock_bus hp bus_id) as [bus|] eqn:El.
  - unfold lock_bus in El. destruct (s_buses hp !! bus_id) as [b|] eqn:Er; [|done].
    case_bool_decide as Hb; [|done]. injection El as ->. eexists _, _. split; [done|].
    split; [|apply alloc_keeps]. apply (heap_inv_alloc None); [done..|]. simpl. split_and!; [done..|by left].
  - eexists _, _. split; [done|]. split; [|apply (alloc_keeps (mkHeap _ _ _ _ _))].
    apply (heap_inv_alloc (Some (h_next hp))); [by apply heap_inv_new_bus|done|]. simpl.
    rewrite !lookup_insert_eq. split_and!; [done..|]. right. by left.
Qed.
Lemma udp_create_good hp : heap_inv hp → call_good pcol_transport_udp_create hp.
Proof.
  intros Hi. eexists _, _. split; [done|]. split; [|apply alloc_keeps]. by apply (heap_inv_alloc None).
Qed.
Lemma external_create_good hp : heap_inv hp → call_good pcol_transport_external_create hp.
Proof.
  intros Hi. eexists _, _. split; [done|]. split; [|apply alloc_keeps].
  apply (heap_inv_alloc None); [done| |done]. constructor.
Qed.
(** The transport may be wrapped once more. *)
Definition room hp (h : option nat) : Prop :=
  match h with None => True | Some h => match depth with O => False | S n => is_Some (load n hp h) end end.
Lemma dtls_create_good hp inner config :
  heap_inv hp → live (h_transports hp) inner → room hp inner → call_good (pcol_transport_dtls_create inner config) hp.
Proof.
  intros Hi Hl Hr. apply on_transport_good; [done..|]. intros h o -> Ho.
  destruct config as [config|]; [|by apply ret_good]. eexists _, _. split; [done|].
  split; [|apply alloc_keeps]. apply (heap_inv_alloc None); [done|by split_and!|]. simpl.
  split; [done|]. simpl in Hr. destruct depth as [|n]; [done|]. by exists n.
Qed.
Lemma bind_good hp t ep : heap_inv hp → live (h_transports hp) t → call_good (pcol_transport_bind t ep) hp.
Proof.
  intros Hi Hl. apply on_transport_good; [done..|]. intros h o _ Ho. apply h_call_good; [done|by exists o|].
  intros x Hx. pose proof (t_bind_ok x (to_ep ep) Hx). by destruct (t_bind x (to_ep ep)).
Qed.
Lemma destroy_good hp t :
  heap_inv hp → live (h_transports hp) t →
  map_Forall (λ _ o, ∀ h, shape o = Sh_Dtls h → t ≠ Some h) (h_transports hp) →
  ∃ hp', pcol_transport_destroy t hp = Ok (hp', ()) ∧ heap_inv hp' ∧
    ∀ k, t ≠ Some k → is_Some (h_transports hp !! k) → is_Some (h_transports hp' !! k).
Proof.
  intros Hi Hl Hno. unfold pcol_transport_destroy, on_transport. destruct t as [h|]; [|by eexists].
  destruct Hl as [o Ho]. rewrite Ho.
  destruct (h_call_ok hp h (λ x, (t_close x, ())) Hi (mk_is_Some _ _ Ho)) as (hp1 & [] & -> & Hi1 & Hs).
  { intros x Hx. by apply t_close_ok. }
  cbn [res_bind]. eexists. split; [done|]. pose proof (sh_objs _ _ Hs) as Hsh.
  pose proof (Hsh h) as Hh. rewrite Ho in Hh. destruct (h_transports hp1 !! h) as [o1|] eqn:Ho1; [|done].
  injection Hh as Hh. split.
  - assert (h_remove hp1 h o = h_remove hp1 h o1) as -> by (by destruct o, o1; simplify_eq/=).
    apply heap_inv_remove; [done..|]. intros k ok Hk Es. specialize (Hsh k). rewrite Hk in Hsh.
    destruct (h_transports hp !! k) as [ok0|] eqn:Ek; [|done]. injection Hsh as Hsh.
    by apply (Hno k ok0 Ek h); [congruence|].
  - intros k Hk Hkk. assert (h ≠ k) as Hne by congruence. apply (same_shape_keeps _ _ Hs) in Hkk.
    unfold h_remove, release_bus. destruct o; repeat case_match; simpl; by rewrite lookup_delete_ne.
Qed.
Lemma push_recv_good hp t data from_addr from_port :
  heap_inv hp → live (h_transports hp) t → wf_bytes (default [] data) →
  call_good (pcol_transport_external_push_recv t data from_addr from_port) hp.
Proof.
  intros Hi Hl Hd. apply on_transport_good; [done..|]. intros h o _ Ho.
  destruct data as [[|b data]|], o as [| |e|]; try (by apply ret_good).
  eapply put_external_good; [done..|]. pose proof (hv_obj _ _ Hi h _ Ho) as He. simpl in *.
  apply Forall_app. split; [done|]. by constructor.
Qed.
Lemma pop_send_good hp t buf_len out_len to_addr_buf_len :
  heap_inv hp → live (h_transports hp) t →
  call_good (pcol_transport_external_pop_send t buf_len out_len to_addr_buf_len) hp.
Proof.
  intros Hi Hl. apply on_transport_good; [done..|]. intros h o _ Ho.
  destruct buf_len as [n|], out_len, o as [| |e|]; try (by apply ret_good).
  pose proof (hv_obj _ _ Hi h _ Ho) as He. simpl in He.
  assert (t_ok (xt_pop_send e).1) as Hp by (unfold xt_pop_send; by destruct (xt_send_queue e)).
  destruct (xt_pop_send e) as [e' [pkt|]]; by eapply put_external_good.
Qed.
Lemma queue_size_good hp t :
  heap_inv hp → live (h_transports hp) t → call_good (pcol_transport_external_send_queue_size t) hp.
Proof. intros Hi Hl. apply on_transport_good; [done..|]. intros h o _ Ho. by apply ret_good. Qed.
Lemma dtls_handshake_good hp fuel entropy clock t remote timeout_ms k :
  heap_inv hp → live (h_transports hp) t → (k < fuel)%nat →
  timeout_ms * 1000000 ≤ clock (S k) - clock 0%nat →
  call_good (pcol_transport_dtls_handshake fuel entropy clock t remote timeout_ms) hp.
Proof.
  intros Hi Hl Hf Hk. apply on_transport_good; [done..|]. intros h o _ Ho. unfold call_good.
  destruct (hv_load _ _ Hi h (mk_is_Some _ _ Ho)) as [x Hx]. rewrite Hx.
  pose proof (load_ok _ _ _ _ (hv_obj _ _ Hi) (hv_bus _ _ Hi) Hx) as Hok.
  assert (∃ x' r, l_handshake depth fuel entropy clock (to_ep remote) timeout_ms x = Some (x', r) ∧ t_ok x')
    as (x' & r & -> & Hok').
  { clear Hx Ho Hi. destruct depth as [|n]; [eexists _, _; by split|].
    destruct x as [b|d]; [eexists _, _; by split|]. cbn [l_handshake].
    destruct (handshake fuel entropy clock d (to_ep remote) timeout_ms) as [[d' ok]|] eqn:E.
    - eexists _, _. split; [done|]. change (dt_ok d'). change (dt_ok d) in Hok.
      destruct (decide (dt_state d = DS_CONNECTED)).
      + by eapply (dtls_step_ok _ _ _ (Some _) (ds_handshake _ _ _ _ _ _ _ _ E)).
      + by eapply (dtls_step_ok _ _ _ None (ds_handshake _ _ _ _ _ _ _ _ E)).
    - exfalso. revert E. unfold handshake. destruct (setup_context _ _) as [d1 [c|]]; [|done].
      destruct (handshake_loop_terminates fuel 0 k clock timeout_ms (dt_set_state d1 DS_HANDSHAKING) c)
        as [r Hr]; [lia|done|]. congruence. }
  pose proof (store_shape _ _ _ _ _ Hx Hok') as Hs. eexists _, _. split; [done|].
  split; [by eapply heap_inv_same|by apply same_shape_keeps].
Qed.

(** Two loopback transports are on one bus exactly if they were made with one number. *)
Lemma loopback_shares hp h1 h2 t1 t2 id1 id2 b1 b2 :
  heap_inv hp → h_transports hp !! h1 = Some (PT_Loopback t1 id1 b1) →
  h_transports hp !! h2 = Some (PT_Loopback t2 id2 b2) → b1 = b2 ↔ id1 = id2.
Proof.
  intros Hi E1 E2. destruct (hv_reg _ _ Hi _ _ id1 b1 E1 eq_refl) as [R1 _].
  destruct (hv_reg _ _ Hi _ _ id2 b2 E2 eq_refl) as [R2 _]. split.
  - intros <-. by eapply (hv_inj _ _ Hi).
  - intros <-. congruence.
Qed.
Lemma heap_new_inv s : heap_inv (heap_new s).
Proof. split; simpl; try done; try (by intros ? [? ?]); apply map_Forall_empty. Qed.
End Heap.
