(* ===== verification/Dpdk.v ===== *)
(** * The DPDK transport

    Models [include/protocoll/transport/dpdk_transport.h] and
    [src/transport/dpdk_transport.cpp]: a transport that builds and takes apart its
    own Ethernet, IPv4 and UDP headers in packet buffers of the DPDK library, which is
    the class [Dpdk]: one operation per function the source calls, and as laws what
    DPDK documents of packet buffers ([rte_pktmbuf_append], the lengths, who owns a buffer).  The
    buffers themselves are data: the bytes behind the headroom and the length of
    the packet, so a write past the buffer is [Oob]. *)
From S2P Require Import Prelude Platform Transport.

Record Mbuf := { mb_room : bytes; mb_len : nat }.

Class Dpdk := {
  nic : Type; (* the devices, their queues and the buffer pools *)
  rte_eal_init : nic → list bytes → nic * Z;
  rte_pktmbuf_pool_create : nic → bytes → Z → Z → nic * bool;
  rte_eth_dev_configure : nic → Z → nic * Z;
  rte_eth_rx_queue_setup : nic → Z → Z → nic * Z;
  rte_eth_tx_queue_setup : nic → Z → Z → nic * Z;
  rte_eth_dev_start : nic → Z → nic * Z;
  rte_eth_promiscuous_enable : nic → Z → nic;
  rte_eth_dev_stop : nic → Z → nic;
  rte_eth_dev_close : nic → Z → nic;
  rte_pktmbuf_alloc : nic → nic * option Mbuf;
  rte_pktmbuf_free : nic → Mbuf → nic;
  rte_pktmbuf_append : Mbuf → Z → option Mbuf;
  rte_eth_tx_burst : nic → Z → Mbuf → nic * bool;
  rte_eth_rx_burst : nic → Z → nic * option Mbuf;
  rte_ipv4_cksum : bytes → Z;
  (* the state of a device that has received frames of bytes only *)
  nic_ok : nic → Prop;
  (* how many buffers the program holds *)
  mbufs_held : nic → Z;
  eal_init_ok : ∀ n argv, nic_ok n →
    nic_ok (rte_eal_init n argv).1 ∧ mbufs_held (rte_eal_init n argv).1 = mbufs_held n;
  pool_create_ok : ∀ n name size cache n' ok, nic_ok n →
    rte_pktmbuf_pool_create n name size cache = (n', ok) → nic_ok n' ∧ mbufs_held n' = mbufs_held n;
  configure_ok : ∀ n port n' r, nic_ok n → rte_eth_dev_configure n port = (n', r) →
    nic_ok n' ∧ mbufs_held n' = mbufs_held n;
  rx_setup_ok : ∀ n port desc n' r, nic_ok n → rte_eth_rx_queue_setup n port desc = (n', r) →
    nic_ok n' ∧ mbufs_held n' = mbufs_held n;
  tx_setup_ok : ∀ n port desc n' r, nic_ok n → rte_eth_tx_queue_setup n port desc = (n', r) →
    nic_ok n' ∧ mbufs_held n' = mbufs_held n;
  start_ok : ∀ n port n' r, nic_ok n → rte_eth_dev_start n port = (n', r) →
    nic_ok n' ∧ mbufs_held n' = mbufs_held n;
  promiscuous_ok : ∀ n port, nic_ok n → nic_ok (rte_eth_promiscuous_enable n port) ∧
    mbufs_held (rte_eth_promiscuous_enable n port) = mbufs_held n;
  stop_ok : ∀ n port, nic_ok n →
    nic_ok (rte_eth_dev_stop n port) ∧ mbufs_held (rte_eth_dev_stop n port) = mbufs_held n;
  close_ok : ∀ n port, nic_ok n →
    nic_ok (rte_eth_dev_close n port) ∧ mbufs_held (rte_eth_dev_close n port) = mbufs_held n;
  alloc_spec : ∀ n n' r, nic_ok n → rte_pktmbuf_alloc n = (n', r) → nic_ok n' ∧
    match r with
    | Some m => mb_len m = O ∧ wf_bytes (mb_room m) ∧ Z.of_nat (length (mb_room m)) < 65536 ∧
        mbufs_held n' = mbufs_held n + 1
    | None => mbufs_held n' = mbufs_held n
    end;
  append_spec : ∀ m len, rte_pktmbuf_append m len =
    if decide (Z.of_nat (mb_len m) + len ≤ Z.of_nat (length (mb_room m)))
    then Some {| mb_room := mb_room m; mb_len := mb_len m + Z.to_nat len |} else None;
  free_spec : ∀ n m, nic_ok n →
    nic_ok (rte_pktmbuf_free n m) ∧ mbufs_held (rte_pktmbuf_free n m) = mbufs_held n - 1;
  tx_spec : ∀ n port m n' sent, nic_ok n → rte_eth_tx_burst n port m = (n', sent) → nic_ok n' ∧
    mbufs_held n' = if sent then mbufs_held n - 1 else mbufs_held n;
  rx_spec : ∀ n port n' r, nic_ok n → rte_eth_rx_burst n port = (n', r) → nic_ok n' ∧
    match r with
    | Some m => (mb_len m ≤ length (mb_room m))%nat ∧ wf_bytes (mb_room m) ∧
        mbufs_held n' = mbufs_held n + 1
    | None => mbufs_held n' = mbufs_held n
    end;
  cksum_range : ∀ h, is_u16 (rte_ipv4_cksum h) }.

(** ** State *)
Record DpdkConfig := {
  kc_port_id : Z; kc_nb_rx_desc : Z; kc_nb_tx_desc : Z; kc_mbuf_pool_size : Z;
  kc_mbuf_cache_size : Z; kc_burst_size : Z; kc_src_mac : bytes; kc_src_ip : bytes }.
Definition DpdkConfig_default : DpdkConfig :=
  {| kc_port_id := 0; kc_nb_rx_desc := 1024; kc_nb_tx_desc := 1024; kc_mbuf_pool_size := 8192;
     kc_mbuf_cache_size := 256; kc_burst_size := 32; kc_src_mac := []; kc_src_ip := [] |}.
(** [src_ip] is the four bytes of the word [inet_pton] writes. *)
Record DpdkImpl := {
  ki_mbuf_pool : bool; ki_port_id : Z; ki_src_mac : bytes; ki_src_ip : bytes; ki_src_port : Z }.
Definition DpdkImpl_new : DpdkImpl :=
  {| ki_mbuf_pool := false; ki_port_id := 0; ki_src_mac := replicate 6 0;
     ki_src_ip := replicate 4 0; ki_src_port := 0 |}.
Record DpdkStats := {
  ks_packets_sent : Z; ks_packets_received : Z; ks_bytes_sent : Z; ks_bytes_received : Z;
  ks_rx_drops : Z; ks_tx_drops : Z }.
Record DpdkTransport := {
  dk_config : DpdkConfig; dk_bound : bool; dk_stats : DpdkStats; dk_impl : DpdkImpl;
  dk_local_ep : Endpoint }.
Definition dk_new (config : DpdkConfig) : DpdkTransport :=
  {| dk_config := config; dk_bound := false; dk_stats := Build_DpdkStats 0 0 0 0 0 0;
     dk_impl := DpdkImpl_new; dk_local_ep := Endpoint_default |}.

Definition ks_sent (s : DpdkStats) (len : nat) : DpdkStats :=
  {| ks_packets_sent := u64 (ks_packets_sent s + 1); ks_packets_received := ks_packets_received s;
     ks_bytes_sent := u64 (ks_bytes_sent s + Z.of_nat len); ks_bytes_received := ks_bytes_received s;
     ks_rx_drops := ks_rx_drops s; ks_tx_drops := ks_tx_drops s |}.
Definition ks_received (s : DpdkStats) (len : nat) : DpdkStats :=
  {| ks_packets_sent := ks_packets_sent s; ks_packets_received := u64 (ks_packets_received s + 1);
     ks_bytes_sent := ks_bytes_sent s; ks_bytes_received := u64 (ks_bytes_received s + Z.of_nat len);
     ks_rx_drops := ks_rx_drops s; ks_tx_drops := ks_tx_drops s |}.
Definition ks_rx_drop (s : DpdkStats) : DpdkStats :=
  {| ks_packets_sent := ks_packets_sent s; ks_packets_received := ks_packets_received s;
     ks_bytes_sent := ks_bytes_sent s; ks_bytes_received := ks_bytes_received s;
     ks_rx_drops := u64 (ks_rx_drops s + 1); ks_tx_drops := ks_tx_drops s |}.
Definition ks_tx_drop (s : DpdkStats) : DpdkStats :=
  {| ks_packets_sent := ks_packets_sent s; ks_packets_received := ks_packets_received s;
     ks_bytes_sent := ks_bytes_sent s; ks_bytes_received := ks_bytes_received s;
     ks_rx_drops := ks_rx_drops s; ks_tx_drops := u64 (ks_tx_drops s + 1) |}.
Definition dk_set_stats (d : DpdkTransport) (s : DpdkStats) : DpdkTransport :=
  {| dk_config := dk_config d; dk_bound := dk_bound d; dk_stats := s; dk_impl := dk_impl d;
     dk_local_ep := dk_local_ep d |}.
Definition dk_set_impl (d : DpdkTransport) (i : DpdkImpl) : DpdkTransport :=
  {| dk_config := dk_config d; dk_bound := dk_bound d; dk_stats := dk_stats d; dk_impl := i;
     dk_local_ep := dk_local_ep d |}.
Definition dk_set_bound (d : DpdkTransport) (b : bool) (local : Endpoint) : DpdkTransport :=
  {| dk_config := dk_config d; dk_bound := b; dk_stats := dk_stats d; dk_impl := dk_impl d;
     dk_local_ep := local |}.

(** ** parse_mac: [sscanf] with ["%x:%x:%x:%x:%x:%x"] *)
Definition isspace (c : Z) : bool := (c =? 32) || ((9 <=? c) && (c <=? 13)).
Fixpoint skip_space (s : bytes) : bytes :=
  match s with c :: s' => if isspace c then skip_space s' else s | [] => [] end.
Fixpoint scan_digits (acc : Z) (s : bytes) : Z * bytes :=
  match s with
  | c :: s' => match xdigit c with Some d => scan_digits (16 * acc + d) s' | None => (acc, s) end
  | [] => (acc, [])
  end.
(** The sign and the prefix [0x] are optional, one digit is needed.  A number out of
    the range of [unsigned long] is its largest value; the low 32 bits are kept. *)
Definition scan_hex (s : bytes) : option (Z * bytes) :=
  let s := skip_space s in
  let '(neg, s) := match s with
                   | 45 :: s' => (true, s') | 43 :: s' => (false, s') | _ => (false, s)
                   end in
  let s := match s with
           | 48 :: 120 :: s' | 48 :: 88 :: s' => s'
           | _ => s
           end in
  match s with
  | c :: _ =>
      if bool_decide (is_Some (xdigit c)) then
        let '(v, rest) := scan_digits 0 s in
        let v := if 2 ^ 64 <=? v then 2 ^ 64 - 1 else if neg then - v else v in
        Some (u32 v, rest)
      else None
  | [] => None
  end.
Fixpoint scan_mac (n : nat) (s : bytes) : option (list Z) :=
  match n with
  | O => Some []
  | S n' =>
      match scan_hex s with
      | None => None
      | Some (v, rest) =>
          match n' with
          | O => Some [v]
          | _ =>
              match rest with
              | 58 :: rest' => match scan_mac n' rest' with Some vs => Some (v :: vs) | None => None end
              | _ => None
              end
          end
      end
  end.
Definition parse_mac (mac_str : bytes) : option bytes :=
  if (length mac_str =? 0)%nat then Some (replicate 6 0) else
  match scan_mac 6 mac_str with Some vs => Some (u8 <$> vs) | None => None end.

(** ** Header layout *)
Definition ETH_HDR_LEN : nat := 14.
Definition IP_HDR_LEN : nat := 20.
Definition UDP_HDR_LEN : nat := 8.
Definition TOTAL_HDR : nat := 42.
Definition RTE_ETHER_TYPE_IPV4 : Z := 2048.
Definition IPPROTO_UDP : Z := 17.

(** The process: [g_eal_initialized] and the devices. *)
Record DpdkWorld `{Dpdk} := { dw_eal : bool; dw_nic : nic }.

Section Dpdk.
Context `{Dpdk} `{Inet}.
Implicit Types (d : DpdkTransport) (w : DpdkWorld).

Definition dw_set_nic w (n : nic) : DpdkWorld := {| dw_eal := dw_eal w; dw_nic := n |}.
Definition init_eal w (argv : list bytes) : DpdkWorld * bool :=
  if dw_eal w then (w, true) else
  let '(n, ret) := rte_eal_init (dw_nic w) argv in
  if ret <? 0 then (dw_set_nic w n, false) else ({| dw_eal := true; dw_nic := n |}, true).

(** ["pcol_pool_"] and the port number *)
Definition pool_name (port_id : Z) : bytes :=
  [112; 99; 111; 108; 95; 112; 111; 111; 108; 95] ++ to_string port_id.
(** The device calls of [bind], the first failing one returns false. *)
Definition dev_setup (cfg : DpdkConfig) (port : Z) (n : nic) : nic * bool :=
  let '(n, ret) := rte_eth_dev_configure n port in
  if ret <? 0 then (n, false) else
  let '(n, ret) := rte_eth_rx_queue_setup n port (kc_nb_rx_desc cfg) in
  if ret <? 0 then (n, false) else
  let '(n, ret) := rte_eth_tx_queue_setup n port (kc_nb_tx_desc cfg) in
  if ret <? 0 then (n, false) else
  let '(n, ret) := rte_eth_dev_start n port in
  if ret <? 0 then (n, false) else
  (rte_eth_promiscuous_enable n port, true).
Definition ki_addresses (i : DpdkImpl) (port_id : Z) (mac ip : bytes) (port : Z) : DpdkImpl :=
  {| ki_mbuf_pool := ki_mbuf_pool i; ki_port_id := port_id; ki_src_mac := mac; ki_src_ip := ip;
     ki_src_port := port |}.
Definition ki_set_pool (i : DpdkImpl) (b : bool) : DpdkImpl :=
  {| ki_mbuf_pool := b; ki_port_id := ki_port_id i; ki_src_mac := ki_src_mac i;
     ki_src_ip := ki_src_ip i; ki_src_port := ki_src_port i |}.
Definition dk_bind d w (local : Endpoint) : DpdkTransport * DpdkWorld * bool :=
  if negb (dw_eal w) then (d, w, false) else
  if dk_bound d then (d, w, false) else
  let cfg := dk_config d in
  let i := dk_impl d in
  match parse_mac (kc_src_mac cfg) with
  | None =>
      (dk_set_impl d (ki_addresses i (kc_port_id cfg) (ki_src_mac i) (ki_src_ip i) (ki_src_port i)),
       w, false)
  | Some mac =>
      let ip_str := if (length (kc_src_ip cfg) =? 0)%nat then ep_address local else kc_src_ip cfg in
      let ip := if negb (length ip_str =? 0)%nat
                then default (ki_src_ip i) (inet_pton ip_str) else ki_src_ip i in
      let i := ki_addresses i (kc_port_id cfg) mac ip (ep_port local) in
      let '(n, pool) := rte_pktmbuf_pool_create (dw_nic w) (pool_name (kc_port_id cfg))
                          (kc_mbuf_pool_size cfg) (kc_mbuf_cache_size cfg) in
      let d := dk_set_impl d (ki_set_pool i pool) in
      if negb pool then (d, dw_set_nic w n, false) else
      let '(n, ok) := dev_setup cfg (ki_port_id i) n in
      (if ok then dk_set_bound d true local else d, dw_set_nic w n, ok)
  end.
Definition dk_close d w : DpdkTransport * DpdkWorld :=
  if negb (dk_bound d) then (d, w) else
  let n := rte_eth_dev_stop (dw_nic w) (ki_port_id (dk_impl d)) in
  let n := rte_eth_dev_close n (ki_port_id (dk_impl d)) in
  (dk_set_bound d false (dk_local_ep d), dw_set_nic w n).

(** ** send_to: the headers and the payload, at [pkt] in the buffer [b] *)
Definition eth_header (i : DpdkImpl) (pkt : nat) (b : bytes) : res bytes :=
  let! b := store b pkt (replicate 6 255) in
  let! b := store b (pkt + 6) (ki_src_mac i) in
  write_u16 b (pkt + 12) RTE_ETHER_TYPE_IPV4.
Definition ip_header (i : DpdkImpl) (remote : Endpoint) (len : nat) (ip : nat) (b : bytes)
    : res bytes :=
  let! b := store b ip (replicate IP_HDR_LEN 0) in
  let! b := put8 b ip 69 in
  let! b := write_u16 b (ip + 2) (u16 (Z.of_nat (IP_HDR_LEN + UDP_HDR_LEN + len))) in
  let! b := put8 b (ip + 8) 64 in
  let! b := put8 b (ip + 9) IPPROTO_UDP in
  let! b := store b (ip + 12) (ki_src_ip i) in
  let! b := match inet_pton (ep_address remote) with
            | Some a => store b (ip + 16) a
            | None => Ok b
            end in
  let! h := slice b ip IP_HDR_LEN in
  store b (ip + 10) (le_bytes 2 (rte_ipv4_cksum h)).
Definition udp_header (i : DpdkImpl) (remote : Endpoint) (len : nat) (udp : nat) (b : bytes)
    : res bytes :=
  let! b := write_u16 b udp (ki_src_port i) in
  let! b := write_u16 b (udp + 2) (ep_port remote) in
  let! b := write_u16 b (udp + 4) (u16 (Z.of_nat (UDP_HDR_LEN + len))) in
  store b (udp + 6) (le_bytes 2 0).
Definition build_packet (i : DpdkImpl) (data : bytes) (remote : Endpoint) (pkt : nat) (b : bytes)
    : res bytes :=
  let! b := eth_header i pkt b in
  let! b := ip_header i remote (length data) (pkt + ETH_HDR_LEN) b in
  let! b := udp_header i remote (length data) (pkt + ETH_HDR_LEN + IP_HDR_LEN) b in
  store b (pkt + ETH_HDR_LEN + IP_HDR_LEN + UDP_HDR_LEN) data.

Definition dk_send_to d w (data : bytes) (remote : Endpoint) : res (DpdkTransport * DpdkWorld * Z) :=
  if negb (dk_bound d) || negb (ki_mbuf_pool (dk_impl d)) then Ok (d, w, -1) else
  let drop n := Ok (dk_set_stats d (ks_tx_drop (dk_stats d)), dw_set_nic w n, -1) in
  let '(n, r) := rte_pktmbuf_alloc (dw_nic w) in
  match r with
  | None => drop n
  | Some mbuf =>
      let total_len := Z.of_nat (ETH_HDR_LEN + IP_HDR_LEN + UDP_HDR_LEN + length data) in
      match rte_pktmbuf_append mbuf (u16 total_len) with
      | None => drop (rte_pktmbuf_free n mbuf)
      | Some mbuf' =>
          let! b := build_packet (dk_impl d) data remote (mb_len mbuf) (mb_room mbuf') in
          let mbuf' := {| mb_room := b; mb_len := mb_len mbuf' |} in
          let '(n, sent) := rte_eth_tx_burst n (ki_port_id (dk_impl d)) mbuf' in
          if negb sent then drop (rte_pktmbuf_free n mbuf') else
          Ok (dk_set_stats d (ks_sent (dk_stats d) (length data)), dw_set_nic w n,
              i32 (Z.of_nat (length data)))
      end
  end.

(** ** recv_from *)

(** The payload and the sender of a received buffer; [None] is a short frame. *)
Definition parse_mbuf (m : Mbuf) (buf_len : nat) : res (option (bytes * Endpoint)) :=
  let pkt_len := mb_len m in
  if (pkt_len <? TOTAL_HDR)%nat then Ok None else
  let pkt := take pkt_len (mb_room m) in
  let! src := slice pkt (ETH_HDR_LEN + 12) 4 in
  let! port := read_u16 pkt (ETH_HDR_LEN + IP_HDR_LEN) in
  let payload_len := (pkt_len - TOTAL_HDR)%nat in
  let payload_len := if (buf_len <? payload_len)%nat then buf_len else payload_len in
  let! data := slice pkt TOTAL_HDR payload_len in
  Ok (Some (data, {| ep_address := inet_ntop src; ep_port := port |})).
Definition dk_recv_from d w (buf_len : nat) (timeout_ms : Z)
    : res (DpdkTransport * DpdkWorld * option (bytes * Endpoint)) :=
  if negb (dk_bound d) then Ok (d, w, None) else
  let '(n, r) := rte_eth_rx_burst (dw_nic w) (ki_port_id (dk_impl d)) in
  match r with
  | None => Ok (d, dw_set_nic w n, None)
  | Some mbuf =>
      let! out := parse_mbuf mbuf buf_len in
      let w := dw_set_nic w (rte_pktmbuf_free n mbuf) in
      match out with
      | None => Ok (dk_set_stats d (ks_rx_drop (dk_stats d)), w, None)
      | Some (data, from) =>
          Ok (dk_set_stats d (ks_received (dk_stats d) (length data)), w, Some (data, from))
      end
  end.

(** ** The reference layout of a frame *)
Definition frame_ip (src dst : bytes) (len : nat) (cksum : bytes) : bytes :=
  [69; 0] ++ be16 (Z.of_nat (28 + len)) ++ [0; 0; 0; 0; 64; 17] ++ cksum ++ src ++ dst.
Definition frame_udp (src_port dst_port : Z) (len : nat) : bytes :=
  be16 src_port ++ be16 dst_port ++ be16 (Z.of_nat (8 + len)) ++ [0; 0].
(** The destination of an address that does not parse is 0.0.0.0. *)
Definition frame_dst (remote : Endpoint) : bytes := default (replicate 4 0) (inet_pton (ep_address remote)).
Definition dpdk_frame (i : DpdkImpl) (data : bytes) (remote : Endpoint) : bytes :=
  let len := length data in
  let dst := frame_dst remote in
  let cksum := le_bytes 2 (rte_ipv4_cksum (frame_ip (ki_src_ip i) dst len [0; 0])) in
  replicate 6 255 ++ ki_src_mac i ++ [8; 0] ++ frame_ip (ki_src_ip i) dst len cksum ++
  frame_udp (ki_src_port i) (ep_port remote) len ++ data.

Definition impl_ok (i : DpdkImpl) : Prop :=
  length (ki_src_mac i) = 6%nat ∧ wf_bytes (ki_src_mac i) ∧
  length (ki_src_ip i) = 4%nat ∧ wf_bytes (ki_src_ip i) ∧ is_u16 (ki_src_port i).

(** ** Executions: a program that uses one transport *)
Inductive DpdkOp :=
| DkInitEal (argv : list bytes) | DkBind (local : Endpoint) | DkClose
| DkSend (data : bytes) (remote : Endpoint) | DkRecv (buf_len : nat) (timeout_ms : Z).
Definition dk_exec (st : DpdkTransport * DpdkWorld) (op : DpdkOp) : res (DpdkTransport * DpdkWorld) :=
  let '(d, w) := st in
  match op with
  | DkInitEal argv => let '(w, _) := init_eal w argv in Ok (d, w)
  | DkBind local => let '(d, w, _) := dk_bind d w local in Ok (d, w)
  | DkClose => Ok (dk_close d w)
  | DkSend data remote => let! (d, w, _) := dk_send_to d w data remote in Ok (d, w)
  | DkRecv n timeout => let! (d, w, _) := dk_recv_from d w n timeout in Ok (d, w)
  end.
(** Ports are 16-bit, and with its headers the data is shorter than 2^16 bytes. *)
Definition dk_op_ok (op : DpdkOp) : Prop :=
  match op with
  | DkBind local => is_u16 (ep_port local)
  | DkSend data _ => Z.of_nat (42 + length data) < 65536
  | _ => True
  end.
#[global] Instance dk_op_ok_dec op : Decision (dk_op_ok op).
Proof. destruct op; apply _. Defined.

(** ** The code writes the reference layout *)

(** A store behind a prefix. *)
Lemma store_behind e b off o bs :
  o = (length e + off)%nat → store (e ++ b) o bs = let! b' := store b off bs in Ok (e ++ b').
Proof.
  intros ->. unfold store. rewrite length_app. case_decide.
  - rewrite decide_True by lia. simpl. unfold splice.
    rewrite take_app_add, <-app_assoc, <-Nat.add_assoc, drop_app_add. done.
  - by rewrite decide_False by lia.
Qed.
Lemma split_at (n : nat) (b : bytes) : (n ≤ length b)%nat → ∃ p r, b = p ++ r ∧ length p = n.
Proof.
  intros Hn. exists (take n b), (drop n b). rewrite take_drop, length_take. split; [done|lia].
Qed.
(** A list of known length as its elements. *)
Ltac explode l :=
  repeat match goal with
  | H : length l = S _ |- _ => destruct l as [|? l]; [discriminate H|injection H as H]
  | H : length l = O |- _ => apply nil_length_inv in H; subst l
  end.
(** One store into a list whose head is known. *)
Ltac do_store :=
  rewrite store_Ok by (simpl; lia); cbn [res_bind]; unfold splice; cbn [length Nat.add take drop app replicate].

Lemma eth_header_spec i p r :
  length (ki_src_mac i) = 6%nat → length p = 14%nat →
  eth_header i 0 (p ++ r) = Ok (replicate 6 255 ++ ki_src_mac i ++ [8; 0] ++ r).
Proof.
  unfold eth_header. intros Hm Hp. generalize dependent (ki_src_mac i); intros mac Hm.
  explode mac. explode p. cbn [app replicate].
  do_store. do_store. rewrite write_u16_be. do_store. done.
Qed.

Lemma frame_dst_length remote : length (frame_dst remote) = 4%nat.
Proof.
  unfold frame_dst. destruct (inet_pton _) eqn:E; [|done]. by apply pton_spec in E as [? _].
Qed.

(** The last step of the IPv4 header: the checksum over the header with a zero
    checksum field. *)
Lemma ip_cksum_spec src dst len r :
  length src = 4%nat → length dst = 4%nat →
  (let b := frame_ip src dst len [0; 0] ++ r in
   let! h := slice b 0 IP_HDR_LEN in store b 10 (le_bytes 2 (rte_ipv4_cksum h))) =
  Ok (frame_ip src dst len (le_bytes 2 (rte_ipv4_cksum (frame_ip src dst len [0; 0]))) ++ r).
Proof.
  intros Hs Hd. cbv zeta.
  assert (slice (frame_ip src dst len [0; 0] ++ r) 0 IP_HDR_LEN = Ok (frame_ip src dst len [0; 0])) as ->.
  { apply (slice_mid' []); [done|]. unfold frame_ip. explode src. by explode dst. }
  cbn [res_bind]. generalize (rte_ipv4_cksum (frame_ip src dst len [0; 0])). intros ck.
  unfold frame_ip, be16. explode src. explode dst. cbn [app le_bytes]. do_store. done.
Qed.
Lemma ip_header_0 i remote len p r :
  length (ki_src_ip i) = 4%nat → length p = 20%nat → Z.of_nat (28 + len) < 65536 →
  ip_header i remote len 0 (p ++ r) =
    Ok (frame_ip (ki_src_ip i) (frame_dst remote) len
          (le_bytes 2 (rte_ipv4_cksum (frame_ip (ki_src_ip i) (frame_dst remote) len [0; 0]))) ++ r).
Proof.
  intros Hs Hp Hlen. pose proof (frame_dst_length remote) as Hd.
  rewrite <-ip_cksum_spec by done. unfold ip_header, frame_dst, frame_ip in *.
  generalize dependent (ki_src_ip i); intros src Hs. explode src. explode p. unfold put8.
  cbn [app]. unfold IP_HDR_LEN, UDP_HDR_LEN. do 2 do_store.
  rewrite write_u16_be, (wrap_id 16) by ulia. unfold be16. do 4 do_store.
  destruct (inet_pton _) as [a|]; simpl in Hd; [|done].
  explode a. by do_store.
Qed.
Lemma udp_header_0 i remote len p r :
  length p = 8%nat → Z.of_nat (8 + len) < 65536 →
  udp_header i remote len 0 (p ++ r) = Ok (frame_udp (ki_src_port i) (ep_port remote) len ++ r).
Proof.
  intros Hp Hlen. unfold udp_header, frame_udp. explode p. cbn [app]. unfold UDP_HDR_LEN.
  rewrite write_u16_be. unfold be16. do_store. rewrite write_u16_be. unfold be16. do_store.
  rewrite write_u16_be, (wrap_id 16) by ulia. unfold be16. do_store.
  change (le_bytes 2 0) with [0; 0]. by do_store.
Qed.

(** The writers behind a prefix. *)
Ltac behind e :=
  first [ rewrite (store_behind e _ 0) by lia
        | match goal with
          | |- context [store (e ++ _) (length e + ?o) _] => rewrite (store_behind e _ o) by lia
          end ];
  lazymatch goal with
  | |- context [res_bind (store ?b ?o ?bs) (λ b', Ok (e ++ b'))] =>
      change (store b (0 + o)) with (store b o);
      destruct (store b o bs); cbn [res_bind]; [|done|done]
  end.
Lemma ip_header_behind i remote len e b :
  ip_header i remote len (length e) (e ++ b) =
    let! b' := ip_header i remote len 0 b in Ok (e ++ b').
Proof.
  unfold ip_header, put8, write_u16. do 6 behind e.
  assert (∀ b', (let! h := slice (e ++ b') (length e) IP_HDR_LEN in
      store (e ++ b') (length e + 10) (le_bytes 2 (rte_ipv4_cksum h))) =
    (let! b'' := (let! h := slice b' 0 IP_HDR_LEN in store b' 10 (le_bytes 2 (rte_ipv4_cksum h))) in
     Ok (e ++ b''))) as Hck.
  { intros b'. unfold slice. rewrite length_app, drop_app_length. case_decide.
    - rewrite decide_True by lia. cbn [res_bind]. by rewrite (store_behind e _ 10) by lia.
    - by rewrite decide_False by lia. }
  destruct (inet_pton _) as [d|]; [behind e|]; apply Hck.
Qed.
Lemma udp_header_behind i remote len e b :
  udp_header i remote len (length e) (e ++ b) =
    let! b' := udp_header i remote len 0 b in Ok (e ++ b').
Proof. unfold udp_header, write_u16. do 3 behind e. by rewrite (store_behind e _ 6) by lia. Qed.

(** [build_packet] fills the start of the buffer with the frame and leaves the rest. *)
Lemma build_packet_spec i data remote b :
  impl_ok i → (42 + length data ≤ length b)%nat → Z.of_nat (28 + length data) < 65536 →
  build_packet i data remote 0 b = Ok (dpdk_frame i data remote ++ drop (42 + length data) b).
Proof.
  intros (Hmac & _ & Hip & _ & _) Hb Hlen.
  destruct (split_at 14 b) as (e & b1 & -> & He); [lia|]. rewrite length_app in Hb.
  destruct (split_at 20 b1) as (p & b2 & -> & Hp); [lia|]. rewrite length_app in Hb.
  destruct (split_at 8 b2) as (u & b3 & -> & Hu); [lia|]. rewrite length_app in Hb.
  destruct (split_at (length data) b3) as (q & b4 & -> & Hq); [lia|].
  assert (drop (42 + length data) (e ++ p ++ u ++ q ++ b4) = b4) as ->.
  { rewrite !app_assoc. apply drop_app_length'. rewrite !length_app. lia. }
  unfold build_packet. rewrite eth_header_spec by done. cbn [res_bind].
  set (eth := replicate 6 255 ++ ki_src_mac i ++ [8; 0]).
  assert (length eth = 14%nat) as Heth by (subst eth; rewrite !length_app; simpl; lia).
  replace (replicate 6 255 ++ ki_src_mac i ++ [8; 0] ++ p ++ u ++ q ++ b4)
    with (eth ++ (p ++ u ++ q ++ b4)) by (subst eth; by rewrite <-!app_assoc).
  change (0 + ETH_HDR_LEN)%nat with 14%nat. rewrite <-Heth, ip_header_behind, ip_header_0 by done.
  cbn [res_bind].
  set (ip := frame_ip _ _ _ (le_bytes _ _)).
  assert (length ip = 20%nat) as Hipl.
  { subst ip. unfold frame_ip. rewrite !length_app, Hip, frame_dst_length. done. }
  replace (length eth + IP_HDR_LEN)%nat with (length (eth ++ ip)) by (rewrite length_app, Hipl; done).
  rewrite app_assoc, udp_header_behind, udp_header_0 by (done || lia). cbn [res_bind].
  set (udp := frame_udp _ _ _).
  rewrite (store_behind (eth ++ ip) _ (length udp)) by (rewrite !length_app, Heth, Hipl; done).
  rewrite (store_behind udp _ 0) by lia. rewrite store_Ok by (rewrite length_app; lia).
  cbn [res_bind]. unfold splice. cbn [take app Nat.add].
  assert (drop (length data) (q ++ b4) = b4) as -> by (by apply drop_app_length').
  unfold dpdk_frame. subst eth ip udp. by rewrite <-!app_assoc.
Qed.

(** ** Receiving *)
Lemma parse_mbuf_spec m n :
  (mb_len m ≤ length (mb_room m))%nat → wf_bytes (mb_room m) →
  ∃ out, parse_mbuf m n = Ok out ∧
    match out with
    | None => (mb_len m < 42)%nat
    | Some (data, from) => (42 ≤ mb_len m)%nat ∧ is_u16 (ep_port from) ∧
        data = take n (drop 42 (take (mb_len m) (mb_room m)))
    end.
Proof.
  intros Hl Hwf. unfold parse_mbuf, TOTAL_HDR, ETH_HDR_LEN, IP_HDR_LEN.
  destruct (Nat.ltb_spec (mb_len m) 42) as [|H42]; [by eexists|].
  set (pkt := take (mb_len m) (mb_room m)).
  assert (length pkt = mb_len m) as Hp by (subst pkt; rewrite length_take; lia).
  rewrite slice_Ok by lia. cbn [res_bind].
  destruct (read_u16 pkt (14 + 20)) as [port| |] eqn:Er; cbn [res_bind].
  2: { unfold read_u16 in Er. by rewrite slice_Ok in Er by lia. }
  2: { unfold read_u16 in Er. by rewrite slice_Ok in Er by lia. }
  apply read_u16_range in Er; [|subst pkt; by apply Forall_take].
  rewrite slice_Ok by (case_match eqn:E; [apply Nat.ltb_lt in E|]; lia). cbn [res_bind].
  eexists; split; [done|]. cbn. split_and!; [done|done|].
  case_match eqn:E; [done|]. apply Nat.ltb_ge in E.
  rewrite !take_ge; [done|rewrite length_drop; lia|rewrite length_drop; lia].
Qed.
(** A frame of the reference layout, with what the network appended to it. *)
Lemma parse_mbuf_frame i data remote pad m n :
  impl_ok i → take (mb_len m) (mb_room m) = dpdk_frame i data remote ++ pad →
  (mb_len m ≤ length (mb_room m))%nat →
  parse_mbuf m n = Ok (Some (take n (data ++ pad),
    {| ep_address := inet_ntop (ki_src_ip i); ep_port := ki_src_port i |})).
Proof.
  intros (Hmac & _ & Hip & _ & Hport) Hpkt Hl.
  assert (length (take (mb_len m) (mb_room m)) = mb_len m) as Hlen by (rewrite length_take; lia).
  unfold parse_mbuf. rewrite Hpkt in *. clear Hpkt.
  revert Hlen. unfold dpdk_frame.
  match goal with |- context [le_bytes 2 ?v] => assert (length (le_bytes 2 v) = 2%nat) as Hck by done;
    generalize dependent (le_bytes 2 v) end. intros ck Hck. pose proof (frame_dst_length remote) as Hd.
  generalize dependent (frame_dst remote).
  generalize dependent (ki_src_mac i); generalize dependent (ki_src_ip i).
  intros ip Hip mac Hmac dst Hd. explode ip. explode mac. explode ck. explode dst.
  unfold frame_ip, frame_udp. cbn [app replicate be16]. intros Hlen. cbn [length] in Hlen.
  rewrite (proj2 (Nat.ltb_ge _ _)) by (unfold TOTAL_HDR; lia).
  rewrite slice_Ok by (simpl; lia). cbn [res_bind take drop ETH_HDR_LEN Nat.add].
  unfold read_u16, ETH_HDR_LEN, IP_HDR_LEN. rewrite slice_Ok by (simpl; lia).
  cbn [res_bind take drop Nat.add].
  fold (be16 (ki_src_port i)). rewrite net16_be16 by done.
  assert (mb_len m - TOTAL_HDR = length (data ++ pad))%nat as -> by (unfold TOTAL_HDR; lia).
  rewrite slice_Ok by (unfold TOTAL_HDR; cbn [length]; case_match eqn:E; [apply Nat.ltb_lt in E|]; lia).
  cbn [res_bind drop TOTAL_HDR]. do 3 f_equal.
  destruct (Nat.ltb_spec n (length (data ++ pad))); [done|]. rewrite (take_ge _ n) by lia.
  apply take_ge. lia.
Qed.

(** ** Binding keeps the addresses well-formed *)
Lemma scan_mac_length n s vs : scan_mac n s = Some vs → length vs = n.
Proof.
  revert s vs; induction n as [|n IH]; intros s vs; simpl; [by intros [= <-]|].
  destruct (scan_hex s) as [[v rest]|]; [|done]. destruct n as [|n]; [by intros [= <-]|].
  destruct rest as [|c rest]; [done|]. destruct (decide (c = 58)) as [->|Hc].
  - destruct (scan_mac (S n) rest) as [vs'|] eqn:E; [|done]. intros [= <-]. simpl. f_equal. by eapply IH.
  - intros E. exfalso. repeat case_match; simplify_eq.
Qed.
Lemma parse_mac_ok s mac : parse_mac s = Some mac → length mac = 6%nat ∧ wf_bytes mac.
Proof.
  unfold parse_mac. case_match; [intros [= <-]; split; [done|by_decide]|].
  destruct (scan_mac 6 s) as [vs|] eqn:E; [|done]. intros [= <-]. rewrite length_fmap.
  split; [by eapply scan_mac_length|]. apply Forall_fmap, Forall_true. intros; apply u8_is_u.
Qed.
Definition nic_same (n n' : nic) : Prop := nic_ok n' ∧ mbufs_held n' = mbufs_held n.
Lemma nic_same_trans n1 n2 n3 :
  nic_same n1 n2 → (nic_ok n2 → nic_same n2 n3) → nic_same n1 n3.
Proof. intros [H1 E1] H2. destruct (H2 H1) as [? E2]. split; [done|congruence]. Qed.
Lemma dev_setup_ok cfg port n : nic_ok n → nic_same n (dev_setup cfg port n).1.
Proof.
  intros Hn. unfold dev_setup.
  destruct (rte_eth_dev_configure n port) as [n1 r1] eqn:E1. apply configure_ok in E1; [|done].
  case_match; [done|]. eapply nic_same_trans; [exact E1|intros Hn1].
  destruct (rte_eth_rx_queue_setup n1 port _) as [n2 r2] eqn:E2. apply rx_setup_ok in E2; [|done].
  case_match; [done|]. eapply nic_same_trans; [exact E2|intros Hn2].
  destruct (rte_eth_tx_queue_setup n2 port _) as [n3 r3] eqn:E3. apply tx_setup_ok in E3; [|done].
  case_match; [done|]. eapply nic_same_trans; [exact E3|intros Hn3].
  destruct (rte_eth_dev_start n3 port) as [n4 r4] eqn:E4. apply start_ok in E4; [|done].
  case_match; [done|]. eapply nic_same_trans; [exact E4|intros Hn4]. by apply promiscuous_ok.
Qed.
Lemma dk_bind_ok d w local d' w' ok :
  impl_ok (dk_impl d) → nic_ok (dw_nic w) → is_u16 (ep_port local) →
  dk_bind d w local = (d', w', ok) →
  impl_ok (dk_impl d') ∧ nic_same (dw_nic w) (dw_nic w') ∧ dk_bound d' = (dk_bound d || ok).
Proof.
  intros (Hm & Hmw & Hi & Hiw & Hp) Hn Hl. unfold dk_bind.
  destruct (dw_eal w); simpl; [|intros [= <- <- <-]; by rewrite orb_false_r].
  destruct (dk_bound d) eqn:Hb; [by intros [= <- <- <-]; rewrite Hb|].
  destruct (parse_mac _) as [mac|] eqn:Emac; [|by intros [= <- <- <-]].
  apply parse_mac_ok in Emac as [Hml Hmw'].
  set (ip_str := if (length (kc_src_ip (dk_config d)) =? 0)%nat then _ else _).
  set (ip := if negb (length ip_str =? 0)%nat then _ else _).
  assert (length ip = 4%nat ∧ wf_bytes ip) as [Hl4 Hw4].
  { subst ip. destruct (negb _); [|done]. destruct (inet_pton ip_str) eqn:E; [|done].
    by apply pton_spec in E. }
  destruct (rte_pktmbuf_pool_create _ _ _ _) as [n1 pool] eqn:E1. apply pool_create_ok in E1; [|done].
  destruct pool; simpl; [|by intros [= <- <- <-]].
  pose proof (dev_setup_ok (dk_config d) (kc_port_id (dk_config d)) n1) as Hdev.
  destruct (dev_setup _ _ n1) as [n2 ok'].
  assert (nic_same (dw_nic w) n2) by (by eapply nic_same_trans).
  destruct ok'; by intros [= <- <- <-].
Qed.

(** ** Sending *)
(** The buffer handed to the device, once one was allocated. *)
Definition sent_mbuf d (data : bytes) (remote : Endpoint) (m : Mbuf) : Mbuf :=
  {| mb_room := dpdk_frame (dk_impl d) data remote ++ drop (42 + length data) (mb_room m);
     mb_len := 42 + length data |}.
Lemma dpdk_frame_length i data remote :
  impl_ok i → length (dpdk_frame i data remote) = (42 + length data)%nat.
Proof.
  intros (Hm & _ & Hi & _ & _). unfold dpdk_frame, frame_ip.
  rewrite !length_app, Hm, Hi, frame_dst_length. simpl. lia.
Qed.
Lemma dk_send_spec d w data remote :
  impl_ok (dk_impl d) → nic_ok (dw_nic w) → Z.of_nat (42 + length data) < 65536 →
  dk_send_to d w data remote =
    if negb (dk_bound d) || negb (ki_mbuf_pool (dk_impl d)) then Ok (d, w, -1) else
    let drop n := Ok (dk_set_stats d (ks_tx_drop (dk_stats d)), dw_set_nic w n, -1) in
    match rte_pktmbuf_alloc (dw_nic w) with
    | (n, None) => drop n
    | (n, Some m) =>
        if decide (42 + length data ≤ length (mb_room m))%nat then
          let m' := sent_mbuf d data remote m in
          match rte_eth_tx_burst n (ki_port_id (dk_impl d)) m' with
          | (n, false) => drop (rte_pktmbuf_free n m')
          | (n, true) => Ok (dk_set_stats d (ks_sent (dk_stats d) (length data)), dw_set_nic w n,
                             i32 (Z.of_nat (length data)))
          end
        else drop (rte_pktmbuf_free n m)
    end.
Proof.
  intros Hi Hn Hlen. unfold dk_send_to. destruct (_ || _); [done|].
  destruct (rte_pktmbuf_alloc _) as [n [m|]] eqn:Ea; [|done].
  apply alloc_spec in Ea as (_ & Hm0 & _ & _ & _); [|done].
  rewrite (wrap_id 16) by (unfold ETH_HDR_LEN, IP_HDR_LEN, UDP_HDR_LEN; ulia).
  rewrite append_spec, Hm0.
  destruct (decide (42 + length data ≤ length (mb_room m))%nat) as [Hfit|Hfit].
  - rewrite decide_True by (unfold ETH_HDR_LEN, IP_HDR_LEN, UDP_HDR_LEN; lia). cbn [mb_room mb_len].
    rewrite build_packet_spec by (done || lia). cbn [res_bind]. rewrite Nat2Z.id.
    change {| mb_room := _; mb_len := _ |} with (sent_mbuf d data remote m).
    destruct (rte_eth_tx_burst _ _ _) as [n' []]; done.
  - by rewrite decide_False by (unfold ETH_HDR_LEN, IP_HDR_LEN, UDP_HDR_LEN; lia).
Qed.
Lemma dk_send_safe d w data remote :
  impl_ok (dk_impl d) → nic_ok (dw_nic w) → Z.of_nat (42 + length data) < 65536 →
  ∃ d' w' ret, dk_send_to d w data remote = Ok (d', w', ret) ∧
    dk_impl d' = dk_impl d ∧ nic_same (dw_nic w) (dw_nic w').
Proof.
  intros Hi Hn Hlen. rewrite dk_send_spec by done.
  destruct (_ || _); [by eexists _, _, _|].
  destruct (rte_pktmbuf_alloc _) as [n [m|]] eqn:Ea; apply alloc_spec in Ea as [Hn1 Ha]; try done;
    [|by eexists _, _, _].
  destruct Ha as (_ & _ & _ & Hh). case_decide; cbv zeta.
  - destruct (rte_eth_tx_burst _ _ _) as [n2 sent] eqn:Et. apply tx_spec in Et as [Hn2 Ht]; [|done].
    destruct sent; eexists _, _, _; (split; [done|split; [done|]]); simpl.
    + split; [done|simpl; lia].
    + destruct (free_spec n2 (sent_mbuf d data remote m) Hn2). split; [done|]. simpl; lia.
  - eexists _, _, _; split; [done|split; [done|]]. simpl.
    destruct (free_spec n m Hn1). split; [done|]. simpl; lia.
Qed.
Lemma dk_recv_safe d w n timeout :
  nic_ok (dw_nic w) →
  ∃ d' w' out, dk_recv_from d w n timeout = Ok (d', w', out) ∧
    dk_impl d' = dk_impl d ∧ nic_same (dw_nic w) (dw_nic w') ∧
    match out with
    | Some (data, from) => (length data ≤ n)%nat ∧ wf_bytes data ∧ is_u16 (ep_port from)
    | None => True
    end.
Proof.
  intros Hn. unfold dk_recv_from. destruct (negb _); [by eexists _, _, _|].
  destruct (rte_eth_rx_burst _ _) as [n1 [m|]] eqn:Er; apply rx_spec in Er as [Hn1 Hr]; try done;
    [|by eexists _, _, _].
  destruct Hr as (Hl & Hwf & Hh). destruct (parse_mbuf_spec m n Hl Hwf) as (out & -> & Ho).
  cbn [res_bind]. destruct (free_spec n1 m Hn1) as [Hf1 Hf2].
  assert (nic_same (dw_nic w) (rte_pktmbuf_free n1 m)) by (split; [done|lia]).
  destruct out as [[data from]|]; eexists _, _, _; (split; [done|split; [done|split; [done|]]]); [|done].
  destruct Ho as (_ & Hp & ->). rewrite length_take. split_and!; [lia| |done].
  by apply Forall_take, Forall_drop, Forall_take.
Qed.
Lemma dk_exec_ok d w op :
  impl_ok (dk_impl d) → nic_ok (dw_nic w) → dk_op_ok op →
  ∃ d' w', dk_exec (d, w) op = Ok (d', w') ∧ impl_ok (dk_impl d') ∧ nic_same (dw_nic w) (dw_nic w').
Proof.
  intros Hi Hn Hop. destruct op as [argv|local| |data remote|n timeout]; simpl in *.
  - unfold init_eal. destruct (dw_eal w); [by eexists _, _|].
    pose proof (eal_init_ok (dw_nic w) argv Hn). destruct (rte_eal_init _ _) as [n ret].
    destruct (ret <? 0); by eexists _, _.
  - destruct (dk_bind d w local) as [[d' w'] ok] eqn:E. apply dk_bind_ok in E as (? & ? & _); try done.
    by eexists _, _.
  - unfold dk_close. destruct (negb _); [by eexists _, _|]. eexists _, _; split; [done|split; [done|]].
    eapply nic_same_trans; [by apply stop_ok|]. intros. by apply close_ok.
  - destruct (dk_send_safe d w data remote Hi Hn Hop) as (d' & w' & ret & -> & Hi' & Hs).
    eexists _, _; split; [done|]. by rewrite Hi'.
  - destruct (dk_recv_safe d w n timeout Hn) as (d' & w' & out & -> & Hi' & Hs & _).
    eexists _, _; split; [done|]. by rewrite Hi'.
Qed.

(** ** What a caller relies on *)

(** C32: Sequences of calls whose sends have data shorter than 65494 bytes never leave a
    packet buffer or lose one, whatever frames the network delivers and whatever the device
    answers: every call returns, and when it has, the program holds as many buffers as
    before (each one it took was handed to the device or freed, once).  From 65494 bytes on
    the length given to the device is cut to 16 bits while the data is not, and a send writes
    past its buffer: [dpdk_send_overflow]. *)
Theorem dpdk_run_safe (config : DpdkConfig) (w : DpdkWorld) (ops : list DpdkOp) :
  nic_ok (dw_nic w) → Forall dk_op_ok ops →
  ∃ d' w', res_foldl dk_exec (dk_new config, w) ops = Ok (d', w') ∧
    nic_ok (dw_nic w') ∧ mbufs_held (dw_nic w') = mbufs_held (dw_nic w).
Proof.
  assert (impl_ok (dk_impl (dk_new config))) as Hi by (split_and!; by_decide).
  revert Hi. generalize (dk_new config); intros d Hi Hn Hops. revert d w Hi Hn.
  induction Hops as [|op ops Hop _ IH]; intros d w Hi Hn; cbn [res_foldl]; [by eexists _, _|].
  destruct (dk_exec_ok d w op Hi Hn Hop) as (d1 & w1 & -> & Hi1 & Hn1 & Hh). cbn [res_bind].
  destruct (IH d1 w1 Hi1 Hn1) as (d' & w' & E & ? & ?). exists d', w'. split_and!; [done..|congruence].
Qed.

(** C33: A send that gets a buffer large enough hands the device the
    Ethernet, IPv4 and UDP headers of the reference layout followed by the data, and a
    receiver that gets this frame, whatever its own addresses, yields the data and the
    sender's address and port.  If the network padded the frame (Ethernet pads short
    ones), the padding is part of what the receiver yields: the code ignores the UDP
    length. *)
Theorem dpdk_roundtrip (d : DpdkTransport) (w : DpdkWorld) (data : bytes) (remote : Endpoint)
    (n : nic) (m : Mbuf) :
  impl_ok (dk_impl d) → nic_ok (dw_nic w) → dk_bound d = true → ki_mbuf_pool (dk_impl d) = true →
  rte_pktmbuf_alloc (dw_nic w) = (n, Some m) → (42 + length data ≤ length (mb_room m))%nat →
  let m' := sent_mbuf d data remote m in
  take (mb_len m') (mb_room m') = dpdk_frame (dk_impl d) data remote ∧
  dk_send_to d w data remote =
    (let '(n', sent) := rte_eth_tx_burst n (ki_port_id (dk_impl d)) m' in
     if sent then Ok (dk_set_stats d (ks_sent (dk_stats d) (length data)), dw_set_nic w n',
                      Z.of_nat (length data))
     else Ok (dk_set_stats d (ks_tx_drop (dk_stats d)), dw_set_nic w (rte_pktmbuf_free n' m'), -1)) ∧
  (∀ d2 w2 n2 m2 pad buf_len timeout, dk_bound d2 = true →
    rte_eth_rx_burst (dw_nic w2) (ki_port_id (dk_impl d2)) = (n2, Some m2) →
    (mb_len m2 ≤ length (mb_room m2))%nat →
    take (mb_len m2) (mb_room m2) = dpdk_frame (dk_impl d) data remote ++ pad →
    let got := take buf_len (data ++ pad) in
    dk_recv_from d2 w2 buf_len timeout =
      Ok (dk_set_stats d2 (ks_received (dk_stats d2) (length got)),
          dw_set_nic w2 (rte_pktmbuf_free n2 m2),
          Some (got, {| ep_address := inet_ntop (ki_src_ip (dk_impl d));
                        ep_port := ki_src_port (dk_impl d) |}))).
Proof.
  intros Hi Hn Hb Hpool Ea Hfit m'.
  destruct (alloc_spec _ _ _ Hn Ea) as (_ & _ & _ & Hroom & _).
  assert (Z.of_nat (42 + length data) < 65536) as Hlen by lia.
  split_and!.
  - subst m'. cbn [sent_mbuf mb_len mb_room]. apply take_app_length'. by rewrite dpdk_frame_length.
  - rewrite dk_send_spec by done. rewrite Hb, Hpool. simpl negb. cbn [orb]. rewrite Ea.
    rewrite decide_True by done. cbv zeta. fold m'.
    destruct (rte_eth_tx_burst _ _ _) as [n' []]; [|done]. do 2 f_equal.
    apply signed_id. change (2 ^ (32 - 1)) with 2147483648. lia.
  - intros d2 w2 n2 m2 pad buf_len timeout Hb2 Er Hl2 Hm2 got. unfold dk_recv_from.
    rewrite Hb2. simpl negb. cbn [orb]. rewrite Er. by erewrite parse_mbuf_frame.
Qed.

(** ** Payloads that do not fit the length field

    The length given to [rte_pktmbuf_append] is cut to 16 bits, the bytes written are
    not: with its headers a payload of 2^16 bytes or more is written past the buffer
    whenever the shortened length fits it. *)
Lemma store_ne_Fail buf off bs : store buf off bs ≠ Fail.
Proof. unfold store. by case_decide. Qed.
Lemma slice_ne_Fail buf off n : slice buf off n ≠ Fail.
Proof. unfold slice. by case_decide. Qed.
Lemma bind_ne_Fail {A B} (m : res A) (k : A → res B) :
  m ≠ Fail → (∀ a, k a ≠ Fail) → res_bind m k ≠ Fail.
Proof. destruct m; simpl; naive_solver. Qed.
Lemma build_packet_ne_Fail i data remote pkt b : build_packet i data remote pkt b ≠ Fail.
Proof.
  unfold build_packet, eth_header, ip_header, udp_header, put8, write_u16.
  repeat (first [apply bind_ne_Fail; [|intros ?] | apply store_ne_Fail | apply slice_ne_Fail]).
  all: destruct (inet_pton _); [apply store_ne_Fail|done].
Qed.
(** Nothing changes the length of the buffer, so the last store needs the whole frame. *)
Lemma build_packet_room i data remote b b' :
  build_packet i data remote 0 b = Ok b' → (42 + length data ≤ length b)%nat.
Proof.
  assert (∀ x y, match inet_pton (ep_address remote) with
    | Some a => store x (0 + ETH_HDR_LEN + 16) a | None => Ok x end = Ok y → length y = length x) as Hd.
  { intros x y. destruct (inet_pton _); [apply store_length|by intros [= ->]]. }
  unfold build_packet, eth_header, ip_header, udp_header, put8, write_u16. intros E. inv_ok.
  unfold store in E. case_decide as Hfit; [|done].
  repeat match goal with
  | H : store _ _ _ = Ok _ |- _ => apply store_length in H; rewrite ?H in *
  | H : match inet_pton _ with _ => _ end = Ok _ |- _ => apply Hd in H
  end.
  unfold ETH_HDR_LEN, IP_HDR_LEN, UDP_HDR_LEN in Hfit. lia.
Qed.
Lemma dpdk_send_overflow d w data remote n m :
  nic_ok (dw_nic w) → dk_bound d = true → ki_mbuf_pool (dk_impl d) = true →
  rte_pktmbuf_alloc (dw_nic w) = (n, Some m) →
  65536 ≤ Z.of_nat (42 + length data) →
  Z.of_nat (42 + length data) mod 65536 ≤ Z.of_nat (length (mb_room m)) →
  dk_send_to d w data remote = Oob.
Proof.
  intros Hn Hb Hp Ea Hbig Hmod. unfold dk_send_to. rewrite Hb, Hp. simpl negb. cbn [orb]. rewrite Ea.
  destruct (alloc_spec _ _ _ Hn Ea) as (_ & Hm0 & _ & Hroom & _).
  rewrite append_spec, Hm0, decide_True by done. cbn [mb_room mb_len].
  destruct (build_packet _ _ _ _ _) as [b'| |] eqn:E; [|by apply build_packet_ne_Fail in E|done].
  apply build_packet_room in E. lia.
Qed.
End Dpdk.

(** ** The build without DPDK *)
Module DpdkStub.
Definition dk_stub_init_eal (argv : list bytes) : bool := false.
Definition dk_stub_eal_initialized : bool := false.
Definition dk_stub_bind (d : DpdkTransport) (local : Endpoint) : DpdkTransport * bool := (d, false).
Definition dk_stub_close (d : DpdkTransport) : DpdkTransport := d.
Definition dk_stub_send_to (d : DpdkTransport) (data : bytes) (remote : Endpoint) : DpdkTransport * Z := (d, -1).
Definition dk_stub_recv_from (d : DpdkTransport) (buf_len : nat) (timeout_ms : Z) : DpdkTransport * Z := (d, -1).
End DpdkStub.

(** ** A device to run the examples with: what is sent is received *)
Module DpdkRun.
Record LoopNic := { ln_queue : list Mbuf; ln_held : Z }.
Definition ln_hold (n : LoopNic) (k : Z) : LoopNic := {| ln_queue := ln_queue n; ln_held := ln_held n + k |}.
Definition loop_alloc (n : LoopNic) : LoopNic * option Mbuf :=
  (ln_hold n 1, Some {| mb_room := replicate 2048 0; mb_len := 0 |}).
Definition loop_append (m : Mbuf) (len : Z) : option Mbuf :=
  if decide (Z.of_nat (mb_len m) + len ≤ Z.of_nat (length (mb_room m)))
  then Some {| mb_room := mb_room m; mb_len := mb_len m + Z.to_nat len |} else None.
(** Only well-formed buffers can be queued. *)
Definition loop_tx (n : LoopNic) (port : Z) (m : Mbuf) : LoopNic * bool :=
  if bool_decide ((mb_len m ≤ length (mb_room m))%nat ∧ wf_bytes (mb_room m))
  then ({| ln_queue := ln_queue n ++ [m]; ln_held := ln_held n - 1 |}, true) else (n, false).
Definition loop_rx (n : LoopNic) (port : Z) : LoopNic * option Mbuf :=
  match ln_queue n with
  | m :: rest => ({| ln_queue := rest; ln_held := ln_held n + 1 |}, Some m)
  | [] => (n, None)
  end.
#[local] Existing Instance toy_inet.
Definition mbuf_ok (m : Mbuf) : Prop := (mb_len m ≤ length (mb_room m))%nat ∧ wf_bytes (mb_room m).

#[global, refine] Instance loop_dpdk : Dpdk := {|
  nic := LoopNic;
  rte_eal_init n _ := (n, 0);
  rte_pktmbuf_pool_create n _ _ _ := (n, true);
  rte_eth_dev_configure n _ := (n, 0);
  rte_eth_rx_queue_setup n _ _ := (n, 0);
  rte_eth_tx_queue_setup n _ _ := (n, 0);
  rte_eth_dev_start n _ := (n, 0);
  rte_eth_promiscuous_enable n _ := n;
  rte_eth_dev_stop n _ := n;
  rte_eth_dev_close n _ := n;
  rte_pktmbuf_alloc := loop_alloc;
  rte_pktmbuf_free n _ := ln_hold n (-1);
  rte_pktmbuf_append := loop_append;
  rte_eth_tx_burst := loop_tx;
  rte_eth_rx_burst := loop_rx;
  rte_ipv4_cksum h := u16 (foldr Z.add 0 h);
  nic_ok n := Forall mbuf_ok (ln_queue n);
  mbufs_held := ln_held |}.
Proof.
  all: try (intros; split; done). all: try (intros; by simplify_eq).
  - intros n n' r Hn [= <- <-]. split; [exact Hn|]. split_and!; [reflexivity|by_decide|by_decide|reflexivity].
  - intros n port m n' sent Hn. unfold loop_tx. case_bool_decide as Hm; intros [= <- <-]; [|done].
    split; [|done]. simpl. apply Forall_app_2; [done|]. by apply Forall_singleton.
  - intros n port n' r Hn. unfold loop_rx. destruct (ln_queue n) as [|m rest] eqn:E.
    + intros [= <- <-]. by rewrite E.
    + intros [= <- <-]. apply Forall_cons in Hn as [[? ?] ?]. done.
  - intros h. apply u16_is_u.
Defined.

Definition alice : Endpoint := {| ep_address := [10; 0; 0; 1]; ep_port := 7000 |}.
Definition bob : Endpoint := {| ep_address := [10; 0; 0; 2]; ep_port := 7001 |}.
(** ["2:0:0:0:0:1f"] *)
Definition mac_text : bytes := [50; 58; 48; 58; 48; 58; 48; 58; 48; 58; 49; 102].
Definition config : DpdkConfig :=
  {| kc_port_id := 0; kc_nb_rx_desc := 1024; kc_nb_tx_desc := 1024; kc_mbuf_pool_size := 8192;
     kc_mbuf_cache_size := 256; kc_burst_size := 32; kc_src_mac := mac_text; kc_src_ip := [] |}.
Definition world : DpdkWorld := {| dw_eal := false; dw_nic := {| ln_queue := []; ln_held := 0 |} |}.
Definition ops : list DpdkOp :=
  [DkBind alice; DkInitEal []; DkBind alice; DkSend [1; 2; 3] bob; DkRecv 16 0; DkRecv 16 0; DkClose].
Definition bound : DpdkTransport * DpdkWorld :=
  match res_foldl dk_exec (dk_new config, world) (take 3 ops) with Ok st => st | _ => (dk_new config, world) end.

Example mac_parses : parse_mac mac_text = Some [2; 0; 0; 0; 0; 31].
Proof. reflexivity. Qed.
Example mac_rejected : parse_mac (take 10 mac_text) = None ∧ parse_mac [103] = None.
Proof. done. Qed.
Example loop_counts :
  (λ st : DpdkTransport * DpdkWorld, dk_stats st.1) <$>
    match res_foldl dk_exec (dk_new config, world) ops with Ok st => Some st | _ => None end =
  Some (Build_DpdkStats 1 1 3 3 0 0).
Proof. vm_compute. reflexivity. Qed.
(** 42 bytes of anything are taken for a datagram: neither the Ethernet type nor the
    IP protocol is looked at. *)
Example not_an_ip_frame :
  parse_mbuf {| mb_room := replicate 60 170; mb_len := 60 |} 64 =
    Ok (Some (replicate 18 170, {| ep_address := replicate 4 170; ep_port := 43690 |})).
Proof. vm_compute. reflexivity. Qed.

Lemma dpdk_run_safe_witness :
  ∃ d' w', res_foldl dk_exec (dk_new config, world) ops = Ok (d', w') ∧ mbufs_held (dw_nic w') = 0.
Proof.
  destruct (dpdk_run_safe config world ops) as (d' & w' & E & _ & Hh).
  - constructor.
  - by_decide.
  - exists d', w'. split; [exact E|exact Hh].
Defined.
(** A frame of three bytes padded to the minimum of 60 by the network. *)
Definition padded : Mbuf :=
  {| mb_room := dpdk_frame (dk_impl bound.1) [1; 2; 3] bob ++ replicate 15 0; mb_len := 60 |}.
Definition padded_world : DpdkWorld :=
  {| dw_eal := true; dw_nic := {| ln_queue := [padded]; ln_held := 0 |} |}.
Definition taken : nic := {| ln_queue := []; ln_held := 1 |}.
Lemma dpdk_roundtrip_witness :
  ∃ d' w', dk_recv_from bound.1 padded_world 64 0 = Ok (d', w', Some ([1; 2; 3] ++ replicate 15 0, alice)).
Proof.
  destruct (dpdk_roundtrip bound.1 bound.2 [1; 2; 3] bob (loop_alloc (dw_nic bound.2)).1
    {| mb_room := replicate 2048 0; mb_len := 0 |}) as (_ & _ & Hr).
  - split_and!; by_decide.
  - constructor.
  - reflexivity.
  - reflexivity.
  - reflexivity.
  - by_decide.
  - eexists _, _. apply (Hr bound.1 padded_world taken padded (replicate 15 0) 64%nat 0).
    + reflexivity.
    + reflexivity.
    + by_decide.
    + vm_compute. reflexivity.
Defined.
End DpdkRun.
