(* ===== verification/Routing.v ===== *)
(** * Routing

    Models [src/routing/route_table.cpp] and [src/routing/router.cpp]: candidate
    next hops per state path, weighted by delivery feedback.  Weights are doubles.
    [std::sort] is not stable, so the order of equal weights is unspecified: the
    class [StdSort] holds any implementation that sorts, for a comparator that is
    a strict weak order (which excludes NaN weights, see [f64_lt_trans]). *)
From S2P Require Import Prelude Float64.

(** ** std::sort *)
Definition strict_weak {A} (comp : A → A → bool) (l : list A) : Prop :=
  (∀ x, x ∈ l → comp x x = false) ∧
  (∀ x y z, x ∈ l → y ∈ l → z ∈ l → comp x y = true → comp y z = true → comp x z = true) ∧
  (∀ x y z, x ∈ l → y ∈ l → z ∈ l → comp x y = false → comp y z = false → comp x z = false).
Class StdSort := {
  std_sort : ∀ {A}, (A → A → bool) → list A → list A;
  std_sort_perm : ∀ {A} (comp : A → A → bool) l, strict_weak comp l → std_sort comp l ≡ₚ l;
  std_sort_sorted : ∀ {A} (comp : A → A → bool) l i j x y, strict_weak comp l →
    (i < j)%nat → std_sort comp l !! i = Some x → std_sort comp l !! j = Some y → comp y x = false
}.

(** ** route_table.h / route_table.cpp *)
Record Route := {
  r_next_hop_node_id : Z; r_weight : f64; r_latency_ema_us : f64;
  r_success_count : Z; r_failure_count : Z; r_last_success_us : Z; r_last_failure_us : Z }.
Record RouteTable := { tb_routes : gmap Z (list Route) }.
Definition tb_new : RouteTable := {| tb_routes := ∅ |}.
Definition f64_zero : f64 := f64_of_Z 0.

Definition tb_find_route (t : RouteTable) (path_hash next_hop : Z) : option Route :=
  match tb_routes t !! path_hash with
  | None => None
  | Some vec => find_key r_next_hop_node_id next_hop vec
  end.
Definition tb_add_route (t : RouteTable) (path_hash next_hop : Z) (initial_weight : f64)
    : RouteTable :=
  match tb_find_route t path_hash next_hop with
  | Some _ => t
  | None =>
      let r := {| r_next_hop_node_id := next_hop; r_weight := initial_weight;
                  r_latency_ema_us := f64_zero; r_success_count := 0; r_failure_count := 0;
                  r_last_success_us := 0; r_last_failure_us := 0 |} in
      {| tb_routes := <[path_hash := default [] (tb_routes t !! path_hash) ++ [r]]> (tb_routes t) |}
  end.
Definition not_via (node : Z) (vec : list Route) : list Route :=
  filter (λ r, r_next_hop_node_id r ≠ node) vec.
Definition tb_remove_route (t : RouteTable) (path_hash next_hop : Z) : RouteTable * bool :=
  match tb_routes t !! path_hash with
  | None => (t, false)
  | Some vec =>
      let vec' := not_via next_hop vec in
      if bool_decide (length vec' = length vec) then (t, false) else
      if bool_decide (vec' = []) then ({| tb_routes := delete path_hash (tb_routes t) |}, true)
      else ({| tb_routes := <[path_hash := vec']> (tb_routes t) |}, true)
  end.
Definition tb_remove_node (t : RouteTable) (node_id : Z) : RouteTable :=
  {| tb_routes := omap (λ vec, let vec' := not_via node_id vec in
                               if bool_decide (vec' = []) then None else Some vec') (tb_routes t) |}.
Definition heavier (a b : Route) : bool := f64_gt (r_weight a) (r_weight b).
(** [std::max_element]: the first of the largest. *)
Definition max_element (r : Route) (l : list Route) : Route :=
  foldl (λ best x, if f64_lt (r_weight best) (r_weight x) then x else best) r l.
Definition tb_best_route (t : RouteTable) (path_hash : Z) : option Route :=
  match tb_routes t !! path_hash with
  | None | Some [] => None
  | Some (r :: l) => Some (max_element r l)
  end.
Definition tb_update (t : RouteTable) (path_hash via_node : Z) (f : Route → Route) : RouteTable :=
  {| tb_routes := alter (update_key r_next_hop_node_id via_node f) path_hash (tb_routes t) |}.
Definition f64_alpha : f64 := f64_lit 3 10.
Definition route_success (rtt_us : Z) (r : Route) : Route :=
  {| r_next_hop_node_id := r_next_hop_node_id r; r_weight := r_weight r;
     r_latency_ema_us :=
       if f64_eq (r_latency_ema_us r) f64_zero then f64_of_Z rtt_us
       else f64_add (f64_mul f64_alpha (f64_of_Z rtt_us))
                    (f64_mul (f64_sub (f64_of_Z 1) f64_alpha) (r_latency_ema_us r));
     r_success_count := u32 (r_success_count r + 1); r_failure_count := r_failure_count r;
     r_last_success_us := rtt_us; r_last_failure_us := r_last_failure_us r |}.
Definition tb_on_success (t : RouteTable) (path_hash via_node rtt_us : Z) : RouteTable :=
  match tb_find_route t path_hash via_node with
  | None => t
  | Some _ => tb_update t path_hash via_node (route_success rtt_us)
  end.
Definition route_failure (r : Route) : Route :=
  {| r_next_hop_node_id := r_next_hop_node_id r; r_weight := r_weight r;
     r_latency_ema_us := r_latency_ema_us r; r_success_count := r_success_count r;
     r_failure_count := u32 (r_failure_count r + 1); r_last_success_us := r_last_success_us r;
     r_last_failure_us := r_last_failure_us r |}.
Definition tb_on_failure (t : RouteTable) (path_hash via_node : Z) : RouteTable :=
  match tb_find_route t path_hash via_node with
  | None => t
  | Some _ => tb_update t path_hash via_node route_failure
  end.
Definition route_decay (d : f64) (r : Route) : Route :=
  {| r_next_hop_node_id := r_next_hop_node_id r; r_weight := f64_mul (r_weight r) d;
     r_latency_ema_us := r_latency_ema_us r; r_success_count := r_success_count r;
     r_failure_count := r_failure_count r; r_last_success_us := r_last_success_us r;
     r_last_failure_us := r_last_failure_us r |}.
Definition tb_decay_all (t : RouteTable) (decay_factor : f64) : RouteTable :=
  {| tb_routes := fmap (λ vec : list Route, route_decay decay_factor <$> vec) (tb_routes t) |}.
Definition tb_total_routes (t : RouteTable) : nat :=
  map_fold (λ _ vec n, length vec + n)%nat O (tb_routes t).
Definition tb_path_count (t : RouteTable) : nat := size (tb_routes t).
Definition tb_clear (t : RouteTable) : RouteTable := tb_new.

(** ** router.h *)
Record RouterConfig := {
  rc_success_increment : f64; rc_failure_decrement : f64; rc_decay_factor : f64;
  rc_min_route_weight : f64; rc_max_routes_per_path : Z; rc_latency_alpha : f64;
  rc_min_weight : f64; rc_max_weight : f64 }.
Definition rcfg_default : RouterConfig :=
  {| rc_success_increment := f64_lit 1 10; rc_failure_decrement := f64_lit 2 10;
     rc_decay_factor := f64_lit 995 1000; rc_min_route_weight := f64_lit 1 10;
     rc_max_routes_per_path := 3; rc_latency_alpha := f64_lit 3 10;
     rc_min_weight := f64_lit 1 100; rc_max_weight := f64_of_Z 1 |}.
Record Router := {
  rt_local_node_id : Z; rt_config : RouterConfig; rt_table : RouteTable;
  rt_local_paths : list Z; rt_on_announce : bool }.
Definition rtr_new (local_node_id : Z) (config : RouterConfig) : Router :=
  {| rt_local_node_id := local_node_id; rt_config := config; rt_table := tb_new;
     rt_local_paths := []; rt_on_announce := false |}.
Definition rtr_with_table (r : Router) (t : RouteTable) : Router :=
  {| rt_local_node_id := rt_local_node_id r; rt_config := rt_config r; rt_table := t;
     rt_local_paths := rt_local_paths r; rt_on_announce := rt_on_announce r |}.
Definition clamp_weight (c : RouterConfig) (w : f64) : f64 :=
  if f64_lt w (rc_min_weight c) then rc_min_weight c
  else if f64_gt w (rc_max_weight c) then rc_max_weight c else w.
(** The announcements the callback receives are the second component. *)
Definition rtr_announce_path (r : Router) (path_hash : Z) : Router * list (Z * Z) :=
  let paths := if bool_decide (path_hash ∈ rt_local_paths r) then rt_local_paths r
               else rt_local_paths r ++ [path_hash] in
  ({| rt_local_node_id := rt_local_node_id r; rt_config := rt_config r; rt_table := rt_table r;
      rt_local_paths := paths; rt_on_announce := rt_on_announce r |},
   if rt_on_announce r then [(path_hash, rt_local_node_id r)] else []).
Definition rtr_remove_node (r : Router) (node_id : Z) : Router :=
  rtr_with_table r (tb_remove_node (rt_table r) node_id).
Definition rtr_has_route (r : Router) (path_hash : Z) : bool :=
  bool_decide (is_Some (tb_best_route (rt_table r) path_hash)).
Definition rtr_tick (r : Router) : Router :=
  rtr_with_table r (tb_decay_all (rt_table r) (rc_decay_factor (rt_config r))).

Section Router.
Context `{StdSort}.
Definition tb_get_routes (t : RouteTable) (path_hash : Z) : list Route :=
  match tb_routes t !! path_hash with None => [] | Some vec => std_sort heavier vec end.
Definition tb_routes_above (t : RouteTable) (path_hash : Z) (min_weight : f64) : list Route :=
  match tb_routes t !! path_hash with
  | None => []
  | Some vec => std_sort heavier (filter (λ r, f64_ge (r_weight r) min_weight = true) vec)
  end.
Definition rtr_learn_route (r : Router) (path_hash via_node : Z) : Router :=
  if via_node =? rt_local_node_id r then r else
  let existing := tb_get_routes (rt_table r) path_hash in
  let all_healthy := match last existing with
                     | Some back => f64_ge (r_weight back) (rc_min_route_weight (rt_config r))
                     | None => false
                     end in
  if (rc_max_routes_per_path (rt_config r) <=? Z.of_nat (length existing)) && all_healthy then r else
  rtr_with_table r (tb_add_route (rt_table r) path_hash via_node
    (f64_mul (rc_min_route_weight (rt_config r)) (f64_of_Z 2))).
(** [push_back] first, then the size test: with a limit of 0 one hop is taken. *)
Fixpoint take_hops (max : Z) (routes : list Route) (hops : list Z) : list Z :=
  match routes with
  | [] => hops
  | r :: routes' =>
      let hops := hops ++ [r_next_hop_node_id r] in
      if max <=? Z.of_nat (length hops) then hops else take_hops max routes' hops
  end.
Definition rtr_select_next_hops (r : Router) (path_hash : Z) : list Z :=
  take_hops (rc_max_routes_per_path (rt_config r))
    (tb_routes_above (rt_table r) path_hash (rc_min_route_weight (rt_config r))) [].
Definition rtr_on_delivery_success (r : Router) (via_node path_hash rtt_us : Z) : Router :=
  match find_key r_next_hop_node_id via_node (tb_get_routes (rt_table r) path_hash) with
  | None => r
  | Some e =>
      let new_weight := clamp_weight (rt_config r)
        (f64_add (r_weight e) (rc_success_increment (rt_config r))) in
      let t := (tb_remove_route (rt_table r) path_hash via_node).1 in
      let t := tb_add_route t path_hash via_node new_weight in
      rtr_with_table r (tb_on_success t path_hash via_node rtt_us)
  end.
Definition rtr_on_delivery_failure (r : Router) (via_node path_hash : Z) : Router :=
  let t := tb_on_failure (rt_table r) path_hash via_node in
  match find_key r_next_hop_node_id via_node (tb_get_routes t path_hash) with
  | None => rtr_with_table r t
  | Some e =>
      let raw_weight := f64_sub (r_weight e) (rc_failure_decrement (rt_config r)) in
      let t := (tb_remove_route t path_hash via_node).1 in
      rtr_with_table r
        (if f64_ge raw_weight (rc_min_weight (rt_config r))
         then tb_add_route t path_hash via_node (clamp_weight (rt_config r) raw_weight) else t)
  end.
End Router.

(** ** The candidates of one path *)
Definition vec_of (t : RouteTable) (ph : Z) : list Route := default [] (tb_routes t !! ph).
Lemma not_via_id h vec : h ∉ r_next_hop_node_id <$> vec → not_via h vec = vec.
Proof.
  intros Hf. apply list_filter_all. apply Forall_forall. intros r Hr <-. apply Hf.
  by apply list_elem_of_fmap_2.
Qed.
Lemma tb_find_route_vec t ph h : tb_find_route t ph h = find_key r_next_hop_node_id h (vec_of t ph).
Proof. unfold tb_find_route, vec_of. by case_match. Qed.
Lemma vec_of_insert m ph vec ph' :
  vec_of {| tb_routes := <[ph := vec]> m |} ph' = if decide (ph = ph') then vec else default [] (m !! ph').
Proof. unfold vec_of; simpl. by rewrite lookup_insert; case_decide. Qed.

Definition fresh_route (h : Z) (w : f64) : Route :=
  {| r_next_hop_node_id := h; r_weight := w; r_latency_ema_us := f64_zero; r_success_count := 0;
     r_failure_count := 0; r_last_success_us := 0; r_last_failure_us := 0 |}.
Lemma vec_add t ph h w ph' :
  vec_of (tb_add_route t ph h w) ph'
  = if decide (ph = ph' ∧ h ∉ r_next_hop_node_id <$> vec_of t ph)
    then vec_of t ph' ++ [fresh_route h w] else vec_of t ph'.
Proof.
  unfold tb_add_route. rewrite tb_find_route_vec.
  destruct (find_key _ _ _) eqn:E; [rewrite decide_False; [done|]|].
  { intros [_ Hn]. apply find_key_None in Hn. congruence. }
  apply find_key_None in E. rewrite vec_of_insert. unfold vec_of in *.
  repeat case_decide; destruct_and?; subst; try done; naive_solver.
Qed.
Lemma vec_remove t ph h ph' :
  vec_of (tb_remove_route t ph h).1 ph'
  = if decide (ph = ph') then not_via h (vec_of t ph') else vec_of t ph'.
Proof.
  unfold tb_remove_route. destruct (tb_routes t !! ph) as [vec|] eqn:E.
  - case_bool_decide as Hl; [|case_bool_decide as He]; simpl.
    + case_decide; [subst|done]. unfold vec_of. rewrite E. simpl.
      symmetry. by apply list_filter_same_length.
    + unfold vec_of; simpl. case_decide; [subst|by rewrite lookup_delete_ne].
      by rewrite lookup_delete_eq, E.
    + rewrite vec_of_insert. unfold vec_of. case_decide; [subst; by rewrite E|done].
  - simpl. case_decide; [subst|done]. unfold vec_of. by rewrite E.
Qed.
Lemma vec_remove_node t n ph : vec_of (tb_remove_node t n) ph = not_via n (vec_of t ph).
Proof.
  unfold vec_of, tb_remove_node; simpl. rewrite lookup_omap.
  destruct (tb_routes t !! ph) as [vec|]; simpl; [|done]. by case_bool_decide as E; [rewrite E|].
Qed.
Lemma vec_update t ph h f ph' :
  vec_of (tb_update t ph h f) ph'
  = if decide (ph = ph') then update_key r_next_hop_node_id h f (vec_of t ph') else vec_of t ph'.
Proof.
  unfold vec_of, tb_update; simpl. case_decide; [subst; rewrite lookup_alter_eq|by rewrite lookup_alter_ne].
  by destruct (tb_routes t !! ph').
Qed.
Lemma vec_decay t d ph : vec_of (tb_decay_all t d) ph = route_decay d <$> vec_of t ph.
Proof. unfold vec_of, tb_decay_all; simpl. rewrite lookup_fmap. by destruct (tb_routes t !! ph). Qed.
Lemma not_via_elem h vec r : r ∈ not_via h vec ↔ r_next_hop_node_id r ≠ h ∧ r ∈ vec.
Proof. unfold not_via. by rewrite list_elem_of_filter. Qed.
Lemma not_via_hop h vec : h ∉ r_next_hop_node_id <$> not_via h vec.
Proof. intros (r & -> & [Hn _]%not_via_elem)%list_elem_of_fmap. done. Qed.

(** ** Invariant *)
Definition vec_ok (local : Z) (vec : list Route) : Prop :=
  NoDup (r_next_hop_node_id <$> vec) ∧
  Forall (λ r, r_next_hop_node_id r ≠ local ∧ f64_is_nan (r_weight r) = false) vec.
Definition config_ok (c : RouterConfig) : Prop :=
  f64_is_finite (rc_success_increment c) = true ∧ f64_is_finite (rc_failure_decrement c) = true ∧
  f64_is_finite (rc_decay_factor c) = true ∧ f64_eq (rc_decay_factor c) f64_zero = false ∧
  f64_is_finite (rc_min_route_weight c) = true ∧ f64_is_finite (rc_min_weight c) = true ∧
  f64_is_finite (rc_max_weight c) = true ∧ f64_lt (rc_max_weight c) (rc_min_weight c) = false.
#[global] Instance config_ok_dec c : Decision (config_ok c).
Proof. unfold config_ok; apply _. Defined.
Definition router_ok (r : Router) : Prop :=
  config_ok (rt_config r) ∧ ∀ ph, vec_ok (rt_local_node_id r) (vec_of (rt_table r) ph).

Lemma vec_ok_not_via l h vec : vec_ok l vec → vec_ok l (not_via h vec).
Proof.
  intros [Hn Hf]. split.
  - eapply sublist_NoDup; [exact Hn|]. apply fmap_sublist, sublist_filter.
  - by apply Forall_list_filter.
Qed.
Lemma vec_ok_snoc l x vec :
  vec_ok l vec → r_next_hop_node_id x ∉ r_next_hop_node_id <$> vec → r_next_hop_node_id x ≠ l →
  f64_is_nan (r_weight x) = false → vec_ok l (vec ++ [x]).
Proof.
  intros [Hn Hf] Hh Hl Hw. split.
  - rewrite fmap_app. apply NoDup_app. split_and!; [done| |repeat constructor; set_solver].
    intros y Hy Hy'. simpl in Hy'. assert (y = r_next_hop_node_id x) by set_solver. by subst.
  - apply Forall_app. split; [done|]. by repeat constructor.
Qed.
Lemma vec_ok_update l h f vec :
  (∀ e, r_next_hop_node_id (f e) = r_next_hop_node_id e) → (∀ e, r_weight (f e) = r_weight e) →
  vec_ok l vec → vec_ok l (update_key r_next_hop_node_id h f vec).
Proof.
  intros Hk Hw [Hn Hf]. split; [by rewrite update_key_keys|].
  apply Forall_update_key; [done|]. intros e [? ?] _. by rewrite Hk, Hw.
Qed.
Lemma clamp_not_nan c w : config_ok c → f64_is_nan w = false → f64_is_nan (clamp_weight c w) = false.
Proof.
  intros (_ & _ & _ & _ & _ & H1 & H2 & _) Hw. unfold clamp_weight.
  repeat case_match; try done; by apply f64_finite_not_nan.
Qed.
Lemma clamp_bounds c w :
  config_ok c → f64_lt (clamp_weight c w) (rc_min_weight c) = false ∧
  f64_lt (rc_max_weight c) (clamp_weight c w) = false.
Proof.
  intros (_ & _ & _ & _ & _ & _ & _ & H1). unfold clamp_weight, f64_gt.
  destruct (f64_lt w (rc_min_weight c)) eqn:E1; [by rewrite f64_lt_irrefl|].
  destruct (f64_lt (rc_max_weight c) w) eqn:E2; [|done]. by rewrite H1, f64_lt_irrefl.
Qed.

(** The weights order the routes of a well-formed table. *)
Lemma heavier_strict_weak l vec : vec_ok l vec → strict_weak heavier vec.
Proof.
  intros [_ Hf]. rewrite Forall_forall in Hf. unfold heavier, f64_gt. split_and!.
  - intros x _. apply f64_lt_irrefl.
  - intros x y z _ _ _ H1 H2. by eapply f64_lt_trans.
  - intros x y z Hx Hy Hz H1 H2.
    apply (f64_nlt_trans _ (r_weight y)); try done; by apply Hf.
Qed.

(** ** Operations preserve the invariant *)
Inductive RouterOp :=
  | RLearn (path_hash via : Z)
  | RRemove (node : Z)
  | RSuccess (via path_hash rtt_us : Z)
  | RFailure (via path_hash : Z)
  | RTick
  | RAnnounce (path_hash : Z).
Section RouterFacts.
Context `{StdSort}.
Definition rtr_apply (r : Router) (o : RouterOp) : Router :=
  match o with
  | RLearn ph via => rtr_learn_route r ph via
  | RRemove n => rtr_remove_node r n
  | RSuccess via ph rtt => rtr_on_delivery_success r via ph rtt
  | RFailure via ph => rtr_on_delivery_failure r via ph
  | RTick => rtr_tick r
  | RAnnounce ph => (rtr_announce_path r ph).1
  end.

Lemma get_routes_vec t ph :
  tb_get_routes t ph = match tb_routes t !! ph with None => [] | _ => std_sort heavier (vec_of t ph) end.
Proof. unfold tb_get_routes, vec_of. by destruct (tb_routes t !! ph). Qed.
Lemma get_routes_perm l t ph : vec_ok l (vec_of t ph) → tb_get_routes t ph ≡ₚ vec_of t ph.
Proof.
  intros Hv. rewrite get_routes_vec. destruct (tb_routes t !! ph) eqn:E.
  - by eapply std_sort_perm, heavier_strict_weak.
  - unfold vec_of. by rewrite E.
Qed.
(** Searching the sorted copy finds the same route as searching the vector. *)
Lemma find_sorted l t ph h :
  vec_ok l (vec_of t ph) →
  find_key r_next_hop_node_id h (tb_get_routes t ph) = find_key r_next_hop_node_id h (vec_of t ph).
Proof.
  intros Hv. pose proof (get_routes_perm _ _ _ Hv) as Hp. destruct Hv as [Hn _].
  destruct (find_key r_next_hop_node_id h (vec_of t ph)) as [e|] eqn:E.
  - apply find_key_Some in E as [He <-]. apply find_key_elem; [by rewrite Hp|]. by rewrite Hp.
  - apply find_key_None. apply find_key_None in E. by rewrite Hp.
Qed.

Lemma learn_ok r ph via : router_ok r → router_ok (rtr_learn_route r ph via).
Proof.
  intros [Hc Hv]. unfold rtr_learn_route. destruct (Z.eqb_spec via (rt_local_node_id r)); [done|].
  case_match; [done|]. split; [done|]. intros ph'. simpl. rewrite vec_add. case_decide; [|done].
  destruct_and?. subst. apply vec_ok_snoc; try done.
  apply f64_mul_not_nan; [|done|done]. apply f64_finite_not_nan. apply Hc.
Qed.
Lemma remove_ok r n : router_ok r → router_ok (rtr_remove_node r n).
Proof. intros [Hc Hv]. split; [done|]. intros ph. simpl. rewrite vec_remove_node. by apply vec_ok_not_via. Qed.
Lemma tick_ok r : router_ok r → router_ok (rtr_tick r).
Proof.
  intros [Hc Hv]. split; [done|]. intros ph. simpl. rewrite vec_decay. destruct (Hv ph) as [Hn Hf]. split.
  - by rewrite <-list_fmap_compose.
  - apply Forall_fmap. eapply Forall_impl; [exact Hf|]. intros x [? ?]. split; [done|]. simpl.
    apply f64_mul_not_nan; [done|apply Hc|]. destruct Hc as (_ & _ & _ & Hz & _). exact Hz.
Qed.

(** The vector after a reported success: the route moves to the end with the new
    weight and fresh statistics. *)
Lemma success_vec r via ph rtt e :
  router_ok r → find_key r_next_hop_node_id via (vec_of (rt_table r) ph) = Some e →
  ∀ ph', vec_of (rt_table (rtr_on_delivery_success r via ph rtt)) ph' =
    if decide (ph = ph') then
      not_via via (vec_of (rt_table r) ph') ++ [route_success rtt (fresh_route via
        (clamp_weight (rt_config r) (f64_add (r_weight e) (rc_success_increment (rt_config r)))))]
    else vec_of (rt_table r) ph'.
Proof.
  intros [Hc Hv] Hf ph'. unfold rtr_on_delivery_success.
  rewrite (find_sorted _ _ _ _ (Hv ph)), Hf. simpl. unfold tb_on_success.
  set (w := clamp_weight _ _).
  assert (∀ ph', vec_of (tb_add_route (tb_remove_route (rt_table r) ph via).1 ph via w) ph'
    = if decide (ph = ph') then not_via via (vec_of (rt_table r) ph') ++ [fresh_route via w]
      else vec_of (rt_table r) ph') as Hadd.
  { intros ph0. rewrite vec_add, !vec_remove. destruct (decide (ph = ph0)) as [<-|Hne].
    - rewrite decide_True; [done|]. split; [done|]. rewrite decide_True by done. apply not_via_hop.
    - rewrite decide_False by naive_solver. done. }
  rewrite tb_find_route_vec, Hadd, decide_True by done.
  rewrite find_key_app, (proj2 (find_key_None _ _ _)) by apply not_via_hop. simpl.
  rewrite Z.eqb_refl, vec_update, Hadd. case_decide; [subst|done].
  pose proof (not_via_hop via (vec_of (rt_table r) ph')) as Hn.
  induction (not_via via (vec_of (rt_table r) ph')) as [|x l IH]; simpl.
  - by rewrite Z.eqb_refl.
  - rewrite fmap_cons, not_elem_of_cons in Hn. destruct Hn as [Hn1 Hn2].
    rewrite (proj2 (Z.eqb_neq _ _)) by done. by rewrite IH.
Qed.
Lemma success_unknown r via ph rtt :
  router_ok r → find_key r_next_hop_node_id via (vec_of (rt_table r) ph) = None →
  rtr_on_delivery_success r via ph rtt = r.
Proof.
  intros [Hc Hv] Hf. unfold rtr_on_delivery_success. by rewrite (find_sorted _ _ _ _ (Hv ph)), Hf.
Qed.
Lemma success_ok r via ph rtt : router_ok r → router_ok (rtr_on_delivery_success r via ph rtt).
Proof.
  intros Hr. destruct (find_key r_next_hop_node_id via (vec_of (rt_table r) ph)) as [e|] eqn:E.
  2: { by rewrite success_unknown. }
  pose proof (success_vec r via ph rtt e Hr E) as Hvec. destruct Hr as [Hc Hv].
  assert (rt_config (rtr_on_delivery_success r via ph rtt) = rt_config r ∧
          rt_local_node_id (rtr_on_delivery_success r via ph rtt) = rt_local_node_id r) as [E1 E2].
  { unfold rtr_on_delivery_success. by case_match. }
  split; [by rewrite E1|]. intros ph'. rewrite E2, Hvec. case_decide; [subst|done].
  apply find_key_Some in E as [He Hk]. destruct (Hv ph') as [Hn Hf].
  rewrite Forall_forall in Hf. destruct (Hf e He) as [Hl Hw].
  apply vec_ok_snoc.
  - by apply vec_ok_not_via.
  - apply not_via_hop.
  - simpl. congruence.
  - apply clamp_not_nan; [done|]. apply f64_add_not_nan; [done|]. apply Hc.
Qed.

Lemma not_via_update h f vec :
  (∀ e, r_next_hop_node_id (f e) = r_next_hop_node_id e) →
  not_via h (update_key r_next_hop_node_id h f vec) = not_via h vec.
Proof.
  intros Hf. unfold not_via. induction vec as [|x vec IH]; [done|]. simpl.
  destruct (Z.eqb_spec (r_next_hop_node_id x) h) as [Hx|Hx].
  - rewrite !filter_cons_False by (rewrite ?Hf; tauto). done.
  - rewrite !filter_cons_True by done. by rewrite IH.
Qed.
Lemma failure_vec r via ph e :
  router_ok r → find_key r_next_hop_node_id via (vec_of (rt_table r) ph) = Some e →
  let raw := f64_sub (r_weight e) (rc_failure_decrement (rt_config r)) in
  ∀ ph', vec_of (rt_table (rtr_on_delivery_failure r via ph)) ph' =
    if decide (ph = ph') then
      not_via via (vec_of (rt_table r) ph') ++
      (if f64_ge raw (rc_min_weight (rt_config r))
       then [fresh_route via (clamp_weight (rt_config r) raw)] else [])
    else vec_of (rt_table r) ph'.
Proof.
  intros [Hc Hv] Hf raw ph'. unfold rtr_on_delivery_failure.
  assert (tb_on_failure (rt_table r) ph via = tb_update (rt_table r) ph via route_failure) as ->.
  { unfold tb_on_failure. by rewrite tb_find_route_vec, Hf. }
  set (t := tb_update _ _ _ _).
  assert (∀ p, vec_of t p = if decide (ph = p) then
    update_key r_next_hop_node_id via route_failure (vec_of (rt_table r) p) else vec_of (rt_table r) p)
    as Ht by (intros p; apply vec_update).
  assert (vec_ok (rt_local_node_id r) (vec_of t ph)) as Htok.
  { rewrite Ht, decide_True by done. by apply vec_ok_update. }
  rewrite (find_sorted _ _ _ _ Htok), Ht, decide_True, find_update_same, Hf by done. simpl.
  fold raw. destruct (f64_ge raw (rc_min_weight (rt_config r))).
  - rewrite vec_add, !vec_remove, !Ht, (decide_True (P := ph = ph)) by done.
    destruct (decide (ph = ph')) as [<-|Hne].
    + rewrite !not_via_update by done. rewrite decide_True; [done|]. split; [done|apply not_via_hop].
    + rewrite decide_False by naive_solver. done.
  - rewrite vec_remove, Ht. case_decide; [|done]. by rewrite not_via_update, app_nil_r.
Qed.
Lemma failure_unknown r via ph :
  router_ok r → find_key r_next_hop_node_id via (vec_of (rt_table r) ph) = None →
  rtr_on_delivery_failure r via ph = r.
Proof.
  intros [Hc Hv] Hf. unfold rtr_on_delivery_failure, tb_on_failure.
  rewrite tb_find_route_vec, Hf, (find_sorted _ _ _ _ (Hv ph)), Hf. by destruct r.
Qed.
Lemma failure_ok r via ph : router_ok r → router_ok (rtr_on_delivery_failure r via ph).
Proof.
  intros Hr. destruct (find_key r_next_hop_node_id via (vec_of (rt_table r) ph)) as [e|] eqn:E.
  2: { by rewrite failure_unknown. }
  pose proof (failure_vec r via ph e Hr E) as Hvec. destruct Hr as [Hc Hv]. cbv zeta in Hvec.
  assert (rt_config (rtr_on_delivery_failure r via ph) = rt_config r ∧
          rt_local_node_id (rtr_on_delivery_failure r via ph) = rt_local_node_id r) as [E1 E2].
  { unfold rtr_on_delivery_failure. repeat case_match; done. }
  split; [by rewrite E1|]. intros ph'. rewrite E2, Hvec. case_decide; [subst|done].
  apply find_key_Some in E as [He Hk]. destruct (Hv ph') as [Hn Hf].
  rewrite Forall_forall in Hf. destruct (Hf e He) as [Hl Hw].
  case_match; [|rewrite app_nil_r; by apply vec_ok_not_via]. apply vec_ok_snoc.
  - by apply vec_ok_not_via.
  - apply not_via_hop.
  - simpl. congruence.
  - apply clamp_not_nan; [done|]. apply f64_sub_not_nan; [done|]. apply Hc.
Qed.
Lemma rtr_apply_ok r o : router_ok r → router_ok (rtr_apply r o).
Proof.
  destruct o; simpl;
    [apply learn_ok|apply remove_ok|apply success_ok|apply failure_ok|apply tick_ok|]. done.
Qed.
Definition rtr_run (r : Router) (l : list RouterOp) : Router := foldl rtr_apply r l.
Lemma rtr_run_ok n c l : config_ok c → router_ok (rtr_run (rtr_new n c) l).
Proof.
  intros Hc. unfold rtr_run. induction l as [|o l IH] using rev_ind.
  - split; [done|]. intros ph. by split; constructor.
  - rewrite foldl_app. by apply rtr_apply_ok.
Qed.
Lemma rtr_apply_node r o : rt_local_node_id (rtr_apply r o) = rt_local_node_id r ∧
  rt_config (rtr_apply r o) = rt_config r.
Proof.
  destruct o; simpl; unfold rtr_learn_route, rtr_on_delivery_success, rtr_on_delivery_failure;
    repeat case_match; done.
Qed.
Lemma rtr_run_node n c l : rt_local_node_id (rtr_run (rtr_new n c) l) = n ∧
  rt_config (rtr_run (rtr_new n c) l) = c.
Proof.
  unfold rtr_run. induction l as [|o l IH] using rev_ind; [done|]. rewrite foldl_app. simpl.
  destruct (rtr_apply_node (foldl rtr_apply (rtr_new n c) l) o) as [-> ->]. done.
Qed.

(** ** Selection *)
Lemma take_hops_spec max l hops :
  Z.of_nat (length hops) < Z.max 1 max →
  take_hops max l hops = hops ++ take (Z.to_nat (Z.max 1 max) - length hops) (r_next_hop_node_id <$> l).
Proof.
  revert hops; induction l as [|r l IH]; intros hops Hh; simpl.
  { by rewrite take_nil, app_nil_r. }
  destruct (Z.to_nat (Z.max 1 max) - length hops)%nat as [|k] eqn:Ek; [lia|].
  rewrite length_app. simpl. destruct (Z.leb_spec max (Z.of_nat (length hops + 1))).
  - assert (k = O) as -> by lia. done.
  - rewrite IH by (rewrite length_app; simpl; lia). rewrite <-app_assoc, length_app. simpl.
    replace (Z.to_nat (Z.max 1 max) - (length hops + 1))%nat with k by lia. done.
Qed.
Definition qualified (r : Router) (ph : Z) : list Route :=
  filter (λ x, f64_ge (r_weight x) (rc_min_route_weight (rt_config r)) = true) (vec_of (rt_table r) ph).
Lemma routes_above_spec r ph :
  router_ok r →
  let l := tb_routes_above (rt_table r) ph (rc_min_route_weight (rt_config r)) in
  l ≡ₚ qualified r ph ∧
  ∀ i j x y, (i < j)%nat → l !! i = Some x → l !! j = Some y → heavier y x = false.
Proof.
  intros [Hc Hv]. unfold tb_routes_above, qualified, vec_of.
  destruct (tb_routes (rt_table r) !! ph) as [vec|] eqn:E; simpl; [|done].
  assert (vec_ok (rt_local_node_id r) (filter (λ x, f64_ge (r_weight x)
    (rc_min_route_weight (rt_config r)) = true) vec)) as Hok.
  { specialize (Hv ph). unfold vec_of in Hv. rewrite E in Hv. destruct Hv as [Hn Hf]. split.
    - eapply sublist_NoDup; [exact Hn|]. apply fmap_sublist, sublist_filter.
    - by apply Forall_list_filter. }
  pose proof (heavier_strict_weak _ _ Hok) as Hsw. split; [by apply std_sort_perm|].
  intros i j x y. by apply std_sort_sorted.
Qed.
End RouterFacts.

Section RouterTheorems.
Context `{StdSort}.

Lemma NoDup_hops l (vec vec' : list Route) k :
  vec_ok l vec → vec' ≡ₚ vec → NoDup (take k (r_next_hop_node_id <$> vec')).
Proof.
  intros [Hn _] Hp. eapply sublist_NoDup; [|apply sublist_take]. by rewrite Hp.
Qed.
Lemma qualified_ok r ph : router_ok r → vec_ok (rt_local_node_id r) (qualified r ph).
Proof.
  intros [_ Hv]. destruct (Hv ph) as [Hn Hf]. split; [|by apply Forall_list_filter].
  eapply sublist_NoDup; [exact Hn|]. apply fmap_sublist, sublist_filter.
Qed.

Lemma removed_not_selected r ph node :
  router_ok r → node ∉ rtr_select_next_hops (rtr_remove_node r node) ph.
Proof.
  intros Hr. pose proof (remove_ok r node Hr) as Hr'. destruct (routes_above_spec _ ph Hr') as [Hp' _].
  unfold rtr_select_next_hops. rewrite take_hops_spec by (simpl; lia). simpl app.
  intros Hh. apply list_elem_of_lookup in Hh as [i Hi]. apply lookup_take_Some in Hi as [Hi _].
  apply list_elem_of_lookup_2, list_elem_of_fmap in Hi as (x & Hx & Hin').
  simpl in Hp'. rewrite Hp' in Hin'. unfold qualified in Hin'. simpl in Hin'.
  rewrite vec_remove_node in Hin'. apply list_elem_of_filter in Hin' as [_ [Hne _]%not_via_elem]. done.
Qed.

(** C37: Next-hop selection.  After any sequence of route announcements, removals,
    delivery reports and decay ticks on a new router whose configured weights and
    factors are sane ([config_ok]), for every path the selected next hops are distinct
    neighbours, never the node itself, each with a known route of at least the minimum
    weight; they are at most the configured number where that is positive, and at most
    one where it is 0; no left-out qualified route is heavier than a selected one, and
    if that limit is not reached every qualified route is selected.  A node that was
    just removed is selected for no path. *)
Theorem router_selection n c l ph node :
  config_ok c →
  let r := rtr_run (rtr_new n c) l in
  let hops := rtr_select_next_hops r ph in
  let max := Z.max 1 (rc_max_routes_per_path c) in
  NoDup hops ∧ n ∉ hops ∧ Z.of_nat (length hops) ≤ max ∧
  (∀ h, h ∈ hops → ∃ x, x ∈ qualified r ph ∧ r_next_hop_node_id x = h) ∧
  (∀ x y, x ∈ qualified r ph → r_next_hop_node_id x ∉ hops →
          y ∈ qualified r ph → r_next_hop_node_id y ∈ hops → f64_lt (r_weight y) (r_weight x) = false) ∧
  (Z.of_nat (length hops) < max → ∀ x, x ∈ qualified r ph → r_next_hop_node_id x ∈ hops) ∧
  node ∉ rtr_select_next_hops (rtr_remove_node r node) ph.
Proof.
  intros Hc r hops max. pose proof (rtr_run_ok n c l Hc) as Hr. fold r in Hr.
  destruct (rtr_run_node n c l) as [Hn Hcfg]. fold r in Hn, Hcfg.
  set (above := tb_routes_above (rt_table r) ph (rc_min_route_weight (rt_config r))).
  assert (hops = take (Z.to_nat max) (r_next_hop_node_id <$> above)) as Hhops.
  { unfold hops, rtr_select_next_hops. rewrite take_hops_spec by (simpl; lia).
    unfold max. rewrite <-Hcfg. cbn [length app]. by rewrite Nat.sub_0_r. }
  destruct (routes_above_spec r ph Hr) as [Hp Hs]. fold above in Hp, Hs.
  pose proof (qualified_ok r ph Hr) as Hq.
  assert (∀ h, h ∈ hops → ∃ i x, above !! i = Some x ∧ r_next_hop_node_id x = h ∧ (i < Z.to_nat max)%nat)
    as Hsel.
  { intros h Hh. rewrite Hhops in Hh. apply list_elem_of_lookup in Hh as [i Hi].
    apply lookup_take_Some in Hi as [Hi Hlt]. rewrite list_lookup_fmap in Hi.
    destruct (above !! i) as [x|] eqn:Ex; [|done]. injection Hi as Hi. by exists i, x. }
  assert (∀ i x, above !! i = Some x → (i < Z.to_nat max)%nat → r_next_hop_node_id x ∈ hops) as Hin.
  { intros i x Hi Hlt. rewrite Hhops. apply list_elem_of_lookup. exists i.
    by rewrite lookup_take_lt, list_lookup_fmap, Hi by lia. }
  split_and!.
  - rewrite Hhops. exact (NoDup_hops _ _ _ _ Hq Hp).
  - intros (i & x & Hi & Hx & _)%Hsel. apply list_elem_of_lookup_2 in Hi. rewrite Hp in Hi.
    destruct Hq as [_ Hq]. rewrite Forall_forall in Hq. destruct (Hq x Hi). congruence.
  - rewrite Hhops, length_take. lia.
  - intros h (i & x & Hi & Hx & _)%Hsel. exists x. split; [|done].
    rewrite <-Hp. by eapply list_elem_of_lookup_2.
  - intros x y Hx Hnx Hy (i & y' & Hi & Hy' & Hlt)%Hsel.
    assert (y' = y) as ->.
    { assert (y' ∈ qualified r ph) by (rewrite <-Hp; by eapply list_elem_of_lookup_2).
      destruct Hq as [Hnd _]. pose proof (find_key_elem r_next_hop_node_id _ y' Hnd) as F1.
      pose proof (find_key_elem r_next_hop_node_id _ y Hnd Hy) as F2. rewrite Hy' in F1.
      rewrite F1 in F2 by done. congruence. }
    rewrite <-Hp in Hx. apply list_elem_of_lookup in Hx as [j Hj].
    assert (¬ (j < Z.to_nat max)%nat) by (intros Hjl; by apply Hnx, (Hin j)).
    apply (Hs i j y x); [lia|done|done].
  - intros Hlt x Hx. rewrite <-Hp in Hx. apply list_elem_of_lookup in Hx as [j Hj].
    apply (Hin j); [done|]. apply lookup_lt_Some in Hj.
    rewrite Hhops, length_take, length_fmap in Hlt. lia.
  - by apply removed_not_selected.
Qed.

(** Delivery feedback.  For a known route of a reachable router: success adds
    the increment and clamps, so the new weight lies in the configured bounds;
    failure subtracts the decrement and either keeps the route with a clamped weight
    or drops it when it falls below the minimum weight; in both cases no other route
    of the path and no other path is touched.  Both replace the stored route by a
    fresh one, so its counters restart: after any success report the route shows one
    success and no failure, after any failure report it shows no failure. *)
Theorem router_feedback n c l via ph rtt e ph' h :
  config_ok c →
  let r := rtr_run (rtr_new n c) l in
  find_key r_next_hop_node_id via (vec_of (rt_table r) ph) = Some e →
  let s := vec_of (rt_table (rtr_on_delivery_success r via ph rtt)) in
  let f := vec_of (rt_table (rtr_on_delivery_failure r via ph)) in
  let w := clamp_weight c (f64_add (r_weight e) (rc_success_increment c)) in
  let raw := f64_sub (r_weight e) (rc_failure_decrement c) in
  (∃ e', find_key r_next_hop_node_id via (s ph) = Some e' ∧ r_weight e' = w ∧
     f64_lt w (rc_min_weight c) = false ∧ f64_lt (rc_max_weight c) w = false ∧
     r_success_count e' = 1 ∧ r_failure_count e' = 0) ∧
  (f64_ge raw (rc_min_weight c) = true →
     ∃ e', find_key r_next_hop_node_id via (f ph) = Some e' ∧ r_weight e' = clamp_weight c raw ∧
       r_failure_count e' = 0) ∧
  (f64_ge raw (rc_min_weight c) = false → find_key r_next_hop_node_id via (f ph) = None) ∧
  (h ≠ via → find_key r_next_hop_node_id h (s ph') = find_key r_next_hop_node_id h (vec_of (rt_table r) ph') ∧
             find_key r_next_hop_node_id h (f ph') = find_key r_next_hop_node_id h (vec_of (rt_table r) ph')) ∧
  (ph' ≠ ph → s ph' = vec_of (rt_table r) ph' ∧ f ph' = vec_of (rt_table r) ph').
Proof.
  intros Hc r He s f w raw. pose proof (rtr_run_ok n c l Hc) as Hr. fold r in Hr.
  destruct (rtr_run_node n c l) as [_ Hcfg]. fold r in Hcfg.
  pose proof (success_vec r via ph rtt e Hr He) as Hs. pose proof (failure_vec r via ph e Hr He) as Hf.
  cbv zeta in Hf. rewrite Hcfg in Hs, Hf. fold s in Hs. fold f in Hf. fold w in Hs. fold raw in Hf.
  assert (∀ p, find_key r_next_hop_node_id via (not_via via (vec_of (rt_table r) p)) = None) as Hnone.
  { intros p. apply find_key_None, not_via_hop. }
  assert (h ≠ via → ∀ p, find_key r_next_hop_node_id h (not_via via (vec_of (rt_table r) p))
            = find_key r_next_hop_node_id h (vec_of (rt_table r) p)) as Hother.
  { intros Hne p. clear -Hne. induction (vec_of (rt_table r) p) as [|x v IH]; [done|].
    unfold not_via. rewrite filter_cons. case_decide as Hd; simpl.
    - destruct (r_next_hop_node_id x =? h); [done|apply IH].
    - rewrite (proj2 (Z.eqb_neq _ _)) by (intros <-; tauto). apply IH. }
  split_and!.
  - rewrite Hs, decide_True, find_key_app, Hnone by done. simpl. rewrite Z.eqb_refl.
    eexists; split; [done|]. split; [done|]. destruct (clamp_bounds c
      (f64_add (r_weight e) (rc_success_increment c)) Hc). done.
  - intros Hge. rewrite Hf, decide_True, find_key_app, Hnone, Hge by done. simpl. rewrite Z.eqb_refl.
    eexists; done.
  - intros Hge. by rewrite Hf, decide_True, find_key_app, Hnone, Hge by done.
  - intros Hne. rewrite Hs, Hf. case_decide; [|done]. rewrite !find_key_app, Hother by done. split.
    + destruct (find_key _ h (vec_of _ _)); [done|]. simpl. by rewrite (proj2 (Z.eqb_neq _ _)).
    + destruct (find_key _ h (vec_of _ _)); [done|]. case_match; [|done]. simpl.
      by rewrite (proj2 (Z.eqb_neq _ _)).
  - intros Hne. rewrite Hs, Hf, !decide_False by congruence. done.
Qed.
End RouterTheorems.

(** ** A sort: insertion *)
Fixpoint insert_by {A} (comp : A → A → bool) (x : A) (l : list A) : list A :=
  match l with
  | [] => [x]
  | y :: l' => if comp y x then y :: insert_by comp x l' else x :: l
  end.
Definition insertion_sort {A} (comp : A → A → bool) (l : list A) : list A :=
  foldr (insert_by comp) [] l.
Lemma insert_by_perm {A} comp (x : A) l : insert_by comp x l ≡ₚ x :: l.
Proof.
  induction l as [|y l IH]; simpl; [done|]. case_match; [|done]. rewrite IH. apply Permutation_swap.
Qed.
Lemma insertion_sort_perm {A} comp (l : list A) : insertion_sort comp l ≡ₚ l.
Proof.
  induction l as [|x l IH]; simpl; [done|]. rewrite insert_by_perm. by rewrite IH.
Qed.
Definition ordered {A} (comp : A → A → bool) (l : list A) : Prop :=
  ∀ i j x y, (i < j)%nat → l !! i = Some x → l !! j = Some y → comp y x = false.
Lemma ordered_cons {A} comp (x : A) l :
  ordered comp (x :: l) ↔ Forall (λ y, comp y x = false) l ∧ ordered comp l.
Proof.
  split.
  - intros Ho. split.
    + apply Forall_lookup. intros i y Hy. by apply (Ho O (S i) x y); [lia|..].
    + intros i j a b Hij Ha Hb. by apply (Ho (S i) (S j) a b); [lia|..].
  - intros [Hf Ho] [|i] [|j] a b Hij Ha Hb; try lia; simpl in *.
    + simplify_eq. rewrite Forall_lookup in Hf. by eapply Hf.
    + apply (Ho i j a b); [lia|done|done].
Qed.
Lemma insert_by_ordered {A} (comp : A → A → bool) x l :
  strict_weak comp (x :: l) → ordered comp l → ordered comp (insert_by comp x l).
Proof.
  intros Hsw. induction l as [|y l IH]; simpl.
  { intros _. apply ordered_cons. split; [constructor|]. by intros i j a b _ Hi. }
  assert (strict_weak comp (x :: l)) as Hsw'.
  { destruct Hsw as (H1 & H2 & H3). split_and!; intros; [apply H1|eapply H2|eapply H3]; set_solver. }
  destruct Hsw as (Hirr & Htr & Hntr).
  intros Ho. pose proof Ho as [Hy Hl]%ordered_cons.
  destruct (comp y x) eqn:E; apply ordered_cons.
  - split; [|by apply IH]. rewrite insert_by_perm. constructor; [|done].
    destruct (comp x y) eqn:E2; [|done].
    rewrite <-(Hirr x) by set_solver. symmetry. apply (Htr x y x); set_solver.
  - split; [|done]. constructor; [done|]. rewrite Forall_forall in Hy |- *. intros z Hz.
    apply (Hntr z y x); set_solver.
Qed.
Lemma insertion_sort_ordered {A} (comp : A → A → bool) l :
  strict_weak comp l → ordered comp (insertion_sort comp l).
Proof.
  induction l as [|x l IH]; intros Hsw; simpl; [by intros i j a b _ Hi|].
  assert (strict_weak comp l) as Hsw'.
  { destruct Hsw as (H1 & H2 & H3). split_and!; intros; [apply H1|eapply H2|eapply H3]; set_solver. }
  apply insert_by_ordered; [|by apply IH].
  destruct Hsw as (H1 & H2 & H3). pose proof (insertion_sort_perm comp l) as Hp.
  split_and!; setoid_rewrite Hp; done.
Qed.
Definition insertion_std_sort : StdSort := {|
  std_sort A comp l := insertion_sort comp l;
  std_sort_perm A comp l _ := insertion_sort_perm comp l;
  std_sort_sorted A comp l i j x y Hsw Hij Hx Hy := insertion_sort_ordered comp l Hsw i j x y Hij Hx Hy
|}.

(** ** A small mesh *)
Lemma rcfg_default_ok : config_ok rcfg_default.
Proof. by_decide. Qed.
Definition mesh_ops : list RouterOp := [RLearn 77 2; RLearn 77 3; RSuccess 3 77 900; RLearn 77 1; RTick].
Lemma router_selection_witness :
  let hops := @rtr_select_next_hops insertion_std_sort
                (@rtr_run insertion_std_sort (rtr_new 1 rcfg_default) mesh_ops) 77 in
  hops = [3; 2] ∧ NoDup hops.
Proof.
  split; [vm_compute; reflexivity|].
  exact (proj1 (@router_selection insertion_std_sort 1 rcfg_default mesh_ops 77 0 rcfg_default_ok)).
Defined.
(** A limit of 0 does not switch a path off: one hop is selected. *)
Definition no_routes : RouterConfig :=
  {| rc_success_increment := rc_success_increment rcfg_default;
     rc_failure_decrement := rc_failure_decrement rcfg_default;
     rc_decay_factor := rc_decay_factor rcfg_default;
     rc_min_route_weight := rc_min_route_weight rcfg_default; rc_max_routes_per_path := 0;
     rc_latency_alpha := rc_latency_alpha rcfg_default; rc_min_weight := rc_min_weight rcfg_default;
     rc_max_weight := rc_max_weight rcfg_default |}.
Example limit_zero :
  @rtr_select_next_hops insertion_std_sort
    (@rtr_run insertion_std_sort (rtr_new 1 no_routes) mesh_ops) 77 = [2].
Proof. vm_compute. reflexivity. Qed.
Lemma router_feedback_witness :
  let r := @rtr_run insertion_std_sort (rtr_new 1 rcfg_default) mesh_ops in
  ∃ e', find_key r_next_hop_node_id 3
          (vec_of (rt_table (@rtr_on_delivery_success insertion_std_sort r 3 77 500)) 77) = Some e' ∧
        r_success_count e' = 1.
Proof.
  destruct (find_key r_next_hop_node_id 3 (vec_of (rt_table
    (@rtr_run insertion_std_sort (rtr_new 1 rcfg_default) mesh_ops)) 77)) as [e|] eqn:He;
    [|vm_compute in He; discriminate].
  destruct (@router_feedback insertion_std_sort 1 rcfg_default mesh_ops 3 77 500 e 0 0
    rcfg_default_ok He) as [(e' & H1 & _ & _ & _ & H2 & _) _].
  exists e'. exact (conj H1 H2).
Defined.
