(* ===== verification/Relay.v ===== *)
(** * Aggregator and relay node

    Models [src/relay/aggregator.cpp] (deltas of one path are merged into a
    relay-owned CRDT and emitted as one snapshot per batch) and
    [src/relay/relay_node.cpp] (the aggregator's emissions pass a resolution filter
    into a forward queue that [tick] and [flush] drain).  A callback is modelled by
    the list of its calls; the emit callback of the relay is [rn_on_emit].  Reads of
    the steady clock are arguments in nanoseconds. *)
From S2P Require Import Prelude Platform Frame GCounter Crdt StateRegistry Resolution.

(** ** aggregator.h / aggregator.cpp *)
Record AggregatorConfig := { ac_max_batch_size : Z; ac_max_batch_age_us : Z }.
Definition ac_default : AggregatorConfig := {| ac_max_batch_size := 10; ac_max_batch_age_us := 50000 |}.
Record Bucket := { bk_type : CrdtType; bk_crdt : CrdtValue; bk_delta_count : Z; bk_first_ingest : Z }.
Record Emission := { em_path_hash : Z; em_type : CrdtType; em_data : bytes }.
Record Aggregator := {
  ag_config : AggregatorConfig; ag_buckets : gmap Z Bucket; ag_has_cb : bool;
  ag_total_ingested : Z; ag_total_emitted : Z }.
Definition ag_new (config : AggregatorConfig) : Aggregator :=
  {| ag_config := config; ag_buckets := ∅; ag_has_cb := false; ag_total_ingested := 0;
     ag_total_emitted := 0 |}.
Definition ag_set_callback (a : Aggregator) : Aggregator :=
  {| ag_config := ag_config a; ag_buckets := ag_buckets a; ag_has_cb := true;
     ag_total_ingested := ag_total_ingested a; ag_total_emitted := ag_total_emitted a |}.
Definition ag_with (a : Aggregator) (b : gmap Z Bucket) (ing emitted : Z) : Aggregator :=
  {| ag_config := ag_config a; ag_buckets := b; ag_has_cb := ag_has_cb a;
     ag_total_ingested := ing; ag_total_emitted := emitted |}.
Definition ag_set_config (a : Aggregator) (c : AggregatorConfig) : Aggregator :=
  {| ag_config := c; ag_buckets := ag_buckets a; ag_has_cb := ag_has_cb a;
     ag_total_ingested := ag_total_ingested a; ag_total_emitted := ag_total_emitted a |}.
(** The relay owns its CRDTs as node 0. *)
Definition ag_create_crdt (type : CrdtType) : option CrdtValue := sreg_create_crdt 0 type.

(** The emissions of one bucket: none, or one. *)
Definition ag_flush_bucket (a : Aggregator) (path_hash : Z) (bucket : Bucket)
    : res (Aggregator * list Emission) :=
  if bk_delta_count bucket =? 0 then Ok (a, []) else
  let! snapshot := cv_snapshot (bk_crdt bucket) in
  if negb (bool_decide (snapshot = [])) && ag_has_cb a
  then Ok (ag_with a (ag_buckets a) (ag_total_ingested a) (u64 (ag_total_emitted a + 1)),
           [{| em_path_hash := path_hash; em_type := bk_type bucket; em_data := snapshot |}])
  else Ok (a, []).
Definition ag_ingest (a : Aggregator) (now path_hash : Z) (type : CrdtType) (delta : bytes)
    : res (Aggregator * list Emission) :=
  let a := ag_with a (ag_buckets a) (u64 (ag_total_ingested a + 1)) (ag_total_emitted a) in
  let! bucket :=
    match ag_buckets a !! path_hash with
    | None =>
        match ag_create_crdt type with
        | None => Ok None
        | Some c =>
            let! (c, _) := cv_merge c delta in
            Ok (Some {| bk_type := type; bk_crdt := c; bk_delta_count := 1; bk_first_ingest := now |})
        end
    | Some b =>
        let! (c, _) := cv_merge (bk_crdt b) delta in
        Ok (Some {| bk_type := bk_type b; bk_crdt := c;
                    bk_delta_count := u32 (bk_delta_count b + 1);
                    bk_first_ingest := bk_first_ingest b |})
    end in
  match bucket with
  | None => Ok (a, [])
  | Some b =>
      let a := ag_with a (<[path_hash := b]> (ag_buckets a)) (ag_total_ingested a) (ag_total_emitted a) in
      if ac_max_batch_size (ag_config a) <=? bk_delta_count b then
        let! (a, em) := ag_flush_bucket a path_hash b in
        Ok (ag_with a (delete path_hash (ag_buckets a)) (ag_total_ingested a) (ag_total_emitted a), em)
      else Ok (a, [])
  end.
Section Flush.
Context `{UnorderedIter}.
Definition ag_flush (a : Aggregator) : res (Aggregator * list Emission * nat) :=
  let! (a, em, count) :=
    res_foldl (λ '(a, em, count) '(hash, bucket),
      if 0 <? bk_delta_count bucket then
        let! (a, e) := ag_flush_bucket a hash bucket in Ok (a, em ++ e, S count)
      else Ok (a, em, count)) (a, [], O) (uiter (ag_buckets a)) in
  Ok (ag_with a ∅ (ag_total_ingested a) (ag_total_emitted a), em, count).
Definition ag_ready (c : AggregatorConfig) (now : Z) (b : Bucket) : bool :=
  (ac_max_batch_size c <=? bk_delta_count b) ||
  ((0 <? ac_max_batch_age_us c) &&
   (ac_max_batch_age_us c <=? u64 (Z.quot (now - bk_first_ingest b) 1000))).
Definition ag_flush_if_ready (a : Aggregator) (now : Z) : res (Aggregator * list Emission * nat) :=
  let to_flush := fst <$> filter (λ p : Z * Bucket, ag_ready (ag_config a) now p.2 = true)
                            (uiter (ag_buckets a)) in
  let! (a, em) :=
    res_foldl (λ '(a, em) hash,
      match ag_buckets a !! hash with
      | None => Ok (a, em)
      | Some b =>
          let! (a, e) := ag_flush_bucket a hash b in
          Ok (ag_with a (delete hash (ag_buckets a)) (ag_total_ingested a) (ag_total_emitted a), em ++ e)
      end) (a, []) to_flush in
  Ok (a, em, length to_flush).
End Flush.
Definition ag_reset (a : Aggregator) : Aggregator := ag_with a ∅ 0 0.

(** ** relay_node.h / relay_node.cpp *)
Record RelayConfig := {
  rlc_aggregator : AggregatorConfig; rlc_forward_tier : ResolutionTier;
  rlc_resolution : ResolutionConfig; rlc_store_local : bool }.
Definition rlc_default : RelayConfig :=
  {| rlc_aggregator := ac_default; rlc_forward_tier := RT_FULL; rlc_resolution := rc_default;
     rlc_store_local := false |}.
Record RelayNode := {
  rn_node_id : Z; rn_config : RelayConfig; rn_aggregator : Aggregator; rn_filter : DeltaFilter;
  rn_has_forward_cb : bool; rn_forward_queue : list Emission; rn_downstream : gset Z;
  rn_last_source : gmap Z Z; rn_received : Z; rn_forwarded : Z; rn_filtered : Z;
  rn_loops_prevented : Z }.
Definition rn_new (node_id : Z) (config : RelayConfig) : RelayNode :=
  {| rn_node_id := node_id; rn_config := config;
     rn_aggregator := ag_set_callback (ag_new (rlc_aggregator config));
     rn_filter := df_new (rlc_forward_tier config) (rlc_resolution config);
     rn_has_forward_cb := false; rn_forward_queue := []; rn_downstream := ∅; rn_last_source := ∅;
     rn_received := 0; rn_forwarded := 0; rn_filtered := 0; rn_loops_prevented := 0 |}.
Definition rn_set_forward_callback (n : RelayNode) : RelayNode :=
  {| rn_node_id := rn_node_id n; rn_config := rn_config n; rn_aggregator := rn_aggregator n;
     rn_filter := rn_filter n; rn_has_forward_cb := true; rn_forward_queue := rn_forward_queue n;
     rn_downstream := rn_downstream n; rn_last_source := rn_last_source n;
     rn_received := rn_received n; rn_forwarded := rn_forwarded n; rn_filtered := rn_filtered n;
     rn_loops_prevented := rn_loops_prevented n |}.
(** The fields the pipeline changes. *)
Definition rn_with (n : RelayNode) (a : Aggregator) (f : DeltaFilter) (q : list Emission)
    (forwarded filtered : Z) : RelayNode :=
  {| rn_node_id := rn_node_id n; rn_config := rn_config n; rn_aggregator := a; rn_filter := f;
     rn_has_forward_cb := rn_has_forward_cb n; rn_forward_queue := q;
     rn_downstream := rn_downstream n; rn_last_source := rn_last_source n;
     rn_received := rn_received n; rn_forwarded := forwarded; rn_filtered := filtered;
     rn_loops_prevented := rn_loops_prevented n |}.
Definition rn_set_config (n : RelayNode) (cfg : RelayConfig) : RelayNode :=
  {| rn_node_id := rn_node_id n; rn_config := cfg;
     rn_aggregator := ag_set_config (rn_aggregator n) (rlc_aggregator cfg);
     rn_filter := df_set_config (df_set_tier (rn_filter n) (rlc_forward_tier cfg)) (rlc_resolution cfg);
     rn_has_forward_cb := rn_has_forward_cb n; rn_forward_queue := rn_forward_queue n;
     rn_downstream := rn_downstream n; rn_last_source := rn_last_source n;
     rn_received := rn_received n; rn_forwarded := rn_forwarded n; rn_filtered := rn_filtered n;
     rn_loops_prevented := rn_loops_prevented n |}.
(** The emit callback the constructor installs. *)
Definition rn_on_emit (now : Z) (n : RelayNode) (e : Emission) : RelayNode :=
  let queued f := rn_with n (rn_aggregator n) f (rn_forward_queue n ++ [e]) (rn_forwarded n) (rn_filtered n) in
  if negb (bool_decide (rlc_forward_tier (rn_config n) = RT_FULL)) then
    let '(f, ok) := df_should_forward (rn_filter n) now (em_path_hash e) (em_data e) in
    if negb ok
    then rn_with n (rn_aggregator n) f (rn_forward_queue n) (rn_forwarded n) (u64 (rn_filtered n + 1))
    else queued f
  else queued (rn_filter n).
(** Run an aggregator operation with the callback installed. *)
Definition rn_emitted (now : Z) (n : RelayNode) (a : Aggregator) (em : list Emission) : RelayNode :=
  foldl (rn_on_emit now) (rn_with n a (rn_filter n) (rn_forward_queue n) (rn_forwarded n) (rn_filtered n)) em.
Definition rn_receive_delta (n : RelayNode) (now path_hash : Z) (type : CrdtType) (data : bytes)
    (source_node : Z) : res RelayNode :=
  let n := {| rn_node_id := rn_node_id n; rn_config := rn_config n; rn_aggregator := rn_aggregator n;
     rn_filter := rn_filter n; rn_has_forward_cb := rn_has_forward_cb n;
     rn_forward_queue := rn_forward_queue n; rn_downstream := rn_downstream n;
     rn_last_source := <[path_hash := source_node]> (rn_last_source n);
     rn_received := u64 (rn_received n + 1); rn_forwarded := rn_forwarded n;
     rn_filtered := rn_filtered n; rn_loops_prevented := rn_loops_prevented n |} in
  let! (a, em) := ag_ingest (rn_aggregator n) now path_hash type data in
  Ok (rn_emitted now n a em).
(** The loop over the forward queue; the second component is what the forward
    callback received. *)
Definition rn_drain (n : RelayNode) : RelayNode * list Emission :=
  (rn_with n (rn_aggregator n) (rn_filter n) []
     (if rn_has_forward_cb n
      then u64 (rn_forwarded n + Z.of_nat (length (rn_forward_queue n))) else rn_forwarded n)
     (rn_filtered n),
   if rn_has_forward_cb n then rn_forward_queue n else []).
Section Relay.
Context `{UnorderedIter}.
Definition rn_tick (n : RelayNode) (now : Z) : res (RelayNode * list Emission) :=
  let! (a, em, _) := ag_flush_if_ready (rn_aggregator n) now in
  Ok (rn_drain (rn_emitted now n a em)).
Definition rn_flush (n : RelayNode) (now : Z) : res (RelayNode * list Emission * nat) :=
  let! (a, em, flushed) := ag_flush (rn_aggregator n) in
  let '(n, fwd) := rn_drain (rn_emitted now n a em) in
  Ok (n, fwd, flushed).
End Relay.
Definition rn_add_downstream (n : RelayNode) (node : Z) : RelayNode :=
  {| rn_node_id := rn_node_id n; rn_config := rn_config n; rn_aggregator := rn_aggregator n;
     rn_filter := rn_filter n; rn_has_forward_cb := rn_has_forward_cb n;
     rn_forward_queue := rn_forward_queue n; rn_downstream := {[node]} ∪ rn_downstream n;
     rn_last_source := rn_last_source n; rn_received := rn_received n;
     rn_forwarded := rn_forwarded n; rn_filtered := rn_filtered n;
     rn_loops_prevented := rn_loops_prevented n |}.
Definition rn_remove_downstream (n : RelayNode) (node : Z) : RelayNode :=
  {| rn_node_id := rn_node_id n; rn_config := rn_config n; rn_aggregator := rn_aggregator n;
     rn_filter := rn_filter n; rn_has_forward_cb := rn_has_forward_cb n;
     rn_forward_queue := rn_forward_queue n; rn_downstream := rn_downstream n ∖ {[node]};
     rn_last_source := rn_last_source n; rn_received := rn_received n;
     rn_forwarded := rn_forwarded n; rn_filtered := rn_filtered n;
     rn_loops_prevented := rn_loops_prevented n |}.
Definition rn_is_downstream (n : RelayNode) (node : Z) : bool := bool_decide (node ∈ rn_downstream n).

(** ** Batches *)

(** Deltas of one path, each with the time at which it comes. *)
Definition ag_ingest_all (a : Aggregator) (ph : Z) (t : CrdtType) (ds : list (Z * bytes))
    : res (Aggregator * list Emission) :=
  res_foldl (λ '(a, em) '(now, d), let! (a', e) := ag_ingest a now ph t d in Ok (a', em ++ e)) (a, []) ds.
Definition cv_merge_all (c : CrdtValue) (ds : list bytes) : res CrdtValue :=
  res_foldl (λ c d, let! (c', _) := cv_merge c d in Ok c') c ds.

Lemma ag_create_crdt_ok t c : ag_create_crdt t = Some c → cv_ok c.
Proof. intros E. apply sreg_create_crdt_ok in E as [? _]; [done|]. by apply (bool_decide_eq_true_1 (is_u16 0)). Qed.
Lemma cv_merge_all_total c ds :
  cv_ok c → Forall wf_bytes ds → ∃ c', cv_merge_all c ds = Ok c' ∧ cv_ok c'.
Proof.
  intros Hc Hds. revert c Hc. induction Hds as [|d ds Hd Hds IH]; intros c Hc; [by exists c|].
  unfold cv_merge_all. cbn [res_foldl].
  destruct (cv_merge_total c d Hc Hd) as (c1 & ch & Hm & Hok & _). rewrite Hm. cbn [res_bind]. by apply IH.
Qed.

(** While the batch is not full, deltas accumulate in the bucket of the path. *)
Lemma ag_ingest_all_below a ph t c0 ds :
  ag_buckets a !! ph = None → ag_create_crdt t = Some c0 → Forall wf_bytes ds.*2 → ds ≠ [] →
  Z.of_nat (length ds) < ac_max_batch_size (ag_config a) → is_u32 (ac_max_batch_size (ag_config a)) →
  ∃ c first, cv_merge_all c0 ds.*2 = Ok c ∧
    ag_ingest_all a ph t ds = Ok (ag_with a
      (<[ph := {| bk_type := t; bk_crdt := c; bk_delta_count := Z.of_nat (length ds);
                  bk_first_ingest := first |}]> (ag_buckets a))
      (u64 (ag_total_ingested a + Z.of_nat (length ds))) (ag_total_emitted a), []).
Proof.
  intros Hnone Hcr Hds Hne Hlt Hmax. pose proof (ag_create_crdt_ok _ _ Hcr) as Hc0.
  induction ds as [|[now d] ds IH] using rev_ind; [done|]. clear Hne.
  rewrite fmap_app in *. apply Forall_app in Hds as [Hds [Hd _]%Forall_cons]. simpl in Hd.
  rewrite length_app in *. simpl in Hlt.
  unfold cv_merge_all, ag_ingest_all. setoid_rewrite res_foldl_app.
  destruct (decide (ds = [])) as [->|Hne].
  - cbn [res_foldl res_bind fmap list_fmap snd]. destruct (cv_merge_total c0 d Hc0 Hd) as (c1 & ch & Hm1 & _ & _). rewrite Hm1. cbn [res_bind].
    exists c1, now. split; [done|]. unfold ag_ingest. cbn [ag_buckets ag_with]. rewrite Hnone, Hcr, Hm1.
    cbn [res_bind ag_config ag_with bk_delta_count].
    rewrite (proj2 (Z.leb_gt _ _)) by (simpl in Hlt; lia). done.
  - destruct IH as (c & first & Hc & Hi); [done|done|lia|]. unfold cv_merge_all, ag_ingest_all in Hc, Hi.
    rewrite Hc, Hi. cbn [res_foldl res_bind fmap list_fmap snd].
    destruct (cv_merge_all_total c0 ds.*2 Hc0 Hds) as (c' & Hc' & Hcok).
    unfold cv_merge_all in Hc'. rewrite Hc in Hc'. injection Hc' as <-.
    destruct (cv_merge_total c d Hcok Hd) as (c1 & ch & Hm1 & _ & _). rewrite Hm1. cbn [res_bind].
    exists c1, first. split; [done|]. unfold ag_ingest. cbn [ag_buckets ag_with].
    rewrite lookup_insert_eq. cbn [bk_crdt bk_type bk_delta_count bk_first_ingest]. rewrite Hm1.
    cbn [res_bind ag_config ag_with bk_delta_count].
    rewrite (wrap_id 32) by (unfold is_u32, is_u in *; lia).
    rewrite (proj2 (Z.leb_gt _ _)) by (simpl in Hlt; lia). unfold ag_with. simpl.
    rewrite insert_insert_eq. do 3 f_equal.
    + repeat f_equal. lia.
    + unfold wrap. rewrite Zplus_mod_idemp_l. f_equal. lia.
Qed.

(** The emission of a merged value: nothing for an empty snapshot. *)
Definition emission (ph : Z) (t : CrdtType) (bs : bytes) : list Emission :=
  if bool_decide (bs = []) then [] else [{| em_path_hash := ph; em_type := t; em_data := bs |}].

Lemma ag_flush_bucket_spec a ph bk bs :
  ag_has_cb a = true → 0 < bk_delta_count bk → cv_snapshot (bk_crdt bk) = Ok bs →
  ∃ n, ag_flush_bucket a ph bk
       = Ok (ag_with a (ag_buckets a) (ag_total_ingested a) n, emission ph (bk_type bk) bs).
Proof.
  intros Hcb Hpos Hbs. unfold ag_flush_bucket, emission.
  rewrite (proj2 (Z.eqb_neq _ _)), Hbs, Hcb by lia. cbn [res_bind].
  case_bool_decide; simpl; [|by eexists]. exists (ag_total_emitted a). by destruct a.
Qed.

(** The delta that fills a batch. *)
Lemma ag_ingest_filling a now ph t c0 c d n :
  ag_has_cb a = true → ag_create_crdt t = Some c0 → cv_ok c → wf_bytes d →
  match ag_buckets a !! ph with
  | None => c = c0 ∧ n = 0
  | Some b => bk_type b = t ∧ bk_crdt b = c ∧ bk_delta_count b = n
  end →
  0 ≤ n → ac_max_batch_size (ag_config a) = n + 1 → is_u32 (n + 1) →
  ∃ c' ch bs a', cv_merge c d = Ok (c', ch) ∧ cv_snapshot c' = Ok bs ∧
    ag_ingest a now ph t d = Ok (a', emission ph t bs) ∧
    ag_buckets a' = delete ph (ag_buckets a) ∧ ag_total_ingested a' = u64 (ag_total_ingested a + 1).
Proof.
  intros Hcb Hcr Hc Hd Hb Hn Hmax Hu.
  destruct (cv_merge_total c d Hc Hd) as (c' & ch & Hm & Hc' & _).
  destruct (cv_snapshot_total c' Hc') as (bs & Hbs & _).
  exists c', ch, bs. unfold ag_ingest. cbn [ag_buckets ag_with].
  assert (∃ bk, (match ag_buckets a !! ph with
     | None => match ag_create_crdt t with
               | None => Ok None
               | Some c => let! (c, _) := cv_merge c d in
                   Ok (Some {| bk_type := t; bk_crdt := c; bk_delta_count := 1; bk_first_ingest := now |})
               end
     | Some b => let! (c, _) := cv_merge (bk_crdt b) d in
         Ok (Some {| bk_type := bk_type b; bk_crdt := c; bk_delta_count := u32 (bk_delta_count b + 1);
                     bk_first_ingest := bk_first_ingest b |})
     end) = Ok (Some bk) ∧ bk_type bk = t ∧ bk_crdt bk = c' ∧ bk_delta_count bk = n + 1)
    as (bk & -> & Et & Ec & En).
  { destruct (ag_buckets a !! ph) as [b|].
    - destruct Hb as (<- & -> & ->). rewrite Hm. cbn [res_bind]. eexists. split_and!; [done..|].
      simpl. by apply wrap_id.
    - destruct Hb as [-> ->]. rewrite Hcr, Hm. cbn [res_bind]. by eexists. }
  cbn [res_bind ag_config ag_with]. rewrite En, Hmax, Z.leb_refl.
  match goal with |- context [ag_flush_bucket ?x ph bk] =>
    destruct (ag_flush_bucket_spec x ph bk bs) as [k ->]; [done|lia|by rewrite Ec|] end.
  cbn [res_bind]. rewrite Et. eexists. split_and!; [done..| |done]. simpl. by rewrite delete_insert_eq.
Qed.

(** The aggregator turns a batch into one merged update.  The deltas of one
    path, whatever their content, are merged in order into one CRDT: as long as the
    batch is not full nothing is emitted and flushing the path's bucket emits
    exactly the snapshot of the merge... *)
Lemma aggregator_early a ph t c0 ds :
  ag_has_cb a = true → ag_buckets a !! ph = None → ag_create_crdt t = Some c0 →
  Forall wf_bytes ds.*2 → ds ≠ [] → Z.of_nat (length ds) < ac_max_batch_size (ag_config a) →
  is_u32 (ac_max_batch_size (ag_config a)) →
  ∃ c bs a1 bk a2, cv_merge_all c0 ds.*2 = Ok c ∧ cv_snapshot c = Ok bs ∧
    ag_ingest_all a ph t ds = Ok (a1, []) ∧ ag_buckets a1 = <[ph := bk]> (ag_buckets a) ∧
    ag_flush_bucket a1 ph bk = Ok (a2, emission ph t bs).
Proof.
  intros Hcb Hb Hcr Hds Hne Hlt Hu.
  destruct (ag_ingest_all_below a ph t c0 ds) as (c & first & Hc & Hi); try done.
  destruct (cv_merge_all_total c0 ds.*2 (ag_create_crdt_ok _ _ Hcr) Hds) as (x & Hx & Hcok).
  rewrite Hc in Hx. injection Hx as <-. destruct (cv_snapshot_total c Hcok) as (bs & Hbs & _).
  set (bk := {| bk_type := t |}) in Hi. set (a1 := ag_with _ _ _ _) in Hi.
  destruct (ag_flush_bucket_spec a1 ph bk bs Hcb) as [n Hfl]; [simpl; destruct ds; [done|simpl; lia]|done|].
  exists c, bs, a1, bk. eexists. done.
Qed.
(** ... and the delta that fills the batch emits exactly that snapshot, once; the
    path's bucket is gone while other paths keep theirs. *)
Lemma aggregator_full a ph t c0 ds now d :
  ag_has_cb a = true → ag_buckets a !! ph = None → ag_create_crdt t = Some c0 →
  Forall wf_bytes ds.*2 → wf_bytes d →
  ac_max_batch_size (ag_config a) = Z.of_nat (length ds) + 1 → is_u32 (ac_max_batch_size (ag_config a)) →
  ∃ c bs a1, cv_merge_all c0 (ds ++ [(now, d)]).*2 = Ok c ∧ cv_snapshot c = Ok bs ∧
    ag_ingest_all a ph t (ds ++ [(now, d)]) = Ok (a1, emission ph t bs) ∧ ag_buckets a1 = ag_buckets a ∧
    ag_total_ingested a1 = u64 (ag_total_ingested a + Z.of_nat (length ds) + 1).
Proof.
  intros Hcb Hb Hcr Hds Hd Hmax Hu. pose proof (ag_create_crdt_ok _ _ Hcr) as Hc0.
  destruct (cv_merge_all_total c0 ds.*2 Hc0 Hds) as (c & Hc & Hcok).
  assert (∃ a1, ag_ingest_all a ph t ds = Ok (a1, []) ∧ ag_has_cb a1 = true ∧ ag_config a1 = ag_config a ∧
    delete ph (ag_buckets a1) = ag_buckets a ∧
    u64 (ag_total_ingested a1 + 1) = u64 (ag_total_ingested a + Z.of_nat (length ds) + 1) ∧
    match ag_buckets a1 !! ph with
    | None => c = c0 ∧ Z.of_nat (length ds) = 0
    | Some b => bk_type b = t ∧ bk_crdt b = c ∧ bk_delta_count b = Z.of_nat (length ds)
    end) as (a1 & Hi & Hcb1 & Hcfg & Hdel & Hing & Hbk).
  { destruct (decide (ds = [])) as [->|Hne].
    - exists a. rewrite Hb. injection Hc as <-. split_and!; try done; [by apply delete_id|].
      simpl. do 2 f_equal. lia.
    - destruct (ag_ingest_all_below a ph t c0 ds) as (c1 & first & Hc1 & Hi); try done; [lia|].
      rewrite Hc in Hc1. injection Hc1 as <-. eexists. split; [exact Hi|]. cbn [ag_with ag_has_cb ag_config ag_buckets ag_total_ingested].
      rewrite lookup_insert_eq, delete_insert_id by done. split_and!; try done.
      unfold wrap. by rewrite Zplus_mod_idemp_l. }
  destruct (ag_ingest_filling a1 now ph t c0 c d (Z.of_nat (length ds))) as (c' & ch & bs & a2 & Hm & Hbs & Hin & Hb2 & Hi2);
    [done|done|done|done|done|lia|congruence|by rewrite <-Hmax|].
  exists c', bs, a2. rewrite fmap_app. unfold cv_merge_all, ag_ingest_all in *.
  rewrite !res_foldl_app, Hc, Hi. cbn [res_bind res_foldl fmap list_fmap snd]. rewrite Hm, Hin. cbn [res_bind app].
  split_and!; [done..|congruence|]. by rewrite Hi2, Hing.
Qed.

(** ** One merged update is as good as the deltas it replaces *)

(** A counter's value ignores entries with count zero. *)
Lemma gc_sum_nonzero es :
  foldr Z.add 0 (ge_count <$> es) = foldr Z.add 0 (ge_count <$> filter (λ e, ge_count e ≠ 0) es).
Proof.
  induction es as [|e es IH]; [done|]. rewrite filter_cons. case_decide; csimpl; rewrite IH; lia.
Qed.
Lemma gc_value_counts c d :
  gc_ok c → gc_ok d → (∀ n, default 0 (gc_get c n) = default 0 (gc_get d n)) → gc_value c = gc_value d.
Proof.
  intros Hc Hd Heq. rewrite !gc_value_sum. f_equal. rewrite (gc_sum_nonzero (gc_entries c)),
    (gc_sum_nonzero (gc_entries d)).
  apply (foldr_permutation_proper (=)); [solve_proper|intros; lia|].
  apply fmap_Permutation, NoDup_Permutation.
  - apply NoDup_filter. by eapply NoDup_fmap_1, Hc.
  - apply NoDup_filter. by eapply NoDup_fmap_1, Hd.
  - intros [n x]. rewrite !list_elem_of_filter, <-!gc_get_Some by done. simpl. specialize (Heq n).
    split; intros [Hx Hg]; (split; [done|]); rewrite Hg in Heq; simpl in Heq;
      destruct (gc_get _ n); simpl in *; congruence.
Qed.
Lemma cv_merge_all_gc c ds c' :
  gc_receive c ds = Ok c' → cv_merge_all (CV_GCounter c) ds = Ok (CV_GCounter c').
Proof.
  unfold gc_receive, cv_merge_all. revert c. induction ds as [|d ds IH]; intros c; cbn [res_foldl].
  { by intros [= <-]. }
  cbn [cv_merge]. destruct (gc_merge c d) as [[c1 ch]| |]; cbn [res_bind wrap_fst]; try done. apply IH.
Qed.
Lemma gc_get_nonneg c n x : gc_ok c → gc_get c n = Some x → 0 ≤ x.
Proof.
  intros Hc Hg. apply gc_get_Some in Hg; [|done]. destruct Hc as (_ & _ & Hf).
  rewrite Forall_forall in Hf. destruct (Hf _ Hg) as [_ Hx]. simpl in Hx. unfold is_u64, is_u in Hx. lia.
Qed.
Lemma gc_new_0_ok : gc_ok (gc_new 0).
Proof. by_decide. Qed.

(** Merging [bs] into the counter [r] does what merging the messages [ds] one by one does. *)
Definition merged_alike (r : GCounter) (ds : list bytes) (bs : bytes) : Prop :=
  ∃ r1 ch r2, gc_merge r bs = Ok (r1, ch) ∧ gc_receive r ds = Ok r2 ∧
    (∀ n, default 0 (gc_get r1 n) = default 0 (gc_get r2 n)) ∧ gc_value r1 = gc_value r2.
(** The relay's counter after a batch, and what its snapshot does to receivers. *)
Lemma snapshot_alike ds :
  Forall wf_bytes ds →
  ∃ c, cv_merge_all (CV_GCounter (gc_new 0)) ds = Ok (CV_GCounter c) ∧
    gc_receive (gc_new 0) ds = Ok c ∧ cv_snapshot (CV_GCounter c) = Ok (gc_bytes (gc_entries c)) ∧
    ((length (gc_entries c) ≤ 255)%nat →
     ∀ r, gc_ok r → merged_alike r ds (gc_bytes (gc_entries c))).
Proof.
  intros Hds. destruct (gc_receive_get (gc_new 0) ds gc_new_0_ok Hds) as (c & Hc & Hcok & Hcg).
  exists c. split; [by apply cv_merge_all_gc|]. split; [done|]. split; [apply gc_snapshot_Ok|].
  intros Hlen r Hr. destruct (gc_receive_get r ds Hr Hds) as (r2 & Hr2 & Hr2ok & Hr2g).
  pose proof (gc_merge_entries_spec (gc_wire (gc_bytes (gc_entries c))) r false Hr
    (gc_wire_ok _ (gc_bytes_wf _))) as Hm.
  destruct (foldl _ _ _) as [r1 ch] eqn:E in Hm. destruct Hm as (Hr1ok & _ & _ & Hr1g & _).
  exists r1, ch, r2. split; [rewrite gc_merge_wire; by rewrite E|]. split; [done|].
  assert (∀ n, default 0 (gc_get r1 n) = default 0 (gc_get r2 n)) as Heq;
    [|split; [done|by apply gc_value_counts]].
  intros n. pose proof (gc_wire_bytes (gc_entries c) [] (proj2 (proj2 Hcok)) Hlen) as Hw.
  rewrite app_nil_r in Hw. rewrite Hr1g, Hw, entries_get_find by apply Hcok.
  change (ge_count <$> find_key ge_node_id n (gc_entries c)) with (gc_get c n).
  pose proof (gc_get_nonneg r n) as N1. pose proof (gc_get_nonneg r2 n) as N2.
  assert (gc_get (gc_new 0) n = Some 0 ∨ gc_get (gc_new 0) n = None) as Hg0.
  { unfold gc_get, gc_find. cbn [gc_new gc_entries find_key ge_node_id]. destruct (0 =? n); auto. }
  rewrite Hcg. rewrite Hr2g in *. destruct Hg0 as [-> | ->]; [|by rewrite omax_None_l].
  destruct (ojoin _) as [y|], (gc_get r n) as [x|]; simpl; try done.
  - specialize (N1 x Hr eq_refl). lia.
  - specialize (N2 y Hr2ok eq_refl). lia.
  - specialize (N1 x Hr eq_refl). lia.
Qed.
(** The counters of grow-only counter deltas name at most 255 nodes. *)
Definition few_nodes (ds : list bytes) : Prop :=
  ∀ c, gc_receive (gc_new 0) ds = Ok c → (length (gc_entries c) ≤ 255)%nat.

(** Two counts of node 4, then a message that is cut. *)
Definition batch : list (Z * bytes) :=
  [(10, gc_bytes [{| ge_node_id := 4; ge_count := 9 |}]); (20, gc_bytes [{| ge_node_id := 4; ge_count := 7 |}])].
Definition batching : Aggregator :=
  ag_set_callback (ag_new {| ac_max_batch_size := 3; ac_max_batch_age_us := 0 |}).

(** ** The relay pipeline *)

Definition rn_set_sources (n : RelayNode) (m : gmap Z Z) : RelayNode :=
  {| rn_node_id := rn_node_id n; rn_config := rn_config n; rn_aggregator := rn_aggregator n;
     rn_filter := rn_filter n; rn_has_forward_cb := rn_has_forward_cb n;
     rn_forward_queue := rn_forward_queue n; rn_downstream := rn_downstream n; rn_last_source := m;
     rn_received := rn_received n; rn_forwarded := rn_forwarded n; rn_filtered := rn_filtered n;
     rn_loops_prevented := rn_loops_prevented n |}.
Lemma rn_on_emit_sources now n m e :
  rn_on_emit now (rn_set_sources n m) e = rn_set_sources (rn_on_emit now n e) m.
Proof.
  unfold rn_on_emit. cbn [rn_set_sources rn_config rn_filter]. case_bool_decide; simpl; [done|].
  destruct (df_should_forward _ _ _ _) as [f ok]. by destruct ok.
Qed.
Lemma rn_emitted_sources now n m a em :
  rn_emitted now (rn_set_sources n m) a em = rn_set_sources (rn_emitted now n a em) m.
Proof.
  unfold rn_emitted. change (rn_with (rn_set_sources n m) ?x ?y ?z ?u ?v)
    with (rn_set_sources (rn_with n x y z u v) m).
  cbn [rn_filter rn_forward_queue rn_forwarded rn_filtered rn_set_sources].
  generalize (rn_with n a (rn_filter n) (rn_forward_queue n) (rn_forwarded n) (rn_filtered n)).
  induction em as [|e em IH]; intros n'; simpl; [done|]. by rewrite rn_on_emit_sources.
Qed.
Lemma rn_emitted_loops now n a em : rn_loops_prevented (rn_emitted now n a em) = rn_loops_prevented n.
Proof.
  unfold rn_emitted. change (rn_loops_prevented n) with (rn_loops_prevented
    (rn_with n a (rn_filter n) (rn_forward_queue n) (rn_forwarded n) (rn_filtered n))).
  generalize (rn_with n a (rn_filter n) (rn_forward_queue n) (rn_forwarded n) (rn_filtered n)).
  induction em as [|e em IH]; intros n'; simpl; [done|]. rewrite IH. unfold rn_on_emit.
  repeat case_match; done.
Qed.

(** Sources are recorded but never used.  The header announces loop prevention
    ("won't forward deltas back to source"), yet the delivered source changes
    nothing: whichever node a delta came from, also a registered downstream node,
    the relay forwards the same updates to the same callback, and the counter of
    prevented loops never moves. *)
Theorem relay_source_irrelevant `{UnorderedIter} n now now' ph t d s1 s2 n1 n2 :
  rn_receive_delta n now ph t d s1 = Ok n1 → rn_receive_delta n now ph t d s2 = Ok n2 →
  rn_forward_queue n1 = rn_forward_queue n2 ∧
  (∀ m1 out1 k1, rn_flush n1 now' = Ok (m1, out1, k1) →
     ∃ m2, rn_flush n2 now' = Ok (m2, out1, k1)) ∧
  rn_loops_prevented n1 = rn_loops_prevented n.
Proof.
  unfold rn_receive_delta. cbn [rn_aggregator].
  destruct (ag_ingest (rn_aggregator n) now ph t d) as [[a em]| |]; cbn [res_bind]; try done.
  set (n0 := {| rn_node_id := rn_node_id n; rn_last_source := <[ph := s1]> _ |}).
  intros [= <-] [= <-].
  change {| rn_node_id := rn_node_id n; rn_last_source := <[ph := s2]> (rn_last_source n) |}
    with (rn_set_sources n0 (<[ph := s2]> (rn_last_source n))).
  rewrite rn_emitted_sources. split; [done|]. split.
  - unfold rn_flush. change (rn_aggregator (rn_set_sources ?x _)) with (rn_aggregator x).
    intros m1 out1 k1. destruct (ag_flush _) as [[[a' em'] k]| |]; cbn [res_bind]; try done.
    rewrite rn_emitted_sources. unfold rn_drain. intros [= <- <- <-]. by eexists.
  - by rewrite rn_emitted_loops.
Qed.
Lemma relay_source_irrelevant_witness :
  let n := rn_add_downstream (rn_set_forward_callback (rn_new 5 rlc_default)) 8 in
  let d := gc_bytes [{| ge_node_id := 8; ge_count := 9 |}] in
  ∃ n1, rn_receive_delta n 0 77 CT_G_COUNTER d 8 = Ok n1 ∧ rn_loops_prevented n1 = 0.
Proof.
  intros n d.
  destruct (rn_receive_delta n 0 77 CT_G_COUNTER d 8) as [n1| |] eqn:E1; [|vm_compute in E1; discriminate..].
  exists n1. split; [reflexivity|].
  exact (proj2 (proj2 (relay_source_irrelevant n 0 1 77 CT_G_COUNTER d 8 8 n1 n1 E1 E1))).
Defined.
