(* ===== verification/Peer.v ===== *)
(** * Peer

    Models [include/protocoll/peer.h] and [src/peer.cpp]: the object that ties
    the connection manager, the state registry, the router, the subscription
    manager, the capability store and the per-connection resolution filters to a
    transport.  Every method is a computation in the state-and-error monad [PM]
    over the whole peer state: [Oob] is undefined behaviour in the source (an
    access outside a buffer, a null pointer, a bad cast), and the theorems show it
    does not occur.

    A pointer to a managed connection is its key in the connection map.  Successive
    reads of the steady clock are the values of a function [clock] at successive
    indices; [p_clock_reads] counts them.  Callbacks are logs of their calls
    ([p_sig_log], [p_update_log], [p_announce_log]).  The receive buffer is the list
    of bytes the transport returned. *)
From S2P Require Import Prelude Platform Frame Codec VersionVector GCounter LwwRegister Crdt.
From S2P Require Import StatePath StateRegistry Resolution Subscription AckTracker Transport.
From S2P Require Import Connection Capability Float64 Routing.

Inductive HandshakeState := HS_NONE | HS_CONNECTING | HS_ACCEPTING.
#[global] Instance HandshakeState_eq_dec : EqDecision HandshakeState.
Proof. solve_decision. Defined.

Record Peer (T : Type) := mkPeer {
  p_node_id : Z;
  p_transport : T;
  p_local_ep : Endpoint;
  p_conn_mgr : ConnectionManager;
  p_state : StateRegistry;
  p_router : Router;
  p_sub_mgr : SubscriptionManager;
  p_keys : KeyPair;
  p_cap_store : CapabilityStore;
  p_peer_keys : gmap Z bytes;
  p_access_control : bool;
  p_on_sig_failure : bool;
  p_delta_filters : gmap Z DeltaFilter;
  p_hs_state : HandshakeState;
  p_hs_remote : Endpoint;
  p_next_auto_node_id : Z;
  p_clock_reads : nat;
  p_sig_log : list (Z * Z);
  p_update_log : list UpdateEvent;
  p_announce_log : list (Z * Z) }.
Arguments mkPeer {T}.
Arguments p_node_id {T}.
Arguments p_transport {T}.
Arguments p_local_ep {T}.
Arguments p_conn_mgr {T}.
Arguments p_state {T}.
Arguments p_router {T}.
Arguments p_sub_mgr {T}.
Arguments p_keys {T}.
Arguments p_cap_store {T}.
Arguments p_peer_keys {T}.
Arguments p_access_control {T}.
Arguments p_on_sig_failure {T}.
Arguments p_delta_filters {T}.
Arguments p_hs_state {T}.
Arguments p_hs_remote {T}.
Arguments p_next_auto_node_id {T}.
Arguments p_clock_reads {T}.
Arguments p_sig_log {T}.
Arguments p_update_log {T}.
Arguments p_announce_log {T}.

(** Field updates. *)
Definition p_set_transport {T} (p : Peer T) (v : T) : Peer T :=
  mkPeer
     (p_node_id p) v (p_local_ep p) (p_conn_mgr p) (p_state p) (p_router p) (p_sub_mgr p)
     (p_keys p) (p_cap_store p) (p_peer_keys p) (p_access_control p) (p_on_sig_failure p)
     (p_delta_filters p) (p_hs_state p) (p_hs_remote p) (p_next_auto_node_id p) (p_clock_reads p)
     (p_sig_log p) (p_update_log p) (p_announce_log p).
Definition p_set_local_ep {T} (p : Peer T) (v : Endpoint) : Peer T :=
  mkPeer
     (p_node_id p) (p_transport p) v (p_conn_mgr p) (p_state p) (p_router p) (p_sub_mgr p)
     (p_keys p) (p_cap_store p) (p_peer_keys p) (p_access_control p) (p_on_sig_failure p)
     (p_delta_filters p) (p_hs_state p) (p_hs_remote p) (p_next_auto_node_id p) (p_clock_reads p)
     (p_sig_log p) (p_update_log p) (p_announce_log p).
Definition p_set_conn_mgr {T} (p : Peer T) (v : ConnectionManager) : Peer T :=
  mkPeer
     (p_node_id p) (p_transport p) (p_local_ep p) v (p_state p) (p_router p) (p_sub_mgr p)
     (p_keys p) (p_cap_store p) (p_peer_keys p) (p_access_control p) (p_on_sig_failure p)
     (p_delta_filters p) (p_hs_state p) (p_hs_remote p) (p_next_auto_node_id p) (p_clock_reads p)
     (p_sig_log p) (p_update_log p) (p_announce_log p).
Definition p_set_state {T} (p : Peer T) (v : StateRegistry) : Peer T :=
  mkPeer
     (p_node_id p) (p_transport p) (p_local_ep p) (p_conn_mgr p) v (p_router p) (p_sub_mgr p)
     (p_keys p) (p_cap_store p) (p_peer_keys p) (p_access_control p) (p_on_sig_failure p)
     (p_delta_filters p) (p_hs_state p) (p_hs_remote p) (p_next_auto_node_id p) (p_clock_reads p)
     (p_sig_log p) (p_update_log p) (p_announce_log p).
Definition p_set_router {T} (p : Peer T) (v : Router) : Peer T :=
  mkPeer
     (p_node_id p) (p_transport p) (p_local_ep p) (p_conn_mgr p) (p_state p) v (p_sub_mgr p)
     (p_keys p) (p_cap_store p) (p_peer_keys p) (p_access_control p) (p_on_sig_failure p)
     (p_delta_filters p) (p_hs_state p) (p_hs_remote p) (p_next_auto_node_id p) (p_clock_reads p)
     (p_sig_log p) (p_update_log p) (p_announce_log p).
Definition p_set_sub_mgr {T} (p : Peer T) (v : SubscriptionManager) : Peer T :=
  mkPeer
     (p_node_id p) (p_transport p) (p_local_ep p) (p_conn_mgr p) (p_state p) (p_router p) v
     (p_keys p) (p_cap_store p) (p_peer_keys p) (p_access_control p) (p_on_sig_failure p)
     (p_delta_filters p) (p_hs_state p) (p_hs_remote p) (p_next_auto_node_id p) (p_clock_reads p)
     (p_sig_log p) (p_update_log p) (p_announce_log p).
Definition p_set_cap_store {T} (p : Peer T) (v : CapabilityStore) : Peer T :=
  mkPeer
     (p_node_id p) (p_transport p) (p_local_ep p) (p_conn_mgr p) (p_state p) (p_router p)
     (p_sub_mgr p) (p_keys p) v (p_peer_keys p) (p_access_control p) (p_on_sig_failure p)
     (p_delta_filters p) (p_hs_state p) (p_hs_remote p) (p_next_auto_node_id p) (p_clock_reads p)
     (p_sig_log p) (p_update_log p) (p_announce_log p).
Definition p_set_peer_keys {T} (p : Peer T) (v : gmap Z bytes) : Peer T :=
  mkPeer
     (p_node_id p) (p_transport p) (p_local_ep p) (p_conn_mgr p) (p_state p) (p_router p)
     (p_sub_mgr p) (p_keys p) (p_cap_store p) v (p_access_control p) (p_on_sig_failure p)
     (p_delta_filters p) (p_hs_state p) (p_hs_remote p) (p_next_auto_node_id p) (p_clock_reads p)
     (p_sig_log p) (p_update_log p) (p_announce_log p).
Definition p_set_access_control {T} (p : Peer T) (v : bool) : Peer T :=
  mkPeer
     (p_node_id p) (p_transport p) (p_local_ep p) (p_conn_mgr p) (p_state p) (p_router p)
     (p_sub_mgr p) (p_keys p) (p_cap_store p) (p_peer_keys p) v (p_on_sig_failure p)
     (p_delta_filters p) (p_hs_state p) (p_hs_remote p) (p_next_auto_node_id p) (p_clock_reads p)
     (p_sig_log p) (p_update_log p) (p_announce_log p).
Definition p_set_on_sig_failure {T} (p : Peer T) (v : bool) : Peer T :=
  mkPeer
     (p_node_id p) (p_transport p) (p_local_ep p) (p_conn_mgr p) (p_state p) (p_router p)
     (p_sub_mgr p) (p_keys p) (p_cap_store p) (p_peer_keys p) (p_access_control p) v
     (p_delta_filters p) (p_hs_state p) (p_hs_remote p) (p_next_auto_node_id p) (p_clock_reads p)
     (p_sig_log p) (p_update_log p) (p_announce_log p).
Definition p_set_delta_filters {T} (p : Peer T) (v : gmap Z DeltaFilter) : Peer T :=
  mkPeer
     (p_node_id p) (p_transport p) (p_local_ep p) (p_conn_mgr p) (p_state p) (p_router p)
     (p_sub_mgr p) (p_keys p) (p_cap_store p) (p_peer_keys p) (p_access_control p)
     (p_on_sig_failure p) v (p_hs_state p) (p_hs_remote p) (p_next_auto_node_id p)
     (p_clock_reads p) (p_sig_log p) (p_update_log p) (p_announce_log p).
Definition p_set_hs_state {T} (p : Peer T) (v : HandshakeState) : Peer T :=
  mkPeer
     (p_node_id p) (p_transport p) (p_local_ep p) (p_conn_mgr p) (p_state p) (p_router p)
     (p_sub_mgr p) (p_keys p) (p_cap_store p) (p_peer_keys p) (p_access_control p)
     (p_on_sig_failure p) (p_delta_filters p) v (p_hs_remote p) (p_next_auto_node_id p)
     (p_clock_reads p) (p_sig_log p) (p_update_log p) (p_announce_log p).
Definition p_set_hs_remote {T} (p : Peer T) (v : Endpoint) : Peer T :=
  mkPeer
     (p_node_id p) (p_transport p) (p_local_ep p) (p_conn_mgr p) (p_state p) (p_router p)
     (p_sub_mgr p) (p_keys p) (p_cap_store p) (p_peer_keys p) (p_access_control p)
     (p_on_sig_failure p) (p_delta_filters p) (p_hs_state p) v (p_next_auto_node_id p)
     (p_clock_reads p) (p_sig_log p) (p_update_log p) (p_announce_log p).
Definition p_set_next_auto_node_id {T} (p : Peer T) (v : Z) : Peer T :=
  mkPeer
     (p_node_id p) (p_transport p) (p_local_ep p) (p_conn_mgr p) (p_state p) (p_router p)
     (p_sub_mgr p) (p_keys p) (p_cap_store p) (p_peer_keys p) (p_access_control p)
     (p_on_sig_failure p) (p_delta_filters p) (p_hs_state p) (p_hs_remote p) v (p_clock_reads p)
     (p_sig_log p) (p_update_log p) (p_announce_log p).
Definition p_set_clock_reads {T} (p : Peer T) (v : nat) : Peer T :=
  mkPeer
     (p_node_id p) (p_transport p) (p_local_ep p) (p_conn_mgr p) (p_state p) (p_router p)
     (p_sub_mgr p) (p_keys p) (p_cap_store p) (p_peer_keys p) (p_access_control p)
     (p_on_sig_failure p) (p_delta_filters p) (p_hs_state p) (p_hs_remote p)
     (p_next_auto_node_id p) v (p_sig_log p) (p_update_log p) (p_announce_log p).
Definition p_set_sig_log {T} (p : Peer T) (v : list (Z * Z)) : Peer T :=
  mkPeer
     (p_node_id p) (p_transport p) (p_local_ep p) (p_conn_mgr p) (p_state p) (p_router p)
     (p_sub_mgr p) (p_keys p) (p_cap_store p) (p_peer_keys p) (p_access_control p)
     (p_on_sig_failure p) (p_delta_filters p) (p_hs_state p) (p_hs_remote p)
     (p_next_auto_node_id p) (p_clock_reads p) v (p_update_log p) (p_announce_log p).
Definition p_set_update_log {T} (p : Peer T) (v : list UpdateEvent) : Peer T :=
  mkPeer
     (p_node_id p) (p_transport p) (p_local_ep p) (p_conn_mgr p) (p_state p) (p_router p)
     (p_sub_mgr p) (p_keys p) (p_cap_store p) (p_peer_keys p) (p_access_control p)
     (p_on_sig_failure p) (p_delta_filters p) (p_hs_state p) (p_hs_remote p)
     (p_next_auto_node_id p) (p_clock_reads p) (p_sig_log p) v (p_announce_log p).
Definition p_set_announce_log {T} (p : Peer T) (v : list (Z * Z)) : Peer T :=
  mkPeer
     (p_node_id p) (p_transport p) (p_local_ep p) (p_conn_mgr p) (p_state p) (p_router p)
     (p_sub_mgr p) (p_keys p) (p_cap_store p) (p_peer_keys p) (p_access_control p)
     (p_on_sig_failure p) (p_delta_filters p) (p_hs_state p) (p_hs_remote p)
     (p_next_auto_node_id p) (p_clock_reads p) (p_sig_log p) (p_update_log p) v.

(** ** The monad of peer methods *)
Definition PM (T A : Type) : Type := Peer T → res (Peer T * A).
#[global] Instance PM_ret T : MRet (PM T) := λ A a p, Ok (p, a).
#[global] Instance PM_bind T : MBind (PM T) := λ A B f m p, let! (p', a) := m p in f a p'.
Definition pm_get {T} : PM T (Peer T) := λ p, Ok (p, p).
Definition pm_modify {T} (f : Peer T → Peer T) : PM T () := λ p, Ok (f p, ()).
Definition pm_lift {T A} (m : res A) : PM T A := λ p, let! a := m in Ok (p, a).
(** Undefined behaviour: a null pointer is dereferenced or a cast is wrong. *)
Definition pm_undefined {T A} : PM T A := λ _, Oob.
Definition pm_skip {T} : PM T () := mret ().

Section Peer.
Context `{XxHash} `{Ed25519} `{UnorderedIter} `{StdSort} {T : Type} `{!Transport T}.
Context (clock : nat → Z).

Definition pm_now : PM T Z :=
  λ p, Ok (p_set_clock_reads p (S (p_clock_reads p)), clock (p_clock_reads p)).
Definition pm_send_to (data : bytes) (remote : Endpoint) : PM T Z :=
  λ p, let '(t, n) := t_send_to (p_transport p) data remote in Ok (p_set_transport p t, n).
Definition pm_recv_from (timeout_ms : Z) : PM T (option (bytes * Endpoint)) :=
  λ p, let '(t, r) := t_recv_from (p_transport p) MAX_PACKET_SIZE timeout_ms in
       Ok (p_set_transport p t, match r with Some ([], _) | None => None | Some d => Some d end).

(** [*mc] and writes through the pointer. *)
Definition pm_mc (id : Z) : PM T ManagedConnection :=
  p ← pm_get;
  match cm_get (p_conn_mgr p) id with Some mc => mret mc | None => pm_undefined end.
Definition pm_put_mc (id : Z) (mc : ManagedConnection) : PM T () :=
  pm_modify (λ p, p_set_conn_mgr p (cm_put (p_conn_mgr p) id mc)).
Definition pm_put_conn (id : Z) (c : Connection) : PM T () :=
  mc ← pm_mc id; pm_put_mc id (mc_set_conn mc c).
Definition pm_conn (id : Z) : PM T Connection := mc ← pm_mc id; mret (mc_conn mc).

(** [conn_mgr_.add]: a new connection reads the clock for its epoch. *)
Definition pm_add_conn (id : Z) : PM T bool :=
  p ← pm_get;
  match cm_get (p_conn_mgr p) id with
  | Some _ => mret false
  | None =>
      now ← pm_now;
      _ ← pm_modify (λ p, p_set_conn_mgr p (cm_add (p_conn_mgr p) now id).1);
      mret true
  end.
Definition pm_remove_conn (id : Z) : PM T () :=
  pm_modify (λ p, p_set_conn_mgr p (cm_remove (p_conn_mgr p) id).1).
Definition pm_next_conn_id : PM T Z :=
  p ← pm_get;
  let '(m, id) := cm_next_conn_id (p_conn_mgr p) in
  _ ← pm_modify (λ p, p_set_conn_mgr p m);
  mret id.
Definition pm_process_packet (id : Z) (data : bytes) : PM T HandshakeEvent :=
  c ← pm_conn id;
  '(c, event) ← pm_lift (process_packet c data);
  _ ← pm_put_conn id c;
  mret event.
(** Build an ACCEPT or CONNECT packet from the connection and send it. *)
Definition pm_send_accept (id : Z) (to : Endpoint) : PM T Z :=
  now ← pm_now; now' ← pm_now;
  c ← pm_conn id;
  '(c, pkt) ← pm_lift (build_accept_packet c now now');
  _ ← pm_put_conn id c;
  pm_send_to pkt to.
Definition pm_send_connect (id : Z) (to : Endpoint) : PM T Z :=
  now ← pm_now;
  c ← pm_conn id;
  '(c, pkt) ← pm_lift (build_connect_packet c now);
  _ ← pm_put_conn id c;
  pm_send_to pkt to.
Definition pm_initiate (id cid : Z) (remote : Endpoint) : PM T bool :=
  now ← pm_now;
  c ← pm_conn id;
  let '(c, ok) := cn_initiate c now cid remote in
  _ ← pm_put_conn id c;
  mret ok.
Definition pm_accept (id cid : Z) (from : Endpoint) : PM T () :=
  now ← pm_now;
  c ← pm_conn id;
  pm_put_conn id (cn_accept c now cid 0 from).1.
Definition pm_is_connected (id : Z) : PM T bool :=
  c ← pm_conn id; mret (bool_decide (cn_state c = CONNECTED)).

(** ** Identity *)
Definition peer_new (node_id : Z) (transport : T) (keys : KeyPair) : Peer T :=
  {| p_node_id := node_id; p_transport := transport; p_local_ep := Endpoint_default;
     p_conn_mgr := cm_new; p_state := sreg_new node_id;
     p_router := rtr_new node_id rcfg_default; p_sub_mgr := sm_new; p_keys := keys;
     p_cap_store := cs_new keys node_id; p_peer_keys := ∅; p_access_control := false;
     p_on_sig_failure := false; p_delta_filters := ∅; p_hs_state := HS_NONE;
     p_hs_remote := Endpoint_default; p_next_auto_node_id := 1000; p_clock_reads := O;
     p_sig_log := []; p_update_log := []; p_announce_log := [] |}.
Definition peer_register_peer_key (p : Peer T) (node_id : Z) (pk : bytes) : Peer T :=
  let p := p_set_peer_keys p (<[node_id := pk]> (p_peer_keys p)) in
  p_set_cap_store p (cs_register_peer_key (p_cap_store p) node_id pk).

(** ** Connection (single peer) *)
Definition peer_connect (remote : Endpoint) : PM T bool :=
  _ ← pm_add_conn 0;
  cid ← pm_next_conn_id;
  ok ← pm_initiate 0 cid remote;
  if negb ok then mret false else
  sent ← pm_send_connect 0 remote;
  if sent <=? 0 then mret false else
  c ← pm_conn 0;
  r ← pm_recv_from (i32 (cc_connect_timeout_ms (cn_config c)));
  match r with
  | None => mret false
  | Some (data, from) =>
      event ← pm_process_packet 0 data;
      mret (match he_result event with ACCEPT_RECEIVED => true | _ => false end)
  end.
(** The common tail of the accepting methods: process, accept, reply. *)
Definition pm_accept_packet (id : Z) (data : bytes) (from : Endpoint) : PM T bool :=
  event ← pm_process_packet id data;
  match he_result event with
  | CONNECT_RECEIVED =>
      cid ← pm_next_conn_id;
      _ ← pm_accept id cid from;
      _ ← pm_send_accept id from;
      pm_is_connected id
  | _ => mret false
  end.
Definition peer_accept_from (timeout_ms : Z) : PM T bool :=
  _ ← pm_add_conn 0;
  r ← pm_recv_from timeout_ms;
  match r with
  | None => mret false
  | Some (data, from) => pm_accept_packet 0 data from
  end.
Definition peer_is_connected (p : Peer T) : bool := cm_has_connections (p_conn_mgr p).
Definition pm_close (id : Z) (reason : CloseReason) : PM T () :=
  c ← pm_conn id;
  if bool_decide (cn_state c = CONNECTED) then
    _ ← pm_put_conn id (cn_close c reason).1;
    now ← pm_now;
    c ← pm_conn id;
    '(c, pkt) ← pm_lift (build_close_packet c now reason);
    _ ← pm_put_conn id c;
    _ ← pm_send_to pkt (cn_remote c);
    pm_skip
  else pm_skip.
Definition peer_disconnect (reason : CloseReason) : PM T () :=
  p ← pm_get;
  match cm_primary (p_conn_mgr p) with
  | Some (id, _) => pm_close id reason
  | None => pm_skip
  end.

(** [connection()] dereferences whatever [primary] answers. *)
Definition peer_connection (p : Peer T) : res Connection :=
  match cm_primary (p_conn_mgr p) with
  | Some (_, mc) => Ok (mc_conn mc)
  | None => Oob
  end.

(** ** Non-blocking handshake *)
Definition peer_connect_start (remote : Endpoint) : PM T bool :=
  _ ← pm_add_conn 0;
  cid ← pm_next_conn_id;
  ok ← pm_initiate 0 cid remote;
  if negb ok then mret false else
  sent ← pm_send_connect 0 remote;
  if sent <=? 0 then mret false else
  _ ← pm_modify (λ p, p_set_hs_remote (p_set_hs_state p HS_CONNECTING) remote);
  mret true.
Definition peer_connect_poll : PM T bool :=
  p ← pm_get;
  if negb (bool_decide (p_hs_state p = HS_CONNECTING)) then mret false else
  match cm_get (p_conn_mgr p) 0 with
  | None => mret false
  | Some mc =>
      if bool_decide (cn_state (mc_conn mc) = CONNECTED) then
        _ ← pm_modify (λ p, p_set_hs_state p HS_NONE); mret true
      else
        r ← pm_recv_from 0;
        match r with
        | None => mret false
        | Some (data, from) =>
            event ← pm_process_packet 0 data;
            match he_result event with
            | ACCEPT_RECEIVED => _ ← pm_modify (λ p, p_set_hs_state p HS_NONE); mret true
            | _ => mret false
            end
        end
  end.
Definition peer_accept_start : PM T bool :=
  _ ← pm_add_conn 0;
  _ ← pm_modify (λ p, p_set_hs_state p HS_ACCEPTING);
  mret true.
Definition peer_accept_poll : PM T bool :=
  p ← pm_get;
  if negb (bool_decide (p_hs_state p = HS_ACCEPTING)) then mret false else
  match cm_get (p_conn_mgr p) 0 with
  | None => mret false
  | Some mc =>
      if bool_decide (cn_state (mc_conn mc) = CONNECTED) then
        _ ← pm_modify (λ p, p_set_hs_state p HS_NONE); mret true
      else
        r ← pm_recv_from 0;
        match r with
        | None => mret false
        | Some (data, from) =>
            ok ← pm_accept_packet 0 data from;
            if (ok : bool) then _ ← pm_modify (λ p, p_set_hs_state p HS_NONE); mret true else mret false
        end
  end.

(** ** Multi-connection API *)
Definition peer_connect_to (remote_node_id : Z) (remote : Endpoint) : PM T bool :=
  let fail : PM T bool := _ ← pm_remove_conn remote_node_id; mret false in
  added ← pm_add_conn remote_node_id;
  if negb added then mret false else
  cid ← pm_next_conn_id;
  ok ← pm_initiate remote_node_id cid remote;
  if negb ok then fail else
  sent ← pm_send_connect remote_node_id remote;
  if sent <=? 0 then fail else
  c ← pm_conn remote_node_id;
  r ← pm_recv_from (i32 (cc_connect_timeout_ms (cn_config c)));
  match r with
  | None => fail
  | Some (data, from) =>
      event ← pm_process_packet remote_node_id data;
      match he_result event with ACCEPT_RECEIVED => mret true | _ => fail end
  end.
Definition peer_accept_node (remote_node_id timeout_ms : Z) : PM T bool :=
  let fail : PM T bool := _ ← pm_remove_conn remote_node_id; mret false in
  added ← pm_add_conn remote_node_id;
  if negb added then mret false else
  r ← pm_recv_from timeout_ms;
  match r with
  | None => fail
  | Some (data, from) =>
      ok ← pm_accept_packet remote_node_id data from;
      if (ok : bool) then mret true else fail
  end.
Definition peer_disconnect_node (remote_node_id : Z) (reason : CloseReason) : PM T () :=
  p ← pm_get;
  _ ← match cm_get (p_conn_mgr p) remote_node_id with
      | Some _ => pm_close remote_node_id reason
      | None => pm_skip
      end;
  _ ← pm_remove_conn remote_node_id;
  pm_modify (λ p,
    let p := p_set_delta_filters p (delete remote_node_id (p_delta_filters p)) in
    p_set_router p (rtr_remove_node (p_router p) remote_node_id)).
Definition peer_is_connected_to (p : Peer T) (remote_node_id : Z) : bool :=
  match cm_get (p_conn_mgr p) remote_node_id with
  | Some mc => bool_decide (cn_state (mc_conn mc) = CONNECTED)
  | None => false
  end.
Definition peer_connected_nodes (p : Peer T) : list Z := cm_connected_nodes (p_conn_mgr p).

(** ** Resolution, subscriptions, declaration *)
Definition peer_set_connection_resolution (p : Peer T) (remote_node_id : Z) (tier : ResolutionTier)
    (config : ResolutionConfig) : Peer T :=
  p_set_delta_filters p (<[remote_node_id := df_new tier config]> (p_delta_filters p)).
Definition peer_subscribe (p : Peer T) (pattern : StatePath) (tier : ResolutionTier)
    (initial_credits freshness_us : Z) : Peer T * Z :=
  let '(m, id) := sm_subscribe (p_sub_mgr p) (p_node_id p) pattern initial_credits freshness_us in
  let m := {| sm_next_id := sm_next_id m;
              sm_subs := alter (λ s, {| sub_id := sub_id s; sub_conn_id := sub_conn_id s;
                                        sub_pattern := sub_pattern s; sub_credits := sub_credits s;
                                        sub_freshness_us := sub_freshness_us s; sub_tier := tier |})
                           id (sm_subs m) |} in
  (p_set_sub_mgr p m, id).
Definition peer_declare (p : Peer T) (path : StatePath) (type : CrdtType) (rel : Reliability)
    : Peer T * bool :=
  let '(r, ok) := sreg_declare (p_state p) path type rel in
  let p := p_set_state p r in
  if ok then
    let '(rt, ann) := rtr_announce_path (p_router p) (sp_hash path) in
    (p_set_announce_log (p_set_router p rt) (p_announce_log p ++ ann), true)
  else (p, false).

(** ** Local writes *)
Definition pm_put_region (hash : Z) (g : StateRegion) : PM T () :=
  pm_modify (λ p, p_set_state p
    (sreg_set_regions (p_state p) (<[hash := g]> (sr_regions (p_state p))))).
Definition peer_set_lww (path : StatePath) (data : bytes) : PM T bool :=
  p ← pm_get;
  match sreg_get (p_state p) (sp_hash path) with
  | None => mret false
  | Some region =>
      if negb (bool_decide (rg_crdt_type region = CT_LWW_REGISTER)) then mret false else
      match rg_crdt region with
      | CV_Lww lww =>
          ts ← match cm_primary (p_conn_mgr p) with
               | Some (_, mc) => now ← pm_now; mret (cn_elapsed_us (mc_conn mc) now)
               | None => mret 0
               end;
          _ ← pm_put_region (sp_hash path)
                (rg_bump_version (p_node_id p) (rg_set_crdt region (CV_Lww (lww_set lww data ts))));
          mret true
      | _ => pm_undefined
      end
  end.
Definition peer_increment_counter (path : StatePath) (amount : Z) : PM T bool :=
  p ← pm_get;
  match sreg_get (p_state p) (sp_hash path) with
  | None => mret false
  | Some region =>
      if negb (bool_decide (rg_crdt_type region = CT_G_COUNTER)) then mret false else
      match rg_crdt region with
      | CV_GCounter gc =>
          _ ← pm_put_region (sp_hash path)
                (rg_bump_version (p_node_id p) (rg_set_crdt region (CV_GCounter (gc_increment gc amount))));
          mret true
      | _ => pm_undefined
      end
  end.

(** ** Security helpers *)
Definition build_signed_delta (keys : KeyPair) (node_id : Z) (d : PendingDelta) : res bytes :=
  let content_size := (StateDeltaFrame_BASE_WIRE_SIZE + length (pd_data d))%nat in
  let payload := replicate (content_size + StateDeltaFrame_SIGNATURE_SIZE) 0 in
  let sdf := {| sdf_path_hash := pd_path_hash d; sdf_crdt_type := pd_crdt_type d;
                sdf_reliability := pd_reliability d; sdf_author_node_id := node_id |} in
  let! payload := or_else (StateDeltaFrame_encode sdf payload) payload in
  let! payload := if bool_decide (pd_data d = []) then Ok payload
                  else store payload StateDeltaFrame_BASE_WIRE_SIZE (pd_data d) in
  let! content := slice payload 0 content_size in
  let sig := sign (kp_secret_key keys) content in
  let! sig := slice sig 0 StateDeltaFrame_SIGNATURE_SIZE in
  store payload content_size sig.
Definition verify_frame_signature (peer_keys : gmap Z bytes) (payload : bytes) (author_node_id : Z)
    (base_size : nat) : res bool :=
  if (length payload <? base_size + StateDeltaFrame_SIGNATURE_SIZE)%nat then Ok false else
  match peer_keys !! author_node_id with
  | None => Ok false
  | Some pk =>
      let content_len := (length payload - StateDeltaFrame_SIGNATURE_SIZE)%nat in
      let! sig := slice payload content_len StateDeltaFrame_SIGNATURE_SIZE in
      let! content := slice payload 0 content_len in
      Ok (verify pk sig content)
  end.

(** ** Sending *)
(** Number, stamp, finalize and send the encoder's packet; the encoder comes back
    empty with its header fields kept. *)
Definition pm_send_packet (id : Z) (enc : PacketEncoder) : PM T PacketEncoder :=
  c ← pm_conn id;
  let '(c, pkt_num) := cn_next_send_packet_number c in
  _ ← pm_put_conn id c;
  now ← pm_now;
  let enc := set_timestamp (set_packet_number enc pkt_num) (cn_elapsed_us c now) in
  '(pkt, enc) ← pm_lift (finalize enc);
  _ ← pm_send_to pkt (cn_remote c);
  now' ← pm_now;
  mc ← pm_mc id;
  _ ← pm_put_mc id
        {| mc_remote_node_id := mc_remote_node_id mc; mc_conn := mc_conn mc;
           mc_send_tracker := st_on_packet_sent (mc_send_tracker mc) pkt_num (cn_elapsed_us c now')
                                (u16 (Z.of_nat (length pkt)));
           mc_recv_tracker := mc_recv_tracker mc |};
  mret enc.
Fixpoint send_deltas_loop (id : Z) (deltas : list PendingDelta) (enc : PacketEncoder)
    (frames_sent : Z) : PM T (PacketEncoder * Z) :=
  match deltas with
  | [] => mret (enc, frames_sent)
  | d :: deltas' =>
      p ← pm_get;
      payload ← pm_lift (build_signed_delta (p_keys p) (p_node_id p) d);
      let len := u16 (Z.of_nat (length payload)) in
      added ← pm_lift (res_opt (add_frame enc FT_STATE_DELTA (Some payload) len));
      enc ← match added with
            | Some enc => mret enc
            | None =>
                enc ← pm_send_packet id enc;
                c ← pm_conn id;
                let enc := set_connection_id (set_packet_type enc PT_DATA) (cn_remote_conn_id c) in
                pm_lift (or_else (add_frame enc FT_STATE_DELTA (Some payload) len) enc)
            end;
      send_deltas_loop id deltas' enc (frames_sent + 1)
  end.
Definition send_deltas_to (id : Z) (deltas : list PendingDelta) : PM T Z :=
  c ← pm_conn id;
  let enc := set_connection_id (set_packet_type PacketEncoder_new PT_DATA) (cn_remote_conn_id c) in
  '(enc, frames_sent) ← send_deltas_loop id deltas enc 0;
  _ ← (if (0 <? payload_size enc)%nat then _ ← pm_send_packet id enc; pm_skip else pm_skip);
  mret frames_sent.
(** The resolution filter of a connection, delta by delta. *)
Fixpoint filter_deltas (f : DeltaFilter) (deltas : list PendingDelta)
    : PM T (DeltaFilter * list PendingDelta) :=
  match deltas with
  | [] => mret (f, [])
  | d :: deltas' =>
      now ← pm_now;
      let '(f, ok) := df_should_forward f now (pd_path_hash d) (pd_data d) in
      '(f, rest) ← filter_deltas f deltas';
      mret (f, if (ok : bool) then d :: rest else rest)
  end.
Definition flush_one (deltas : list PendingDelta) (id : Z) : PM T Z :=
  mc ← pm_mc id;
  if negb (bool_decide (cn_state (mc_conn mc) = CONNECTED)) then mret 0 else
  p ← pm_get;
  match p_delta_filters p !! mc_remote_node_id mc with
  | Some f =>
      '(f, filtered) ← filter_deltas f deltas;
      _ ← pm_modify (λ p, p_set_delta_filters p (<[mc_remote_node_id mc := f]> (p_delta_filters p)));
      if bool_decide (filtered = []) then mret 0 else send_deltas_to id filtered
  | None => send_deltas_to id deltas
  end.
Fixpoint flush_all (deltas : list PendingDelta) (ids : list Z) (total : Z) : PM T Z :=
  match ids with
  | [] => mret total
  | id :: ids' => n ← flush_one deltas id; flush_all deltas ids' (total + n)
  end.
Definition peer_flush : PM T Z :=
  p ← pm_get;
  if negb (cm_has_connections (p_conn_mgr p)) then mret (-1) else
  '(r, deltas) ← pm_lift (sreg_collect_deltas (p_state p));
  _ ← pm_modify (λ p, p_set_state p r);
  if bool_decide (deltas = []) then mret 0 else
  flush_all deltas (uiter (cm_conns (p_conn_mgr p))).*1 0.

(** ** Receiving *)
Definition peer_apply (p : Peer T) (r : StateRegistry) (ev : list UpdateEvent) : Peer T :=
  p_set_update_log (p_set_state p r) (p_update_log p ++ ev).
Definition peer_sig_failure (p : Peer T) (author path_hash : Z) : Peer T :=
  if p_on_sig_failure p then p_set_sig_log p (p_sig_log p ++ [(author, path_hash)]) else p.
(** [access_control_] for an incoming delta: the capability check, when the region
    is known. *)
Definition access_allowed (id : Z) (path_hash : Z) : PM T bool :=
  p ← pm_get;
  if negb (p_access_control p) then mret true else
  match sreg_get (p_state p) path_hash with
  | None => mret true
  | Some region =>
      c ← pm_conn id;
      now ← pm_now;
      mret (bool_decide (is_Some
        (cs_find_capability (p_cap_store p) (rg_path region) CAP_WRITE (cn_elapsed_us c now))))
  end.
Definition on_state_delta (id : Z) (payload : bytes) (changes : Z) : PM T Z :=
  if (length payload <? StateDeltaFrame_MIN_WIRE_SIZE)%nat then
    if (4 <=? length payload)%nat then
      h ← pm_lift (read_u32 payload 0);
      _ ← pm_modify (λ p, peer_sig_failure p 0 h);
      mret changes
    else mret changes
  else
  sdf ← pm_lift (StateDeltaFrame_decode payload);
  p ← pm_get;
  sig_ok ← pm_lift (verify_frame_signature (p_peer_keys p) payload (sdf_author_node_id sdf)
                      StateDeltaFrame_BASE_WIRE_SIZE);
  if negb sig_ok then
    _ ← pm_modify (λ p, peer_sig_failure p (sdf_author_node_id sdf) (sdf_path_hash sdf));
    mret changes
  else
  let content_len := (length payload - StateDeltaFrame_SIGNATURE_SIZE)%nat in
  delta ← pm_lift (slice payload StateDeltaFrame_BASE_WIRE_SIZE
                     (content_len - StateDeltaFrame_BASE_WIRE_SIZE));
  allowed ← access_allowed id (sdf_path_hash sdf);
  if negb allowed then mret changes else
  p ← pm_get;
  '(r, changed, ev) ← pm_lift (sreg_apply_delta (p_state p) (sdf_path_hash sdf) delta);
  _ ← pm_modify (λ p, peer_apply p r ev);
  if negb changed then mret changes else
  mc ← pm_mc id;
  _ ← pm_modify (λ p, p_set_router p (rtr_on_delivery_success (p_router p) (mc_remote_node_id mc)
                         (sdf_path_hash sdf) (cn_srtt_us (mc_conn mc))));
  mret (changes + 1).
Definition on_state_snapshot (payload : bytes) (changes : Z) : PM T Z :=
  if (length payload <? StateSnapshotFrame_MIN_WIRE_SIZE)%nat then mret changes else
  ssf ← pm_lift (StateSnapshotFrame_decode payload);
  p ← pm_get;
  sig_ok ← pm_lift (verify_frame_signature (p_peer_keys p) payload (ssf_author_node_id ssf)
                      StateSnapshotFrame_BASE_WIRE_SIZE);
  if negb sig_ok then mret changes else
  let content_len := (length payload - StateSnapshotFrame_SIGNATURE_SIZE)%nat in
  snap ← pm_lift (slice payload StateSnapshotFrame_BASE_WIRE_SIZE
                    (content_len - StateSnapshotFrame_BASE_WIRE_SIZE));
  '(r, changed, ev) ← pm_lift (sreg_apply_snapshot (p_state p) (ssf_path_hash ssf) snap);
  _ ← pm_modify (λ p, peer_apply p r ev);
  mret (if (changed : bool) then changes + 1 else changes).
Definition on_capability_grant (payload : bytes) : PM T () :=
  token ← pm_lift (res_opt (ct_decode payload));
  match token with
  | None => pm_skip
  | Some token =>
      p ← pm_get;
      match cs_peer_key (p_cap_store p) (ct_issuer_id token) with
      | None => pm_skip
      | Some pk =>
          ok ← pm_lift (cs_verify_token (p_cap_store p) token pk);
          if (ok : bool)
          then pm_modify (λ p, p_set_cap_store p (cs_store (p_cap_store p) token)) else pm_skip
      end
  end.
Definition on_capability_revoke (payload : bytes) : PM T () :=
  crf ← pm_lift (res_opt (CapabilityRevokeFrame_decode payload));
  match crf with
  | None => pm_skip
  | Some crf =>
      pm_modify (λ p, p_set_cap_store p (cs_revoke (p_cap_store p) (crf_token_id crf)).1)
  end.
Definition on_route_announce (payload : bytes) : PM T () :=
  if (length payload <? 6)%nat then pm_skip else
  path_hash ← pm_lift (read_u32 payload 0);
  b4 ← pm_lift (get8 payload 4);
  b5 ← pm_lift (get8 payload 5);
  let announcing_node := u16 (Z.lor b4 (Z.shiftl b5 8)) in
  pm_modify (λ p, p_set_router p (rtr_learn_route (p_router p) path_hash announcing_node)).
(** One iteration of the loop of [process_data_frames]. *)
Definition on_data_frame (id : Z) (frame : Frame) (changes : Z) : PM T Z :=
  match fh_type (fr_header frame) with
  | FT_STATE_DELTA => on_state_delta id (fr_payload frame) changes
  | FT_STATE_SNAPSHOT => on_state_snapshot (fr_payload frame) changes
  | FT_CAPABILITY_GRANT => _ ← on_capability_grant (fr_payload frame); mret changes
  | FT_CAPABILITY_REVOKE => _ ← on_capability_revoke (fr_payload frame); mret changes
  | FT_ROUTE_ANNOUNCE => _ ← on_route_announce (fr_payload frame); mret changes
  | _ => mret changes
  end.
Definition data_body (id : Z) : Peer T * Z → Frame → res (Peer T * Z * bool) :=
  λ '(p, changes) frame, let! r := on_data_frame id frame changes p in Ok (r, true).
Definition process_data_frames (id : Z) (dec : PacketDecoder) : PM T Z :=
  λ p, while_next_frame (frame_fuel dec) (data_body id) dec (p, 0).

(** The connection a datagram belongs to: the last one the iteration finds. *)
Definition find_by_endpoint (m : ConnectionManager) (from : Endpoint) : option Z :=
  last (fst <$> filter (λ q : Z * ManagedConnection,
                          Endpoint_eqb (cn_remote (mc_conn q.2)) from = true ∧
                          cn_state (mc_conn q.2) = CONNECTED) (uiter (cm_conns m))).
(** A handshake packet from an unknown endpoint: open a connection for it. *)
Definition auto_accept (data : bytes) (from : Endpoint) : PM T () :=
  p ← pm_get;
  let auto_id := p_next_auto_node_id p in
  _ ← pm_modify (λ p, p_set_next_auto_node_id p (u16 (auto_id + 1)));
  added ← pm_add_conn auto_id;
  if negb added then pm_skip else
  event ← pm_process_packet auto_id data;
  match he_result event with
  | CONNECT_RECEIVED =>
      cid ← pm_next_conn_id;
      _ ← pm_accept auto_id cid from;
      _ ← pm_send_accept auto_id from;
      pm_skip
  | _ =>
      _ ← pm_remove_conn auto_id;
      pm_modify (λ p, p_set_next_auto_node_id p (u16 (p_next_auto_node_id p - 1)))
  end.
Definition pm_note_packet (id pkt_num : Z) : PM T () :=
  mc ← pm_mc id;
  rt ← pm_lift (rt_on_packet_received (mc_recv_tracker mc) pkt_num);
  pm_put_mc id {| mc_remote_node_id := mc_remote_node_id mc;
                  mc_conn := cn_update_recv_packet_number (mc_conn mc) pkt_num;
                  mc_send_tracker := mc_send_tracker mc; mc_recv_tracker := rt |}.
Definition pm_answer_ping (id : Z) (data : bytes) (from : Endpoint) : PM T () :=
  event ← pm_process_packet id data;
  match he_result event with
  | PING_RECEIVED =>
      now ← pm_now;
      c ← pm_conn id;
      '(c, pong) ← pm_lift (build_pong_packet c now (pf_ping_id (he_ping event))
                              (pf_timestamp_us (he_ping event)));
      _ ← pm_put_conn id c;
      _ ← pm_send_to pong from;
      pm_skip
  | _ => pm_skip
  end.
Definition on_datagram (data : bytes) (from : Endpoint) : PM T Z :=
  '(dec, ok) ← pm_lift (parse PacketDecoder_new data);
  if negb ok then mret 0 else
  cks ← pm_lift (verify_checksum dec);
  if negb cks then mret 0 else
  p ← pm_get;
  let type := ph_packet_type (pd_header dec) in
  let found := find_by_endpoint (p_conn_mgr p) from in
  if bool_decide (found = None) && bool_decide (type = PT_HANDSHAKE) then
    _ ← auto_accept data from; mret 0
  else
  match (match found with
         | Some id => Some id
         | None => fst <$> cm_primary (p_conn_mgr p)
         end) with
  | None => mret 0
  | Some id =>
      _ ← pm_note_packet id (ph_packet_number (pd_header dec));
      match type with
      | PT_HANDSHAKE => _ ← pm_answer_ping id data from; mret 0
      | PT_DATA => process_data_frames id dec
      | _ => mret 0
      end
  end.
Definition peer_poll (timeout_ms : Z) : PM T Z :=
  p ← pm_get;
  if negb (cm_has_connections (p_conn_mgr p)) then mret (-1) else
  r ← pm_recv_from timeout_ms;
  match r with
  | None => mret 0
  | Some (data, from) => on_datagram data from
  end.

(** ** Forwarding and acknowledgements *)
Fixpoint forward_hops (source_node_id : Z) (d : PendingDelta) (hops : list Z) : PM T () :=
  match hops with
  | [] => pm_skip
  | hop :: hops' =>
      p ← pm_get;
      _ ← (if negb (hop =? source_node_id) && peer_is_connected_to p hop
           then _ ← send_deltas_to hop [d]; pm_skip else pm_skip);
      forward_hops source_node_id d hops'
  end.
Fixpoint forward_deltas (source_node_id : Z) (deltas : list PendingDelta) : PM T () :=
  match deltas with
  | [] => pm_skip
  | d :: deltas' =>
      p ← pm_get;
      _ ← forward_hops source_node_id d (rtr_select_next_hops (p_router p) (pd_path_hash d));
      forward_deltas source_node_id deltas'
  end.
Definition send_ack (id : Z) : PM T () :=
  mc ← pm_mc id;
  '(ack, _) ← pm_lift (rt_build_ack (mc_recv_tracker mc) 0);
  buf ← pm_lift (or_else (AckFrame_encode ack (replicate 7 0)) (replicate 7 0));
  let '(c, num) := cn_next_send_packet_number (mc_conn mc) in
  _ ← pm_put_conn id c;
  now ← pm_now;
  let enc := encoder PT_CONTROL (cn_remote_conn_id c) num (cn_elapsed_us c now) in
  enc ← pm_lift (or_else (add_frame enc FT_ACK (Some buf) 7) enc);
  '(pkt, _) ← pm_lift (finalize enc);
  _ ← pm_send_to pkt (cn_remote c);
  pm_skip.
End Peer.
