(* ===== verification/PeerSafety.v ===== *)
(** * What a peer guarantees, whatever it receives

    Total-correctness triples for the monad of peer methods, the peer invariant,
    and the theorems about received datagrams: every datagram is processed without
    undefined behaviour, state changes only through authenticated frames, and the
    access-control switch confines deltas. *)
From S2P Require Import Prelude Platform Frame Codec VersionVector GCounter LwwRegister Crdt.
From S2P Require Import StatePath StateRegistry Resolution Subscription AckTracker Transport.
From S2P Require Import Connection Capability Float64 Routing Peer.

(** ** Total-correctness triples *)
Definition triple {T A} (P : Peer T → Prop) (m : PM T A) (Q : A → Peer T → Prop) : Prop :=
  ∀ p, P p → ∃ p' a, m p = Ok (p', a) ∧ Q a p'.

Section Triples.
Context {T : Type}.
Implicit Types P : Peer T → Prop.
Lemma triple_ret {A} (a : A) P (Q : A → Peer T → Prop) : (∀ p, P p → Q a p) → triple P (mret a) Q.
Proof. intros HQ p Hp. exists p, a. split; [done|auto]. Qed.
Lemma triple_bind {A B} (m : PM T A) (f : A → PM T B) P Q (R : B → Peer T → Prop) :
  triple P m Q → (∀ a, triple (Q a) (f a) R) → triple P (m ≫= f) R.
Proof.
  intros Hm Hf p Hp. destruct (Hm p Hp) as (p1 & a & E & HQ).
  destruct (Hf a p1 HQ) as (p2 & b & E2 & HR). exists p2, b. split; [|done].
  unfold mbind, PM_bind. by rewrite E.
Qed.
Lemma triple_get P (R : Peer T → Peer T → Prop) : (∀ p, P p → R p p) → triple P pm_get R.
Proof. intros HR p Hp. exists p, p. auto. Qed.
Lemma triple_modify f P (R : () → Peer T → Prop) : (∀ p, P p → R () (f p)) → triple P (pm_modify f) R.
Proof. intros HR p Hp. exists (f p), (). auto. Qed.
Lemma triple_lift {A} (m : res A) P (R : A → Peer T → Prop) :
  (∀ p, P p → ∃ a, m = Ok a ∧ R a p) → triple P (pm_lift m) R.
Proof.
  intros HR p Hp. destruct (HR p Hp) as (a & -> & Ha). exists p, a. split; [done|auto].
Qed.
Lemma triple_pre {A} (m : PM T A) P P' (Q : A → Peer T → Prop) :
  triple P m Q → (∀ p, P' p → P p) → triple P' m Q.
Proof. intros Hm HP p Hp. auto. Qed.
Lemma triple_post {A} (m : PM T A) P (Q Q' : A → Peer T → Prop) :
  triple P m Q → (∀ a p, Q a p → Q' a p) → triple P m Q'.
Proof. intros Hm HQ p Hp. destruct (Hm p Hp) as (p' & a & ? & ?). eauto. Qed.
(** Rule for [pm_get] followed by a continuation: the value is the state. *)
Lemma triple_get_bind {B} (f : Peer T → PM T B) P (R : B → Peer T → Prop) :
  (∀ p, P p → triple (λ q, q = p) (f p) R) → triple P (pm_get ≫= f) R.
Proof. intros HR p Hp. destruct (HR p Hp p eq_refl) as (p' & b & E & Hb). exists p', b. done. Qed.
End Triples.

(** ** The invariant of a peer *)
Section Invariant.
Context `{XxHash} `{Ed25519} `{UnorderedIter} `{StdSort} {T : Type} `{!Transport T}.
Context (clock : nat → Z).

Definition mc_ok (id : Z) (mc : ManagedConnection) : Prop :=
  mc_remote_node_id mc = id ∧ rt_ok (mc_recv_tracker mc).
Definition peer_ok (p : Peer T) : Prop :=
  t_ok (p_transport p) ∧ map_Forall mc_ok (cm_conns (p_conn_mgr p)) ∧ sreg_ok (p_state p) ∧
  router_ok (p_router p).
(** ... and the pointer [id] is valid. *)
Definition peer_at (id : Z) (p : Peer T) : Prop :=
  peer_ok p ∧ is_Some (cm_conns (p_conn_mgr p) !! id).

(** An operation of the connection layer: it keeps the invariant, the registry and
    the other connections' presence. *)
Definition keeps {A} (m : PM T A) : Prop :=
  ∀ id p, peer_at id p → ∃ p' a, m p = Ok (p', a) ∧ peer_at id p' ∧ p_state p' = p_state p.
Definition keeps_at {A} (id : Z) (m : PM T A) : Prop :=
  ∀ p, peer_at id p → ∃ p' a, m p = Ok (p', a) ∧ peer_at id p' ∧ p_state p' = p_state p.
Lemma keeps_ret {A} id (a : A) : keeps_at id (mret a).
Proof. intros p Hp. by exists p, a. Qed.
Lemma keeps_bind {A B} id (m : PM T A) (f : A → PM T B) :
  keeps_at id m → (∀ a, keeps_at id (f a)) → keeps_at id (m ≫= f).
Proof.
  intros Hm Hf p Hp. destruct (Hm p Hp) as (p1 & a & E & Hp1 & S1).
  destruct (Hf a p1 Hp1) as (p2 & b & E2 & Hp2 & S2). exists p2, b. split; [|split; [done|congruence]].
  unfold mbind, PM_bind. by rewrite E.
Qed.
Lemma keeps_get id : keeps_at id pm_get.
Proof. intros p Hp. by exists p, p. Qed.
Lemma keeps_lift {A} id (m : res A) : (∃ a, m = Ok a) → keeps_at id (pm_lift m).
Proof. intros [a ->] p Hp. by exists p, a. Qed.
Lemma keeps_now id : keeps_at id (pm_now clock).
Proof. intros p Hp. eexists _, _. by split. Qed.
Lemma keeps_send id data to : keeps_at id (pm_send_to data to).
Proof.
  intros p [(Ht & Hc & Hs & Hr) Hid]. unfold pm_send_to.
  pose proof (t_send_ok (p_transport p) data to Ht) as Ht'.
  destruct (t_send_to (p_transport p) data to) as [t n]. eexists _, _. split; [done|]. by split.
Qed.
Lemma keeps_mc id : keeps_at id (pm_mc id).
Proof.
  intros p Hp. unfold pm_mc, mbind, PM_bind. simpl.
  destruct Hp as [Hp [mc Hmc]]. unfold cm_get. rewrite Hmc. exists p, mc. split; [done|].
  split; [by split|done].
Qed.
Lemma keeps_put_mc id mc : mc_ok id mc → keeps_at id (pm_put_mc id mc).
Proof.
  intros Hmc p [(Ht & Hc & Hs & Hr) Hid]. eexists _, _. split; [done|]. split; [|done]. split.
  - split; [done|]. split; [|done]. by apply map_Forall_insert_2.
  - simpl. by rewrite lookup_insert_eq.
Qed.
Lemma keeps_next_id id : keeps_at id pm_next_conn_id.
Proof.
  intros p Hp. unfold pm_next_conn_id, mbind, PM_bind. simpl. unfold cm_next_conn_id.
  destruct (ca_next _) as [a i]. eexists _, _. split; [done|]. by split.
Qed.
(** The triple version, to use the value found behind the pointer. *)
Lemma at_mc id (p : Peer T) : peer_at id p → ∃ mc, pm_mc id p = Ok (p, mc) ∧ mc_ok id mc
  ∧ cm_conns (p_conn_mgr p) !! id = Some mc.
Proof.
  intros [(Ht & Hc & Hs & Hr) [mc Hmc]]. exists mc. unfold pm_mc, mbind, PM_bind. simpl.
  unfold cm_get. rewrite Hmc. split; [done|]. split; [by apply (Hc id mc)|done].
Qed.
Lemma keeps_put_conn id c : keeps_at id (pm_put_conn id c).
Proof.
  intros p Hp. destruct (at_mc id p Hp) as (mc & E & Hmc & _).
  destruct (keeps_put_mc id (mc_set_conn mc c) Hmc p Hp) as (p' & a & E2 & ?).
  exists p', a. split; [|done]. unfold pm_put_conn, mbind, PM_bind. rewrite E. done.
Qed.
Lemma keeps_conn id : keeps_at id (pm_conn id).
Proof. apply keeps_bind; [apply keeps_mc|intros; apply keeps_ret]. Qed.
End Invariant.

#[export] Hint Resolve keeps_ret keeps_get keeps_now keeps_send keeps_mc keeps_next_id keeps_put_conn
  keeps_conn : rom.

(** ** The connection layer keeps the invariant *)
Section Keeps.
Context `{XxHash} `{Ed25519} `{UnorderedIter} `{StdSort} {T : Type} `{!Transport T}.
Context (clock : nat → Z).

Lemma process_packet_Ok c data : ∃ r, process_packet c data = Ok r.
Proof. destruct (process_packet_spec c data) as (c' & e & n & E & _). eauto. Qed.
#[local] Ltac keep :=
  repeat first [solve [eauto with rom] | apply keeps_bind; [|intros ?]].

Lemma keeps_process id data : keeps_at (T := T) id (pm_process_packet id data).
Proof.
  unfold pm_process_packet. apply keeps_bind; [eauto with rom|]. intros c.
  apply keeps_bind; [apply keeps_lift, process_packet_Ok|]. intros [c' e]. keep.
Qed.
Lemma keeps_accept id cid from : keeps_at (T := T) id (pm_accept clock id cid from).
Proof. unfold pm_accept. keep. Qed.
Lemma keeps_send_accept id to : keeps_at (T := T) id (pm_send_accept clock id to).
Proof.
  unfold pm_send_accept. do 3 (apply keeps_bind; [eauto with rom|intros ?]).
  apply keeps_bind; [apply keeps_lift; eexists; apply build_accept_spec|]. intros [c pkt]. keep.
Qed.
Lemma keeps_send_connect id to : keeps_at (T := T) id (pm_send_connect clock id to).
Proof.
  unfold pm_send_connect. do 2 (apply keeps_bind; [eauto with rom|intros ?]).
  apply keeps_bind; [apply keeps_lift; eexists; apply build_connect_spec|]. intros [c pkt]. keep.
Qed.
Lemma keeps_initiate id cid remote : keeps_at (T := T) id (pm_initiate clock id cid remote).
Proof.
  unfold pm_initiate. do 2 (apply keeps_bind; [eauto with rom|intros ?]).
  destruct (cn_initiate _ _ _ _) as [c ok]. keep.
Qed.
Lemma keeps_is_connected id : keeps_at (T := T) id (pm_is_connected id).
Proof. unfold pm_is_connected. keep. Qed.
Lemma keeps_close id reason : keeps_at (T := T) id (pm_close clock id reason).
Proof.
  unfold pm_close. apply keeps_bind; [eauto with rom|]. intros c. case_bool_decide; [|apply keeps_ret].
  do 3 (apply keeps_bind; [eauto with rom|intros ?]).
  apply keeps_bind; [apply keeps_lift; eexists; apply build_close_spec|]. intros [c' pkt]. keep.
Qed.
Lemma keeps_answer_ping id data from : keeps_at (T := T) id (pm_answer_ping clock id data from).
Proof.
  unfold pm_answer_ping. apply keeps_bind; [apply keeps_process|]. intros e.
  destruct (he_result e); try apply keeps_ret.
  do 2 (apply keeps_bind; [eauto with rom|intros ?]).
  apply keeps_bind; [apply keeps_lift; eexists; apply build_pong_spec|]. intros [c' pkt]. keep.
Qed.
Lemma keeps_note id num : is_u32 num → keeps_at (T := T) id (pm_note_packet id num).
Proof.
  intros Hn p Hp. destruct (at_mc id p Hp) as (mc & E & [Hid Hrt] & _).
  destruct (rt_receive_spec _ num Hrt Hn) as (t' & Et & Ht' & _).
  set (mc' := {| mc_remote_node_id := mc_remote_node_id mc;
                 mc_conn := cn_update_recv_packet_number (mc_conn mc) num;
                 mc_send_tracker := mc_send_tracker mc; mc_recv_tracker := t' |}).
  destruct (keeps_put_mc id mc' (conj Hid Ht') p Hp) as (p' & a & E2 & Hp').
  exists p', a. split; [|done]. unfold pm_note_packet, mbind, PM_bind, pm_lift. rewrite E. cbn [res_bind].
  rewrite Et. done.
Qed.
End Keeps.
#[export] Hint Resolve keeps_process keeps_accept keeps_send_accept keeps_send_connect keeps_initiate
  keeps_is_connected keeps_close keeps_answer_ping keeps_note : rom.

(** ** Adding and removing connections *)
Section AddRemove.
Context `{XxHash} `{Ed25519} `{UnorderedIter} `{StdSort} {T : Type} `{!Transport T}.
Context (clock : nat → Z).

Lemma add_conn_spec (p : Peer T) id :
  peer_ok p → ∃ p' b, pm_add_conn clock id p = Ok (p', b) ∧ peer_at id p' ∧ p_state p' = p_state p ∧
    p_next_auto_node_id p' = p_next_auto_node_id p ∧
    (b = true ↔ cm_conns (p_conn_mgr p) !! id = None) ∧
    (∀ i, i ≠ id → cm_conns (p_conn_mgr p') !! i = cm_conns (p_conn_mgr p) !! i).
Proof.
  intros (Ht & Hc & Hs & Hr). unfold pm_add_conn, mbind, PM_bind, mret, PM_ret. simpl. unfold cm_get.
  destruct (cm_conns (p_conn_mgr p) !! id) as [mc|] eqn:E.
  - exists p, false. split; [done|]. split; [by split; [split|]|]. done.
  - eexists _, true. split; [done|]. split.
    + split.
      * split; [done|]. split; [|done]. simpl. unfold cm_add. rewrite E. simpl.
        apply map_Forall_insert_2; [|done]. split; [done|apply rt_new_ok].
      * simpl. unfold cm_add. rewrite E. simpl. by rewrite lookup_insert_eq.
    + split_and!; try done. intros i Hi. simpl. unfold cm_add. rewrite E. simpl.
      by rewrite lookup_insert_ne.
Qed.
Lemma remove_conn_ok (p : Peer T) id :
  peer_ok p → ∃ p', pm_remove_conn id p = Ok (p', ()) ∧ peer_ok p' ∧ p_state p' = p_state p ∧
    cm_conns (p_conn_mgr p') = delete id (cm_conns (p_conn_mgr p)) ∧
    p_next_auto_node_id p' = p_next_auto_node_id p.
Proof.
  intros (Ht & Hc & Hs & Hr). eexists. split; [done|]. split_and!; try done.
  split; [done|]. split; [|done]. by apply map_Forall_delete.
Qed.
(** A handshake from an unknown endpoint: either a new connection stays, or the
    connection map is as before. *)
Lemma auto_accept_ok (p : Peer T) data from :
  peer_ok p → ∃ p', auto_accept clock data from p = Ok (p', ()) ∧ peer_ok p' ∧ p_state p' = p_state p.
Proof.
  intros Hp. unfold auto_accept. unfold mbind, PM_bind at 1, pm_get. cbn [res_bind].
  set (p1 := p_set_next_auto_node_id p (u16 (p_next_auto_node_id p + 1))).
  destruct (add_conn_spec p1 (p_next_auto_node_id p) Hp) as (p2 & b & E & Hp2 & S2 & _).
  unfold PM_bind at 1, pm_modify. cbn [res_bind]. fold p1. unfold PM_bind at 1. rewrite E. cbn [res_bind].
  destruct b; cbn [negb].
  2: { exists p2. split; [done|]. split; [apply Hp2|done]. }
  unfold PM_bind at 1.
  destruct (keeps_process (p_next_auto_node_id p) data p2 Hp2) as (p3 & e & -> & Hp3 & S3). cbn [res_bind].
  change (p_state p1) with (p_state p) in S2.
  assert (∃ p', (_ ← pm_remove_conn (p_next_auto_node_id p);
     pm_modify (λ p, p_set_next_auto_node_id p (u16 (p_next_auto_node_id p - 1)))) p3 = Ok (p', ())
     ∧ peer_ok p' ∧ p_state p' = p_state p) as Hrm.
  { destruct (remove_conn_ok p3 (p_next_auto_node_id p) (proj1 Hp3)) as (p4 & E4 & Hp4 & S4 & _).
    unfold mbind, PM_bind. rewrite E4. cbn [res_bind]. eexists. split; [done|]. split; [done|].
    simpl. congruence. }
  destruct (he_result e); try exact Hrm.
  destruct (keeps_bind (p_next_auto_node_id p) pm_next_conn_id
    (λ cid, _ ← pm_accept clock (p_next_auto_node_id p) cid from;
            _ ← pm_send_accept clock (p_next_auto_node_id p) from; pm_skip)) with (p := p3)
    as (p4 & [] & E4 & Hp4 & S4); [eauto with rom| |done|].
  { intros cid. apply keeps_bind; [eauto with rom|]. intros _. apply keeps_bind; [eauto with rom|].
    intros _. apply keeps_ret. }
  exists p4. split; [exact E4|]. split; [apply Hp4|]. congruence.
Qed.
End AddRemove.

(** ** Data frames *)
Section DataFrames.
Context `{XxHash} `{Ed25519} `{UnorderedIter} `{StdSort} {T : Type} `{!Transport T}.
Context (clock : nat → Z).

(** The payload is [content ++ signature], signed by a registered key of the author
    the content names. *)
Definition signed_by (keys : gmap Z bytes) (author : Z) (payload : bytes) : Prop :=
  ∃ pk content sig, payload = content ++ sig ∧ length sig = StateDeltaFrame_SIGNATURE_SIZE ∧
    keys !! author = Some pk ∧ verify pk sig content = true.
(** A frame that may change region [h]. *)
Definition authentic (keys : gmap Z bytes) (f : Frame) (h : Z) : Prop :=
  (fh_type (fr_header f) = FT_STATE_DELTA ∧
     ∃ sdf, StateDeltaFrame_decode (fr_payload f) = Ok sdf ∧ sdf_path_hash sdf = h ∧
       signed_by keys (sdf_author_node_id sdf) (fr_payload f)) ∨
  (fh_type (fr_header f) = FT_STATE_SNAPSHOT ∧
     ∃ ssf, StateSnapshotFrame_decode (fr_payload f) = Ok ssf ∧ ssf_path_hash ssf = h ∧
       signed_by keys (ssf_author_node_id ssf) (fr_payload f)).
(** Some stored token grants write access to the region's path at the time the
    connection's clock shows. *)
Definition write_granted (s : CapabilityStore) (path : StatePath) (now : Z) : Prop :=
  ∃ i t, cs_tokens s !! i = Some t ∧ ct_grants path CAP_WRITE now t = true.
Definition conn_now (id : Z) (p : Peer T) : Z :=
  match cm_get (p_conn_mgr p) id with
  | Some mc => cn_elapsed_us (mc_conn mc) (clock (p_clock_reads p))
  | None => 0
  end.

Lemma verify_frame_signature_spec keys payload author base :
  ∃ b, verify_frame_signature keys payload author base = Ok b ∧
    (b = true → (base + StateDeltaFrame_SIGNATURE_SIZE ≤ length payload)%nat ∧
                signed_by keys author payload).
Proof.
  unfold verify_frame_signature.
  destruct (Nat.ltb_spec (length payload) (base + StateDeltaFrame_SIGNATURE_SIZE)) as [|Hl]; [by exists false|].
  destruct (keys !! author) as [pk|] eqn:Ek; [|by exists false].
  unfold StateDeltaFrame_SIGNATURE_SIZE in *.
  rewrite !slice_Ok by lia. cbn [res_bind]. eexists; split; [done|]. intros Hv. split; [done|].
  exists pk, (take (length payload - 64) payload), (drop (length payload - 64) payload).
  split; [by rewrite take_drop|]. split; [rewrite length_drop; unfold StateDeltaFrame_SIGNATURE_SIZE; lia|].
  split; [done|]. rewrite drop_0 in Hv.
  rewrite (firstn_all2 (drop _ _)) in Hv by (rewrite length_drop; lia). done.
Qed.

(** What processing one data frame may do. *)
Definition frame_effect (id : Z) (f : Frame) (p p' : Peer T) (changes n : Z) : Prop :=
  peer_at id p' ∧ p_peer_keys p' = p_peer_keys p ∧ p_access_control p' = p_access_control p ∧
  changes ≤ n ≤ changes + 1 ∧
  (∀ h, sreg_get (p_state p') h ≠ sreg_get (p_state p) h →
     authentic (p_peer_keys p) f h ∧
     (p_access_control p = true → fh_type (fr_header f) = FT_STATE_DELTA →
        ∃ g, sreg_get (p_state p) h = Some g ∧ write_granted (p_cap_store p) (rg_path g) (conn_now id p))).
Lemma frame_effect_same id f (p p' : Peer T) n :
  peer_at id p' → p_peer_keys p' = p_peer_keys p → p_access_control p' = p_access_control p →
  p_state p' = p_state p → frame_effect id f p p' n n.
Proof. intros ? ? ? Hs. split_and!; try done; [lia..|]. intros h. by rewrite Hs. Qed.

Lemma access_allowed_spec id h (p : Peer T) :
  peer_at id p →
  ∃ p' b, access_allowed clock id h p = Ok (p', b) ∧ peer_at id p' ∧ p_state p' = p_state p ∧
    p_peer_keys p' = p_peer_keys p ∧ p_access_control p' = p_access_control p ∧
    (b = true → p_access_control p = true → ∀ g, sreg_get (p_state p) h = Some g →
       write_granted (p_cap_store p) (rg_path g) (conn_now id p)).
Proof.
  intros Hp. unfold access_allowed, mbind, PM_bind, pm_get. cbn [res_bind].
  destruct (p_access_control p) eqn:Ea; cbn [negb].
  2: { exists p, true. split; [done|]. split_and!; try done. }
  destruct (sreg_get (p_state p) h) as [g|] eqn:Eg.
  2: { exists p, true. split; [done|]. split_and!; done. }
  destruct (at_mc id p Hp) as (mc & Emc & _ & Emc'). unfold pm_conn, mbind, PM_bind. rewrite Emc.
  cbn [res_bind mret PM_ret]. unfold mret, PM_ret. cbn [res_bind pm_now].
  eexists _, _. split; [done|]. split; [exact Hp|]. split_and!; try done.
  intros Hb%bool_decide_eq_true _ g' [= <-]. destruct Hb as [t Ht].
  apply cs_find_Some in Ht as [[i Hi] Hg]. exists i, t. split; [done|].
  unfold conn_now, cm_get. by rewrite Emc'.
Qed.

Lemma sig_failure_keeps id a h (q : Peer T) :
  peer_at id q → peer_at id (peer_sig_failure q a h) ∧
  p_peer_keys (peer_sig_failure q a h) = p_peer_keys q ∧
  p_access_control (peer_sig_failure q a h) = p_access_control q ∧
  p_state (peer_sig_failure q a h) = p_state q.
Proof. intros Hq. unfold peer_sig_failure. by case_match. Qed.

Lemma on_state_delta_effect id f (p : Peer T) changes :
  peer_at id p → wf_bytes (fr_payload f) → fh_type (fr_header f) = FT_STATE_DELTA →
  ∃ p' n, on_state_delta clock id (fr_payload f) changes p = Ok (p', n) ∧
    frame_effect id f p p' changes n.
Proof.
  intros Hp Hwf Hft. set (payload := fr_payload f) in *. unfold on_state_delta.
  pose proof (sig_failure_keeps id) as Hsig.
  destruct (Nat.ltb_spec (length payload) StateDeltaFrame_MIN_WIRE_SIZE) as [|Hl].
  { destruct (Nat.leb_spec 4 (length payload)).
    - unfold mbind, PM_bind, pm_lift.
      unfold read_u32. rewrite slice_Ok by lia.
      cbn [res_bind]. eexists _, _. split; [done|]. by apply frame_effect_same; apply Hsig.
    - exists p, changes. split; [done|]. by apply frame_effect_same. }
  destruct (frame_decode_total (T := StateDeltaFrame) payload) as (sdf & Hd & _).
  { revert Hl. simpl. unfold StateDeltaFrame_MIN_WIRE_SIZE. lia. }
  simpl in Hd. unfold mbind, PM_bind, pm_lift, pm_get. rewrite Hd. cbn [res_bind].
  destruct (verify_frame_signature_spec (p_peer_keys p) payload (sdf_author_node_id sdf)
    StateDeltaFrame_BASE_WIRE_SIZE) as (b & Hv & Hvt). rewrite Hv. cbn [res_bind].
  destruct b; cbn [negb].
  2: { eexists _, _. split; [done|]. by apply frame_effect_same; apply Hsig. }
  destruct (Hvt eq_refl) as [_ Hsigned]. clear Hvt Hv.
  unfold StateDeltaFrame_MIN_WIRE_SIZE, StateDeltaFrame_BASE_WIRE_SIZE, StateDeltaFrame_SIGNATURE_SIZE in *.
  rewrite slice_Ok by lia. cbn [res_bind].
  set (delta := take _ _). assert (wf_bytes delta) as Hdw by (by apply Forall_take, Forall_drop).
  destruct (access_allowed_spec id (sdf_path_hash sdf) p Hp) as (p1 & b & Ea & Hp1 & S1 & K1 & A1 & Hgr).
  rewrite Ea. cbn [res_bind]. destruct b; cbn [negb].
  2: { eexists _, _. split; [done|]. by apply frame_effect_same. }
  destruct (sreg_apply_delta_total (p_state p1) (sdf_path_hash sdf) delta) as (r & ch & ev & Eapp & Hrok & Hoth);
    [apply Hp1|done|]. rewrite Eapp. cbn [res_bind pm_modify].
  set (p2 := peer_apply p1 r ev).
  assert (peer_at id p2) as Hp2.
  { destruct Hp1 as [(? & ? & ? & ?) ?]. split; [split_and!; done|done]. }
  assert (∀ h, sreg_get r h ≠ sreg_get (p_state p) h →
    authentic (p_peer_keys p) f h ∧ (p_access_control p = true → fh_type (fr_header f) = FT_STATE_DELTA →
      ∃ g, sreg_get (p_state p) h = Some g ∧ write_granted (p_cap_store p) (rg_path g) (conn_now id p))) as Hch.
  { intros h Hne. destruct (decide (h = sdf_path_hash sdf)) as [->|Hh].
    2: { exfalso. apply Hne. rewrite (Hoth h Hh). by rewrite S1. }
    split; [left; split; [done|]; by exists sdf|].
    intros Hac _. destruct (sreg_get (p_state p) (sdf_path_hash sdf)) as [g|] eqn:Eg.
    - exists g. split; [done|]. by apply Hgr.
    - exfalso. apply Hne. revert Eapp. unfold sreg_apply_delta. rewrite S1, Eg. intros [= <- _ _]. exact Eg. }
  destruct ch; cbn [negb].
  - destruct (at_mc id p2 Hp2) as (mc & Emc & _). rewrite Emc. cbn [res_bind].
    eexists _, _. split; [done|]. split_and!; try done; try lia.
    + destruct Hp2 as [(? & ? & ? & ?) ?]. split; [|done]. split_and!; try done. by apply success_ok.
  - eexists _, _. split; [done|]. split_and!; try done; lia.
Qed.

Lemma on_state_snapshot_effect id f (p : Peer T) changes :
  peer_at id p → wf_bytes (fr_payload f) → fh_type (fr_header f) = FT_STATE_SNAPSHOT →
  ∃ p' n, on_state_snapshot (fr_payload f) changes p = Ok (p', n) ∧ frame_effect id f p p' changes n.
Proof.
  intros Hp Hwf Hft. set (payload := fr_payload f) in *. unfold on_state_snapshot.
  destruct (Nat.ltb_spec (length payload) StateSnapshotFrame_MIN_WIRE_SIZE) as [|Hl].
  { exists p, changes. split; [done|]. by apply frame_effect_same. }
  destruct (frame_decode_total (T := StateSnapshotFrame) payload) as (ssf & Hd & _).
  { revert Hl. simpl. unfold StateSnapshotFrame_MIN_WIRE_SIZE. lia. }
  simpl in Hd. unfold mbind, PM_bind, pm_lift, pm_get. rewrite Hd. cbn [res_bind].
  destruct (verify_frame_signature_spec (p_peer_keys p) payload (ssf_author_node_id ssf)
    StateSnapshotFrame_BASE_WIRE_SIZE) as (b & Hv & Hvt). rewrite Hv. cbn [res_bind].
  destruct b; cbn [negb].
  2: { eexists _, _. split; [done|]. by apply frame_effect_same. }
  destruct (Hvt eq_refl) as [_ Hsigned].
  unfold StateSnapshotFrame_MIN_WIRE_SIZE, StateSnapshotFrame_BASE_WIRE_SIZE,
    StateSnapshotFrame_SIGNATURE_SIZE in *.
  rewrite slice_Ok by lia. cbn [res_bind].
  set (snap := take _ _). assert (wf_bytes snap) as Hdw by (by apply Forall_take, Forall_drop).
  destruct (sreg_apply_delta_total (p_state p) (ssf_path_hash ssf) snap) as (r & ch & ev & Eapp & Hrok & Hoth);
    [apply Hp|done|]. unfold sreg_apply_snapshot. rewrite Eapp. cbn [res_bind pm_modify].
  eexists _, _. split; [done|]. split_and!; try done; try (case_match; lia).
  - destruct Hp as [(? & ? & ? & ?) ?]. split; [split_and!; done|done].
  - intros h Hne. destruct (decide (h = ssf_path_hash ssf)) as [->|Hh].
    2: { exfalso. apply Hne. exact (Hoth h Hh). }
    split; [right; split; [done|]; by exists ssf|]. intros _ Hft'. rewrite Hft in Hft'. done.
Qed.
(** The other frames leave the registry alone. *)
Lemma on_grant_effect id f payload (p : Peer T) n :
  peer_at id p →
  ∃ p', on_capability_grant payload p = Ok (p', ()) ∧ frame_effect id f p p' n n.
Proof.
  intros Hp. unfold on_capability_grant, mbind, PM_bind, pm_lift.
  pose proof (ct_decode_safe payload) as Hs.
  destruct (ct_decode payload) as [t| |]; [|by exists p; split; [|apply frame_effect_same]|done].
  cbn [res_opt res_bind pm_get].
  destruct (cs_peer_key _ _) as [pk|]; [|by exists p; split; [|apply frame_effect_same]].
  unfold cs_verify_token. rewrite ct_signable_spec. cbn [res_bind].
  case_match; [|by exists p; split; [|apply frame_effect_same]].
  eexists. split; [done|]. apply frame_effect_same; done.
Qed.
Lemma on_revoke_effect id f payload (p : Peer T) n :
  peer_at id p →
  ∃ p', on_capability_revoke payload p = Ok (p', ()) ∧ frame_effect id f p p' n n.
Proof.
  intros Hp. unfold on_capability_revoke, mbind, PM_bind, pm_lift.
  destruct (frame_decode_opt (T := CapabilityRevokeFrame) payload) as ([c|] & Hd & _);
    simpl in Hd; rewrite Hd; cbn [res_bind].
  - eexists. split; [done|]. by apply frame_effect_same.
  - exists p. split; [done|]. by apply frame_effect_same.
Qed.
Lemma on_route_effect id f payload (p : Peer T) n :
  peer_at id p →
  ∃ p', on_route_announce payload p = Ok (p', ()) ∧ frame_effect id f p p' n n.
Proof.
  intros Hp. unfold on_route_announce. destruct (Nat.ltb_spec (length payload) 6) as [|Hl].
  { exists p. split; [done|]. by apply frame_effect_same. }
  unfold mbind, PM_bind, pm_lift, read_u32. rewrite slice_Ok by lia. cbn [res_bind].
  destruct (lookup_lt_is_Some_2 payload 4 ltac:(lia)) as [b4 E4].
  destruct (lookup_lt_is_Some_2 payload 5 ltac:(lia)) as [b5 E5].
  unfold get8. rewrite E4, E5. cbn [res_bind]. eexists. split; [done|].
  apply frame_effect_same; try done. destruct Hp as [(? & ? & ? & ?) ?]. split; [|done].
  split_and!; try done. by apply learn_ok.
Qed.
Lemma on_data_frame_effect id f (p : Peer T) changes :
  peer_at id p → wf_bytes (fr_payload f) →
  ∃ p' n, on_data_frame clock id f changes p = Ok (p', n) ∧ frame_effect id f p p' changes n.
Proof.
  intros Hp Hwf. unfold on_data_frame. destruct (fh_type (fr_header f)) eqn:Et;
    try (exists p, changes; split; [done|]; by apply frame_effect_same).
  - by apply on_state_snapshot_effect.
  - by apply on_state_delta_effect.
  - destruct (on_grant_effect id f (fr_payload f) p changes Hp) as (p' & E & ?).
    exists p', changes. split; [|done]. unfold mbind, PM_bind. by rewrite E.
  - destruct (on_revoke_effect id f (fr_payload f) p changes Hp) as (p' & E & ?).
    exists p', changes. split; [|done]. unfold mbind, PM_bind. by rewrite E.
  - destruct (on_route_effect id f (fr_payload f) p changes Hp) as (p' & E & ?).
    exists p', changes. split; [|done]. unfold mbind, PM_bind. by rewrite E.
Qed.

(** The whole loop over the frames of a packet. *)
Lemma run_data_frames id fs (p : Peer T) changes :
  peer_at id p → Forall (λ f, wf_bytes (fr_payload f)) fs →
  ∃ p' n, run_frames (data_body clock id) (p, changes) fs = Ok (p', n) ∧ peer_at id p' ∧
    p_peer_keys p' = p_peer_keys p ∧ changes ≤ n ≤ changes + Z.of_nat (length fs) ∧
    (∀ h, sreg_get (p_state p') h ≠ sreg_get (p_state p) h →
       ∃ f, f ∈ fs ∧ authentic (p_peer_keys p) f h).
Proof.
  intros Hp Hfs. revert p changes Hp. induction Hfs as [|f fs Hf Hfs IH]; intros p changes Hp; cbn [run_frames].
  { exists p, changes. split; [done|]. split_and!; try done; simpl; lia. }
  unfold data_body at 1.
  destruct (on_data_frame_effect id f p changes Hp Hf) as (p1 & n1 & E & Hp1 & K1 & _ & Hn1 & Hc1).
  rewrite E. cbn [res_bind].
  destruct (IH p1 n1 Hp1) as (p' & n & Er & Hp' & K' & Hn & Hc). exists p', n.
  split; [done|]. split_and!; try done; [congruence|lia|cbn [length]; lia|].
  intros h Hne. destruct (decide (sreg_get (p_state p1) h = sreg_get (p_state p) h)) as [Heq|Hne1].
  - destruct (Hc h) as (f' & Hf' & Ha); [congruence|]. rewrite K1 in Ha. exists f'. split; [by right|done].
  - destruct (Hc1 h Hne1) as [Ha _]. exists f. split; [by left|done].
Qed.
End DataFrames.

(** ** Datagrams *)
Section Datagrams.
Context `{XxHash} `{Ed25519} `{UnorderedIter} `{StdSort} {T : Type} `{!Transport T}.
Context (clock : nat → Z).

(** The frames of a datagram, by the reference parser. *)
Definition packet_frames (data : bytes) : list Frame :=
  match PacketHeader_decode data with
  | Ok h => parse_frames (take (Z.to_nat (ph_payload_length h)) (drop PACKET_HEADER_SIZE data))
  | _ => []
  end.

Lemma keeps_at_ok {A} id (m : PM T A) (p : Peer T) :
  keeps_at id m → peer_at id p → ∃ p' a, m p = Ok (p', a) ∧ peer_ok p' ∧ p_state p' = p_state p.
Proof. intros Hm Hp. destruct (Hm p Hp) as (p' & a & E & [? _] & S). eauto. Qed.
Lemma find_by_endpoint_Some m from id :
  find_by_endpoint m from = Some id →
  ∃ mc, cm_conns m !! id = Some mc ∧ Endpoint_eqb (cn_remote (mc_conn mc)) from = true ∧
        cn_state (mc_conn mc) = CONNECTED.
Proof.
  unfold find_by_endpoint. intros Hl. apply last_Some_elem_of in Hl.
  apply list_elem_of_fmap in Hl as ([k mc] & -> & [[? ?] Hin]%list_elem_of_filter).
  apply elem_of_uiter in Hin. by exists mc.
Qed.
Lemma cm_primary_Some m id mc : cm_primary m = Some (id, mc) → cm_conns m !! id = Some mc.
Proof. unfold cm_primary. intros Hh%head_Some_elem_of. by apply elem_of_uiter. Qed.
(** The accessor of the primary connection is defined exactly if there is one: a peer that
    was just made has none. *)
Lemma peer_connection_defined (p : Peer T) :
  (∃ c, peer_connection p = Ok c) ↔ cm_conns (p_conn_mgr p) ≠ ∅.
Proof.
  unfold peer_connection, cm_primary. split.
  - intros [c E] Hemp. destruct (head _) as [[id mc]|] eqn:Eh; [|done].
    apply head_Some_elem_of, elem_of_uiter in Eh. rewrite Hemp in Eh. done.
  - intros Hne. apply map_choose in Hne as (id & mc & Hid). apply elem_of_uiter in Hid.
    destruct (uiter _) as [|[id' mc'] l]; [by apply elem_of_nil in Hid|]. by eexists.
Qed.

Lemma note_packet_keys (p p' : Peer T) id num a :
  pm_note_packet id num p = Ok (p', a) → p_peer_keys p' = p_peer_keys p.
Proof.
  unfold pm_note_packet, mbind, PM_bind, pm_mc, mbind, PM_bind, pm_get, pm_lift. cbn [res_bind].
  destruct (cm_get _ _) as [mc|]; [|done]. unfold mret, PM_ret. cbn [res_bind].
  destruct (rt_on_packet_received _ _); cbn [res_bind]; try done. by intros [= <- _].
Qed.

(** The connection a datagram is charged to exists. *)
Lemma datagram_connection_at from (p : Peer T) id :
  peer_ok p →
  match find_by_endpoint (p_conn_mgr p) from with
  | Some id => Some id
  | None => fst <$> cm_primary (p_conn_mgr p)
  end = Some id → peer_at id p.
Proof.
  intros Hp Eid. split; [done|]. destruct (find_by_endpoint (p_conn_mgr p) from) as [i|] eqn:Ef.
  - injection Eid as <-. apply find_by_endpoint_Some in Ef as (mc & ? & _). by exists mc.
  - destruct (cm_primary (p_conn_mgr p)) as [[i mc]|] eqn:Ep; [|done]. injection Eid as <-.
    exists mc. by apply cm_primary_Some.
Qed.

Lemma on_datagram_spec data from (p : Peer T) :
  peer_ok p → wf_bytes data →
  ∃ p' n, on_datagram clock data from p = Ok (p', n) ∧ peer_ok p' ∧ 0 ≤ n ∧
    (∀ h, sreg_get (p_state p') h ≠ sreg_get (p_state p) h →
       ∃ f, f ∈ packet_frames data ∧ authentic (p_peer_keys p) f h).
Proof.
  intros Hp Hwf. unfold on_datagram, mbind, PM_bind, pm_lift, pm_get.
  assert (∀ p' : Peer T, peer_ok p' → p_state p' = p_state p →
    ∃ p'' n, Ok (p', 0) = Ok (p'', n) ∧ peer_ok p'' ∧ 0 ≤ n ∧
    (∀ h, sreg_get (p_state p'') h ≠ sreg_get (p_state p) h →
       ∃ f, f ∈ packet_frames data ∧ authentic (p_peer_keys p) f h)) as Hquiet.
  { intros p' Hp' S. exists p', 0. split_and!; try done. intros h. by rewrite S. }
  pose proof (Hquiet p Hp eq_refl) as Hskip.
  destruct (parse_Ok PacketDecoder_new data) as (d & ok & Hpa). rewrite Hpa. cbn [res_bind].
  destruct ok; cbn [negb]; [|done]. destruct (parse_true _ _ _ Hpa) as (Hd & _ & Hh & _).
  destruct (verify_checksum_Ok d data Hd) as [b Hv]. rewrite Hv. cbn [res_bind].
  destruct b; cbn [negb]; [|done].
  destruct (bool_decide (find_by_endpoint _ _ = None) && _).
  { destruct (auto_accept_ok clock p data from Hp) as (p' & E & Hp' & S). rewrite E. cbn [res_bind].
    by apply Hquiet. }
  destruct (match find_by_endpoint (p_conn_mgr p) from with Some id => Some id | None => _ end)
    as [id|] eqn:Eid; [|done].
  pose proof (datagram_connection_at from p id Hp Eid) as Hat.
  assert (is_u32 (ph_packet_number (pd_header d))) as Hnum.
  { destruct (frame_decode_total (T := PacketHeader) data) as (h' & Hh' & Hok').
    - destruct Hd as (_ & Hl & Hle & _). simpl. lia.
    - simpl in Hh'. rewrite Hh in Hh'. injection Hh' as <-.
      destruct (Hok' Hwf) as (_ & _ & _ & _ & ? & _). done. }
  destruct (keeps_note id _ Hnum p Hat) as (p1 & u & E1 & Hp1 & S1). rewrite E1. cbn [res_bind].
  pose proof (note_packet_keys _ _ _ _ _ E1) as K1.
  destruct (ph_packet_type (pd_header d)); try (apply Hquiet; [apply Hp1|done]).
  - unfold process_data_frames. rewrite (while_next_frame_spec (data_body clock id) _ _ _ _ Hpa).
    set (fs := parse_frames _).
    assert (fs = packet_frames data) as Hfs.
    { unfold packet_frames. rewrite Hh. done. }
    destruct (run_data_frames clock id fs p1 0 Hp1) as (p' & n & E & [Hp' _] & K' & Hn & Hc).
    { apply Forall_forall. intros f Hf.
      apply (parse_frames_wf (take (Z.to_nat (ph_payload_length (pd_header d)))
        (drop PACKET_HEADER_SIZE data))); [by apply Forall_take, Forall_drop|done]. }
    exists p', n. split; [exact E|]. split_and!; try done; [lia|].
    intros h. rewrite <-S1, <-K1, <-Hfs. apply Hc.
  - destruct (keeps_at_ok id _ p1 (keeps_answer_ping clock id data from) Hp1) as (p' & a & E & Hp' & S').
    rewrite E. cbn [res_bind]. apply Hquiet; [done|congruence].
Qed.

Lemma recv_from_spec (p : Peer T) timeout :
  peer_ok p → ∃ p' r, pm_recv_from timeout p = Ok (p', r) ∧ peer_ok p' ∧ p_state p' = p_state p ∧
    p_peer_keys p' = p_peer_keys p ∧
    (∀ data from, r = Some (data, from) → wf_bytes data ∧
       (t_recv_from (p_transport p) MAX_PACKET_SIZE timeout).2 = Some (data, from)).
Proof.
  intros (Ht & Hc & Hs & Hr). unfold pm_recv_from.
  pose proof (t_recv_ok (p_transport p) MAX_PACKET_SIZE timeout Ht) as Ht'.
  destruct (t_recv_from (p_transport p) MAX_PACKET_SIZE timeout) as [t r] eqn:E.
  eexists _, _. split; [done|]. split; [by split_and!|]. split; [done|]. split; [done|].
  intros data from Hr'. destruct r as [[[|b l] fr]|]; try done. injection Hr' as <- <-.
  split; [|done]. by apply t_recv_wf in E as [_ ?].
Qed.
Lemma peer_poll_spec (p : Peer T) timeout :
  peer_ok p →
  ∃ p' n, peer_poll clock timeout p = Ok (p', n) ∧ peer_ok p' ∧ -1 ≤ n ∧
    (∀ h, sreg_get (p_state p') h ≠ sreg_get (p_state p) h →
       ∃ data from f, (t_recv_from (p_transport p) MAX_PACKET_SIZE timeout).2 = Some (data, from) ∧
         f ∈ packet_frames data ∧ authentic (p_peer_keys p) f h).
Proof.
  intros Hp. unfold peer_poll, mbind, PM_bind, pm_get. cbn [res_bind].
  destruct (cm_has_connections (p_conn_mgr p)); cbn [negb].
  2: { exists p, (-1). split; [done|]. split_and!; try done; lia. }
  destruct (recv_from_spec p timeout Hp) as (p1 & r & E & Hp1 & S1 & K1 & Hr). rewrite E. cbn [res_bind].
  destruct r as [[data from]|].
  2: { exists p1, 0. split; [done|]. split; [done|]. split; [lia|]. intros h. by rewrite S1. }
  destruct (Hr data from eq_refl) as [Hwf Hrecv].
  destruct (on_datagram_spec data from p1 Hp1 Hwf) as (p' & n & E2 & Hp' & Hn & Hc).
  exists p', n. split; [done|]. split; [done|]. split; [lia|].
  intros h. rewrite <-S1, <-K1. intros Hne. destruct (Hc h Hne) as (f & ? & ?). eauto 8.
Qed.
End Datagrams.

(** ** Sending keeps the invariant *)
Section Sending.
Context `{XxHash} `{Ed25519} `{UnorderedIter} `{StdSort} {T : Type} `{!Transport T}.
Context (clock : nat → Z).

(** The signed payload of a delta. *)
Definition delta_content (node_id : Z) (d : PendingDelta) : bytes :=
  frame_bytes {| sdf_path_hash := pd_path_hash d; sdf_crdt_type := pd_crdt_type d;
                 sdf_reliability := pd_reliability d; sdf_author_node_id := node_id |} ++ pd_data d.
Definition signed_delta (keys : KeyPair) (node_id : Z) (d : PendingDelta) : bytes :=
  delta_content node_id d ++ sign (kp_secret_key keys) (delta_content node_id d).
Lemma length_delta_content node_id d : length (delta_content node_id d) = (8 + length (pd_data d))%nat.
Proof. unfold delta_content. rewrite length_app, frame_bytes_length. done. Qed.
Lemma length_signed_delta keys node_id d :
  length (signed_delta keys node_id d) = (72 + length (pd_data d))%nat.
Proof.
  unfold signed_delta. rewrite length_app, length_delta_content. unfold sign.
  rewrite ed25519_sign_size. unfold ED25519_SIGNATURE_SIZE. lia.
Qed.
Lemma build_signed_delta_spec keys node_id d :
  build_signed_delta keys node_id d = Ok (signed_delta keys node_id d).
Proof.
  unfold build_signed_delta. set (sdf := {| sdf_path_hash := _ |}).
  pose proof (frame_encode_Ok (T := StateDeltaFrame) sdf
    (replicate (StateDeltaFrame_BASE_WIRE_SIZE + length (pd_data d) + StateDeltaFrame_SIGNATURE_SIZE) 0)) as He.
  rewrite length_replicate in He. specialize (He ltac:(simpl; unfold StateDeltaFrame_BASE_WIRE_SIZE, StateDeltaFrame_SIGNATURE_SIZE; lia)).
  change (frame_encode sdf ?b) with (StateDeltaFrame_encode sdf b) in He. rewrite He. cbn [or_else res_bind].
  change (WIRE_SIZE (T := StateDeltaFrame)) with StateDeltaFrame_BASE_WIRE_SIZE.
  rewrite drop_replicate.
  set (tail := replicate _ 0).
  assert (length tail = length (pd_data d) + 64)%nat as Ht.
  { unfold tail. rewrite length_replicate. unfold StateDeltaFrame_BASE_WIRE_SIZE,
      StateDeltaFrame_SIGNATURE_SIZE. lia. }
  assert ((if bool_decide (pd_data d = []) then Ok (frame_bytes sdf ++ tail)
           else store (frame_bytes sdf ++ tail) StateDeltaFrame_BASE_WIRE_SIZE (pd_data d))
          = Ok (delta_content node_id d ++ drop (length (pd_data d)) tail)) as ->.
  { unfold delta_content. fold sdf. case_bool_decide as Hd.
    - rewrite Hd. by rewrite app_nil_r, drop_0.
    - change StateDeltaFrame_BASE_WIRE_SIZE with (length (frame_bytes sdf)).
      rewrite store_app_0, store_head by lia. cbn [res_bind]. by rewrite app_assoc. }
  cbn [res_bind].
  assert (StateDeltaFrame_BASE_WIRE_SIZE + length (pd_data d) = length (delta_content node_id d))%nat as ->.
  { by rewrite length_delta_content. }
  rewrite slice_app_l, slice_all by done. cbn [res_bind].
  rewrite slice_all by (unfold sign; by rewrite ed25519_sign_size). cbn [res_bind].
  rewrite store_app_0, store_head by
    (rewrite length_drop, Ht; unfold sign; rewrite ed25519_sign_size; unfold ED25519_SIGNATURE_SIZE; lia).
  cbn [res_bind]. rewrite drop_drop, drop_ge by
    (rewrite Ht; unfold sign; rewrite ed25519_sign_size; unfold ED25519_SIGNATURE_SIZE; lia).
  by rewrite app_nil_r.
Qed.

(** [add_frame] on a well-formed encoder never faults, whatever the payload size
    (a size of 65536 or more is truncated to 16 bits before the call). *)
Lemma add_frame_cases e p t q :
  enc_ok e p →
  (∃ e', add_frame e t (Some q) (u16 (Z.of_nat (length q))) = Ok e' ∧ (∃ p', enc_ok e' p')) ∨
  add_frame e t (Some q) (u16 (Z.of_nat (length q))) = Fail.
Proof.
  intros He. set (n := Z.to_nat (u16 (Z.of_nat (length q)))).
  assert (0 ≤ u16 (Z.of_nat (length q)) ≤ Z.of_nat (length q)) as Hn.
  { unfold wrap. split; [apply Z.mod_pos_bound; lia|apply Z.mod_le; lia]. }
  assert (length (take n q) = n) as Hl by (rewrite length_take; lia).
  assert (u16 (Z.of_nat (length q)) = Z.of_nat (length (take n q))) as Eq by (rewrite Hl; lia).
  destruct (le_lt_dec (PACKET_HEADER_SIZE + length p + 3 + length (take n q)) MAX_PACKET_SIZE) as [Hle|Hgt].
  - left. destruct (add_frame_Ok e p t (take n q) (drop n q) He Hle) as (buf & c & Ha & Hok).
    rewrite take_drop in Ha. rewrite Eq. eexists. split; [exact Ha|]. eauto.
  - right. apply (add_frame_full e p); [done|]. rewrite Hl in Hgt. subst n. lia.
Qed.

Lemma keeps_send_packet id enc p0 :
  enc_ok enc p0 → ∀ p : Peer T, peer_at id p →
  ∃ p' enc', pm_send_packet clock id enc p = Ok (p', enc') ∧ peer_at id p' ∧ p_state p' = p_state p ∧
    (∃ p1, enc_ok enc' p1).
Proof.
  intros He p Hp. destruct (at_mc id p Hp) as (mc & Emc & Hmc & _).
  unfold pm_send_packet, pm_conn, mbind, PM_bind. rewrite Emc. cbn [res_bind].
  unfold mret, PM_ret. cbn [res_bind].
  set (c := mc_conn mc). destruct (cn_next_send_packet_number c) as [c' num] eqn:Ec.
  destruct (keeps_put_conn id c' p Hp) as (p1 & [] & E1 & Hp1 & S1). rewrite E1. cbn [res_bind pm_now].
  unfold pm_now. cbn [res_bind].
  set (p2 := p_set_clock_reads p1 _). set (enc1 := set_timestamp _ _).
  assert (enc_ok enc1 p0) as He1 by (by apply enc_ok_set_ts, enc_ok_set_num).
  unfold pm_lift. rewrite (finalize_Ok enc1 p0 He1). cbn [res_bind].
  assert (peer_at id p2) as Hp2 by exact Hp1.
  destruct (keeps_send id (packet_bytes enc1 p0) (cn_remote c') p2 Hp2) as (p3 & n & E3 & Hp3 & S3).
  rewrite E3. cbn [res_bind].
  set (p4 := p_set_clock_reads p3 _). assert (peer_at id p4) as Hp4 by exact Hp3.
  destruct (at_mc id p4 Hp4) as (mc4 & Emc4 & Hmc4 & _). rewrite Emc4. cbn [res_bind].
  set (mc5 := {| mc_remote_node_id := mc_remote_node_id mc4; mc_send_tracker := st_on_packet_sent _ _ _ _ |}).
  destruct (keeps_put_mc id mc5 Hmc4 p4 Hp4) as (p5 & [] & E5 & Hp5 & S5). rewrite E5. cbn [res_bind].
  eexists p5, _. split; [done|]. split; [done|]. split; [|eexists; apply enc_ok_reset].
  rewrite S5. change (p_state p4) with (p_state p3). rewrite S3. change (p_state p2) with (p_state p1). done.
Qed.
Lemma keeps_send_deltas_loop id deltas : ∀ enc n (p : Peer T),
  (∃ p0, enc_ok enc p0) → peer_at id p →
  ∃ p' enc' n', send_deltas_loop clock id deltas enc n p = Ok (p', (enc', n')) ∧ peer_at id p' ∧
    p_state p' = p_state p ∧ (∃ p1, enc_ok enc' p1) ∧ n' = n + Z.of_nat (length deltas).
Proof.
  induction deltas as [|d deltas IH]; intros enc n p [p0 He] Hp; cbn [send_deltas_loop].
  { exists p, enc, n. split; [done|]. split_and!; try done; [by exists p0|simpl; lia]. }
  unfold mbind, PM_bind at 1, pm_get. cbn [res_bind]. unfold PM_bind at 1, pm_lift.
  rewrite build_signed_delta_spec. cbn [res_bind]. set (payload := signed_delta _ _ _).
  unfold PM_bind at 1.
  destruct (add_frame_cases enc p0 FT_STATE_DELTA payload He) as [(e1 & Ea & He1)|Ea];
    rewrite Ea; cbn [res_opt res_bind]; unfold PM_bind at 1; unfold mret, PM_ret; cbn [res_bind].
  { destruct (IH e1 (n + 1) p He1 Hp) as (p' & enc' & n' & E & ? & ? & ? & ->).
    exists p', enc', (n + 1 + Z.of_nat (length deltas)). split; [done|]. split_and!; try done. simpl; lia. }
  unfold PM_bind at 1. destruct (keeps_send_packet id enc p0 He p Hp) as (p1 & e1 & -> & Hp1 & S1 & [q1 He1]).
  cbn [res_bind]. unfold PM_bind at 1.
  destruct (keeps_conn id p1 Hp1) as (p2 & c & -> & Hp2 & S2). cbn [res_bind].
  set (e2 := set_connection_id _ _).
  assert (enc_ok e2 q1) as He2 by (by apply enc_ok_set_conn, enc_ok_set_type).
  assert (∃ e3, or_else (add_frame e2 FT_STATE_DELTA (Some payload) (u16 (Z.of_nat (length payload)))) e2 = Ok e3
            ∧ ∃ q3, enc_ok e3 q3) as (e3 & -> & He3).
  { destruct (add_frame_cases e2 q1 FT_STATE_DELTA payload He2) as [(e3 & Ea3 & ?)|Ea3]; rewrite Ea3; simpl; eauto. }
  cbn [res_bind]. destruct (IH e3 (n + 1) p2 He3 Hp2) as (p' & enc' & n' & E & ? & S & ? & ->).
  exists p', enc', (n + 1 + Z.of_nat (length deltas)). split; [done|]. split_and!; try done; [congruence|simpl; lia].
Qed.
Lemma keeps_send_deltas id deltas : keeps_at (T := T) id (send_deltas_to clock id deltas).
Proof.
  intros p Hp. unfold send_deltas_to. unfold mbind, PM_bind at 1.
  destruct (keeps_conn id p Hp) as (p1 & c & -> & Hp1 & S1). cbn [res_bind].
  set (enc := set_connection_id _ _).
  destruct (keeps_send_deltas_loop id deltas enc 0 p1) as (p2 & e2 & n & E2 & Hp2 & S2 & [q2 He2] & _);
    [eexists; apply enc_ok_set_conn, enc_ok_set_type, enc_ok_new|done|].
  unfold PM_bind at 1. rewrite E2. cbn [res_bind]. unfold PM_bind at 1.
  destruct (0 <? payload_size e2)%nat.
  - unfold PM_bind at 1. destruct (keeps_send_packet id e2 q2 He2 p2 Hp2) as (p3 & e3 & -> & Hp3 & S3 & _).
    cbn [res_bind]. unfold pm_skip, mret, PM_ret. cbn [res_bind]. exists p3, n. split; [done|].
    split; [done|congruence].
  - unfold pm_skip, mret, PM_ret. cbn [res_bind]. exists p2, n. split; [done|]. split; [done|congruence].
Qed.
End Sending.
#[export] Hint Resolve keeps_send_deltas : rom.
