(* ===== verification/PeerApi.v ===== *)
(** * The public interface of a peer

    [PeerOp] names the public methods of [Peer]; [peer_op] runs one of them and
    [peer_run] a sequence.  The accessors that hand out a component ([state],
    [connections], [router], [subscriptions], [capabilities]) only return a reference
    and have no operation; what a caller does to the component through it is the
    matter of that component's file.  The theorem is that of all sequences of calls, in
    any order and with any datagrams arriving in between, only those that call
    [connection] while there is no connection reach undefined behaviour: no pointer to
    a removed connection is used, no cast of a CRDT to the wrong class, no access
    outside a buffer. *)
From S2P Require Import Prelude Platform Frame Codec VersionVector GCounter LwwRegister Crdt.
From S2P Require Import StatePath StateRegistry Resolution Subscription AckTracker Transport.
From S2P Require Import Connection Capability Float64 Routing Peer PeerSafety.

Inductive PeerOp :=
| Op_register_peer_key (node_id : Z) (pk : bytes)
| Op_set_access_control (enabled : bool)
| Op_on_signature_failure (cb : bool)
| Op_connect (remote : Endpoint)
| Op_accept_from (timeout_ms : Z)
| Op_is_connected
| Op_disconnect (reason : CloseReason)
| Op_connect_start (remote : Endpoint)
| Op_connect_poll
| Op_accept_start
| Op_accept_poll
| Op_connect_to (remote_node_id : Z) (remote : Endpoint)
| Op_accept_node (remote_node_id timeout_ms : Z)
| Op_disconnect_node (remote_node_id : Z) (reason : CloseReason)
| Op_is_connected_to (remote_node_id : Z)
| Op_connected_nodes
| Op_set_connection_resolution (remote_node_id : Z) (tier : ResolutionTier) (config : ResolutionConfig)
| Op_subscribe (pattern : StatePath) (tier : ResolutionTier) (credits freshness_us : Z)
| Op_declare (path : StatePath) (type : CrdtType) (rel : Reliability)
| Op_set_lww (path : StatePath) (data : bytes)
| Op_increment_counter (path : StatePath) (amount : Z)
| Op_flush
| Op_poll (timeout_ms : Z)
| Op_set_local_endpoint (ep : Endpoint)
| Op_connection
| Op_forward_deltas (source_node_id : Z) (deltas : list PendingDelta).
(** Arguments are values of their C++ types; a callback is whether one is given. *)
Definition op_ok (o : PeerOp) : Prop :=
  match o with
  | Op_declare path _ _ => is_u32 (sp_hash path)
  | Op_set_lww _ data => wf_bytes data
  | Op_increment_counter _ amount => is_u64 amount
  | _ => True
  end.

Section Api.
Context `{XxHash} `{Ed25519} `{UnorderedIter} `{StdSort} {T : Type} `{!Transport T}.
Context (clock : nat → Z).

Definition pm_void {A} (m : PM T A) : PM T () := _ ← m; mret ().
(** A method that only reads the peer. *)
Definition pm_read {A} (f : Peer T → res A) : PM T () := p ← pm_get; _ ← pm_lift (f p); mret ().
Definition peer_op (o : PeerOp) : PM T () :=
  match o with
  | Op_register_peer_key n pk => pm_modify (λ p, peer_register_peer_key p n pk)
  | Op_set_access_control b => pm_modify (λ p, p_set_access_control p b)
  | Op_on_signature_failure cb => pm_modify (λ p, p_set_on_sig_failure p cb)
  | Op_connect remote => pm_void (peer_connect clock remote)
  | Op_accept_from t => pm_void (peer_accept_from clock t)
  | Op_is_connected => pm_read (λ p, Ok (peer_is_connected p))
  | Op_disconnect r => peer_disconnect clock r
  | Op_connect_start remote => pm_void (peer_connect_start clock remote)
  | Op_connect_poll => pm_void peer_connect_poll
  | Op_accept_start => pm_void (peer_accept_start clock)
  | Op_accept_poll => pm_void (peer_accept_poll clock)
  | Op_connect_to n remote => pm_void (peer_connect_to clock n remote)
  | Op_accept_node n t => pm_void (peer_accept_node clock n t)
  | Op_disconnect_node n r => peer_disconnect_node clock n r
  | Op_is_connected_to n => pm_read (λ p, Ok (peer_is_connected_to p n))
  | Op_connected_nodes => pm_read (λ p, Ok (peer_connected_nodes p))
  | Op_set_connection_resolution n t c => pm_modify (λ p, peer_set_connection_resolution p n t c)
  | Op_subscribe pat t c f => pm_modify (λ p, (peer_subscribe p pat t c f).1)
  | Op_declare path t rel => pm_modify (λ p, (peer_declare p path t rel).1)
  | Op_set_lww path data => pm_void (peer_set_lww clock path data)
  | Op_increment_counter path a => pm_void (peer_increment_counter path a)
  | Op_flush => pm_void (peer_flush clock)
  | Op_poll t => pm_void (peer_poll clock t)
  | Op_set_local_endpoint ep => pm_modify (λ p, p_set_local_ep p ep)
  | Op_connection => pm_read peer_connection
  | Op_forward_deltas n ds => forward_deltas clock n ds
  end.
Definition peer_run (l : list PeerOp) (p : Peer T) : res (Peer T) :=
  res_foldl (λ p o, let! (p', _) := peer_op o p in Ok p') p l.

(** A method that is defined in every good state and ends in one. *)
Definition total {A} (m : PM T A) : Prop := triple peer_ok m (λ _, peer_ok).
Definition total_at {A} (id : Z) (m : PM T A) : Prop := triple (peer_at id) m (λ _, peer_ok).

Lemma keeps_triple {A} id (m : PM T A) : keeps_at id m → triple (peer_at id) m (λ _, peer_at id).
Proof. intros Hm p Hp. destruct (Hm p Hp) as (p' & a & ? & ? & _). eauto. Qed.
Lemma at_bind {A B} id (m : PM T A) (f : A → PM T B) Q :
  keeps_at id m → (∀ a, triple (peer_at id) (f a) Q) → triple (peer_at id) (m ≫= f) Q.
Proof. intros Hm. apply triple_bind. by apply keeps_triple. Qed.
Lemma at_ret {A} id (a : A) : total_at id (mret a).
Proof. apply triple_ret. by intros p [? _]. Qed.
Lemma keeps_total_at {A} id (m : PM T A) : keeps_at id m → total_at id m.
Proof. intros Hm p Hp. destruct (Hm p Hp) as (p' & a & ? & [? _] & _). eauto. Qed.
Lemma add_conn_triple id :
  triple peer_ok (pm_add_conn clock id) (λ _ : bool, peer_at (T := T) id).
Proof. intros p Hp. destruct (add_conn_spec clock p id Hp) as (p' & b & ? & ? & _). eauto. Qed.
Lemma keeps_modify id (f : Peer T → Peer T) :
  (∀ p, p_transport (f p) = p_transport p ∧ p_conn_mgr (f p) = p_conn_mgr p ∧ p_state (f p) = p_state p ∧
        p_router (f p) = p_router p) →
  keeps_at id (pm_modify f).
Proof.
  intros Hf p Hp. exists (f p), (). split; [done|]. destruct (Hf p) as (Et & Ec & Es & Er).
  unfold peer_at, peer_ok in *. by rewrite Et, Ec, Es, Er.
Qed.
Lemma keeps_recv id timeout : keeps_at (T := T) id (pm_recv_from timeout).
Proof.
  intros p [Hp Hid]. destruct (recv_from_spec p timeout Hp) as (p' & r & E & Hp' & S & _).
  exists p', r. split; [done|]. split; [|done]. split; [done|].
  revert E. unfold pm_recv_from. destruct (t_recv_from _ _ _). by intros [= <- _].
Qed.
Lemma total_remove {A} id (a : A) : total_at id (_ ← pm_remove_conn id; mret a : PM T A).
Proof.
  intros p [Hp _]. destruct (remove_conn_ok p id Hp) as (p' & E & Hp' & _).
  exists p', a. split; [|done]. unfold mbind, PM_bind. by rewrite E.
Qed.
End Api.
#[export] Hint Resolve keeps_recv at_ret total_remove : rom.
Ltac api_step :=
  match goal with
  | |- triple (peer_at _) (mret _) _ => apply at_ret
  | |- triple (peer_at _) (pm_skip) _ => apply at_ret
  | |- total_at _ (mret _) => apply at_ret
  | |- total_at _ (pm_remove_conn _ ≫= _) => apply total_remove
  | |- triple (peer_at _) (pm_remove_conn _ ≫= _) _ => apply total_remove
  | |- total_at _ (_ ≫= _) => unfold total_at
  | |- triple (peer_at _) (pm_modify _ ≫= _) _ => apply at_bind; [apply keeps_modify; done|intros ?]
  | |- triple (peer_at _) (_ ≫= _) _ => apply at_bind; [solve [eauto with rom]|intros ?]
  | |- triple peer_ok (pm_add_conn _ _ ≫= _) _ => eapply triple_bind; [apply add_conn_triple|intros ?; cbv beta]
  | |- context [if ?b then _ else _] => destruct b; cbn [negb]
  | |- context [match ?r with Some _ => _ | None => _ end] => destruct r as [[]|]
  | |- context [match he_result ?e with _ => _ end] => destruct (he_result e)
  end.

Section ApiTotal.
Context `{XxHash} `{Ed25519} `{UnorderedIter} `{StdSort} {T : Type} `{!Transport T}.
Context (clock : nat → Z).

Lemma total_void {A} (m : PM T A) : total m → total (pm_void m).
Proof. intros Hm. eapply triple_bind; [exact Hm|]. intros a. by apply triple_ret. Qed.
Lemma keeps_accept_packet id data from : keeps_at (T := T) id (pm_accept_packet clock id data from).
Proof.
  unfold pm_accept_packet. apply keeps_bind; [eauto with rom|]. intros e.
  destruct (he_result e); try apply keeps_ret.
  repeat (apply keeps_bind; [solve [eauto with rom]|intros ?]). eauto with rom.
Qed.
#[local] Hint Resolve keeps_accept_packet : rom.
Lemma total_connect remote : total (peer_connect (T := T) clock remote).
Proof. unfold total, peer_connect. repeat api_step. Qed.
Lemma total_accept_from t : total (peer_accept_from (T := T) clock t).
Proof.
  unfold total, peer_accept_from. repeat api_step. apply keeps_total_at. eauto with rom.
Qed.
Lemma total_connect_start remote : total (peer_connect_start (T := T) clock remote).
Proof. unfold total, peer_connect_start. repeat api_step. Qed.
Lemma total_accept_start : total (peer_accept_start (T := T) clock).
Proof. unfold total, peer_accept_start. repeat api_step. Qed.
Lemma total_connect_to n remote : total (peer_connect_to (T := T) clock n remote).
Proof.
  unfold total, peer_connect_to. repeat api_step.
Qed.
Lemma total_accept_node n t : total (peer_accept_node (T := T) clock n t).
Proof.
  unfold total, peer_accept_node. repeat api_step.
Qed.
(** Methods that look up a connection first. *)
Lemma total_get {B} (f : Peer T → PM T B) :
  (∀ p, peer_ok p → triple (λ q, q = p) (f p) (λ _, peer_ok)) → total (pm_get ≫= f).
Proof. apply triple_get_bind. Qed.
Lemma at_here {A} (p : Peer T) id mc (m : PM T A) Q :
  peer_ok p → cm_get (p_conn_mgr p) id = Some mc → triple (peer_at id) m Q → triple (λ q, q = p) m Q.
Proof. intros Hp Hmc Hm q ->. apply Hm. split; [done|]. by exists mc. Qed.
Lemma here {A} (p : Peer T) (m : PM T A) Q : peer_ok p → triple peer_ok m Q → triple (λ q, q = p) m Q.
Proof. intros Hp Hm q ->. by apply Hm. Qed.
Lemma total_ret {A} (a : A) : total (T := T) (mret a).
Proof. by apply triple_ret. Qed.
Lemma total_disconnect r : total (peer_disconnect (T := T) clock r).
Proof.
  apply total_get. intros p Hp. destruct (cm_primary (p_conn_mgr p)) as [[id mc]|] eqn:E.
  - apply (at_here p id mc); [done|by apply cm_primary_Some|]. apply keeps_total_at. eauto with rom.
  - apply here; [done|apply total_ret].
Qed.
Lemma total_connect_poll : total (peer_connect_poll (T := T)).
Proof.
  apply total_get. intros p Hp. case_bool_decide; cbn [negb]; [|apply here; [done|apply total_ret]].
  destruct (cm_get (p_conn_mgr p) 0) as [mc|] eqn:E; [|apply here; [done|apply total_ret]].
  apply (at_here p 0 mc); [done..|]. repeat api_step.
Qed.
Lemma total_accept_poll : total (peer_accept_poll (T := T) clock).
Proof.
  apply total_get. intros p Hp. case_bool_decide; cbn [negb]; [|apply here; [done|apply total_ret]].
  destruct (cm_get (p_conn_mgr p) 0) as [mc|] eqn:E; [|apply here; [done|apply total_ret]].
  apply (at_here p 0 mc); [done..|]. repeat api_step.
Qed.
Lemma total_disconnect_node n r : total (peer_disconnect_node (T := T) clock n r).
Proof.
  apply total_get. intros p Hp.
  assert (total (_ ← pm_remove_conn n; pm_modify (λ p : Peer T,
    let p := p_set_delta_filters p (delete n (p_delta_filters p)) in
    p_set_router p (rtr_remove_node (p_router p) n)))) as Hrm.
  { intros q Hq. destruct (remove_conn_ok q n Hq) as (q' & E & (Ht & Hc & Hs & Hr) & _).
    unfold mbind, PM_bind. rewrite E. cbn [res_bind]. eexists _, _. split; [done|].
    split_and!; try done. by apply remove_ok. }
  destruct (cm_get (p_conn_mgr p) n) as [mc|] eqn:E.
  - apply (at_here p n mc); [done..|]. eapply triple_bind; [apply keeps_total_at; eauto with rom|].
    intros ?. exact Hrm.
  - apply here; [done|]. eapply triple_bind; [apply total_ret|]. intros ?. exact Hrm.
Qed.
(** Local writes keep the class of a region's CRDT. *)
Lemma put_region_ok (p : Peer T) h g v :
  peer_ok p → sreg_get (p_state p) h = Some g → cv_ok v → cv_type v = cv_type (rg_crdt g) →
  triple (λ q, peer_ok q ∧ p_state q = p_state p)
    (_ ← pm_put_region h (rg_bump_version (p_node_id p) (rg_set_crdt g v)); mret true) (λ _, peer_ok).
Proof.
  intros Hp0 Hg Hv Hty q [(Ht & Hc & [Hn Hs] & Hr) E]. eexists _, _. split; [done|].
  pose proof (proj2 (proj1 (proj2 (proj2 Hp0)))) as Hs0.
  split_and!; try done. split; [done|]. simpl. rewrite E in *.
  apply map_Forall_insert_2; [|done]. destruct (Hs0 h g Hg) as (? & ? & ? & ?).
  split_and!; simpl; try done. congruence.
Qed.
Lemma total_set_lww path data : wf_bytes data → total (peer_set_lww (T := T) clock path data).
Proof.
  intros Hd. apply total_get. intros p Hp.
  destruct (sreg_get (p_state p) (sp_hash path)) as [g|] eqn:E; [|apply here; [done|apply total_ret]].
  case_bool_decide as Hty; cbn [negb]; [|apply here; [done|apply total_ret]].
  pose proof (proj2 (proj1 (proj2 (proj2 Hp)))) as Hs. destruct (Hs _ g E) as (_ & _ & Hty' & Hv).
  destruct (rg_crdt g) as [r| | |] eqn:Eg; try (rewrite Hty in Hty'; done).
  eapply (triple_bind _ _ _ (λ ts q, is_u32 ts ∧ peer_ok q ∧ p_state q = p_state p)).
  - destruct (cm_primary (p_conn_mgr p)) as [[i mc]|].
    + intros q ->. eexists _, _. split; [done|]. split; [apply elapsed_is_u|]. done.
    + intros q ->. eexists _, _. split; [done|]. split; [|done]. by apply (bool_decide_eq_true_1 (is_u32 0)).
  - intros ts q (Hts & Hq). revert q Hq. apply put_region_ok; try done; simpl.
    + destruct Hv as (_ & ? & _). by split_and!.
    + by rewrite Eg.
Qed.
Lemma total_increment path a : is_u64 a → total (peer_increment_counter (T := T) path a).
Proof.
  intros Ha. apply total_get. intros p Hp.
  destruct (sreg_get (p_state p) (sp_hash path)) as [g|] eqn:E; [|apply here; [done|apply total_ret]].
  case_bool_decide as Hty; cbn [negb]; [|apply here; [done|apply total_ret]].
  pose proof (proj2 (proj1 (proj2 (proj2 Hp)))) as Hs. destruct (Hs _ g E) as (_ & _ & Hty' & Hv).
  destruct (rg_crdt g) as [|c| |] eqn:Eg; try (rewrite Hty in Hty'; done).
  eapply triple_pre; [apply put_region_ok; try done; simpl|by intros q ->].
  - by apply gc_increment_ok.
  - by rewrite Eg.
Qed.

(** ** Sending to one connection leaves the others alone *)
Definition framed {A} (id : Z) (m : PM T A) : Prop :=
  ∀ p p' a, m p = Ok (p', a) →
    ∀ j, j ≠ id → cm_conns (p_conn_mgr p') !! j = cm_conns (p_conn_mgr p) !! j.
Lemma framed_bind {A B} id (m : PM T A) (f : A → PM T B) :
  framed id m → (∀ a, framed id (f a)) → framed id (m ≫= f).
Proof.
  intros Hm Hf p p' b. unfold mbind, PM_bind. destruct (m p) as [[p1 a]| |] eqn:E; try done.
  cbn [res_bind]. intros E2 j Hj. rewrite (Hf a p1 p' b E2 j Hj). exact (Hm p p1 a E j Hj).
Qed.
Lemma framed_ret {A} id (a : A) : framed id (mret a).
Proof. by intros p p' b [= <- _]. Qed.
Lemma framed_get id : framed id pm_get.
Proof. by intros p p' b [= <- _]. Qed.
Lemma framed_lift {A} id (m : res A) : framed id (pm_lift m).
Proof. intros p p' b. unfold pm_lift. destruct m; [|done..]. by intros [= <- _]. Qed.
Lemma framed_now id : framed id (pm_now clock).
Proof. by intros p p' b [= <- _]. Qed.
Lemma framed_send id d to : framed id (pm_send_to d to).
Proof. intros p p' b. unfold pm_send_to. destruct (t_send_to _ _ _). by intros [= <- _]. Qed.
Lemma framed_mc id : framed id (pm_mc id).
Proof.
  apply framed_bind; [apply framed_get|]. intros q.
  by destruct (cm_get _ _); [apply framed_ret|intros p p' b].
Qed.
Lemma framed_put_mc id mc : framed id (pm_put_mc id mc).
Proof. intros p p' b [= <- _] j Hj. simpl. by rewrite lookup_insert_ne. Qed.
#[local] Hint Resolve framed_ret framed_get framed_lift framed_now framed_send framed_mc framed_put_mc : rom.
#[local] Ltac frame := repeat first [solve [eauto with rom] | apply framed_bind; [|intros ?] | case_match].
Lemma framed_conn id : framed id (pm_conn id).
Proof. unfold pm_conn. frame. Qed.
Lemma framed_put_conn id c : framed id (pm_put_conn id c).
Proof. unfold pm_put_conn. frame. Qed.
#[local] Hint Resolve framed_conn framed_put_conn : rom.
Lemma framed_send_packet id enc : framed id (pm_send_packet clock id enc).
Proof. unfold pm_send_packet. frame. Qed.
#[local] Hint Resolve framed_send_packet : rom.
Lemma framed_send_loop id ds : ∀ enc n, framed id (send_deltas_loop clock id ds enc n).
Proof. induction ds as [|d ds IH]; intros enc n; cbn [send_deltas_loop]; frame. Qed.
#[local] Hint Resolve framed_send_loop : rom.
Lemma framed_send_deltas id ds : framed id (send_deltas_to clock id ds).
Proof. unfold send_deltas_to, pm_skip. frame. Qed.
Lemma framed_filter id f ds : framed id (filter_deltas clock f ds).
Proof. revert f. induction ds as [|d ds IH]; intros f; cbn [filter_deltas]; frame. Qed.
Lemma framed_modify id f : (∀ p : Peer T, p_conn_mgr (f p) = p_conn_mgr p) → framed id (pm_modify f).
Proof. intros Hf p p' a [= <- _] j _. by rewrite Hf. Qed.
#[local] Hint Resolve framed_send_deltas framed_filter : rom.
Lemma framed_flush_one ds id : framed id (flush_one clock ds id).
Proof.
  unfold flush_one. apply framed_bind; [eauto with rom|]. intros mc. case_match; [frame|].
  apply framed_bind; [frame|]. intros q. case_match; [|frame].
  apply framed_bind; [frame|]. intros [f' l]. apply framed_bind; [by apply framed_modify|]. frame.
Qed.

Lemma keeps_filter id f ds : keeps_at (T := T) id (filter_deltas clock f ds).
Proof.
  revert f. induction ds as [|d ds IH]; intros f; cbn [filter_deltas]; [apply keeps_ret|].
  apply keeps_bind; [eauto with rom|]. intros now. destruct (df_should_forward _ _ _ _) as [f' ok].
  apply keeps_bind; [apply IH|]. intros [f'' rest]. apply keeps_ret.
Qed.
Lemma keeps_flush_one ds id : keeps_at (T := T) id (flush_one clock ds id).
Proof.
  unfold flush_one. apply keeps_bind; [eauto with rom|]. intros mc. case_match; [apply keeps_ret|].
  apply keeps_bind; [eauto with rom|]. intros q. case_match; [|eauto with rom].
  apply keeps_bind; [apply keeps_filter|]. intros [f' l].
  apply keeps_bind; [by apply keeps_modify|]. intros _. case_match; eauto with rom.
Qed.
(** Every connection of the list is still there when its turn comes. *)
Lemma flush_all_ok ds ids n :
  triple (λ p : Peer T, peer_ok p ∧ ∀ j, j ∈ ids → is_Some (cm_conns (p_conn_mgr p) !! j))
    (flush_all clock ds ids n) (λ _, peer_ok).
Proof.
  revert n. induction ids as [|id ids IH]; intros n; cbn [flush_all]; [apply triple_ret; by intros p [? _]|].
  eapply triple_bind; [|intros k; apply IH]. intros p [Hp Hids].
  assert (peer_at id p) as Hat by (split; [done|apply Hids; set_solver]).
  destruct (keeps_flush_one ds id p Hat) as (p' & k & E & [Hp' Hid] & _). exists p', k.
  split; [done|]. split; [done|]. intros j Hj. destruct (decide (j = id)) as [->|Hne]; [done|].
  rewrite (framed_flush_one ds id p p' k E j Hne). apply Hids. set_solver.
Qed.
Lemma total_flush : total (peer_flush (T := T) clock).
Proof.
  apply total_get. intros p Hp. destruct (cm_has_connections _); cbn [negb]; [|apply here; [done|apply total_ret]].
  pose proof Hp as (Ht & Hc & Hs & Hr).
  destruct (sreg_collect_spec (p_state p) Hs) as (r & ds & E & Hr' & _).
  apply (triple_bind _ _ _ (λ rd q, rd = (r, ds) ∧ q = p)).
  { apply triple_lift. intros q ->. by exists (r, ds). }
  intros [r' ds'].
  apply (triple_bind _ _ _ (λ _ q, ds' = ds ∧ peer_ok q ∧ p_conn_mgr q = p_conn_mgr p)).
  - apply triple_modify. intros q [[= -> ->] ->]. by split_and!.
  - intros ? q (-> & Hq & Eq). case_bool_decide.
    + by exists q, 0.
    + apply flush_all_ok. split; [done|]. intros j Hj. rewrite Eq.
      apply list_elem_of_fmap in Hj as ([k mc] & -> & Hin%elem_of_uiter). by exists mc.
Qed.
Lemma total_forward n ds : total (forward_deltas (T := T) clock n ds).
Proof.
  induction ds as [|d ds IH]; cbn [forward_deltas]; [apply total_ret|].
  apply total_get. intros p Hp. apply here; [done|].
  eapply triple_bind; [|intros ?; exact IH]. generalize (rtr_select_next_hops (p_router p) (pd_path_hash d)).
  clear p Hp. intros hops. induction hops as [|hop hops IHh]; cbn [forward_hops]; [apply total_ret|].
  apply total_get. intros p Hp.
  eapply triple_bind; [|intros ?; exact IHh].
  destruct (negb _); cbn [andb]; [|apply here; [done|apply total_ret]].
  unfold peer_is_connected_to. destruct (cm_get (p_conn_mgr p) hop) as [mc|] eqn:E;
    [|apply here; [done|apply total_ret]].
  case_bool_decide; [|apply here; [done|apply total_ret]].
  apply (at_here p hop mc); [done..|]. apply keeps_total_at.
  apply keeps_bind; [eauto with rom|]. intros ?. apply keeps_ret.
Qed.
Lemma total_poll t : total (peer_poll (T := T) clock t).
Proof. intros p Hp. destruct (peer_poll_spec clock p t Hp) as (p' & n & ? & ? & _). eauto. Qed.

Lemma total_read {A} (f : Peer T → A) : total (pm_read (λ p, Ok (f p))).
Proof. intros p Hp. by exists p, (). Qed.
Lemma peer_op_total o : op_ok o → o ≠ Op_connection → total (peer_op (T := T) clock o).
Proof.
  intros Ho Hne. destruct o; simpl in *; try first [apply total_read|apply total_void];
    auto using total_connect, total_accept_from,
    total_disconnect, total_connect_start, total_connect_poll, total_accept_start, total_accept_poll,
    total_connect_to, total_accept_node, total_disconnect_node, total_set_lww, total_increment,
    total_flush, total_poll, total_forward; try done; apply triple_modify;
    intros p (Ht & Hc & Hs & Hr); try by split_and!.
  unfold peer_declare. pose proof (sreg_declare_ok (p_state p) path type rel Hs Ho) as Hd.
  destruct (sreg_declare _ _ _ _) as [r [|]]; by split_and!.
Qed.
Lemma connection_op (p : Peer T) :
  (cm_conns (p_conn_mgr p) ≠ ∅ ∧ peer_op clock Op_connection p = Ok (p, ())) ∨
  (cm_conns (p_conn_mgr p) = ∅ ∧ peer_op clock Op_connection p = Oob).
Proof.
  pose proof (peer_connection_defined p) as Hd. cbn [peer_op].
  unfold pm_read, pm_get, pm_lift, mbind, PM_bind. cbn [res_bind].
  destruct (peer_connection p) as [c| |] eqn:E.
  - left. split; [|done]. apply Hd. eauto.
  - unfold peer_connection in E. by repeat case_match.
  - right. split; [|done]. apply dec_stable. by intros [c ?]%Hd.
Qed.
(** One call: it returns in a good state, or it was [connection] without a connection. *)
Lemma peer_op_step o (p : Peer T) :
  op_ok o → peer_ok p →
  (∃ p', peer_op clock o p = Ok (p', ()) ∧ peer_ok p') ∨
  (o = Op_connection ∧ cm_conns (p_conn_mgr p) = ∅ ∧ peer_op clock o p = Oob).
Proof.
  intros Ho Hp. assert (o = Op_connection ∨ o ≠ Op_connection) as [->|Hne]
    by (destruct o; first [by left|by right]).
  - destruct (connection_op p) as [[_ E]|[? ?]]; [left; by exists p|by right].
  - left. destruct (peer_op_total o Ho Hne p Hp) as (p' & [] & ? & ?). by exists p'.
Qed.
Lemma peer_new_ok n (t : T) keys : is_u16 n → t_ok t → peer_ok (peer_new n t keys).
Proof.
  intros Hn Ht. split_and!; try done.
  simpl. apply (rtr_run_ok n rcfg_default []), rcfg_default_ok.
Qed.
End ApiTotal.

(** C1: No undefined behaviour but one.  A new peer is given any finite sequence of calls
    of its public methods, in any order, with arguments of their C++ types and any datagrams
    arriving from the transport.
    Either every call returns, and afterwards every connection is stored under its own
    node, every packet tracker is inside its window, every region holds a CRDT of its
    declared class with in-range contents, and every path has at most one route per
    neighbour, none through the node itself and none with a NaN weight; or the sequence
    calls [connection] when the peer has no connection at all, which is the undefined
    call: all calls before it returned, in such a state. *)
Theorem peer_api_total `{XxHash} `{Ed25519} `{UnorderedIter} `{StdSort} {T : Type} `{!Transport T}
    (clock : nat → Z) (node_id : Z) (t : T) (keys : KeyPair) (l : list PeerOp) :
  is_u16 node_id → t_ok t → Forall op_ok l →
  (∃ p, peer_run clock l (peer_new node_id t keys) = Ok p ∧ peer_ok p) ∨
  (∃ l1 l2 p, l = l1 ++ Op_connection :: l2 ∧
     peer_run clock l1 (peer_new node_id t keys) = Ok p ∧ peer_ok p ∧ cm_conns (p_conn_mgr p) = ∅ ∧
     peer_run clock l (peer_new node_id t keys) = Oob).
Proof.
  intros Hn Ht Hl. pose proof (peer_new_ok node_id t keys Hn Ht) as Hp. revert Hp.
  generalize (peer_new node_id t keys). unfold peer_run.
  induction Hl as [|o l Ho Hl IH]; intros p Hp; [left; by exists p|].
  cbn [res_foldl]. destruct (peer_op_step clock o p Ho Hp) as [(p' & E & Hp')|(-> & Hemp & E)].
  - rewrite E. cbn [res_bind]. destruct (IH p' Hp') as [?|(l1 & l2 & q & -> & El & Hq)]; [by left|].
    right. exists (o :: l1), l2, q. split; [done|]. cbn [res_foldl]. rewrite E. by cbn [res_bind].
  - right. exists [], l, p. rewrite E. by split_and!.
Qed.

(** ** Concrete peers *)
Module Scenario.
#[local] Existing Instances toy_xxhash toy_ed25519 insertion_std_sort.
Abbreviation XPeer := (Peer ExternalTransport).
Definition toy_clock (n : nat) : Z := 1000000 * Z.of_nat (S n).
Definition bound (ep : Endpoint) : ExternalTransport := (xt_bind xt_new ep).1.
Definition path_hits : StatePath := sp_new [47; 104; 105; 116; 115].
Definition alice0 : XPeer := peer_new 1 (bound ep_a) (toy_keys 7).
Definition bob0 : XPeer := peer_new 2 (bound ep_b) (toy_keys 9).
Definition run_ops (p : XPeer) (l : list PeerOp) : XPeer :=
  match peer_run toy_clock l p with Ok q => q | _ => p end.
(** Carry the datagrams that [a], bound to [ep], has sent to [b]. *)
Definition carry (ep : Endpoint) (a b : XPeer) : XPeer * XPeer :=
  let s := xt_send_queue (p_transport a) in
  (p_set_transport a (xt_with_queues (p_transport a) (xt_recv_queue (p_transport a)) []),
   p_set_transport b (foldl (λ t k, xt_push_recv t (xp_data k) ep) (p_transport b) s)).
Definition setup (peer : Z) (k : Z) : list PeerOp :=
  [Op_register_peer_key peer (kp_public_key (toy_keys k));
   Op_declare path_hits CT_G_COUNTER Rel_RELIABLE].
(** Alice connects to Bob, who accepts. *)
Definition linked : XPeer * XPeer :=
  let a := run_ops alice0 (setup 2 9 ++ [Op_connect_start ep_b]) in
  let b := run_ops bob0 (setup 1 7 ++ [Op_accept_start]) in
  let '(a, b) := carry ep_a a b in
  let b := run_ops b [Op_accept_poll] in
  let '(b, a) := carry ep_b b a in
  (run_ops a [Op_connect_poll], b).
(** Both count hits, Alice first, and exchange their deltas. *)
Definition session : XPeer * XPeer :=
  let '(a, b) := linked in
  let a := run_ops a [Op_increment_counter path_hits 5; Op_flush] in
  let '(a, b) := carry ep_a a b in
  let b := run_ops b [Op_poll 0; Op_increment_counter path_hits 2; Op_flush] in
  let '(b, a) := carry ep_b b a in
  (run_ops a [Op_poll 0], b).
Definition hits (p : XPeer) : option Z :=
  g ← sreg_get (p_state p) (sp_hash path_hits);
  match rg_crdt g with CV_GCounter c => Some (gc_value c) | _ => None end.

Example session_converges :
  (hits session.1, hits session.2) = (Some 7, Some 7) ∧
  (peer_connected_nodes session.1, peer_connected_nodes session.2) = ([0], [0]).
Proof. split; vm_compute; reflexivity. Qed.

Lemma run_ops_ok p l : peer_ok p → Forall op_ok l → peer_ok (run_ops p l).
Proof.
  intros Hp Hl. unfold run_ops, peer_run. revert p Hp. induction Hl as [|o l Ho Hl IH]; intros p Hp; [done|].
  cbn [res_foldl]. destruct (peer_op_step toy_clock o p Ho Hp) as [(p' & E & Hp')|(_ & _ & E)];
    rewrite E; cbn [res_bind]; [|done].
  pose proof (IH p' Hp') as IHp. destruct (res_foldl _ _ _); [done|done..].
Qed.
Lemma set_transport_ok (p : XPeer) t : peer_ok p → t_ok t → peer_ok (p_set_transport p t).
Proof. intros (_ & ? & ? & ?) Ht. by split_and!. Qed.
Lemma setup_ok peer k o : op_ok o → Forall op_ok (setup peer k ++ [o]).
Proof.
  intros Ho. repeat constructor; try done; apply (bool_decide_eq_true_1 (is_u32 _)); by vm_compute.
Qed.
Lemma alice0_ok : peer_ok alice0.
Proof. apply peer_new_ok; [by_decide|constructor]. Qed.
Lemma bob0_ok : peer_ok bob0.
Proof. apply peer_new_ok; [by_decide|constructor]. Qed.
Lemma linked_ok : peer_ok linked.1 ∧ peer_ok linked.2.
Proof.
  assert (∀ a b ep, peer_ok a → peer_ok b → Forall (λ k, wf_bytes (xp_data k)) (xt_send_queue (p_transport a)) →
    peer_ok (carry ep a b).1 ∧ peer_ok (carry ep a b).2) as Hc.
  { intros a b ep Ha Hb Hs. split; apply set_transport_ok; try done; [apply Ha|].
    assert (t_ok (p_transport b)) as Ht by apply Hb. revert Hs Ht. generalize (p_transport b).
    induction (xt_send_queue (p_transport a)) as [|k s IH]; intros t Hs Ht; [done|].
    apply Forall_cons in Hs as [? ?]. apply IH; [done|]. simpl. apply Forall_app_2; [done|].
    by apply Forall_cons. }
  unfold linked.
  set (a := run_ops alice0 _). set (b := run_ops bob0 _).
  assert (peer_ok a) as Ha by (apply run_ops_ok; [apply alice0_ok|by apply setup_ok]).
  assert (peer_ok b) as Hb by (apply run_ops_ok; [apply bob0_ok|by apply setup_ok]).
  destruct (Hc a b ep_a Ha Hb) as [Ha1 Hb1]; [unfold a; by_decide|].
  destruct (carry ep_a a b) as [a1 b1] eqn:E1. cbn [fst snd] in *.
  assert (peer_ok (run_ops b1 [Op_accept_poll])) as Hb2 by (apply run_ops_ok; [done|by repeat constructor]).
  destruct (Hc (run_ops b1 [Op_accept_poll]) a1 ep_b Hb2 Ha1) as [Hb3 Ha2].
  { apply (f_equal snd) in E1. cbn [snd] in E1. rewrite <-E1. unfold a, b. by_decide. }
  destruct (carry ep_b _ a1) as [b3 a2]. cbn [fst snd] in *. split; [|done].
  apply run_ops_ok; [done|by repeat constructor].
Qed.
(** A garbage datagram arrives while the peer waits for a connection; afterwards, the slot
    being there, [connection] is defined; before, it is not. *)
Lemma peer_api_total_witness :
  let t := xt_push_recv (bound ep_a) [222; 173; 190; 239] ep_b in
  let calls := setup 2 9 ++ [Op_accept_from 5; Op_connection] in
  (∃ p, peer_run toy_clock calls (peer_new 1 t (toy_keys 7)) = Ok p ∧ peer_ok p) ∧
  peer_run toy_clock [Op_set_local_endpoint ep_a; Op_connection; Op_flush] (peer_new 1 t (toy_keys 7)) = Oob.
Proof.
  intros t calls. split; [|vm_compute; reflexivity].
  assert (∀ o, op_ok o → Forall op_ok (setup 2 9 ++ [Op_accept_from 5; o])) as Hc.
  { intros o Ho. apply (Forall_app_2 _ (setup 2 9 ++ [Op_accept_from 5]) [o]); [by apply setup_ok|].
    by apply Forall_singleton. }
  destruct (peer_api_total toy_clock 1 t (toy_keys 7) calls) as [Hok|(l1 & l2 & p & _ & _ & _ & _ & E)];
    [by_decide|by_decide|by apply Hc|exact Hok|]. exfalso. revert E. by vm_compute.
Defined.
End Scenario.
