(* ===== verification/CApi.v ===== *)
(** * The C interface

    Models [src/protocoll_c_api.cpp] and the types of
    [include/protocoll/protocoll.h].  A handle is a pointer: [None] is the null
    pointer, [Some h] an address of the heap [CWorld], and an address that is not
    in the heap is a dangling pointer, whose use is undefined behaviour ([Oob]).  A
    [PcolPeer] refers to a transport that other handles may share: every call of a
    peer method loads the transport from the heap and stores it back, so what the
    host pushes into or pops from the transport is what the peer sees.

    Strings are their bytes without the terminating zero.  An output buffer is the
    size the caller passed, and the result of the model is what is written to it.
    The transports are those of CTransport.v; [depth] is how many DTLS transports may
    be on top of each other.  Callbacks are a log of their calls. *)
From S2P Require Import Prelude Platform Frame Codec VersionVector GCounter LwwRegister Crdt.
From S2P Require Import StatePath StateRegistry Resolution Subscription AckTracker Transport.
From S2P Require Import Udp Dtls CTransport.
From S2P Require Import Connection Capability Float64 Routing Peer PeerSafety PeerApi.

(** A C enumeration holds any integer. *)
Definition to_crdt (t : Z) : CrdtType :=
  match t with
  | 0 => CT_LWW_REGISTER | 1 => CT_G_COUNTER | 2 => CT_PN_COUNTER | 3 => CT_OR_SET
  | _ => CT_LWW_REGISTER
  end.
Definition to_rel (r : Z) : Reliability := if r =? 1 then Rel_BEST_EFFORT else Rel_RELIABLE.
Definition to_resolution (t : Z) : ResolutionTier :=
  match t with 0 => RT_FULL | 1 => RT_NORMAL | 2 => RT_COARSE | 3 => RT_METADATA | _ => RT_FULL end.

(** ** The heap *)

Section CApi.
Context `{XxHash} `{Ed25519} `{UnorderedIter} `{StdSort} `{Sockets} `{Inet} `{MbedTls} (depth : nat).
Abbreviation X := (Loaded depth).
Record PcolPeer := mkPcolPeer {
  pp_impl : Peer X; pp_transport : nat;
  pp_update_cb : option Z; pp_update_ud : Z; pp_sig_cb : option Z; pp_sig_ud : Z;
  pp_update_calls : list (Z * UpdateEvent * Z); pp_sig_calls : list (Z * (Z * Z) * Z) }.
Record CWorld := mkCWorld { w_heap : THeap; w_peers : gmap nat PcolPeer }.
Definition w_empty (s : os) : CWorld := mkCWorld (heap_new s) ∅.
(** The readings of the steady clock by each peer. *)
Context (clock : nat → nat → Z).

Definition CM (A : Type) : Type := CWorld → res (CWorld * A).
Definition cm_ret {A} (a : A) : CM A := λ w, Ok (w, a).

(** The lambdas of [pcol_on_update] and [pcol_on_signature_failure] forward the
    events of the peer to the C callback with its user data. *)
Definition pp_after (pp : PcolPeer) (p : Peer X) : PcolPeer :=
  let updates := drop (length (p_update_log (pp_impl pp))) (p_update_log p) in
  let failures := drop (length (p_sig_log (pp_impl pp))) (p_sig_log p) in
  mkPcolPeer p (pp_transport pp) (pp_update_cb pp) (pp_update_ud pp) (pp_sig_cb pp) (pp_sig_ud pp)
    (pp_update_calls pp ++
       match pp_update_cb pp with Some cb => (λ e, (cb, e, pp_update_ud pp)) <$> updates | None => [] end)
    (pp_sig_calls pp ++
       match pp_sig_cb pp with Some cb => (λ e, (cb, e, pp_sig_ud pp)) <$> failures | None => [] end).
Definition w_put_peer (w : CWorld) (h : nat) (pp : PcolPeer) : CWorld :=
  mkCWorld (w_heap w) (<[h := pp]> (w_peers w)).
Definition w_set_heap (w : CWorld) (hp : THeap) : CWorld := mkCWorld hp (w_peers w).

(** [peer->impl->method(...)]: the method works on the shared transport. *)
Definition pp_run {A} (h : nat) (m : (nat → Z) → PM X A) : CM A := λ w,
  match w_peers w !! h with
  | None => Oob
  | Some pp =>
      match load depth (w_heap w) (pp_transport pp) with
      | None => Oob
      | Some x =>
          let! (p, a) := m (clock h) (p_set_transport (pp_impl pp) x) in
          Ok (w_set_heap (w_put_peer w h (pp_after pp p))
                (store depth (w_heap w) (pp_transport pp) (p_transport p)), a)
      end
  end.
(** A method that does not touch the transport. *)
Definition pp_modify {A} (h : nat) (f : Peer X → Peer X * A) : CM A := λ w,
  match w_peers w !! h with
  | None => Oob
  | Some pp => let '(p, a) := f (pp_impl pp) in Ok (w_put_peer w h (pp_after pp p), a)
  end.
Definition pp_read {A} (h : nat) (f : Peer X → res A) : CM A := λ w,
  match w_peers w !! h with
  | None => Oob
  | Some pp => let! a := f (pp_impl pp) in Ok (w, a)
  end.
(** [if (!peer) return null; ...] *)
Definition on_peer {A} (peer : option nat) (null : A) (k : nat → CM A) : CM A :=
  match peer with None => cm_ret null | Some h => k h end.
Definition on_path {A} (path : option bytes) (null : A) (k : StatePath → CM A) : CM A :=
  match path with None => cm_ret null | Some s => k (sp_new s) end.
(** [... ? PCOL_OK : err] *)
Definition code (err : Z) (m : PM X bool) : PM X Z :=
  ok ← m; mret (if (ok : bool) then PCOL_OK else err).

(** A call on transports only. *)
Definition on_heap {A} (m : HM A) : CM A := λ w, let! (hp, a) := m (w_heap w) in Ok (w_set_heap w hp, a).

(** ** Keys *)
Definition to_kp (k : KeyPair) : KeyPair :=
  {| kp_public_key := take 32 (kp_public_key k); kp_secret_key := take 64 (kp_secret_key k) |}.
(** What is written to [out]; [Fail] is an exception that leaves the C function. *)
Definition pcol_generate_keypair (urandom : option bytes) (out : bool) : CM (option KeyPair) := λ w,
  if negb out then Ok (w, None) else
  match kp_generate urandom with
  | None => Fail
  | Some kp => Ok (w, Some (to_kp kp))
  end.

(** ** Peers *)
Definition pcol_peer_create (node_id : Z) (transport : option nat) (keys : option KeyPair) : CM (option nat) := λ w,
  match transport, keys with
  | Some t, Some kp =>
      match load depth (w_heap w) t with
      | None => Oob
      | Some x =>
          let hp := w_heap w in
          let h := h_next hp in
          Ok (mkCWorld (mkHeap (h_transports hp) (h_buses hp) (s_buses hp) (h_os hp) (S h))
                (<[h := mkPcolPeer (peer_new node_id x (to_kp kp)) t None 0 None 0 [] []]> (w_peers w)), Some h)
      end
  | Some t, None => if bool_decide (is_Some (h_transports (w_heap w) !! t)) then Ok (w, None) else Oob
  | None, _ => Ok (w, None)
  end.
Definition pcol_peer_destroy (peer : option nat) : CM () :=
  on_peer peer () (λ h w,
    let! (w, conn) := pp_read h (λ p, Ok (peer_is_connected p)) w in
    let! (w, _) := (if (conn : bool) then pp_run h (λ clk, peer_disconnect clk CR_NORMAL) w else Ok (w, ())) in
    Ok (mkCWorld (w_heap w) (delete h (w_peers w)), ())).
Definition pcol_peer_node_id (peer : option nat) : CM Z :=
  on_peer peer 0 (λ h, pp_read h (λ p, Ok (p_node_id p))).
Definition pcol_peer_public_key (peer : option nat) (out : bool) : CM (option bytes) :=
  on_peer peer None (λ h, if out then pp_read h (λ p, Ok (Some (take 32 (kp_public_key (p_keys p)))))
                          else cm_ret None).
Definition pcol_peer_register_key (peer : option nat) (remote_node_id : Z) (pk : option bytes) : CM () :=
  on_peer peer () (λ h,
    match pk with
    | None => cm_ret ()
    | Some pk => pp_modify h (λ p, (peer_register_peer_key p remote_node_id pk, ()))
    end).

(** ** Connections *)
Definition pcol_peer_connect (peer : option nat) (remote : PcolEndpoint) : CM Z :=
  on_peer peer PCOL_ERR_INVALID (λ h,
    pp_run h (λ clk, code PCOL_ERR_TIMEOUT (peer_connect clk (to_ep remote)))).
Definition pcol_peer_accept (peer : option nat) (expected_from : PcolEndpoint) (timeout_ms : Z) : CM Z :=
  on_peer peer PCOL_ERR_INVALID (λ h,
    pp_run h (λ clk, code PCOL_ERR_TIMEOUT (peer_accept_from clk timeout_ms))).
Definition pcol_peer_is_connected (peer : option nat) : CM Z :=
  on_peer peer 0 (λ h, pp_read h (λ p, Ok (if peer_is_connected p then 1 else 0))).
Definition pcol_peer_disconnect (peer : option nat) : CM () :=
  on_peer peer () (λ h, pp_run h (λ clk, peer_disconnect clk CR_NORMAL)).
Definition pcol_peer_set_local_endpoint (peer : option nat) (ep : PcolEndpoint) : CM () :=
  on_peer peer () (λ h, pp_modify h (λ p, (p_set_local_ep p (to_ep ep), ()))).
Definition pcol_peer_connect_start (peer : option nat) (remote : PcolEndpoint) : CM Z :=
  on_peer peer PCOL_ERR_INVALID (λ h,
    pp_run h (λ clk, code PCOL_ERR_INVALID (peer_connect_start clk (to_ep remote)))).
Definition pcol_peer_connect_poll (peer : option nat) : CM Z :=
  on_peer peer PCOL_ERR_INVALID (λ h, pp_run h (λ clk, code PCOL_ERR_TIMEOUT peer_connect_poll)).
Definition pcol_peer_accept_start (peer : option nat) : CM Z :=
  on_peer peer PCOL_ERR_INVALID (λ h, pp_run h (λ clk, code PCOL_ERR_INVALID (peer_accept_start clk))).
Definition pcol_peer_accept_poll (peer : option nat) : CM Z :=
  on_peer peer PCOL_ERR_INVALID (λ h, pp_run h (λ clk, code PCOL_ERR_TIMEOUT (peer_accept_poll clk))).
Definition pcol_peer_connect_to (peer : option nat) (remote_node_id : Z) (remote : PcolEndpoint) : CM Z :=
  on_peer peer PCOL_ERR_INVALID (λ h,
    pp_run h (λ clk, code PCOL_ERR_TIMEOUT (peer_connect_to clk remote_node_id (to_ep remote)))).
Definition pcol_peer_accept_node (peer : option nat) (remote_node_id : Z) (expected_from : PcolEndpoint)
    (timeout_ms : Z) : CM Z :=
  on_peer peer PCOL_ERR_INVALID (λ h,
    pp_run h (λ clk, code PCOL_ERR_TIMEOUT (peer_accept_node clk remote_node_id timeout_ms))).
Definition pcol_peer_disconnect_node (peer : option nat) (remote_node_id : Z) : CM () :=
  on_peer peer () (λ h, pp_run h (λ clk, peer_disconnect_node clk remote_node_id CR_NORMAL)).
Definition pcol_peer_is_connected_to (peer : option nat) (remote_node_id : Z) : CM Z :=
  on_peer peer 0 (λ h, pp_read h (λ p, Ok (if peer_is_connected_to p remote_node_id then 1 else 0))).

(** ** State *)
Definition pcol_declare (peer : option nat) (path : option bytes) (crdt_type reliability : Z) : CM Z :=
  on_peer peer PCOL_ERR_INVALID (λ h, on_path path PCOL_ERR_INVALID (λ sp,
    pp_modify h (λ p,
      let '(p, ok) := peer_declare p sp (to_crdt crdt_type) (to_rel reliability) in
      (p, if (ok : bool) then PCOL_OK else PCOL_ERR_INVALID)))).
(** What a read of [len] bytes at a pointer yields, the pointer being null or to an array
    of bytes; [None] is a read through a null pointer or past the end of the array. *)
Definition c_read (data : option bytes) (len : nat) : option bytes :=
  match data with
  | None => if (len =? 0)%nat then Some [] else None
  | Some b => if (len <=? length b)%nat then Some (take len b) else None
  end.
(** The pointer goes unchecked to [Peer::set_lww], which reads the bytes when it has found
    an LWW region. *)
Definition set_lww_unreadable (sp : StatePath) : PM X bool :=
  p ← pm_get;
  match sreg_get (p_state p) (sp_hash sp) with
  | None => mret false
  | Some region =>
      if negb (bool_decide (rg_crdt_type region = CT_LWW_REGISTER)) then mret false else pm_lift Oob
  end.
Definition pcol_set_lww (peer : option nat) (path : option bytes) (data : option bytes) (len : nat) : CM Z :=
  on_peer peer PCOL_ERR_INVALID (λ h, on_path path PCOL_ERR_INVALID (λ sp,
    pp_run h (λ clk, code PCOL_ERR_NOT_FOUND
      match c_read data len with
      | Some bs => peer_set_lww clk sp bs
      | None => set_lww_unreadable sp
      end))).
Definition pcol_increment_counter (peer : option nat) (path : option bytes) (amount : Z) : CM Z :=
  on_peer peer PCOL_ERR_INVALID (λ h, on_path path PCOL_ERR_INVALID (λ sp,
    pp_run h (λ clk, code PCOL_ERR_NOT_FOUND (peer_increment_counter sp amount)))).
(** The value's length for [out_len], and what is copied to [buf] when the caller
    passed one of [buf_len] bytes. *)
Definition pcol_get_lww (peer : option nat) (path : option bytes) (buf_len : option nat)
    : CM (Z * option (nat * bytes)) :=
  on_peer peer (PCOL_ERR_INVALID, None) (λ h, on_path path (PCOL_ERR_INVALID, None) (λ sp,
    pp_read h (λ p,
      match sreg_get (p_state p) (sp_hash sp) with
      | None => Ok (PCOL_ERR_NOT_FOUND, None)
      | Some region =>
          if negb (bool_decide (rg_crdt_type region = CT_LWW_REGISTER)) then Ok (PCOL_ERR_NOT_FOUND, None)
          else match rg_crdt region with
               | CV_Lww lww =>
                   let val := lww_value lww in
                   let copy := match buf_len with
                               | None => O
                               | Some n => if (length val <? n)%nat then length val else n
                               end in
                   Ok (PCOL_OK, Some (length val, take copy val))
               | _ => Oob
               end
      end))).
Definition pcol_get_counter (peer : option nat) (path : option bytes) (out_value : bool) : CM (Z * option Z) :=
  on_peer peer (PCOL_ERR_INVALID, None) (λ h, on_path path (PCOL_ERR_INVALID, None) (λ sp,
    if negb out_value then cm_ret (PCOL_ERR_INVALID, None) else
    pp_read h (λ p,
      match sreg_get (p_state p) (sp_hash sp) with
      | None => Ok (PCOL_ERR_NOT_FOUND, None)
      | Some region =>
          if negb (bool_decide (rg_crdt_type region = CT_G_COUNTER)) then Ok (PCOL_ERR_NOT_FOUND, None)
          else match rg_crdt region with
               | CV_GCounter gc => Ok (PCOL_OK, Some (gc_value gc))
               | _ => Oob
               end
      end))).

(** ** Network, callbacks, access control *)
Definition pcol_flush (peer : option nat) : CM Z :=
  on_peer peer PCOL_ERR_INVALID (λ h, pp_run h (λ clk, peer_flush clk)).
Definition pcol_poll (peer : option nat) (timeout_ms : Z) : CM Z :=
  on_peer peer PCOL_ERR_INVALID (λ h, pp_run h (λ clk, peer_poll clk timeout_ms)).
(** [set_update_callback] with a function or with [nullptr]. *)
Definition sreg_with_callback (r : StateRegistry) (on : bool) : StateRegistry :=
  {| sr_node_id := sr_node_id r; sr_regions := sr_regions r; sr_on_update := on |}.
Definition pp_with_peer (pp : PcolPeer) (p : Peer X) (ucb : option Z) (uud : Z)
    (scb : option Z) (sud : Z) : PcolPeer :=
  mkPcolPeer p (pp_transport pp) ucb uud scb sud (pp_update_calls pp) (pp_sig_calls pp).
Definition pcol_on_update (peer : option nat) (cb : option Z) (user_data : Z) : CM () :=
  on_peer peer () (λ h w,
    match w_peers w !! h with
    | None => Oob
    | Some pp =>
        let p := pp_impl pp in
        let p := p_set_state p (sreg_with_callback (p_state p) (bool_decide (is_Some cb))) in
        Ok (w_put_peer w h (pp_with_peer pp p cb user_data (pp_sig_cb pp) (pp_sig_ud pp)), ())
    end).
Definition pcol_on_signature_failure (peer : option nat) (cb : option Z) (user_data : Z) : CM () :=
  on_peer peer () (λ h w,
    match w_peers w !! h with
    | None => Oob
    | Some pp =>
        let p := p_set_on_sig_failure (pp_impl pp) (bool_decide (is_Some cb)) in
        Ok (w_put_peer w h (pp_with_peer pp p (pp_update_cb pp) (pp_update_ud pp) cb user_data), ())
    end).
Definition pcol_set_access_control (peer : option nat) (enabled : Z) : CM () :=
  on_peer peer () (λ h, pp_modify h (λ p, (p_set_access_control p (negb (enabled =? 0)), ()))).

(** ** Resolution, routes, subscriptions *)
Definition pcol_peer_set_resolution (peer : option nat) (remote_node_id tier : Z) : CM () :=
  on_peer peer () (λ h, pp_modify h (λ p,
    (peer_set_connection_resolution p remote_node_id (to_resolution tier) rc_default, ()))).
Definition pcol_peer_announce_route (peer : option nat) (path : option bytes) : CM () :=
  on_peer peer () (λ h, on_path path () (λ sp, pp_modify h (λ p,
    let '(rt, ann) := rtr_announce_path (p_router p) (sp_hash sp) in
    (p_set_announce_log (p_set_router p rt) (p_announce_log p ++ ann), ())))).
Definition pcol_peer_learn_route (peer : option nat) (path_hash via_node : Z) : CM () :=
  on_peer peer () (λ h, pp_modify h (λ p,
    (p_set_router p (rtr_learn_route (p_router p) path_hash via_node), ()))).
Definition pcol_peer_has_route (peer : option nat) (path_hash : Z) : CM Z :=
  on_peer peer 0 (λ h, pp_read h (λ p, Ok (if rtr_has_route (p_router p) path_hash then 1 else 0))).
Definition pcol_subscribe_with_resolution (peer : option nat) (pattern : option bytes)
    (tier initial_credits freshness_us : Z) : CM Z :=
  on_peer peer PCOL_ERR_INVALID (λ h, on_path pattern PCOL_ERR_INVALID (λ sp, pp_modify h (λ p,
    let '(p, id) := peer_subscribe p sp (to_resolution tier) initial_credits freshness_us in
    (p, i32 id)))).
Definition pcol_api_version : Z := 0x000100.

(** ** Calls *)

(** The functions of the interface; the handles are first. *)
Inductive CCall :=
| C_generate_keypair (urandom : option bytes) (out : bool)
| C_loopback_create (bus_id : Z)
| C_udp_create
| C_external_create
| C_dtls_create (inner : option nat) (config : option PcolDtlsConfig)
| C_dtls_handshake (t : option nat) (remote : PcolEndpoint) (timeout_ms : Z) (turns entropy : nat) (readings : nat → Z)
| C_bind (t : option nat) (ep : PcolEndpoint)
| C_transport_destroy (t : option nat)
| C_push_recv (t : option nat) (data from_addr : option bytes) (from_port : Z)
| C_pop_send (t : option nat) (buf_len : option nat) (out_len : bool) (to_addr_buf_len : option nat)
| C_queue_size (t : option nat)
| C_peer_create (t : option nat) (node_id : Z) (keys : option KeyPair)
| C_peer_destroy (peer : option nat)
| C_node_id (peer : option nat)
| C_public_key (peer : option nat) (out : bool)
| C_register_key (peer : option nat) (remote_node_id : Z) (pk : option bytes)
| C_connect (peer : option nat) (remote : PcolEndpoint)
| C_accept (peer : option nat) (from : PcolEndpoint) (timeout_ms : Z)
| C_is_connected (peer : option nat)
| C_disconnect (peer : option nat)
| C_set_local_endpoint (peer : option nat) (ep : PcolEndpoint)
| C_connect_start (peer : option nat) (remote : PcolEndpoint)
| C_connect_poll (peer : option nat)
| C_accept_start (peer : option nat)
| C_accept_poll (peer : option nat)
| C_connect_to (peer : option nat) (remote_node_id : Z) (remote : PcolEndpoint)
| C_accept_node (peer : option nat) (remote_node_id : Z) (from : PcolEndpoint) (timeout_ms : Z)
| C_disconnect_node (peer : option nat) (remote_node_id : Z)
| C_is_connected_to (peer : option nat) (remote_node_id : Z)
| C_declare (peer : option nat) (path : option bytes) (crdt_type reliability : Z)
| C_set_lww (peer : option nat) (path : option bytes) (data : option bytes) (len : nat)
| C_increment (peer : option nat) (path : option bytes) (amount : Z)
| C_get_lww (peer : option nat) (path : option bytes) (buf_len : option nat)
| C_get_counter (peer : option nat) (path : option bytes) (out_value : bool)
| C_flush (peer : option nat)
| C_poll (peer : option nat) (timeout_ms : Z)
| C_on_update (peer : option nat) (cb : option Z) (user_data : Z)
| C_on_signature_failure (peer : option nat) (cb : option Z) (user_data : Z)
| C_set_access_control (peer : option nat) (enabled : Z)
| C_set_resolution (peer : option nat) (remote_node_id tier : Z)
| C_announce_route (peer : option nat) (path : option bytes)
| C_learn_route (peer : option nat) (path_hash via_node : Z)
| C_has_route (peer : option nat) (path_hash : Z)
| C_subscribe (peer : option nat) (pattern : option bytes) (tier initial_credits freshness_us : Z)
| C_api_version.

Definition c_void {A} (m : CM A) : CM () := λ w, let! (w, _) := m w in Ok (w, ()).
Definition c_call (c : CCall) : CM () :=
  match c with
  | C_generate_keypair r out => c_void (pcol_generate_keypair r out)
  | C_loopback_create id => c_void (on_heap (pcol_transport_loopback_create id))
  | C_udp_create => c_void (on_heap pcol_transport_udp_create)
  | C_external_create => c_void (on_heap pcol_transport_external_create)
  | C_dtls_create t c => c_void (on_heap (pcol_transport_dtls_create t c))
  | C_dtls_handshake t r ms k e f =>
      c_void (on_heap (pcol_transport_dtls_handshake depth (S k) e f t r ms))
  | C_bind t ep => c_void (on_heap (pcol_transport_bind depth t ep))
  | C_transport_destroy t => on_heap (pcol_transport_destroy depth t)
  | C_push_recv t d a n => c_void (on_heap (pcol_transport_external_push_recv t d a n))
  | C_pop_send t b o a => c_void (on_heap (pcol_transport_external_pop_send t b o a))
  | C_queue_size t => c_void (on_heap (pcol_transport_external_send_queue_size t))
  | C_peer_create t n k => c_void (pcol_peer_create n t k)
  | C_peer_destroy p => pcol_peer_destroy p
  | C_node_id p => c_void (pcol_peer_node_id p)
  | C_public_key p out => c_void (pcol_peer_public_key p out)
  | C_register_key p n k => pcol_peer_register_key p n k
  | C_connect p r => c_void (pcol_peer_connect p r)
  | C_accept p f t => c_void (pcol_peer_accept p f t)
  | C_is_connected p => c_void (pcol_peer_is_connected p)
  | C_disconnect p => pcol_peer_disconnect p
  | C_set_local_endpoint p ep => pcol_peer_set_local_endpoint p ep
  | C_connect_start p r => c_void (pcol_peer_connect_start p r)
  | C_connect_poll p => c_void (pcol_peer_connect_poll p)
  | C_accept_start p => c_void (pcol_peer_accept_start p)
  | C_accept_poll p => c_void (pcol_peer_accept_poll p)
  | C_connect_to p n r => c_void (pcol_peer_connect_to p n r)
  | C_accept_node p n f t => c_void (pcol_peer_accept_node p n f t)
  | C_disconnect_node p n => pcol_peer_disconnect_node p n
  | C_is_connected_to p n => c_void (pcol_peer_is_connected_to p n)
  | C_declare p s t r => c_void (pcol_declare p s t r)
  | C_set_lww p s d n => c_void (pcol_set_lww p s d n)
  | C_increment p s a => c_void (pcol_increment_counter p s a)
  | C_get_lww p s b => c_void (pcol_get_lww p s b)
  | C_get_counter p s o => c_void (pcol_get_counter p s o)
  | C_flush p => c_void (pcol_flush p)
  | C_poll p t => c_void (pcol_poll p t)
  | C_on_update p cb ud => pcol_on_update p cb ud
  | C_on_signature_failure p cb ud => pcol_on_signature_failure p cb ud
  | C_set_access_control p e => pcol_set_access_control p e
  | C_set_resolution p n t => pcol_peer_set_resolution p n t
  | C_announce_route p s => pcol_peer_announce_route p s
  | C_learn_route p h v => pcol_peer_learn_route p h v
  | C_has_route p h => c_void (pcol_peer_has_route p h)
  | C_subscribe p s t c f => c_void (pcol_subscribe_with_resolution p s t c f)
  | C_api_version => c_void (cm_ret pcol_api_version)
  end.
Definition c_run (l : list CCall) (w : CWorld) : res (CWorld) :=
  res_foldl (λ w c, let! (w, _) := c_call c w in Ok w) w l.
End CApi.

(** ** Which calls are allowed, and what they keep *)
Section CApiTotal.
Context `{XxHash} `{Ed25519} `{UnorderedIter} `{StdSort} `{Sockets} `{Inet} `{MbedTls} (depth : nat).
Context (clock : nat → nat → Z).
Abbreviation World := (CWorld depth).
Abbreviation X := (Loaded depth).
Implicit Types w : World.

Definition wraps (t : option nat) (o : PcolTransport) : Prop :=
  match o with PT_Dtls d => t = Some (dt_inner d) | _ => False end.
(** The contract of the caller: every handle is null or alive, a transport is not
    destroyed while a peer or a DTLS transport uses it, at most [depth] DTLS transports
    are on top of each other, timeouts are not negative, which would be to wait for ever,
    the clock passes the timeout of a handshake, the source of random bytes works, the
    data of a write can be read, and arguments are values of their C types. *)
Definition call_ok w (c : CCall) : Prop :=
  let ts := h_transports (w_heap depth w) in
  match c with
  | C_loopback_create _ | C_udp_create | C_external_create | C_api_version => True
  | C_generate_keypair urandom _ => is_Some (random_bytes urandom ED25519_SEED_SIZE)
  | C_dtls_create t _ => live ts t ∧ room depth (w_heap depth w) t
  | C_dtls_handshake t _ timeout_ms turns _ f =>
      live ts t ∧ timeout_ms * 1000000 ≤ f (S turns) - f 0%nat
  | C_bind t _ | C_pop_send t _ _ _ | C_queue_size t => live ts t
  | C_transport_destroy t =>
      live ts t ∧ map_Forall (λ _ pp, Some (pp_transport depth pp) ≠ t) (w_peers depth w) ∧
      map_Forall (λ _ o, ¬ wraps t o) ts
  | C_push_recv t data _ _ => live ts t ∧ wf_bytes (default [] data)
  | C_peer_create t n _ => live ts t ∧ is_u16 n
  | C_set_lww p _ data len =>
      live (w_peers depth w) p ∧ is_Some (c_read data len) ∧ wf_bytes (default [] data)
  | C_increment p _ amount => live (w_peers depth w) p ∧ is_u64 amount
  | C_accept p _ timeout_ms | C_accept_node p _ _ timeout_ms | C_poll p timeout_ms =>
      live (w_peers depth w) p ∧ 0 ≤ timeout_ms
  | C_peer_destroy p | C_node_id p | C_public_key p _ | C_register_key p _ _ | C_connect p _ | C_disconnect p
  | C_is_connected p | C_is_connected_to p _ | C_has_route p _
  | C_set_local_endpoint p _ | C_connect_start p _ | C_connect_poll p | C_accept_start p
  | C_accept_poll p | C_connect_to p _ _ | C_disconnect_node p _
  | C_declare p _ _ _ | C_get_lww p _ _ | C_get_counter p _ _ | C_flush p
  | C_on_update p _ _ | C_on_signature_failure p _ _ | C_set_access_control p _
  | C_set_resolution p _ _ | C_announce_route p _ | C_learn_route p _ _ | C_subscribe p _ _ _ _ =>
      live (w_peers depth w) p
  end.
Fixpoint calls_ok w (l : list CCall) : Prop :=
  match l with
  | [] => True
  | c :: l' => call_ok w c ∧ ∀ w', c_call depth clock c w = Ok (w', ()) → calls_ok w' l'
  end.

(** A peer without its transport. *)
Definition peer_rest (p : Peer X) : Prop :=
  map_Forall mc_ok (cm_conns (p_conn_mgr p)) ∧ sreg_ok (p_state p) ∧ router_ok (p_router p).
Record world_ok w : Prop := {
  wo_heap : heap_inv depth (w_heap depth w);
  wo_peers : map_Forall (λ _ pp, peer_rest (pp_impl depth pp) ∧
                          is_Some (h_transports (w_heap depth w) !! pp_transport depth pp)) (w_peers depth w)
}.

Lemma world_put_peer w h pp p :
  world_ok w → w_peers depth w !! h = Some pp → peer_rest p → world_ok (w_put_peer depth w h (pp_after depth pp p)).
Proof.
  intros [Ht Hp] Hh Hr. split; [done|]. simpl. apply map_Forall_insert_2; [|done].
  split; [done|]. by destruct (Hp h pp Hh).
Qed.
Lemma world_set_heap w hp :
  world_ok w → heap_inv depth hp → keeps_handles (w_heap depth w) hp → world_ok (w_set_heap depth w hp).
Proof.
  intros [Ht Hp] Hi Hk. split; [done|]. intros k pp Hpp. destruct (Hp k pp Hpp). split; [done|by apply Hk].
Qed.
Lemma on_heap_ok {A} w (m : HM A) :
  world_ok w → call_good depth m (w_heap depth w) → ∃ w' a, on_heap depth m w = Ok (w', a) ∧ world_ok w'.
Proof.
  intros Hw (hp & a & E & Hi & Hk). unfold on_heap. rewrite E. eexists _, _. split; [done|].
  by apply world_set_heap.
Qed.
Lemma pp_run_ok {A} w h pp (m : (nat → Z) → PM X A) :
  world_ok w → w_peers depth w !! h = Some pp → total (m (clock h)) →
  ∃ w' a, pp_run depth clock h m w = Ok (w', a) ∧ world_ok w'.
Proof.
  intros Hw Hh Hm. unfold pp_run. rewrite Hh. pose proof Hw as [Hi Hp].
  destruct (Hp h pp Hh) as [(Hc & Hs & Hr) Hx]. destruct (hv_load _ _ _ Hi _ Hx) as [x Ex]. rewrite Ex.
  pose proof (load_ok _ _ _ _ (hv_obj _ _ _ Hi) (hv_bus _ _ _ Hi) Ex) as Hok.
  destruct (Hm (p_set_transport (pp_impl depth pp) x)) as (p & a & E & Ht' & Hr'); [by split_and!|].
  rewrite E. cbn [res_bind]. eexists _, _. split; [done|].
  pose proof (store_shape _ _ _ _ _ Ex Ht') as Hsh. apply world_set_heap; [by apply world_put_peer| |].
  - by eapply heap_inv_same.
  - by apply same_shape_keeps.
Qed.
Lemma pp_modify_ok {A} w h pp (f : Peer X → Peer X * A) :
  world_ok w → w_peers depth w !! h = Some pp → (∀ p, peer_rest p → peer_rest (f p).1) →
  ∃ w' a, pp_modify depth h f w = Ok (w', a) ∧ world_ok w'.
Proof.
  intros Hw Hh Hf. unfold pp_modify. rewrite Hh.
  assert (peer_rest (f (pp_impl depth pp)).1) by (apply Hf; by destruct (wo_peers _ Hw h pp Hh)).
  destruct (f (pp_impl depth pp)) as [p a]. eexists _, _. split; [done|]. by apply world_put_peer.
Qed.
Lemma pp_read_ok {A} w h pp (f : Peer X → res A) :
  world_ok w → w_peers depth w !! h = Some pp → (∀ p, peer_rest p → ∃ a, f p = Ok a) →
  ∃ w' a, pp_read depth h f w = Ok (w', a) ∧ world_ok w'.
Proof.
  intros Hw Hh Hf. unfold pp_read. rewrite Hh.
  destruct (Hf (pp_impl depth pp)) as [a Ha]; [by destruct (wo_peers _ Hw h pp Hh)|].
  rewrite Ha. by eexists _, _.
Qed.
(** Null or alive: the checks of every entry point. *)
Lemma on_peer_ok {A} w peer (null : A) k :
  world_ok w → live (w_peers depth w) peer →
  (∀ h pp, w_peers depth w !! h = Some pp → ∃ w' a, k h w = Ok (w', a) ∧ world_ok w') →
  ∃ w' a, on_peer depth peer null k w = Ok (w', a) ∧ world_ok w'.
Proof.
  intros Hw Hl Hk. destruct peer as [h|]; [|by eexists _, _]. destruct Hl as [pp Hpp]. by apply (Hk h pp).
Qed.
Lemma on_path_ok {A} w path (null : A) k :
  world_ok w → (∀ sp, is_u32 (sp_hash sp) → ∃ w' a, k sp w = Ok (w', a) ∧ world_ok w') →
  ∃ w' a, on_path depth path null k w = Ok (w', a) ∧ world_ok w'.
Proof.
  intros Hw Hk. destruct path as [s|]; [|by eexists _, _]. apply Hk. apply XXH32_range.
Qed.
Lemma c_void_ok {A} w (m : CM depth A) :
  (∃ w' a, m w = Ok (w', a) ∧ world_ok w') → ∃ w' a, c_void depth m w = Ok (w', a) ∧ world_ok w'.
Proof. intros (w' & a & E & ?). unfold c_void. rewrite E. by eexists _, _. Qed.
Lemma total_code err (m : PM X bool) : total m → total (code depth err m).
Proof. intros Hm. eapply triple_bind; [exact Hm|]. intros a. by apply triple_ret. Qed.

Lemma peer_destroy_ok w peer :
  world_ok w → live (w_peers depth w) peer →
  ∃ w' a, pcol_peer_destroy depth clock peer w = Ok (w', a) ∧ world_ok w'.
Proof.
  intros Hw Hl. apply on_peer_ok; [done..|]. intros h pp Hh. unfold pp_read. rewrite Hh. cbn [res_bind].
  assert (∃ w1 a, (if peer_is_connected (pp_impl depth pp) then pp_run depth clock h (λ clk, peer_disconnect clk CR_NORMAL) w
                   else Ok (w, ())) = Ok (w1, a) ∧ world_ok w1) as (w1 & [] & E & [Ht Hp]).
  { destruct (peer_is_connected (pp_impl depth pp)); [|by eexists _, _].
    eapply pp_run_ok; [done..|]. apply total_disconnect. }
  rewrite E. cbn [res_bind]. eexists _, _. split; [done|]. split; [done|]. simpl.
  by apply map_Forall_delete.
Qed.
Lemma transport_destroy_ok w t :
  world_ok w → live (h_transports (w_heap depth w)) t →
  map_Forall (λ _ pp, Some (pp_transport depth pp) ≠ t) (w_peers depth w) →
  map_Forall (λ _ o, ¬ wraps t o) (h_transports (w_heap depth w)) →
  ∃ w' a, on_heap depth (pcol_transport_destroy depth t) w = Ok (w', a) ∧ world_ok w'.
Proof.
  intros [Hi Hp] Hl Hfree Hno. unfold on_heap.
  destruct (destroy_good depth (w_heap depth w) t Hi Hl) as (hp & -> & Hi' & Hk).
  { intros k o Ek h Hs ->. apply (Hno k o Ek). destruct o; simplify_eq/=; done. }
  cbn [res_bind]. eexists _, _. split; [done|]. split; [done|]. intros k pp Hpp.
  destruct (Hp k pp Hpp) as [? ?]. split; [done|]. apply Hk; [|done]. intros ->. by apply (Hfree k pp Hpp).
Qed.
Lemma transport_calls_ok w c :
  world_ok w → call_ok w c →
  match c with
  | C_generate_keypair _ _ | C_queue_size _ | C_api_version
  | C_loopback_create _ | C_udp_create | C_external_create | C_dtls_create _ _ | C_dtls_handshake _ _ _ _ _ _
  | C_bind _ _ | C_push_recv _ _ _ _ | C_pop_send _ _ _ _ | C_peer_create _ _ _ =>
      ∃ w' a, c_call depth clock c w = Ok (w', a) ∧ world_ok w'
  | _ => True
  end.
Proof.
  intros Hw Hc. pose proof (wo_heap _ Hw) as Hi. destruct c; try done; simpl in *; apply c_void_ok;
    try (by eexists _, _); try (apply on_heap_ok; [done|]).
  - destruct Hc as [seed Hs]. unfold pcol_generate_keypair, kp_generate. rewrite Hs.
    destruct out; by eexists _, _.
  - by apply loopback_create_good.
  - by apply udp_create_good.
  - by apply external_create_good.
  - destruct Hc. by apply dtls_create_good.
  - destruct Hc. by apply (dtls_handshake_good _ _ _ _ _ _ _ _ turns); [..|lia|].
  - by apply bind_good.
  - destruct Hc. by apply push_recv_good.
  - by apply pop_send_good.
  - by apply queue_size_good.
  - destruct Hc as [Hl Hn]. unfold pcol_peer_create. destruct t as [t|]; [|by eexists _, _]. simpl in Hl.
    destruct keys as [kp|]; [|rewrite bool_decide_eq_true_2 by done; by eexists _, _].
    destruct (hv_load _ _ _ Hi t Hl) as [x Hx]. rewrite Hx. eexists _, _. split; [done|].
    pose proof (load_ok _ _ _ _ (hv_obj _ _ _ Hi) (hv_bus _ _ _ Hi) Hx) as Hok.
    destruct Hw as [_ Hp]. split; [by apply heap_inv_next|]. simpl. apply map_Forall_insert_2; [|done]. simpl.
    split; [|done]. destruct (peer_new_ok node_id x (to_kp kp) Hn Hok) as (_ & ?). done.
Qed.
(** A region's CRDT has the class its type says, so the casts are sound. *)
Lemma region_typed (p : Peer X) h g :
  peer_rest p → sreg_get (p_state p) h = Some g → cv_type (rg_crdt g) = rg_crdt_type g.
Proof. intros (_ & [_ Hs] & _) Hg. by destruct (Hs h g Hg) as (_ & _ & ? & _). Qed.
Lemma get_lww_ok w path buf_len h pp :
  world_ok w → w_peers depth w !! h = Some pp →
  ∃ w' a, pcol_get_lww depth (Some h) path buf_len w = Ok (w', a) ∧ world_ok w'.
Proof.
  intros Hw Hh. apply on_path_ok; [done|]. intros sp _. eapply pp_read_ok; [done..|]. intros p Hp.
  destruct (sreg_get _ _) as [g|] eqn:E; [|by eexists]. pose proof (region_typed p _ g Hp E) as Hty.
  case_bool_decide as Hr; cbn [negb]; [|by eexists]. rewrite Hr in Hty.
  destruct (rg_crdt g); try done. by eexists.
Qed.
Lemma get_counter_ok w path out h pp :
  world_ok w → w_peers depth w !! h = Some pp →
  ∃ w' a, pcol_get_counter depth (Some h) path out w = Ok (w', a) ∧ world_ok w'.
Proof.
  intros Hw Hh. apply on_path_ok; [done|]. intros sp _. destruct out; [|by eexists _, _].
  eapply pp_read_ok; [done..|]. intros p Hp.
  destruct (sreg_get _ _) as [g|] eqn:E; [|by eexists]. pose proof (region_typed p _ g Hp E) as Hty.
  case_bool_decide as Hr; cbn [negb]; [|by eexists]. rewrite Hr in Hty.
  destruct (rg_crdt g); try done. by eexists.
Qed.
Lemma declare_rest (p : Peer X) sp t r :
  is_u32 (sp_hash sp) → peer_rest p → peer_rest (peer_declare p sp t r).1.
Proof.
  intros Hsp (Hc & Hs & Hr). unfold peer_declare.
  pose proof (sreg_declare_ok (p_state p) sp t r Hs Hsp) as Hd.
  destruct (sreg_declare _ _ _ _) as [g [|]]; by split_and!.
Qed.
Lemma put_callback_ok w h pp p ucb uud scb sud :
  world_ok w → w_peers depth w !! h = Some pp → peer_rest p →
  world_ok (w_put_peer depth w h (pp_with_peer depth pp p ucb uud scb sud)).
Proof.
  intros [Ht Hp] Hh Hr. split; [done|]. simpl. apply map_Forall_insert_2; [|done].
  split; [done|]. by destruct (Hp h pp Hh).
Qed.
#[local] Hint Resolve total_connect total_accept_from total_disconnect total_connect_start
  total_connect_poll total_accept_start total_accept_poll total_connect_to total_accept_node
  total_disconnect_node total_set_lww total_increment total_flush total_poll : rom.

Lemma c_read_wf data len bs : c_read data len = Some bs → wf_bytes (default [] data) → wf_bytes bs.
Proof.
  unfold c_read. destruct data as [b|]; case_match; try done; intros [= <-]; [|done]. apply Forall_take.
Qed.
Lemma set_lww_ok w sp data len h pp :
  world_ok w → w_peers depth w !! h = Some pp → is_Some (c_read data len) → wf_bytes (default [] data) →
  ∃ w' a, pp_run depth clock h (λ clk, code depth PCOL_ERR_NOT_FOUND
    match c_read data len with
    | Some bs => peer_set_lww clk sp bs
    | None => set_lww_unreadable depth sp
    end) w = Ok (w', a) ∧ world_ok w'.
Proof.
  intros Hw Hh [bs Hb] Hd. rewrite Hb. eapply pp_run_ok; [done..|]. apply total_code, total_set_lww.
  by eapply c_read_wf.
Qed.

Lemma c_call_ok w c : world_ok w → call_ok w c → ∃ w', c_call depth clock c w = Ok (w', ()) ∧ world_ok w'.
Proof.
  intros Hw Hc. pose proof (transport_calls_ok w c Hw Hc) as Htr.
  assert (∃ w' a, c_call depth clock c w = Ok (w', a) ∧ world_ok w') as (w' & [] & ? & ?); [|by exists w'].
  destruct c; try exact Htr; clear Htr; simpl in *;
    try (destruct Hc as (? & ? & ?); by apply transport_destroy_ok); try (by apply peer_destroy_ok);
    try apply c_void_ok; (apply on_peer_ok; [done|by destruct Hc || done|]; intros h pp Hh);
    try (by eapply get_lww_ok); try (by destruct Hc as (? & ? & ?); apply on_path_ok; [done|];
      intros sp _; eapply set_lww_ok); try (by eapply get_counter_ok);
    try (apply on_path_ok; [done|]; intros sp Hsp).
  all: try (eapply pp_run_ok; [done..|]; try apply total_code; destruct_and?; by eauto with rom).
  all: try (eapply pp_modify_ok; [done..|]; intros q Hq).
  all: try (eapply pp_read_ok; [done..|]; intros q Hq; by eexists).
  all: try (rewrite Hh; eexists _, _; split; [done|]; apply put_callback_ok; [done..|];
    destruct (wo_peers _ Hw h pp Hh) as [(? & [? ?] & ?) _]; done).
  - destruct out; [|by eexists _, _]. eapply pp_read_ok; [done..|]. intros q _. by eexists.
  - destruct pk; [|by eexists _, _]. by eapply pp_modify_ok.
  - done.
  - pose proof (declare_rest q sp (to_crdt crdt_type) (to_rel reliability) Hsp Hq).
    by destruct (peer_declare _ _ _ _).
  - done.
  - done.
  - done.
  - destruct Hq as (? & ? & ?). split_and!; [done..|]. by apply learn_ok.
  - done.
Qed.
End CApiTotal.

(** C7: The C interface has no undefined behaviour for callers that keep its contract.
    From an empty heap, on every operating system and with every mbedTLS, every finite
    sequence of calls that keeps to [call_ok] at each call returns at every call.  The
    contract: handles are null or alive; no transport is destroyed that a peer or a DTLS
    transport still uses; at most [depth] DTLS transports are stacked; the timeouts of
    accept and poll are not negative; the clock passes the timeout of a DTLS handshake;
    the source of random bytes works when keys are generated; the data of a write can be
    read for its length; numbers fit their C types.  No dangling
    pointer is used, no region is cast to the wrong class, and the invariants of every
    peer and every transport hold afterwards, also when peers share a transport, a bus
    or a socket.  Two loopback transports are on the same bus exactly if they were
    created with the same number, and a bus lives exactly as long as some transport is
    on it. *)
Theorem capi_total `{XxHash} `{Ed25519} `{UnorderedIter} `{StdSort} `{Sockets} `{Inet} `{MbedTls}
    (depth : nat) (clock : nat → nat → Z) (s : os) (l : list CCall) :
  calls_ok depth clock (w_empty depth s) l →
  ∃ w, c_run depth clock l (w_empty depth s) = Ok w ∧ world_ok depth w ∧
    (∀ h1 h2 t1 t2 id1 id2 b1 b2,
      h_transports (w_heap depth w) !! h1 = Some (PT_Loopback t1 id1 b1) →
      h_transports (w_heap depth w) !! h2 = Some (PT_Loopback t2 id2 b2) → b1 = b2 ↔ id1 = id2) ∧
    (∀ b, is_Some (h_buses (w_heap depth w) !! b) ↔
      ∃ h t id, h_transports (w_heap depth w) !! h = Some (PT_Loopback t id b)).
Proof.
  intros Hl. assert (world_ok depth (w_empty depth s)) as Hw by (split; [apply heap_new_inv|apply map_Forall_empty]).
  assert (∃ w, c_run depth clock l (w_empty depth s) = Ok w ∧ world_ok depth w) as (w & E & Hok).
  { revert Hl Hw. generalize (w_empty depth s).
    induction l as [|c l IH]; intros w Hl Hw; [by exists w|]. destruct Hl as [Hc Hl].
    destruct (c_call_ok depth clock w c Hw Hc) as (w' & E & Hw'). unfold c_run. cbn [res_foldl]. rewrite E.
    cbn [res_bind]. by apply IH; [apply Hl|]. }
  exists w. pose proof (wo_heap _ _ Hok) as Hi. split_and!; [done..| |].
  - intros h1 h2 t1 t2 id1 id2 b1 b2. by apply (loopback_shares depth).
  - intros b. split; [|intros (h & t & id & Eh); by apply (hv_reg _ _ _ Hi h _ id b Eh)].
    intros Hb. destruct (hv_used _ _ _ Hi b Hb) as [?|(h & o & id & Eo & Hs)]; [done|].
    destruct o as [t id' b'| | |]; simplify_eq/=. by exists h, t, id.
Qed.

(** ** Error codes that differ from the header *)
Section CApiCodes.
Context `{XxHash} `{Ed25519} `{UnorderedIter} `{StdSort} `{Sockets} `{Inet} `{MbedTls} (depth : nat).
Context (clock : nat → nat → Z).

(** The header promises PCOL_ERR_INVALID when a non-blocking handshake has failed; a
    live peer only ever answers PCOL_OK or PCOL_ERR_TIMEOUT, also when no handshake
    was started. *)
Theorem connect_poll_codes (w w' : CWorld depth) h r :
  pcol_peer_connect_poll depth clock (Some h) w = Ok (w', r) → r = PCOL_OK ∨ r = PCOL_ERR_TIMEOUT.
Proof.
  unfold pcol_peer_connect_poll, on_peer, pp_run, code. destruct (w_peers depth w !! h) as [pp|]; [|done].
  destruct (load _ _ _) as [x|]; [|done]. unfold mbind, PM_bind.
  destruct (peer_connect_poll _) as [[p []]| |]; simpl; try done; intros [= _ <-]; auto.
Qed.
(** Flushing a peer without a connection answers PCOL_ERR_INVALID; the code
    PCOL_ERR_NO_CONNECT of the header is not used. *)
Theorem flush_unconnected_code (w : CWorld depth) h pp x :
  w_peers depth w !! h = Some pp → load depth (w_heap depth w) (pp_transport depth pp) = Some x →
  peer_is_connected (pp_impl depth pp) = false →
  ∃ w', pcol_flush depth clock (Some h) w = Ok (w', PCOL_ERR_INVALID).
Proof.
  intros Hh Hx Hc. unfold pcol_flush, on_peer, pp_run. rewrite Hh, Hx. unfold peer_is_connected in Hc.
  unfold peer_flush, mbind, PM_bind, pm_get. cbn [res_bind].
  change (p_conn_mgr (p_set_transport (pp_impl depth pp) x)) with (p_conn_mgr (pp_impl depth pp)).
  rewrite Hc. by eexists.
Qed.
End CApiCodes.

(** ** Deciding the contract along a run *)
Section CApiCheck.
Context `{XxHash} `{Ed25519} `{UnorderedIter} `{StdSort} `{Sockets} `{Inet} `{MbedTls} (depth : nat).
Context (clock : nat → nat → Z).
#[global] Instance live_dec {A} (m : gmap nat A) h : Decision (live m h).
Proof. destruct h; simpl; apply _. Defined.
#[global] Instance room_dec hp h : Decision (room depth hp h).
Proof. destruct h, depth; simpl; apply _. Defined.
#[global] Instance wraps_dec t o : Decision (wraps t o).
Proof. destruct o; simpl; apply _. Defined.
#[global] Instance call_ok_dec (w : CWorld depth) c : Decision (call_ok depth w c).
Proof. destruct c; simpl; apply _. Defined.
Fixpoint calls_checked (w : CWorld depth) (l : list CCall) : bool :=
  match l with
  | [] => true
  | c :: l' =>
      bool_decide (call_ok depth w c) &&
      match c_call depth clock c w with Ok (w', _) => calls_checked w' l' | _ => true end
  end.
Lemma calls_checked_ok w l : calls_checked w l = true → calls_ok depth clock w l.
Proof.
  revert w. induction l as [|c l IH]; intros w; simpl; [done|]. intros [Hc Hl]%andb_prop.
  apply bool_decide_eq_true_1 in Hc. split; [done|]. intros w' E. rewrite E in Hl. by apply IH.
Qed.
End CApiCheck.

(** A session of two peers on two external transports, as a host program drives it:
    it moves the packets by hand, and both peers end with the same count. *)
Module CSession.
#[local] Existing Instances toy_xxhash toy_ed25519 insertion_std_sort toy_inet.
Import UdpRun DtlsRun.
Abbreviation World := (CWorld 0).
Definition toy_clocks (h n : nat) : Z := 1000000 * Z.of_nat (S n).
Definition ep_of (e : Endpoint) : PcolEndpoint :=
  {| pe_address := Some (ep_address e); pe_port := ep_port e |}.
Definition path : option bytes := Some [47; 104; 105; 116; 115].
Definition setup_calls : list CCall :=
  [C_external_create; C_external_create; C_bind (Some 0%nat) (ep_of ep_a); C_bind (Some 1%nat) (ep_of ep_b);
   C_peer_create (Some 0%nat) 1 (Some (toy_keys 7)); C_peer_create (Some 1%nat) 2 (Some (toy_keys 9));
   C_register_key (Some 2%nat) 2 (Some (kp_public_key (toy_keys 9)));
   C_register_key (Some 3%nat) 1 (Some (kp_public_key (toy_keys 7)));
   C_declare (Some 2%nat) path 1 0; C_declare (Some 3%nat) path 1 0;
   C_on_update (Some 3%nat) (Some 77) 5;
   C_accept_start (Some 3%nat); C_connect_start (Some 2%nat) (ep_of ep_b)].
(** The packet at the head of the send queue of transport [t], if any. *)
Definition head_packet (w : World) (t : nat) : list bytes :=
  match h_transports (w_heap 0 w) !! t with
  | Some (PT_External e) => match xt_send_queue e with p :: _ => [xp_data p] | [] => [] end
  | _ => []
  end.
(** One round of the host: pop a packet of [a] and push it into [b]. *)
Definition carry_calls (w : World) (a b : nat) (from : Endpoint) : list CCall :=
  C_pop_send (Some a) (Some 1452%nat) true None ::
  ((λ d, C_push_recv (Some b) (Some d) (Some (ep_address from)) (ep_port from)) <$> head_packet w a).
Definition run (w : World) (l : list CCall) : World :=
  match c_run 0 toy_clocks l w with Ok w' => w' | _ => w end.
Definition extend (l : list CCall) (f : World → list CCall) : list CCall := l ++ f (run (w_empty 0 boot) l).
Definition session_calls : list CCall :=
  let l := extend setup_calls (λ w, carry_calls w 0 1 ep_a) in
  let l := extend (l ++ [C_accept_poll (Some 3%nat)]) (λ w, carry_calls w 1 0 ep_b) in
  let l := extend (l ++ [C_connect_poll (Some 2%nat); C_increment (Some 2%nat) path 5; C_flush (Some 2%nat)])
             (λ w, carry_calls w 0 1 ep_a) in
  l ++ [C_poll (Some 3%nat) 0; C_flush None; C_disconnect (Some 2%nat)].
Definition teardown_calls : list CCall :=
  [C_peer_destroy (Some 2%nat); C_peer_destroy (Some 3%nat); C_transport_destroy (Some 0%nat);
   C_transport_destroy (Some 1%nat)].
Lemma capi_total_witness :
  ∃ w, c_run 0 toy_clocks (session_calls ++ teardown_calls) (w_empty 0 boot) = Ok w ∧ world_ok 0 w.
Proof.
  assert (calls_ok 0 toy_clocks (w_empty 0 boot) (session_calls ++ teardown_calls)) as Hc
    by (apply calls_checked_ok; vm_compute; reflexivity).
  destruct (capi_total (H3 := toy_sockets) 0 toy_clocks boot (session_calls ++ teardown_calls) Hc) as (w & E & Hw & _).
  exists w. split; [exact E|exact Hw].
Defined.
Definition final : World := run (w_empty 0 boot) session_calls.
(** The second peer reads the count of the first through the C interface, and its
    update callback ran once with the user data it was registered with. *)
Definition count_of (w : World) (h : nat) : Z * option Z :=
  match pcol_get_counter 0 (Some h) path true w with Ok (_, r) => r | _ => (0, None) end.
Example session_reads :
  count_of final 3 = (PCOL_OK, Some 5) ∧
  ((λ c : Z * UpdateEvent * Z, (c.1.1, c.2)) <$>
     match w_peers 0 final !! 3%nat with Some pp => pp_update_calls 0 pp | None => [] end) = [(77, 5)].
Proof. vm_compute. split; reflexivity. Qed.

(** The same on a loopback bus: nothing has to be carried.  Address 1 is the bus. *)
Definition bus_calls : list CCall :=
  [C_loopback_create 7; C_loopback_create 7; C_bind (Some 1%nat) (ep_of ep_a); C_bind (Some 2%nat) (ep_of ep_b);
   C_peer_create (Some 1%nat) 1 (Some (toy_keys 7)); C_peer_create (Some 2%nat) 2 (Some (toy_keys 9));
   C_register_key (Some 3%nat) 2 (Some (kp_public_key (toy_keys 9)));
   C_register_key (Some 4%nat) 1 (Some (kp_public_key (toy_keys 7)));
   C_declare (Some 3%nat) path 1 0; C_declare (Some 4%nat) path 1 0;
   C_accept_start (Some 4%nat); C_connect_start (Some 3%nat) (ep_of ep_b);
   C_accept_poll (Some 4%nat); C_connect_poll (Some 3%nat); C_increment (Some 3%nat) path 5;
   C_flush (Some 3%nat); C_poll (Some 4%nat) 0].
Definition heap_facts (w : World) : list nat * list nat * list (Z * nat) :=
  (elements (dom (h_transports (w_heap 0 w))), elements (dom (h_buses (w_heap 0 w))),
   map_to_list (s_buses (w_heap 0 w))).
Example bus_session_reads :
  let w := run (w_empty 0 boot) bus_calls in
  calls_checked 0 toy_clocks (w_empty 0 boot) bus_calls = true ∧
  count_of w 4 = (PCOL_OK, Some 5) ∧ heap_facts w = ([2; 1]%nat, [0]%nat, [(7, 0%nat)]).
Proof. vm_compute. split_and!; reflexivity. Qed.
(** With the last transport the bus goes; its number stays in the registry, and the next
    transport with this number gets a new bus. *)
Definition ended : World :=
  run (w_empty 0 boot) (bus_calls ++ [C_peer_destroy (Some 3%nat); C_peer_destroy (Some 4%nat);
    C_transport_destroy (Some 1%nat); C_transport_destroy (Some 2%nat)]).
Example bus_is_released :
  heap_facts ended = ([], [], [(7, 0%nat)]) ∧
  heap_facts (run ended [C_loopback_create 7]) = ([6]%nat, [5]%nat, [(7, 5%nat)]).
Proof. vm_compute. split; reflexivity. Qed.
End CSession.

(** ** What the contract excludes *)
Module CMisuse.
#[local] Existing Instances toy_xxhash toy_ed25519 insertion_std_sort toy_inet.
Import UdpRun DtlsRun CSession.
Definition plain : PcolDtlsConfig :=
  {| pd_is_server := 0; pd_cert_pem := None; pd_key_pem := None; pd_ca_pem := None; pd_verify_peer := 0;
     pd_handshake_timeout_ms := 0 |}.
Definition broken : PcolDtlsConfig :=
  {| pd_is_server := 0; pd_cert_pem := Some [1]; pd_key_pem := None; pd_ca_pem := None; pd_verify_peer := 0;
     pd_handshake_timeout_ms := 0 |}.
(** The wrapped transport destroyed first: the destructor of the DTLS transport closes it
    once more. *)
Definition undefined {A} (r : res A) : bool := match r with Oob => true | _ => false end.
Example dtls_outlives_inner :
  undefined (c_run 1 toy_clocks [C_external_create; C_dtls_create (Some 0%nat) (Some plain);
    C_transport_destroy (Some 0%nat); C_transport_destroy (Some 1%nat)] (w_empty 1 boot)) = true.
Proof. vm_compute. reflexivity. Qed.
(** Destroying the DTLS transport closes the transport it wraps, which its own handle
    still names: bound before, unbound after. *)
Definition external_bound (r : res (CWorld 1)) : option bool :=
  match r with
  | Ok w => match h_transports (w_heap 1 w) !! 0%nat with Some (PT_External e) => Some (xt_bound e) | _ => None end
  | _ => None
  end.
Definition wrap_calls : list CCall :=
  [C_external_create; C_bind (Some 0%nat) (ep_of ep_a); C_dtls_create (Some 0%nat) (Some plain)].
Example dtls_destroy_closes_inner :
  external_bound (c_run 1 toy_clocks wrap_calls (w_empty 1 boot)) = Some true ∧
  external_bound (c_run 1 toy_clocks (wrap_calls ++ [C_transport_destroy (Some 1%nat)]) (w_empty 1 boot)) = Some false.
Proof. vm_compute. split; reflexivity. Qed.
(** A certificate that does not parse is reported as a timeout. *)
Definition handshake_code (config : PcolDtlsConfig) : res Z :=
  let! w := c_run 1 toy_clocks [C_external_create; C_dtls_create (Some 0%nat) (Some config)] (w_empty 1 boot) in
  let! (_, r) := pcol_transport_dtls_handshake 1 1 0 DtlsRun.clock (Some 1%nat) (ep_of ep_b) 5000 (w_heap 1 w) in
  Ok r.
Example broken_certificate_is_timeout : handshake_code broken = Ok PCOL_ERR_TIMEOUT.
Proof. vm_compute. reflexivity. Qed.
(** The data pointer of a write is not looked at: null with a length is undefined once the
    region is there, while the same arguments for an unknown path are an error code. *)
Definition write_null (p : bytes) : res (CWorld 1) :=
  c_run 1 toy_clocks [C_external_create; C_peer_create (Some 0%nat) 1 (Some (toy_keys 7));
    C_declare (Some 1%nat) (Some [47; 97]) 0 0; C_set_lww (Some 1%nat) (Some p) None 4] (w_empty 1 boot).
Example null_data_undefined :
  undefined (write_null [47; 97]) = true ∧ undefined (write_null [47; 98]) = false.
Proof. vm_compute. split; reflexivity. Qed.
End CMisuse.
