(* ===== verification/Tools.v ===== *)
(** * The command-line tools

    Models [tools/protocoll_dump.cpp] (decode and print captured packets) and
    [tools/protocoll_inspect.cpp] (track the state regions a capture declares).  A
    call of [printf] is a value of [OutLine] with the arguments of the format; text
    the tools build themselves (hexadecimal) is a list of character codes.  The
    standard input is the list of its bytes.  The time stamp [last_update] of a
    tracked region is never read and is left out.  The main programs, with their
    arguments, files and the UDP loop of the inspector, are in Cli.v. *)
From stdpp Require Import strings.
From S2P Require Import Prelude Platform Frame Codec Transport Connection.
#[local] Open Scope string_scope.
#[local] Open Scope list_scope.
#[local] Open Scope Z_scope.

(** ** Names *)
Definition packet_type_str (t : PacketType) : string :=
  match t with
  | PT_DATA => "DATA" | PT_CONTROL => "CONTROL" | PT_HANDSHAKE => "HANDSHAKE" | PT_raw _ => "UNKNOWN"
  end.
Definition frame_type_str (t : FrameType) : string :=
  match t with
  | FT_STATE_DECLARE => "STATE_DECLARE" | FT_STATE_SNAPSHOT => "STATE_SNAPSHOT"
  | FT_STATE_DELTA => "STATE_DELTA" | FT_STATE_SUBSCRIBE => "STATE_SUBSCRIBE"
  | FT_STATE_UNSUBSCRIBE => "STATE_UNSUBSCRIBE" | FT_CREDIT => "CREDIT" | FT_ACK => "ACK"
  | FT_NACK => "NACK" | FT_CAPABILITY_GRANT => "CAPABILITY_GRANT"
  | FT_CAPABILITY_REVOKE => "CAPABILITY_REVOKE" | FT_CLOCK_SYNC => "CLOCK_SYNC" | FT_PING => "PING"
  | FT_PONG => "PONG" | FT_CONNECT => "CONNECT" | FT_ACCEPT => "ACCEPT" | FT_CLOSE => "CLOSE"
  | FT_ROUTE_ANNOUNCE | FT_raw _ => "UNKNOWN"
  end.
Definition crdt_type_str (t : CrdtType) : string :=
  match t with
  | CT_NONE => "NONE" | CT_LWW_REGISTER => "LWW_REGISTER" | CT_G_COUNTER => "G_COUNTER"
  | CT_PN_COUNTER => "PN_COUNTER" | CT_OR_SET => "OR_SET" | CT_MV_REGISTER => "MV_REGISTER"
  | CT_RGA => "RGA" | CT_raw _ => "UNKNOWN"
  end.
Definition reliability_str (r : Reliability) : string :=
  match r with
  | Rel_UNRELIABLE => "UNRELIABLE" | Rel_BEST_EFFORT => "BEST_EFFORT" | Rel_RELIABLE => "RELIABLE"
  | Rel_raw _ => "UNKNOWN"
  end.
Definition close_reason_str (r : CloseReason) : string :=
  match r with
  | CR_NORMAL => "NORMAL" | CR_TIMEOUT => "TIMEOUT" | CR_PROTOCOL_ERROR => "PROTOCOL_ERROR"
  | CR_AUTH_FAILURE => "AUTH_FAILURE" | CR_GOING_AWAY => "GOING_AWAY" | CR_raw _ => "UNKNOWN"
  end.
(** The names of the set flags, joined by blanks ([pop_back] removes the last). *)
Definition flags_str (flags : Z) : string :=
  let names :=
    (if negb (Z.land flags FLAG_CHECKSUM =? 0) then ["CHECKSUM"] else []) ++
    (if negb (Z.land flags FLAG_COMPRESSED =? 0) then ["COMPRESSED"] else []) ++
    (if negb (Z.land flags FLAG_ENCRYPTED =? 0) then ["ENCRYPTED"] else []) ++
    (if negb (Z.land flags FLAG_RESERVED =? 0) then ["RESERVED"] else []) in
  if bool_decide (names = []) then "NONE" else String.concat " " names.

(** ** Hexadecimal text *)
Definition hex_digit (n : Z) : Z := if n <? 10 then 48 + n else 87 + n.
Definition hex_byte (b : Z) : bytes := [hex_digit (b / 16); hex_digit (b mod 16)].
Fixpoint hex_join (bs : bytes) : bytes :=
  match bs with
  | [] => []
  | [b] => hex_byte b
  | b :: bs' => hex_byte b ++ 32 :: hex_join bs'
  end.
(** The characters of [" ... (" << len << " bytes total)"]. *)
Definition hex_tail (len : nat) : bytes :=
  [32; 46; 46; 46; 32; 40] ++ to_string_loop 20 (Z.of_nat len) [] ++
  [32; 98; 121; 116; 101; 115; 32; 116; 111; 116; 97; 108; 41].
Definition hex_bytes (data : bytes) (max_show : nat) : bytes :=
  let show := if (max_show <? length data)%nat then max_show else length data in
  hex_join (take show data) ++ (if (max_show <? length data)%nat then hex_tail (length data) else []).

Fixpoint pair_bytes (ds : list Z) : bytes :=
  match ds with
  | hi :: lo :: ds' => u8 (16 * hi + lo) :: pair_bytes ds'
  | _ => []
  end.
(** An odd number of digits is an error and gives the empty vector. *)
Definition parse_hex_string (hex : bytes) : bytes :=
  let clean := omap xdigit hex in
  if negb (Nat.even (length clean)) then [] else pair_bytes clean.

(** ** The dump tool *)
Inductive OutLine :=
| L_connect (magic version max_frame_size : Z)
| L_accept (assigned_conn_id server_timestamp_us : Z)
| L_close (reason : string)
| L_ping (ping_id timestamp_us : Z)
| L_ack (largest_acked ack_delay_us sack_ranges : Z)
| L_declare (path_hash : Z) (crdt reliability : string)
| L_path (path : bytes)
| L_delta (path_hash : Z) (crdt reliability : string) (author : Z)
| L_delta_len (delta_len : nat) (signed : bool)
| L_delta_hex (text : bytes)
| L_snapshot (path_hash : Z) (crdt : string) (author : Z)
| L_snapshot_len (snap_len : nat) (signed : bool)
| L_revoke (token_id issuer : Z)
| L_payload (text : bytes)
| L_packet (index : Z) (type : string) (version conn num ts payload_len : Z) (flags : string) (checksum_ok : bool)
| L_frame (index frame_index : Z) (type : string) (code len : Z)
| L_no_frames (payload_len : Z)
| L_parse_error (index : Z) (len : nat)
| L_raw (text : bytes)
| L_bad_length (index pkt_len : Z)
| L_truncated (index expected : Z) (got : nat)
| L_summary (packets errors : Z)
| L_empty_input
| L_too_short (len : nat).

(** [if (frame.decode(p, len)) ...] *)
Definition when_decoded {F} (m : res F) (k : F → res (list OutLine)) : res (list OutLine) :=
  let! r := res_opt m in match r with None => Ok [] | Some f => k f end.

Definition print_delta (p : bytes) : res (list OutLine) :=
  let len := length p in
  if (StateDeltaFrame_BASE_WIRE_SIZE <=? len)%nat then
    when_decoded (StateDeltaFrame_decode p) (λ sdf,
      let has_sig := (StateDeltaFrame_MIN_WIRE_SIZE <=? len)%nat in
      let delta_len := if has_sig then (len - StateDeltaFrame_BASE_WIRE_SIZE - StateDeltaFrame_SIGNATURE_SIZE)%nat
                       else (len - StateDeltaFrame_BASE_WIRE_SIZE)%nat in
      let! hex := (if (0 <? delta_len)%nat then
                     let! d := slice p StateDeltaFrame_BASE_WIRE_SIZE delta_len in
                     Ok [L_delta_hex (hex_bytes d 32)]
                   else Ok []) in
      Ok ([L_delta (sdf_path_hash sdf) (crdt_type_str (sdf_crdt_type sdf))
             (reliability_str (sdf_reliability sdf)) (sdf_author_node_id sdf);
           L_delta_len delta_len has_sig] ++ hex))
  else Ok [].
Definition print_snapshot (p : bytes) : res (list OutLine) :=
  let len := length p in
  if (StateSnapshotFrame_BASE_WIRE_SIZE <=? len)%nat then
    when_decoded (StateSnapshotFrame_decode p) (λ ssf,
      let has_sig := (StateSnapshotFrame_MIN_WIRE_SIZE <=? len)%nat in
      let snap_len :=
        if has_sig then (len - StateSnapshotFrame_BASE_WIRE_SIZE - StateSnapshotFrame_SIGNATURE_SIZE)%nat
        else (len - StateSnapshotFrame_BASE_WIRE_SIZE)%nat in
      Ok [L_snapshot (ssf_path_hash ssf) (crdt_type_str (ssf_crdt_type ssf)) (ssf_author_node_id ssf);
          L_snapshot_len snap_len has_sig])
  else Ok [].
Definition StateDeclareFrame_BASE_WIRE_SIZE : nat := 6.
(** The path string behind the fixed part of a declaration. *)
Definition declared_path (p : bytes) : res (option bytes) :=
  if (StateDeclareFrame_BASE_WIRE_SIZE <? length p)%nat then
    let! s := slice p StateDeclareFrame_BASE_WIRE_SIZE (length p - StateDeclareFrame_BASE_WIRE_SIZE) in
    Ok (Some s)
  else Ok None.
Definition print_frame_detail (frame : Frame) : res (list OutLine) :=
  let p := fr_payload frame in
  match fh_type (fr_header frame) with
  | FT_CONNECT =>
      when_decoded (ConnectFrame_decode p) (λ cf,
        Ok [L_connect (cf_magic cf) (cf_version cf) (cf_max_frame_size cf)])
  | FT_ACCEPT =>
      when_decoded (AcceptFrame_decode p) (λ af,
        Ok [L_accept (af_assigned_conn_id af) (af_server_timestamp_us af)])
  | FT_CLOSE =>
      when_decoded (CloseFrame_decode p) (λ clf, Ok [L_close (close_reason_str (clf_reason clf))])
  | FT_PING | FT_PONG =>
      when_decoded (PingFrame_decode p) (λ pf, Ok [L_ping (pf_ping_id pf) (pf_timestamp_us pf)])
  | FT_ACK =>
      when_decoded (AckFrame_decode p) (λ ack,
        Ok [L_ack (ack_largest_acked ack) (ack_delay_us ack) (ack_sack_range_count ack)])
  | FT_STATE_DECLARE =>
      when_decoded (StateDeclareFrame_decode p) (λ sd,
        let! path := declared_path p in
        Ok (L_declare (dcl_path_hash sd) (crdt_type_str (dcl_crdt_type sd))
              (reliability_str (dcl_reliability sd)) ::
            match path with Some s => [L_path s] | None => [] end))
  | FT_STATE_DELTA => print_delta p
  | FT_STATE_SNAPSHOT => print_snapshot p
  | FT_CAPABILITY_REVOKE =>
      when_decoded (CapabilityRevokeFrame_decode p) (λ cr,
        Ok [L_revoke (crf_token_id cr) (crf_issuer_node_id cr)])
  | _ => if (0 <? length p)%nat then Ok [L_payload (hex_bytes p 32)] else Ok []
  end.

Section Tools.
Context `{XxHash}.

(** One iteration of the frame loop: output so far and the frame index. *)
Definition dump_frame (pkt_index : Z) : list OutLine * Z → Frame → res (list OutLine * Z * bool) :=
  λ '(out, frame_idx) frame,
    let! detail := print_frame_detail frame in
    Ok (out ++ L_frame pkt_index frame_idx (frame_type_str (fh_type (fr_header frame)))
                 (FrameType_to_u8 (fh_type (fr_header frame))) (fh_length (fr_header frame)) :: detail,
        frame_idx + 1, true).
Definition decode_and_print (data : bytes) (pkt_index : Z) : res (list OutLine * Z) :=
  let! (dec, ok) := parse PacketDecoder_new data in
  if negb ok then Ok ([L_parse_error pkt_index (length data); L_raw (hex_bytes data 64)], 1) else
  let hdr := pd_header dec in
  let! cksum_ok := verify_checksum dec in
  let head := L_packet pkt_index (packet_type_str (ph_packet_type hdr)) (ph_version hdr)
                (ph_connection_id hdr) (ph_packet_number hdr) (ph_timestamp_us hdr)
                (ph_payload_length hdr) (flags_str (ph_flags hdr)) cksum_ok in
  let! (out, frame_idx) := while_next_frame (frame_fuel dec) (dump_frame pkt_index) dec ([head], 0) in
  Ok (out ++ (if (frame_idx =? 0) && (0 <? ph_payload_length hdr)
              then [L_no_frames (ph_payload_length hdr)] else []), 0).

(** The length prefix: two bytes, most significant first. *)
Definition lp_length (hi lo : Z) : Z := u16 (Z.lor (Z.shiftl hi 8) lo).
Definition lp_valid (n : Z) : bool := negb (n =? 0) && negb (Z.of_nat MAX_PACKET_SIZE <? n).
Fixpoint read_lp_loop (fuel : nat) (input : bytes) (pkt_index errors : Z) (out : list OutLine)
    : res (list OutLine * Z * Z) :=
  match fuel with
  | O => Oob
  | S fuel' =>
      match input with
      | hi :: lo :: rest =>
          let pkt_len := lp_length hi lo in
          if negb (lp_valid pkt_len)
          then Ok (out ++ [L_bad_length pkt_index pkt_len], pkt_index, errors + 1) else
          let n := Z.to_nat pkt_len in
          if (length rest <? n)%nat
          then Ok (out ++ [L_truncated pkt_index pkt_len (length rest)], pkt_index, errors + 1) else
          let! (lines, e) := decode_and_print (take n rest) pkt_index in
          read_lp_loop fuel' (drop n rest) (pkt_index + 1) (errors + e) (out ++ lines)
      | _ => Ok (out, pkt_index, errors)
      end
  end.
Definition read_length_prefixed (input : bytes) : res (list OutLine * Z) :=
  let! (out, pkt_index, errors) := read_lp_loop (S (length input)) input 0 0 [] in
  Ok (out ++ [L_summary pkt_index errors], if 0 <? errors then 1 else 0).
Definition read_raw (input : bytes) : res (list OutLine * Z) :=
  if bool_decide (input = []) then Ok ([L_empty_input], 1) else
  if (PACKET_HEADER_SIZE <=? length input)%nat then decode_and_print input 0
  else Ok ([L_too_short (length input)], 1).
Definition dump_hex (hex : bytes) : res (list OutLine * Z) :=
  let bs := parse_hex_string hex in
  if bool_decide (bs = []) then Ok ([], 1) else decode_and_print bs 0.
End Tools.

(** ** The inspector *)
Record TrackedState := {
  ts_path : bytes; ts_path_hash : Z; ts_crdt_type : CrdtType; ts_reliability : Reliability;
  ts_delta_count : Z; ts_snapshot_count : Z; ts_total_bytes : Z }.
Inductive InspectLine :=
| I_declare (path : bytes) (path_hash : Z) (crdt reliability : string)
| I_delta (path_hash author len : Z)
| I_snapshot (path_hash author len : Z)
| I_row (path : bytes) (path_hash : Z) (crdt reliability : string) (deltas snaps bytes_total : Z)
| I_total (packets frames : Z).
Record Inspector := {
  g_states : gmap Z TrackedState; g_total_packets : Z; g_total_frames : Z; g_out : list InspectLine }.
Definition inspector_new : Inspector :=
  {| g_states := ∅; g_total_packets := 0; g_total_frames := 0; g_out := [] |}.
Definition g_update (g : Inspector) (m : gmap Z TrackedState) (l : InspectLine) : Inspector :=
  {| g_states := m; g_total_packets := g_total_packets g; g_total_frames := g_total_frames g;
     g_out := g_out g ++ [l] |}.
Definition ts_count_delta (len : Z) (t : TrackedState) : TrackedState :=
  {| ts_path := ts_path t; ts_path_hash := ts_path_hash t; ts_crdt_type := ts_crdt_type t;
     ts_reliability := ts_reliability t; ts_delta_count := u32 (ts_delta_count t + 1);
     ts_snapshot_count := ts_snapshot_count t; ts_total_bytes := u64 (ts_total_bytes t + len) |}.
Definition ts_count_snapshot (len : Z) (t : TrackedState) : TrackedState :=
  {| ts_path := ts_path t; ts_path_hash := ts_path_hash t; ts_crdt_type := ts_crdt_type t;
     ts_reliability := ts_reliability t; ts_delta_count := ts_delta_count t;
     ts_snapshot_count := u32 (ts_snapshot_count t + 1); ts_total_bytes := u64 (ts_total_bytes t + len) |}.
(** The [switch] of the frame loop. *)
Definition inspect_switch (g : Inspector) (frame : Frame) : res Inspector :=
  let p := fr_payload frame in
  let len := fh_length (fr_header frame) in
  match fh_type (fr_header frame) with
  | FT_STATE_DECLARE =>
      let! r := res_opt (StateDeclareFrame_decode p) in
      match r with
      | None => Ok g
      | Some sd =>
          let! path := declared_path p in
          let path := default [] path in
          Ok (g_update g
            (<[dcl_path_hash sd :=
                 {| ts_path := path; ts_path_hash := dcl_path_hash sd; ts_crdt_type := dcl_crdt_type sd;
                    ts_reliability := dcl_reliability sd; ts_delta_count := 0; ts_snapshot_count := 0;
                    ts_total_bytes := 0 |}]> (g_states g))
            (I_declare path (dcl_path_hash sd) (crdt_type_str (dcl_crdt_type sd))
               (reliability_str (dcl_reliability sd))))
      end
  | FT_STATE_DELTA =>
      if (StateDeltaFrame_BASE_WIRE_SIZE <=? length p)%nat then
        let! r := res_opt (StateDeltaFrame_decode p) in
        match r with
        | None => Ok g
        | Some sdf =>
            Ok (g_update g (alter (ts_count_delta len) (sdf_path_hash sdf) (g_states g))
                  (I_delta (sdf_path_hash sdf) (sdf_author_node_id sdf) len))
        end
      else Ok g
  | FT_STATE_SNAPSHOT =>
      if (StateSnapshotFrame_BASE_WIRE_SIZE <=? length p)%nat then
        let! r := res_opt (StateSnapshotFrame_decode p) in
        match r with
        | None => Ok g
        | Some ssf =>
            Ok (g_update g (alter (ts_count_snapshot len) (ssf_path_hash ssf) (g_states g))
                  (I_snapshot (ssf_path_hash ssf) (ssf_author_node_id ssf) len))
        end
      else Ok g
  | _ => Ok g
  end.
Definition inspect_frame (g : Inspector) (frame : Frame) : res (Inspector * bool) :=
  let! g := inspect_switch
    {| g_states := g_states g; g_total_packets := g_total_packets g;
       g_total_frames := u32 (g_total_frames g + 1); g_out := g_out g |} frame in
  Ok (g, true).
Definition inspect_packet (g : Inspector) (data : bytes) : res Inspector :=
  let! (dec, ok) := parse PacketDecoder_new data in
  if negb ok then Ok g else
  let g := {| g_states := g_states g; g_total_packets := u32 (g_total_packets g + 1);
              g_total_frames := g_total_frames g; g_out := g_out g |} in
  while_next_frame (frame_fuel dec) inspect_frame dec g.
Definition print_state_tree `{UnorderedIter} (g : Inspector) : list InspectLine :=
  ((λ '(hash, t), I_row (ts_path t) hash (crdt_type_str (ts_crdt_type t)) (reliability_str (ts_reliability t))
      (ts_delta_count t) (ts_snapshot_count t) (ts_total_bytes t)) <$> uiter (g_states g)) ++
  [I_total (g_total_packets g) (g_total_frames g)].
Fixpoint passive_loop (fuel : nat) (input : bytes) (g : Inspector) : res Inspector :=
  match fuel with
  | O => Oob
  | S fuel' =>
      match input with
      | hi :: lo :: rest =>
          let pkt_len := lp_length hi lo in
          if negb (lp_valid pkt_len) then Ok g else
          let n := Z.to_nat pkt_len in
          if (length rest <? n)%nat then Ok g else
          let! g := inspect_packet g (take n rest) in
          passive_loop fuel' (drop n rest) g
      | _ => Ok g
      end
  end.
Definition passive_mode (input : bytes) : res Inspector := passive_loop (S (length input)) input inspector_new.

(** ** Printing and parsing hexadecimal *)
Lemma xdigit_hex n : 0 ≤ n < 16 → xdigit (hex_digit n) = Some n.
Proof.
  intros Hn. unfold hex_digit, xdigit. destruct (Z.ltb_spec n 10).
  - rewrite (proj2 (Z.leb_le 48 _)), (proj2 (Z.leb_le _ 57)) by lia. simpl. f_equal. lia.
  - rewrite (proj2 (Z.leb_gt _ 57)), andb_false_r by lia.
    rewrite (proj2 (Z.leb_le 97 _)), (proj2 (Z.leb_le _ 102)) by lia. simpl. f_equal. lia.
Qed.
Lemma hex_join_digits bs :
  wf_bytes bs → omap xdigit (hex_join bs) = concat ((λ b, [b / 16; b mod 16]) <$> bs).
Proof.
  induction 1 as [|b bs Hb Hbs IH]; [done|]. unfold is_u in Hb. change (2 ^ 8) with 256 in Hb.
  assert (0 ≤ b / 16 < 16 ∧ 0 ≤ b mod 16 < 16) as [? ?] by (Z.to_euclidean_division_equations; lia).
  assert (omap xdigit (hex_byte b) = [b / 16; b mod 16]) as Hd.
  { unfold hex_byte. cbn [omap list_omap]. by rewrite !xdigit_hex. }
  destruct bs as [|b' bs]; [done|]. cbn [hex_join]. rewrite omap_app, Hd.
  change (omap xdigit (32 :: ?l)) with (omap xdigit l). rewrite fmap_cons. cbn [concat app].
  do 2 f_equal. exact IH.
Qed.
Lemma pair_bytes_digits bs :
  wf_bytes bs → pair_bytes (concat ((λ b, [b / 16; b mod 16]) <$> bs)) = bs.
Proof.
  induction 1 as [|b bs Hb Hbs IH]; [done|]. rewrite fmap_cons. cbn [concat app pair_bytes].
  rewrite IH. f_equal. rewrite <-(Z.div_mod b 16) by lia. by apply wrap_id.
Qed.
(** What the dump tool prints of a payload, pasted back with [--hex], is the payload:
    blanks are skipped and every byte is recovered, as long as the text was not
    cut. *)
Theorem hex_roundtrip data max_show :
  wf_bytes data → (length data ≤ max_show)%nat → parse_hex_string (hex_bytes data max_show) = data.
Proof.
  intros Hd Hl. unfold hex_bytes, parse_hex_string.
  rewrite (proj2 (Nat.ltb_ge _ _)), app_nil_r, take_ge, hex_join_digits by done.
  assert (∀ l : bytes, Nat.even (length (concat ((λ b : Z, [b / 16; b mod 16]) <$> l))) = true) as ->.
  { intros l. induction l as [|b l IH]; [done|]. rewrite fmap_cons. exact IH. }
  simpl. by apply pair_bytes_digits.
Qed.
Lemma hex_roundtrip_witness : parse_hex_string (hex_bytes [0; 24; 255] 32) = [0; 24; 255].
Proof. apply hex_roundtrip; [apply (bool_decide_eq_true_1 (wf_bytes [0; 24; 255])); vm_compute; reflexivity|simpl; lia]. Defined.

(** ** The tools read only what they were given *)
Lemma when_decoded_Ok {F} `{WireFrame F} m p (k : F → res (list OutLine)) :
  m = frame_decode p → (∀ f, ∃ out, k f = Ok out) → ∃ out, when_decoded m k = Ok out.
Proof.
  intros -> Hk. unfold when_decoded. destruct (frame_decode_opt (T := F) p) as (o & -> & _).
  cbn [res_bind]. destruct o; [apply Hk|by eexists].
Qed.
Lemma declared_path_Ok p : ∃ o, declared_path p = Ok o.
Proof.
  unfold declared_path. destruct (Nat.ltb_spec StateDeclareFrame_BASE_WIRE_SIZE (length p)); [|by eexists].
  rewrite slice_Ok by lia. by eexists.
Qed.
Lemma print_delta_Ok p : ∃ out, print_delta p = Ok out.
Proof.
  unfold print_delta. destruct (Nat.leb_spec StateDeltaFrame_BASE_WIRE_SIZE (length p)); [|by eexists].
  apply (when_decoded_Ok (F := StateDeltaFrame) _ p); [done|]. intros f.
  match goal with |- context [(0 <? ?m)%nat] => set (n := m) end. assert (StateDeltaFrame_BASE_WIRE_SIZE + n ≤ length p)%nat
    by (unfold n; case_match; lia). clearbody n.
  destruct (0 <? n)%nat; [rewrite slice_Ok by lia|]; by eexists.
Qed.
Lemma print_frame_detail_Ok f : ∃ out, print_frame_detail f = Ok out.
Proof.
  unfold print_frame_detail.
  destruct (fh_type (fr_header f)); try (case_match; by eexists); try apply print_delta_Ok.
  - apply (when_decoded_Ok (F := StateDeclareFrame) _ (fr_payload f)); [done|]. intros sd.
    destruct (declared_path_Ok (fr_payload f)) as [o ->]. by eexists.
  - unfold print_snapshot. case_match; [|by eexists].
    apply (when_decoded_Ok (F := StateSnapshotFrame) _ (fr_payload f)); [done|]. by eexists.
  - apply (when_decoded_Ok (F := AckFrame) _ (fr_payload f)); [done|]. by eexists.
  - apply (when_decoded_Ok (F := CapabilityRevokeFrame) _ (fr_payload f)); [done|]. by eexists.
  - apply (when_decoded_Ok (F := PingFrame) _ (fr_payload f)); [done|]. by eexists.
  - apply (when_decoded_Ok (F := PingFrame) _ (fr_payload f)); [done|]. by eexists.
  - apply (when_decoded_Ok (F := ConnectFrame) _ (fr_payload f)); [done|]. by eexists.
  - apply (when_decoded_Ok (F := AcceptFrame) _ (fr_payload f)); [done|]. by eexists.
  - apply (when_decoded_Ok (F := CloseFrame) _ (fr_payload f)); [done|]. by eexists.
Qed.
Lemma run_frames_total {S} (body : S → Frame → res (S * bool)) (I : nat → S → Prop) s fs n :
  (∀ n s f, I n s → ∃ s', body s f = Ok (s', true) ∧ I (n + 1)%nat s') → I n s →
  ∃ s', run_frames body s fs = Ok s' ∧ I (n + length fs)%nat s'.
Proof.
  intros Hb. revert n s. induction fs as [|f fs IH]; intros n s Hs; simpl.
  { exists s. by rewrite Nat.add_0_r. }
  destruct (Hb n s f Hs) as (s1 & -> & Hs1). cbn [res_bind].
  destruct (IH _ _ Hs1) as (s' & ? & ?). exists s'. by rewrite <-Nat.add_assoc in *.
Qed.
(** The frames of a packet whose header is accepted. *)
Definition packet_frames (data : bytes) : option (list Frame) :=
  match parse PacketDecoder_new data with
  | Ok (d, true) => Some (parse_frames
      (take (Z.to_nat (ph_payload_length (pd_header d))) (drop PACKET_HEADER_SIZE data)))
  | _ => None
  end.

Section ToolTheorems.
Context `{XxHash}.

Lemma decode_and_print_Ok data i : ∃ out e, decode_and_print data i = Ok (out, e) ∧ (e = 0 ∨ e = 1).
Proof.
  unfold decode_and_print. destruct (parse_Ok PacketDecoder_new data) as (d & ok & Hp). rewrite Hp.
  cbn [res_bind]. destruct ok; cbn [negb]; [|by eexists _, _; split; [|right]].
  destruct (verify_checksum_Ok d data) as [b ->]; [by apply parse_true in Hp as [? _]|]. cbn [res_bind].
  rewrite (while_next_frame_spec _ _ _ _ _ Hp). set (fs := parse_frames _). clearbody fs.
  set (s0 := (_, 0)). destruct (run_frames_total (dump_frame i) (λ _ _, True) s0 fs 0) as ([out n] & -> & _);
    [|done|cbn [res_bind]; eexists _, _; split; [done|by left]].
  intros _ [out k] f _. unfold dump_frame. destruct (print_frame_detail_Ok f) as [det ->]. by eexists.
Qed.

(** ** Captures *)

(** The capture format: each packet behind its length. *)
Definition lp_packet (pkt : bytes) : bytes :=
  let n := Z.of_nat (length pkt) in n / 256 :: n mod 256 :: pkt.
Definition capture (pkts : list bytes) : bytes := concat (lp_packet <$> pkts).
Definition pkt_fits (pkt : bytes) : Prop := (1 ≤ length pkt ≤ MAX_PACKET_SIZE)%nat.

Lemma lp_length_of n : 0 ≤ n < 2 ^ 16 → lp_length (n / 256) (n mod 256) = n.
Proof.
  intros Hn. unfold lp_length. rewrite Z.lor_comm, lor_disjoint by (Z.to_euclidean_division_equations; lia).
  rewrite wrap_id; [Z.to_euclidean_division_equations; lia|].
  unfold is_u. Z.to_euclidean_division_equations; lia.
Qed.
Lemma lp_packet_read pkt rest :
  pkt_fits pkt →
  ∃ hi lo, lp_packet pkt ++ rest = hi :: lo :: pkt ++ rest ∧
    lp_length hi lo = Z.of_nat (length pkt) ∧ lp_valid (lp_length hi lo) = true.
Proof.
  unfold pkt_fits, MAX_PACKET_SIZE. intros Hf. eexists _, _. split; [done|].
  rewrite lp_length_of by lia. split; [done|].
  unfold lp_valid, MAX_PACKET_SIZE. rewrite (proj2 (Z.eqb_neq _ _)), (proj2 (Z.ltb_ge _ _)) by lia. done.
Qed.

(** The lines and the error count of one packet. *)
Definition dump_packet (i : Z) (pkt : bytes) : list OutLine * Z :=
  match decode_and_print pkt i with Ok r => r | _ => ([], 0) end.
Fixpoint dump_packets (i : Z) (pkts : list bytes) : list OutLine * Z :=
  match pkts with
  | [] => ([], 0)
  | p :: ps =>
      let '(l, e) := dump_packet i p in let '(l', e') := dump_packets (i + 1) ps in (l ++ l', e + e')
  end.

Lemma read_lp_capture pkts fuel i errors out :
  Forall pkt_fits pkts → (length (capture pkts) < fuel)%nat →
  read_lp_loop fuel (capture pkts) i errors out =
    Ok (out ++ (dump_packets i pkts).1, i + Z.of_nat (length pkts), errors + (dump_packets i pkts).2).
Proof.
  intros Hp. revert fuel i errors out. induction Hp as [|p pkts Hp Hps IH]; intros fuel i errors out Hf.
  { destruct fuel; [lia|]. simpl. by rewrite app_nil_r, !Z.add_0_r. }
  unfold capture in *. rewrite fmap_cons in *. cbn [concat] in *.
  destruct (lp_packet_read p (concat (lp_packet <$> pkts)) Hp) as (hi & lo & E & El & Ev). rewrite E in *.
  destruct fuel as [|fuel]; [simpl in Hf; lia|]. cbn [read_lp_loop]. rewrite Ev, El. cbn [negb].
  rewrite Nat2Z.id, (proj2 (Nat.ltb_ge _ _)), take_app_length, drop_app_length
    by (rewrite length_app; lia).
  destruct (decode_and_print_Ok p i) as (l & e & Ed & _). rewrite Ed. cbn [res_bind].
  rewrite IH by (simpl in Hf; rewrite length_app in Hf; lia).
  cbn [dump_packets]. unfold dump_packet. rewrite Ed. destruct (dump_packets (i + 1) pkts) as [l' e'].
  simpl. rewrite <-app_assoc. do 2 f_equal; [f_equal; lia|lia].
Qed.

(** Reading a capture gives back its packets: the dump tool splits the
    length-prefixed stream at the packet boundaries, decodes every packet once, in
    order, under its index, and reports their number and the number of undecodable
    ones in the summary line and in the exit status. *)
Theorem dump_capture pkts :
  Forall pkt_fits pkts →
  read_length_prefixed (capture pkts) =
    Ok ((dump_packets 0 pkts).1 ++ [L_summary (Z.of_nat (length pkts)) (dump_packets 0 pkts).2],
        if 0 <? (dump_packets 0 pkts).2 then 1 else 0).
Proof.
  intros Hp. unfold read_length_prefixed. rewrite read_lp_capture by (done || lia).
  cbn [res_bind app]. by rewrite !Z.add_0_l.
Qed.

Lemma read_lp_total fuel input i errors out :
  (length input < fuel)%nat → ∃ out' i' e', read_lp_loop fuel input i errors out = Ok (out', i', e').
Proof.
  revert input i errors out. induction fuel as [|fuel IH]; intros input i errors out Hf; [lia|].
  cbn [read_lp_loop]. destruct input as [|hi [|lo rest]]; [by eexists _, _, _..|].
  case_match; [by eexists _, _, _|]. case_match; [by eexists _, _, _|].
  destruct (decode_and_print_Ok (take (Z.to_nat (lp_length hi lo)) rest) i) as (l & e & -> & _).
  cbn [res_bind]. apply IH. rewrite length_drop. simpl in Hf. lia.
Qed.

(** The dump tool is memory safe and terminates on every input: any byte string
    given as a length-prefixed capture, as a raw packet or as hexadecimal text is
    processed to the end without an access outside the input. *)
Theorem dump_safe input :
  (∃ out code, read_length_prefixed input = Ok (out, code)) ∧
  (∃ out code, read_raw input = Ok (out, code)) ∧ (∃ out code, dump_hex input = Ok (out, code)).
Proof.
  split_and!.
  - unfold read_length_prefixed.
    destruct (read_lp_total (S (length input)) input 0 0 []) as (o & i & e & ->); [lia|].
    by eexists _, _.
  - unfold read_raw. case_bool_decide; [by eexists _, _|]. case_match; [|by eexists _, _].
    destruct (decode_and_print_Ok input 0) as (o & e & -> & _). by eexists _, _.
  - unfold dump_hex. case_bool_decide; [by eexists _, _|].
    destruct (decode_and_print_Ok (parse_hex_string input) 0) as (o & e & -> & _). by eexists _, _.
Qed.
End ToolTheorems.

(** ** The inspector counts what a capture holds *)
Lemma inspect_switch_Ok g f :
  ∃ g', inspect_switch g f = Ok g' ∧ g_total_packets g' = g_total_packets g ∧
        g_total_frames g' = g_total_frames g.
Proof.
  unfold inspect_switch. destruct (fh_type (fr_header f)); try (by eexists).
  - destruct (frame_decode_opt (T := StateDeclareFrame) (fr_payload f)) as (o & E & _).
    simpl in E. rewrite E. cbn [res_bind]. destruct o; [|by eexists].
    destruct (declared_path_Ok (fr_payload f)) as [q ->]. by eexists.
  - case_match; [|by eexists].
    destruct (frame_decode_opt (T := StateSnapshotFrame) (fr_payload f)) as (o & E & _).
    simpl in E. rewrite E. cbn [res_bind]. destruct o; by eexists.
  - case_match; [|by eexists].
    destruct (frame_decode_opt (T := StateDeltaFrame) (fr_payload f)) as (o & E & _).
    simpl in E. rewrite E. cbn [res_bind]. destruct o; by eexists.
Qed.
Lemma u32_add_one a n : u32 (u32 (a + Z.of_nat n) + 1) = u32 (a + Z.of_nat (n + 1)).
Proof. unfold wrap. rewrite Zplus_mod_idemp_l. f_equal. lia. Qed.
(** Packets and frames a packet adds to the totals. *)
Definition frames_in (data : bytes) : nat := from_option length 0%nat (packet_frames data).
Definition packets_in (data : bytes) : nat := if packet_frames data then 1 else 0.
Lemma inspect_packet_Ok g data :
  is_u32 (g_total_packets g) → is_u32 (g_total_frames g) →
  ∃ g', inspect_packet g data = Ok g' ∧
    g_total_packets g' = u32 (g_total_packets g + Z.of_nat (packets_in data)) ∧
    g_total_frames g' = u32 (g_total_frames g + Z.of_nat (frames_in data)).
Proof.
  intros Hp32 Hf32. unfold inspect_packet, packets_in, frames_in, packet_frames.
  destruct (parse_Ok PacketDecoder_new data) as (d & ok & Hp). rewrite Hp. cbn [res_bind].
  destruct ok; cbn [negb]; [|exists g; simpl; by rewrite !Z.add_0_r, !wrap_id].
  rewrite (while_next_frame_spec _ _ _ _ _ Hp). set (fs := parse_frames _). clearbody fs.
  set (g0 := {| g_states := _ |}).
  destruct (run_frames_total inspect_frame
    (λ n g', g_total_packets g' = g_total_packets g0 ∧ g_total_frames g' = u32 (g_total_frames g + Z.of_nat n))
    g0 fs 0) as (g' & -> & Hp' & Hf').
  - intros n s f [H1 H2]. unfold inspect_frame. set (s1 := {| g_states := g_states s |}).
    destruct (inspect_switch_Ok s1 f) as (s' & -> & Hs1 & Hs2). cbn [res_bind].
    exists s'. split; [done|]. rewrite Hs1, Hs2. simpl. split; [done|]. by rewrite H2, u32_add_one.
  - split; [done|]. simpl. by rewrite Z.add_0_r, wrap_id.
  - exists g'. by rewrite Hp', Hf'.
Qed.

(** Running the inspector over a capture never fails, and its totals are the
    number of packets whose header is accepted and the number of frames they
    hold. *)
Theorem inspect_capture pkts :
  Forall pkt_fits pkts →
  ∃ g, passive_mode (capture pkts) = Ok g ∧
    g_total_packets g = u32 (Z.of_nat (sum_list (packets_in <$> pkts))) ∧
    g_total_frames g = u32 (Z.of_nat (sum_list (frames_in <$> pkts))).
Proof.
  intros Hp. unfold passive_mode.
  assert (∀ fuel g, (length (capture pkts) < fuel)%nat →
    is_u32 (g_total_packets g) → is_u32 (g_total_frames g) →
    ∃ g', passive_loop fuel (capture pkts) g = Ok g' ∧
      g_total_packets g' = u32 (g_total_packets g + Z.of_nat (sum_list (packets_in <$> pkts))) ∧
      g_total_frames g' = u32 (g_total_frames g + Z.of_nat (sum_list (frames_in <$> pkts)))) as Hloop.
  { induction Hp as [|p pkts Hp Hps IH]; intros fuel g Hf H1 H2.
    { destruct fuel; [lia|]. exists g. simpl. by rewrite !Z.add_0_r, !wrap_id. }
    unfold capture in *. rewrite !fmap_cons in *. cbn [concat sum_list_with id] in *.
    destruct (lp_packet_read p (concat (lp_packet <$> pkts)) Hp) as (hi & lo & E & El & Ev). rewrite E in *.
    destruct fuel as [|fuel]; [simpl in Hf; lia|]. cbn [passive_loop]. rewrite Ev, El. cbn [negb].
    rewrite Nat2Z.id, (proj2 (Nat.ltb_ge _ _)), take_app_length, drop_app_length
      by (rewrite length_app; lia).
    destruct (inspect_packet_Ok g p H1 H2) as (g1 & -> & E1 & E2). cbn [res_bind].
    destruct (IH fuel g1) as (g' & -> & E1' & E2').
    - simpl in Hf. rewrite length_app in Hf. lia.
    - rewrite E1. by apply wrap_is_u.
    - rewrite E2. by apply wrap_is_u.
    - exists g'. split; [done|]. rewrite E1', E2', E1, E2. unfold wrap.
      rewrite !Zplus_mod_idemp_l. split; f_equal; lia. }
  destruct (Hloop (S (length (capture pkts))) inspector_new) as (g & ? & ? & ?);
    [lia|by apply (bool_decide_eq_true_1 (is_u32 0))..|]. exists g. done.
Qed.

(** A capture of two packets: a ping in a packet the encoder built, and a header
    that announces more bytes than there are. *)
Module ToolRun.
#[local] Existing Instances toy_xxhash.
Definition ping_packet : bytes :=
  match (let! e := add_all (encoder PT_CONTROL 7 1 99) [(FT_PING, [0; 0; 0; 5; 0; 0; 0; 9])] in finalize e) with
  | Ok (pkt, _) => pkt
  | _ => []
  end.
Definition sample : list bytes := [ping_packet; [16; 1; 0]].
Lemma sample_fits : Forall pkt_fits sample.
Proof. repeat constructor; unfold pkt_fits, MAX_PACKET_SIZE; vm_compute; lia. Qed.
Lemma dump_capture_witness :
  read_length_prefixed (capture sample) =
    Ok ((dump_packets 0 sample).1 ++ [L_summary 2 (dump_packets 0 sample).2],
        if 0 <? (dump_packets 0 sample).2 then 1 else 0).
Proof. apply (dump_capture sample). apply sample_fits. Defined.
Example sample_lines :
  read_length_prefixed (capture sample) =
    Ok ([L_packet 0 "CONTROL" 1 7 1 99 11 "CHECKSUM" true; L_frame 0 0 "PING" 12 8; L_ping 5 9;
         L_parse_error 1 3; L_raw [49; 48; 32; 48; 49; 32; 48; 48]; L_summary 2 1], 1).
Proof. vm_compute. reflexivity. Qed.
Lemma inspect_capture_witness :
  ∃ g, passive_mode (capture sample) = Ok g ∧ g_total_packets g = 1 ∧ g_total_frames g = 1.
Proof.
  destruct (inspect_capture sample) as (g & E & H1 & H2); [apply sample_fits|].
  exists g. split; [exact E|]. rewrite H1, H2. vm_compute. split; reflexivity.
Defined.
End ToolRun.
