(* ===== verification/Cli.v ===== *)
(** * The main programs of the tools

    Models the argument parsing and [main] of [tools/protocoll_dump.cpp] and
    [tools/protocoll_inspect.cpp], and the UDP loop of the inspector, on top of Tools.v
    and Udp.v.  An argument is the list of its characters, [argv[0]] is left out.  A
    file system is a function from names to contents; the number of turns of the UDP
    loop before the signal arrives is an argument. *)
From stdpp Require Import strings.
From S2P Require Import Prelude Platform Frame Codec Transport Connection Udp Tools.
#[local] Open Scope string_scope.
#[local] Open Scope list_scope.
#[local] Open Scope Z_scope.

(** The characters of a literal. *)
Definition txt (s : string) : bytes := (λ c, Z.of_nat (Ascii.nat_of_ascii c)) <$> String.list_ascii_of_string s.
(** [arg[0] == '-'] *)
Definition dashed (arg : bytes) : bool := match arg with 45 :: _ => true | _ => false end.
Definition arg_is (arg : bytes) (s : string) : bool := bool_decide (arg = txt s).

(** ** protocoll-dump *)
Record DumpOpts := {
  do_use_hex : bool; do_length_prefixed : bool; do_hex_data : bytes; do_filename : bytes }.
Definition dump_opts_new : DumpOpts :=
  {| do_use_hex := false; do_length_prefixed := false; do_hex_data := []; do_filename := [] |}.
Definition do_set_lp (o : DumpOpts) (b : bool) : DumpOpts :=
  {| do_use_hex := do_use_hex o; do_length_prefixed := b; do_hex_data := do_hex_data o;
     do_filename := do_filename o |}.
Definition do_set_hex (o : DumpOpts) (h : bytes) : DumpOpts :=
  {| do_use_hex := true; do_length_prefixed := do_length_prefixed o; do_hex_data := h;
     do_filename := do_filename o |}.
Definition do_set_file (o : DumpOpts) (f : bytes) : DumpOpts :=
  {| do_use_hex := do_use_hex o; do_length_prefixed := do_length_prefixed o;
     do_hex_data := do_hex_data o; do_filename := f |}.
(** The loop over the arguments: the options, or the exit status after the usage text. *)
Fixpoint dump_args (args : list bytes) (o : DumpOpts) : DumpOpts + Z :=
  match args with
  | [] => inl o
  | arg :: rest =>
      let others :=
        if arg_is arg "--lp" then dump_args rest (do_set_lp o true)
        else if arg_is arg "--raw" then dump_args rest (do_set_lp o false)
        else if arg_is arg "-h" || arg_is arg "--help" then inr 0
        else if negb (dashed arg) then dump_args rest (do_set_file o arg)
        else inr 1 in
      match rest with
      | value :: rest' =>
          if arg_is arg "--hex" then dump_args rest' (do_set_hex o value) else others
      | [] => others
      end
  end.
Section Dump.
Context `{XxHash}.
Definition dump_stream (o : DumpOpts) (input : bytes) : res (list OutLine * Z) :=
  if do_length_prefixed o then read_length_prefixed input else read_raw input.
(** The usage text and the message about a file are not kept. *)
Definition dump_main (args : list bytes) (files : bytes → option bytes) (stdin : bytes)
    : res (list OutLine * Z) :=
  match dump_args args dump_opts_new with
  | inr code => Ok ([], code)
  | inl o =>
      if do_use_hex o then dump_hex (do_hex_data o) else
      if negb (length (do_filename o) =? 0)%nat then
        match files (do_filename o) with
        | None => Ok ([], 1)
        | Some content => dump_stream o content
        end
      else dump_stream o stdin
  end.
End Dump.

(** ** protocoll-inspect *)
Definition is_digit (c : Z) : bool := (48 <=? c) && (c <=? 57).
Definition is_space (c : Z) : bool := (c =? 32) || ((9 <=? c) && (c <=? 13)).
Fixpoint drop_space (s : bytes) : bytes :=
  match s with c :: s' => if is_space c then drop_space s' else s | [] => [] end.
Fixpoint dec_value (acc : Z) (s : bytes) : Z :=
  match s with
  | c :: s' => if is_digit c then dec_value (10 * acc + (c - 48)) s' else acc
  | [] => acc
  end.
(** [atoi]: a value that is no [int] is undefined. *)
Definition atoi (s : bytes) : res Z :=
  let s := drop_space s in
  let v := match s with
           | 45 :: s' => - dec_value 0 s'
           | 43 :: s' => dec_value 0 s'
           | _ => dec_value 0 s
           end in
  if (- 2 ^ 31 <=? v) && (v <? 2 ^ 31) then Ok v else Oob.

Record InspectOpts := { io_watch : bool; io_use_stdin : bool; io_host : bytes; io_port : Z }.
Definition inspect_opts_new : InspectOpts :=
  {| io_watch := false; io_use_stdin := false; io_host := []; io_port := 0 |}.
Fixpoint inspect_args (args : list bytes) (o : InspectOpts) : res (InspectOpts + Z) :=
  match args with
  | [] => Ok (inl o)
  | arg :: rest =>
      if arg_is arg "--watch" then
        inspect_args rest {| io_watch := true; io_use_stdin := io_use_stdin o; io_host := io_host o;
                             io_port := io_port o |}
      else if arg_is arg "--stdin" then
        inspect_args rest {| io_watch := io_watch o; io_use_stdin := true; io_host := io_host o;
                             io_port := io_port o |}
      else if arg_is arg "-h" || arg_is arg "--help" then Ok (inr 0)
      else if (length (io_host o) =? 0)%nat && negb (dashed arg) then
        inspect_args rest {| io_watch := io_watch o; io_use_stdin := io_use_stdin o; io_host := arg;
                             io_port := io_port o |}
      else if (io_port o =? 0) && negb (length (io_host o) =? 0)%nat then
        let! v := atoi arg in
        inspect_args rest {| io_watch := io_watch o; io_use_stdin := io_use_stdin o;
                             io_host := io_host o; io_port := u16 v |}
      else Ok (inr 1)
  end.

Section Inspect.
Context `{XxHash} `{Sockets} `{Inet} `{UnorderedIter}.
Fixpoint listen_loop (turns : nat) (u : UdpTransport) (s : os) (g : Inspector) : res (os * Inspector) :=
  match turns with
  | O => Ok (s, g)
  | S turns =>
      let '(s, (n, out)) := ud_recv_from u s MAX_PACKET_SIZE 100 in
      let! g := match out with Some (data, _) => inspect_packet g data | None => Ok g end in
      listen_loop turns u s g
  end.
(** The printed lines and the exit status; the destructor closes on every path. *)
Definition listen_mode (turns : nat) (s : os) (host : bytes) (port : Z)
    : res (os * list InspectLine * Z) :=
  let '(u, s, ok) := ud_bind ud_new s {| ep_address := host; ep_port := port |} in
  if negb ok then Ok (ud_destroy u s, [], 1) else
  let! (s, g) := listen_loop turns u s inspector_new in
  let '(u, s) := ud_close u s in
  Ok (ud_destroy u s, g_out g ++ print_state_tree g, 0).
Definition passive_main (stdin : bytes) : res (list InspectLine * Z) :=
  let! g := passive_mode stdin in Ok (g_out g ++ print_state_tree g, 0).
Definition inspect_main (turns : nat) (args : list bytes) (stdin : bytes) (s : os)
    : res (os * list InspectLine * Z) :=
  let! r := inspect_args args inspect_opts_new in
  match r with
  | inr code => Ok (s, [], code)
  | inl o =>
      let passive := let! (out, code) := passive_main stdin in Ok (s, out, code) in
      if io_use_stdin o then passive else
      if negb (length (io_host o) =? 0)%nat && (0 <? io_port o) then
        listen_mode turns s (io_host o) (io_port o) else
      if (length (io_host o) =? 0)%nat && (io_port o =? 0) then passive else Ok (s, [], 1)
  end.
End Inspect.

(** ** The dump program *)
Section DumpTheorems.
Context `{XxHash}.
Lemma dump_stream_Ok o input :
  ∃ out code, dump_stream o input = Ok (out, code) ∧ (code = 0 ∨ code = 1).
Proof.
  unfold dump_stream. destruct (do_length_prefixed o).
  - unfold read_length_prefixed.
    destruct (read_lp_total (S (length input)) input 0 0 []) as (out & i & e & ->); [lia|].
    eexists _, _. split; [done|]. case_match; auto.
  - unfold read_raw. case_bool_decide; [by eexists _, _; split; [|right]|].
    case_match; [apply decode_and_print_Ok|by eexists _, _; split; [|right]].
Qed.
Lemma dump_hex_Ok hex : ∃ out code, dump_hex hex = Ok (out, code) ∧ (code = 0 ∨ code = 1).
Proof.
  unfold dump_hex. case_bool_decide; [by eexists _, _; split; [|right]|apply decode_and_print_Ok].
Qed.
Lemma dump_args_code args o code : dump_args args o = inr code → code = 0 ∨ code = 1.
Proof.
  remember (length args) as n eqn:Hn. revert args o Hn.
  induction n as [n IH] using lt_wf_ind; intros [|arg rest] o ->; [done|]. cbn [dump_args length] in *.
  assert (∀ o', dump_args rest o' = inr code → code = 0 ∨ code = 1) as Hrest
    by (intros o'; eapply IH; [|done]; lia).
  set (others := if arg_is arg "--lp" then _ else _).
  assert (others = inr code → code = 0 ∨ code = 1) as Ho.
  { subst others. repeat case_match; try apply Hrest; intros [= <-]; auto. }
  destruct rest as [|value rest']; [done|]. case_match; [|done]. eapply IH; [|done]. simpl. lia.
Qed.

(** The dump program ends on every command line, every file and every standard input
    without undefined behaviour, with status 0 or 1; a capture named behind [--lp] is
    split into its packets, and the hexadecimal text the tool prints of a packet is read
    back by [--hex] as that packet. *)
Theorem dump_main_total (args : list bytes) (files : bytes → option bytes) (stdin : bytes) :
  ∃ out code, dump_main args files stdin = Ok (out, code) ∧ (code = 0 ∨ code = 1).
Proof.
  unfold dump_main. destruct (dump_args args dump_opts_new) as [o|code] eqn:E.
  - destruct (do_use_hex o); [apply dump_hex_Ok|].
    destruct (negb _); [|apply dump_stream_Ok].
    destruct (files _); [apply dump_stream_Ok|by eexists _, _; split; [|right]].
  - apply dump_args_code in E. by eexists _, _.
Qed.
Lemma dump_main_capture files stdin file pkts :
  Forall pkt_fits pkts → dashed file = false → file ≠ [] → files file = Some (capture pkts) →
  dump_main [txt "--lp"; file] files stdin =
    Ok ((dump_packets 0 pkts).1 ++ [L_summary (Z.of_nat (length pkts)) (dump_packets 0 pkts).2],
        if 0 <? (dump_packets 0 pkts).2 then 1 else 0).
Proof.
  intros Hp Hd Hne Hf. unfold dump_main.
  assert (∀ s, dashed (txt s) = true → arg_is file s = false) as Hs.
  { intros s Hs. unfold arg_is. apply bool_decide_eq_false_2. intros ->. congruence. }
  assert (dump_args [txt "--lp"; file] dump_opts_new = inl (do_set_file (do_set_lp dump_opts_new true) file)) as ->.
  { cbn [dump_args]. change (arg_is (txt "--lp") "--hex") with false.
    change (arg_is (txt "--lp") "--lp") with true. cbv iota.
    rewrite !Hs by reflexivity. by rewrite Hd. }
  simpl. destruct file; [done|]. simpl. rewrite Hf. unfold dump_stream. simpl. by apply dump_capture.
Qed.
Lemma dump_main_hex files stdin pkt max_show :
  wf_bytes pkt → (0 < length pkt ≤ max_show)%nat →
  dump_main [txt "--hex"; hex_bytes pkt max_show] files stdin = decode_and_print pkt 0.
Proof.
  intros Hw Hl. unfold dump_main. cbn [dump_args]. change (arg_is (txt "--hex") "--hex") with true. cbv iota.
  simpl. unfold dump_hex. rewrite hex_roundtrip by (done || lia).
  rewrite bool_decide_eq_false_2; [done|]. intros ->. simpl in Hl. lia.
Qed.
End DumpTheorems.

(** ** The inspector *)
Section InspectTheorems.
Context `{XxHash}.
(** The inspector over datagrams, one after the other. *)
Definition inspect_all (g : Inspector) (pkts : list bytes) : res Inspector := res_foldl inspect_packet g pkts.
Lemma inspect_all_Ok g pkts :
  is_u32 (g_total_packets g) → is_u32 (g_total_frames g) →
  ∃ g', inspect_all g pkts = Ok g' ∧
    g_total_packets g' = u32 (g_total_packets g + Z.of_nat (sum_list (packets_in <$> pkts))) ∧
    g_total_frames g' = u32 (g_total_frames g + Z.of_nat (sum_list (frames_in <$> pkts))).
Proof.
  revert g. induction pkts as [|p pkts IH]; intros g H1 H2.
  { exists g. simpl. by rewrite !Z.add_0_r, !wrap_id. }
  rewrite !fmap_cons. cbn [inspect_all res_foldl sum_list_with id].
  destruct (inspect_packet_Ok g p H1 H2) as (g1 & -> & E1 & E2). cbn [res_bind].
  destruct (IH g1) as (g' & Eg & E1' & E2'); [rewrite E1; by apply wrap_is_u|rewrite E2; by apply wrap_is_u|].
  exists g'. split; [exact Eg|]. rewrite E1', E2', E1, E2. unfold wrap. rewrite !Zplus_mod_idemp_l.
  split; f_equal; lia.
Qed.
Lemma passive_loop_Ok fuel input g :
  (length input < fuel)%nat → is_u32 (g_total_packets g) → is_u32 (g_total_frames g) →
  ∃ g', passive_loop fuel input g = Ok g'.
Proof.
  revert input g. induction fuel as [|fuel IH]; intros input g Hf H1 H2; [lia|]. cbn [passive_loop].
  destruct input as [|hi [|lo rest]]; [by eexists..|]. case_match; [by eexists|]. case_match; [by eexists|].
  set (n := Z.to_nat _). destruct (inspect_packet_Ok g (take n rest) H1 H2) as (g1 & -> & E1 & E2).
  cbn [res_bind]. apply IH; [rewrite length_drop; simpl in Hf; lia|..].
  - rewrite E1. by apply wrap_is_u.
  - rewrite E2. by apply wrap_is_u.
Qed.
(** Reading a capture is a run over its packets. *)
Lemma passive_loop_capture fuel pkts g :
  Forall pkt_fits pkts → (length (capture pkts) < fuel)%nat →
  passive_loop fuel (capture pkts) g = inspect_all g pkts.
Proof.
  intros Hp. revert fuel g. induction Hp as [|p pkts Hp Hps IH]; intros fuel g Hf; [by destruct fuel; [lia|]|].
  unfold capture, inspect_all in *. rewrite fmap_cons in *. cbn [concat res_foldl] in *.
  destruct (lp_packet_read p (concat (lp_packet <$> pkts)) Hp) as (hi & lo & E & El & Ev). rewrite E in *.
  destruct fuel as [|fuel]; [simpl in Hf; lia|]. cbn [passive_loop]. rewrite Ev, El. cbn [negb].
  rewrite Nat2Z.id, (proj2 (Nat.ltb_ge _ _)), take_app_length, drop_app_length by (rewrite length_app; lia).
  destruct (inspect_packet g p); [cbn [res_bind]|done..]. apply IH. simpl in Hf. rewrite length_app in Hf. lia.
Qed.

Context `{Sockets} `{Inet} `{UnorderedIter}.
(** The datagrams the operating system hands out in [turns] receives on a descriptor
    with a time limit of 100 ms each and a buffer of one packet. *)
Fixpoint os_datagrams (turns : nat) (fd : Z) (s : os) : list bytes :=
  match turns with
  | O => []
  | S turns =>
      let s := (sys_rcvtimeo s fd (0, 100000)).1 in
      let '(s, (r, data, _)) := sys_recvfrom s fd MAX_PACKET_SIZE in
      (if 0 <? r then [data] else []) ++ os_datagrams turns fd s
  end.
(** A run of the UDP loop is a run over the datagrams handed out. *)
Lemma listen_loop_Ok turns u s g :
  ud_sock u ≠ INVALID_SOCK → is_u32 (g_total_packets g) → is_u32 (g_total_frames g) →
  ∃ s' g', listen_loop turns u s g = Ok (s', g') ∧
    inspect_all g (os_datagrams turns (ud_sock u) s) = Ok g' ∧ open_fds s' = open_fds s.
Proof.
  intros Hu. revert s g. induction turns as [|turns IH]; intros s g Hp32 Hf32; cbn [listen_loop os_datagrams].
  { by exists s, g. }
  destruct (ud_recv_from u s MAX_PACKET_SIZE 100) as [s1 [n out]] eqn:Er.
  pose proof (ud_recv_spec _ _ _ _ _ _ _ Er) as [Efd _]. revert Er. unfold ud_recv_from.
  rewrite (proj2 (Z.eqb_neq _ _)) by done. unfold set_recv_timeout. cbn [Z.eqb Z.ltb Z.compare].
  change (Z.quot 100 1000, Z.rem 100 1000 * 1000) with (0, 100000).
  destruct (sys_rcvtimeo s (ud_sock u) (0, 100000)) as [s2 r2]. cbn [fst negb].
  destruct (sys_recvfrom s2 (ud_sock u) MAX_PACKET_SIZE) as [s3 [[r data] a]]. intros [= <- <- <-].
  destruct (0 <? r).
  - destruct (inspect_packet_Ok g data Hp32 Hf32) as (g1 & Eg & E1 & E2). rewrite Eg. cbn [res_bind].
    destruct (IH s3 g1) as (s' & g' & El & Ea & Ef);
      [rewrite E1; by apply wrap_is_u|rewrite E2; by apply wrap_is_u|].
    exists s', g'. split_and!; [done| |congruence]. unfold inspect_all in *. cbn [res_foldl app]. by rewrite Eg.
  - cbn [res_bind]. destruct (IH s3 g Hp32 Hf32) as (s' & g' & El & Ea & Ef).
    exists s', g'. split_and!; [done..|congruence].
Qed.
Lemma ud_destroy_fds base u s : owns base u s → open_fds (ud_destroy u s) = base.
Proof.
  intros Ho. destruct (ud_close_owns _ _ _ Ho) as [[Hc _] Hi]. unfold ud_destroy, sock_set in *.
  rewrite Hi in Hc. simpl in Hc. by rewrite union_empty_r_L in Hc.
Qed.
Lemma ud_bind_new s local :
  owns (open_fds s) (ud_bind ud_new s local).1.1 (ud_bind ud_new s local).1.2 ∧
  (ud_bind ud_new s local).2 = negb (ud_sock (ud_bind ud_new s local).1.1 =? INVALID_SOCK).
Proof. apply ud_bind_owns. split; [|done]. unfold sock_set. simpl. by rewrite union_empty_r_L. Qed.
(** What the program prints for packets it read. *)
Definition inspected (pkts : list bytes) (out : list InspectLine) : Prop :=
  ∃ g, inspect_all inspector_new pkts = Ok g ∧ out = g_out g ++ print_state_tree g ∧
    g_total_packets g = u32 (Z.of_nat (sum_list (packets_in <$> pkts))) ∧
    g_total_frames g = u32 (Z.of_nat (sum_list (frames_in <$> pkts))).
Lemma inspected_all pkts g :
  inspect_all inspector_new pkts = Ok g → inspected pkts (g_out g ++ print_state_tree g).
Proof.
  intros E. destruct (inspect_all_Ok inspector_new pkts) as (g' & Eg & E1 & E2); [done..|].
  rewrite E in Eg. injection Eg as <-. exists g. split_and!; [done..|by rewrite E1|by rewrite E2].
Qed.
Lemma listen_mode_Ok turns s host port :
  let '(u, s1, ok) := ud_bind ud_new s {| ep_address := host; ep_port := port |} in
  ∃ s' out, listen_mode turns s host port = Ok (s', out, if ok then 0 else 1) ∧
    open_fds s' = open_fds s ∧
    (if ok then inspected (os_datagrams turns (ud_sock u) s1) out else out = []).
Proof.
  unfold listen_mode.
  pose proof (ud_bind_new s {| ep_address := host; ep_port := port |}) as [Ho Hok].
  destruct (ud_bind ud_new s _) as [[u s1] ok]. simpl in Ho, Hok. destruct ok; cbn [negb].
  - destruct (listen_loop_Ok turns u s1 inspector_new) as (s2 & g & -> & Ea & Efd); [|done..|].
    { intros E. by rewrite E in Hok. }
    cbn [res_bind]. assert (owns (open_fds s) u s2) as Ho2 by (destruct Ho; split; [congruence|done]).
    destruct (ud_close_owns _ _ _ Ho2) as [Hc _]. destruct (ud_close u s2) as [u3 s3]. simpl in Hc.
    eexists _, _. split; [done|]. split; [by apply ud_destroy_fds|]. by apply inspected_all.
  - eexists _, _. split; [done|]. split; [by apply ud_destroy_fds|done].
Qed.
Lemma passive_main_Ok stdin :
  ∃ out, passive_main stdin = Ok (out, 0) ∧
    ∀ pkts, Forall pkt_fits pkts → stdin = capture pkts → inspected pkts out.
Proof.
  unfold passive_main, passive_mode.
  destruct (passive_loop_Ok (S (length stdin)) stdin inspector_new) as [g Eg]; [lia|done..|].
  rewrite Eg. eexists. split; [done|]. intros pkts Hp ->. apply inspected_all.
  rewrite <-Eg. symmetry. apply passive_loop_capture; [done|lia].
Qed.
(** A text whose number is an [int]. *)
Definition int_text (arg : bytes) : Prop := ∃ v, atoi arg = Ok v.
Lemma inspect_args_Ok args o :
  Forall int_text args → is_u16 (io_port o) →
  ∃ r, inspect_args args o = Ok r ∧
    match r with inl o' => is_u16 (io_port o') | inr code => code = 0 ∨ code = 1 end.
Proof.
  revert o. induction args as [|arg args IH]; intros o Ha Hp; cbn [inspect_args]; [by eexists|].
  apply Forall_cons in Ha as [[v Ev] Has]. do 2 (case_match; [by apply IH|]).
  case_match; [exists (inr 0); by auto|]. case_match; [by apply IH|].
  case_match; [|exists (inr 1); by auto].
  rewrite Ev. cbn [res_bind]. apply IH; [done|]. simpl. by apply wrap_is_u.
Qed.

(** C40: The inspector ends on every command line whose words, where they start with a
    number, start with an [int], on every standard input and every operating system, and
    for every number of turns before it is interrupted: no undefined behaviour, status 0
    or 1, and the descriptors open before are the ones open after, on the path where
    [bind] fails too.  With a host and a port the status tells whether [bind] succeeded,
    and then it prints exactly what the packet decoder makes of the datagrams that the
    operating system handed out on the bound socket in those turns, each once and in
    their order, with their packets and frames as totals.  Reading a capture from the
    standard input it prints what the decoder makes of the capture's packets. *)
Theorem inspect_main_total (turns : nat) (args : list bytes) (stdin : bytes) (s : os)
    (Hargs : Forall int_text args) :
  ∃ s' out code, inspect_main turns args stdin s = Ok (s', out, code) ∧
    (code = 0 ∨ code = 1) ∧ open_fds s' = open_fds s ∧
    (∀ o, inspect_args args inspect_opts_new = Ok (inl o) →
       (io_use_stdin o = false → io_host o ≠ [] → io_port o ≠ 0 →
        let '(u, s1, ok) := ud_bind ud_new s {| ep_address := io_host o; ep_port := io_port o |} in
        code = (if ok then 0 else 1) ∧
        if ok then inspected (os_datagrams turns (ud_sock u) s1) out else out = []) ∧
       (io_use_stdin o = true ∨ io_host o = [] ∧ io_port o = 0 →
        code = 0 ∧ ∀ pkts, Forall pkt_fits pkts → stdin = capture pkts → inspected pkts out)).
Proof.
  unfold inspect_main. destruct (inspect_args_Ok args inspect_opts_new) as (r & -> & Hr); [done..|].
  cbn [res_bind]. destruct r as [o|code]; [|by eexists _, _, _; split_and!].
  destruct (passive_main_Ok stdin) as (out & Epas & Hpas).
  destruct (io_use_stdin o) eqn:Eu.
  { rewrite Epas. eexists _, _, _. split_and!; [done|by left|done|]. intros o' [= <-]. by split; [congruence|]. }
  destruct (io_host o) as [|c host] eqn:Eh; cbn [length Nat.eqb negb andb].
  { rewrite Epas. destruct (Z.eqb_spec (io_port o) 0); eexists _, _, _;
      (split_and!; [done|auto|done|intros o' [= <-]; split; [congruence|]]); [done|].
    intros [?|[_ ?]]; congruence. }
  destruct (Z.ltb_spec 0 (io_port o)).
  - pose proof (listen_mode_Ok turns s (c :: host) (io_port o)) as Hl.
    destruct (ud_bind ud_new s {| ep_address := c :: host; ep_port := io_port o |}) as [[u s1] ok] eqn:Eb.
    destruct Hl as (s' & out' & -> & Efd & Hc).
    eexists _, _, _. split_and!; [done|destruct ok; auto|done|]. intros o' [= <-].
    rewrite Eh, Eb. split; [done|]. intros [?|[? _]]; congruence.
  - eexists _, _, _. split_and!; [done|by right|done|]. intros o' [= <-]. unfold is_u16, is_u in Hr.
    split; [intros; lia|]. intros [?|[? _]]; congruence.
Qed.
End InspectTheorems.

(** ** Port texts *)
Fixpoint dec_text (fuel : nat) (n : Z) : bytes :=
  match fuel with
  | O => []
  | S fuel => if n <? 10 then [48 + n] else dec_text fuel (n / 10) ++ [48 + n mod 10]
  end.
Lemma dec_value_snoc acc s d :
  Forall (λ c, is_digit c = true) s → is_digit d = true →
  dec_value acc (s ++ [d]) = 10 * dec_value acc s + (d - 48).
Proof.
  intros Hs Hd. revert acc. induction Hs as [|c s Hc Hs IH]; intros acc; simpl; [by rewrite Hd|].
  by rewrite Hc, IH.
Qed.
Lemma dec_text_spec fuel n :
  0 ≤ n < 10 ^ Z.of_nat fuel →
  Forall (λ c, is_digit c = true) (dec_text fuel n) ∧ dec_value 0 (dec_text fuel n) = n ∧
  (fuel ≠ O → dec_text fuel n ≠ []).
Proof.
  assert (∀ d, 0 ≤ d < 10 → is_digit (48 + d) = true) as Hdig.
  { intros d Hd. unfold is_digit. apply andb_true_iff. split; apply Z.leb_le; lia. }
  revert n. induction fuel as [|fuel IH]; intros n Hn; [simpl in *; split_and!; [done|lia|done]|].
  cbn [dec_text]. rewrite Nat2Z.inj_succ, Z.pow_succ_r in Hn by lia.
  destruct (Z.ltb_spec n 10).
  - assert (is_digit (48 + n) = true) as Hd by (apply Hdig; lia). split_and!; [by repeat constructor| |done].
    simpl. rewrite Hd. lia.
  - destruct (IH (n / 10)) as (Hf & Hv & _).
    { split; [apply Z.div_pos; lia|]. apply Z.div_lt_upper_bound; lia. }
    pose proof (Z.mod_pos_bound n 10). assert (is_digit (48 + n mod 10) = true) as Hd by (apply Hdig; lia).
    split_and!.
    + apply Forall_app. split; [done|by repeat constructor].
    + rewrite dec_value_snoc, Hv by done. pose proof (Z.div_mod n 10). lia.
    + intros _ ?%app_nil. naive_solver.
Qed.
Lemma atoi_dec_text n : 0 ≤ n < 2 ^ 31 → atoi (dec_text 10 n) = Ok n.
Proof.
  intros Hn. destruct (dec_text_spec 10 n) as (Hf & Hv & Hne); [lia|]. unfold atoi.
  destruct (dec_text 10 n) as [|c s]; [by destruct Hne|].
  apply Forall_cons in Hf as [Hc _]. unfold is_digit in Hc. apply andb_true_iff in Hc as [H1 H2].
  apply Z.leb_le in H1, H2. assert (is_space c = false) as Hs.
  { unfold is_space. apply orb_false_iff. split; [apply Z.eqb_neq; lia|].
    apply andb_false_iff. right. apply Z.leb_gt. lia. }
  cbn [drop_space]. rewrite Hs. assert (match c :: s with 45 :: s' => - dec_value 0 s' | 43 :: s' => dec_value 0 s' | _ => dec_value 0 (c :: s) end = n) as ->.
  { destruct c as [|p|p]; try lia. do 7 (destruct p as [p|p|]; try lia; try exact Hv). }
  rewrite (proj2 (Z.leb_le _ _)), (proj2 (Z.ltb_lt _ _)) by lia. done.
Qed.
(** A host and the decimal text of a number: the port is the number cut to 16 bits, so the
    number itself for every port, and 70000 asks for port 4464. *)
Lemma inspect_args_port host n :
  host ≠ [] → dashed host = false → 0 ≤ n < 2 ^ 31 →
  inspect_args [host; dec_text 10 n] inspect_opts_new =
    Ok (inl {| io_watch := false; io_use_stdin := false; io_host := host; io_port := u16 n |}).
Proof.
  intros Hne Hd Hn.
  assert (∀ a s, dashed a = false → dashed (txt s) = true → arg_is a s = false) as Hs.
  { intros a s Ha Hs. unfold arg_is. apply bool_decide_eq_false_2. intros ->. congruence. }
  assert (dashed (dec_text 10 n) = false) as Hdt.
  { destruct (dec_text_spec 10 n) as (Hf & _); [lia|]. destruct (dec_text 10 n) as [|c s]; [done|].
    apply Forall_cons in Hf as [Hc _]. unfold is_digit in Hc. apply andb_true_iff in Hc as [H1 _].
    apply Z.leb_le in H1. unfold dashed. destruct c as [|p|p]; try lia. do 6 (destruct p as [p|p|]; try done; try lia). }
  pose proof (atoi_dec_text n Hn) as Hat. revert Hdt Hat. generalize (dec_text 10 n) as t. intros t Hdt Hat.
  cbn [inspect_args]. rewrite !Hs by done. rewrite Hd. cbn. rewrite (proj2 (Nat.eqb_neq _ _)) by (by destruct host).
  cbn. by rewrite Hat.
Qed.

(** ** Examples *)
Module CliRun.
#[local] Existing Instances toy_xxhash toy_inet.
Import UdpRun.
(** Datagrams from a node at 10.0.0.2 wait in the queue. *)
Definition from_there : SockAddr := {| sin_port := 1; sin_addr := [10; 0; 0; 2] |}.
Definition waiting (pkts : list bytes) : ToyOs :=
  {| to_fds := {[0; 1; 2]}; to_queue := (λ p, (p, from_there)) <$> pkts |}.
Definition run (turns : nat) (args : list bytes) (s : ToyOs) : res (ToyOs * list InspectLine * Z) :=
  inspect_main turns args [] s.
Definition host_arg : bytes := txt "10.0.0.2".
(** The ping of the capture and a header that announces too much, on the network. *)
Definition on_air : list bytes := ToolRun.sample.
Lemma inspect_main_total_witness :
  Forall int_text [host_arg; txt "9000"; txt "--watch"] ∧
  ∃ s' out, run 3 [host_arg; txt "9000"; txt "--watch"] (waiting on_air) = Ok (s', out, 0) ∧
    open_fds (Sockets := toy_sockets) s' = to_fds (waiting on_air) ∧
    inspected on_air out ∧ I_total 1 1 ∈ out.
Proof.
  assert (Forall int_text [host_arg; txt "9000"; txt "--watch"]) as Ha
    by (repeat constructor; eexists; vm_compute; reflexivity).
  split; [exact Ha|].
  destruct (inspect_main_total (H0 := toy_sockets) 3 [host_arg; txt "9000"; txt "--watch"] [] (waiting on_air) Ha)
    as (s' & out & code & E & Hc & Hf & Hin).
  destruct (Hin {| io_watch := true; io_use_stdin := false; io_host := host_arg; io_port := 9000 |}) as [Hl _];
    [vm_compute; reflexivity|].
  specialize (Hl eq_refl ltac:(discriminate) ltac:(discriminate)).
  cbn [io_host io_port] in Hl.
  match type of Hl with context [@ud_bind ?cs ?ci ?u ?s ?l] =>
    destruct (@ud_bind cs ci u s l) as [[u1 s1] ok] eqn:Eb end.
  assert (ok = true ∧ os_datagrams 3 (ud_sock u1) s1 = on_air) as [-> Hd]
    by (vm_compute in Eb; injection Eb as <- <- <-; vm_compute; split; reflexivity).
  destruct Hl as [-> Hl]. rewrite Hd in Hl. exists s', out. split; [exact E|]. split; [exact Hf|].
  split; [exact Hl|]. destruct Hl as (g & _ & -> & E1 & E2). unfold print_state_tree.
  rewrite E1, E2. apply elem_of_app. right. apply elem_of_app. right. vm_compute. constructor.
Defined.
(** A number that is no port is cut to one: 70000 listens on port 4464. *)
Example port_is_cut :
  inspect_args [host_arg; txt "70000"] inspect_opts_new =
    Ok (inl {| io_watch := false; io_use_stdin := false; io_host := host_arg; io_port := 4464 |}).
Proof. vm_compute. reflexivity. Qed.
(** A number that is cut to zero is not one: the next argument is read as the port. *)
Example port_zero_then_port :
  inspect_args [host_arg; txt "65536"; txt "9000"] inspect_opts_new =
    Ok (inl {| io_watch := false; io_use_stdin := false; io_host := host_arg; io_port := 9000 |}).
Proof. vm_compute. reflexivity. Qed.
(** A third word after a port ends with the usage text, and a number that is no [int] is
    undefined. *)
Example extra_argument : inspect_args [host_arg; txt "9000"; txt "9001"] inspect_opts_new = Ok (inr 1).
Proof. vm_compute. reflexivity. Qed.
Example port_not_int : inspect_args [host_arg; txt "99999999999"] inspect_opts_new = Oob.
Proof. vm_compute. reflexivity. Qed.
(** [--local] of the header comment is no option. *)
Example local_unknown : inspect_args [txt "--local"] inspect_opts_new = Ok (inr 1).
Proof. vm_compute. reflexivity. Qed.
(** [--hex] as the last word is an unknown option; a later file name wins. *)
Example dump_hex_last : dump_args [txt "--hex"] dump_opts_new = inr 1.
Proof. vm_compute. reflexivity. Qed.
Example dump_last_file :
  dump_args [txt "a"; txt "--lp"; txt "b"; txt "--raw"] dump_opts_new =
    inl {| do_use_hex := false; do_length_prefixed := false; do_hex_data := []; do_filename := txt "b" |}.
Proof. vm_compute. reflexivity. Qed.
End CliRun.
