(* ===== verification/PeerReplication.v ===== *)
(** * Replication between two peers

    The deltas one peer sends are the deltas the other applies: [send_deltas_to]
    composed with [on_datagram] acts on the receiver's registry exactly as applying
    the deltas one after the other, with the signatures, the packet codec and the
    connection layer in between. *)
From S2P Require Import Prelude Platform Frame Codec VersionVector GCounter LwwRegister Crdt.
From S2P Require Import StatePath StateRegistry Resolution Subscription AckTracker Transport.
From S2P Require Import Connection Capability Float64 Routing Peer PeerSafety PeerApi.

(** ** Specification: apply the deltas in order *)
Fixpoint apply_all (r : StateRegistry) (ds : list PendingDelta)
    : res (StateRegistry * Z * list UpdateEvent) :=
  match ds with
  | [] => Ok (r, 0, [])
  | d :: ds' =>
      let! (r1, changed, ev) := sreg_apply_delta r (pd_path_hash d) (pd_data d) in
      let! (r2, n, ev') := apply_all r1 ds' in
      Ok (r2, (if (changed : bool) then 1 + n else n), ev ++ ev')
  end.
Definition pending_ok (d : PendingDelta) : Prop :=
  is_u32 (pd_path_hash d) ∧ enum_ok (pd_crdt_type d) ∧ enum_ok (pd_reliability d) ∧ wf_bytes (pd_data d).

Section Replication.
Context `{XxHash} `{Ed25519} `{UnorderedIter} `{StdSort} {T : Type} `{!Transport T}.
Context (clock : nat → Z).

Definition delta_frames (keys : KeyPair) (node : Z) (ds : list PendingDelta) : list (FrameType * bytes) :=
  (λ d, (FT_STATE_DELTA, signed_delta keys node d)) <$> ds.

(** ** What sending and receiving leave alone

    The identity, the keys and the filters of the peer, and of every connection its
    state, its remote endpoint, its identifiers and its epoch. *)
Definition conn_core (mc : ManagedConnection) : ConnectionState * Endpoint * Z * Z * Z :=
  let c := mc_conn mc in (cn_state c, cn_remote c, cn_local_conn_id c, cn_remote_conn_id c, cn_epoch c).
Definition conn_same (mc mc' : ManagedConnection) : Prop :=
  conn_core mc' = conn_core mc ∧ (cn_ok (mc_conn mc) → cn_ok (mc_conn mc')).
#[global] Instance conn_same_preorder : PreOrder conn_same.
Proof.
  split; [done|]. intros a b c [E1 Ha] [E2 Hb]. split; [congruence|auto].
Qed.
Definition steady (p p' : Peer T) : Prop :=
  (p_node_id p', p_keys p', p_peer_keys p', p_access_control p', p_delta_filters p') =
  (p_node_id p, p_keys p, p_peer_keys p, p_access_control p, p_delta_filters p) ∧
  ∀ i, option_Forall2 conn_same (cm_conns (p_conn_mgr p) !! i) (cm_conns (p_conn_mgr p') !! i).
#[global] Instance steady_preorder : PreOrder steady.
Proof.
  split.
  - intros p. split; [done|]. intros i. reflexivity.
  - intros p q r [E1 Hp] [E2 Hq]. split; [congruence|]. intros i. etrans; [apply Hp|apply Hq].
Qed.
Lemma steady_conns (p p' : Peer T) :
  (p_node_id p', p_keys p', p_peer_keys p', p_access_control p', p_delta_filters p') =
  (p_node_id p, p_keys p, p_peer_keys p, p_access_control p, p_delta_filters p) →
  cm_conns (p_conn_mgr p') = cm_conns (p_conn_mgr p) → steady p p'.
Proof. intros E Hc. split; [done|]. intros i. by rewrite Hc. Qed.
(** A connection is replaced by one with the same core. *)
Lemma steady_put (p p' : Peer T) id mc mc' :
  (p_node_id p', p_keys p', p_peer_keys p', p_access_control p', p_delta_filters p') =
  (p_node_id p, p_keys p, p_peer_keys p, p_access_control p, p_delta_filters p) →
  cm_conns (p_conn_mgr p) !! id = Some mc → conn_same mc mc' →
  cm_conns (p_conn_mgr p') = <[id := mc']> (cm_conns (p_conn_mgr p)) → steady p p'.
Proof.
  intros E Hmc Hs Hc. split; [done|]. intros i. rewrite Hc. destruct (decide (i = id)) as [->|Hne].
  - rewrite Hmc, lookup_insert_eq. by constructor.
  - by rewrite lookup_insert_ne.
Qed.

(** ** Sender *)
Lemma cm_get_put m id mc : cm_get (cm_put m id mc) id = Some mc.
Proof. unfold cm_get, cm_put. simpl. by rewrite lookup_insert_eq. Qed.
Lemma send_loop_fits id (p : Peer T) ds : ∀ enc p0 n,
  enc_ok enc p0 →
  (PACKET_HEADER_SIZE + length p0 + wire_size_of (delta_frames (p_keys p) (p_node_id p) ds)
     ≤ MAX_PACKET_SIZE)%nat →
  ∃ buf c, send_deltas_loop clock id ds enc n p
           = Ok (p, (with_buffer enc buf c, n + Z.of_nat (length ds))) ∧
    enc_ok (with_buffer enc buf c) (p0 ++ wires (delta_frames (p_keys p) (p_node_id p) ds)).
Proof.
  induction ds as [|d ds IH]; intros enc p0 n He Hle; cbn [send_deltas_loop].
  { exists (pe_buf enc), (pe_cursor enc). unfold wires. simpl. rewrite app_nil_r, Z.add_0_r. by destruct enc. }
  unfold delta_frames in Hle. rewrite fmap_cons, wire_size_of_cons in Hle. fold (delta_frames (p_keys p) (p_node_id p) ds) in Hle.
  unfold mbind, PM_bind at 1, pm_get. cbn [res_bind]. unfold PM_bind at 1, pm_lift.
  rewrite build_signed_delta_spec. cbn [res_bind]. set (payload := signed_delta _ _ _) in *.
  rewrite (wrap_id 16 (Z.of_nat (length payload))) by (sizes; zify_u; lia).
  destruct (add_frame_Ok enc p0 FT_STATE_DELTA payload [] He) as (buf & c & Ha & He1); [sizes; lia|].
  rewrite app_nil_r in Ha. unfold PM_bind at 1. rewrite Ha. cbn [res_opt res_bind].
  unfold PM_bind at 1, mret, PM_ret. cbn [res_bind].
  destruct (IH _ _ (n + 1) He1) as (buf' & c' & -> & He2).
  { rewrite length_app. unfold frame_wire, mk_frame; cbn [fr_header fr_payload fh_type fh_length length].
    rewrite length_app, length_be16. sizes. lia. }
  exists buf', c'. split.
  { replace (n + Z.of_nat (length (d :: ds))) with (n + 1 + Z.of_nat (length ds)) by (simpl; lia). done. }
  unfold delta_frames, wires. rewrite !fmap_cons. cbn [concat fst snd]. rewrite app_assoc. exact He2.
Qed.

Lemma send_packet_spec id (p : Peer T) mc enc p0 :
  enc_ok enc p0 → cm_get (p_conn_mgr p) id = Some mc → mc_ok id mc → peer_ok p →
  ∃ p' enc' num ts,
    let pkt := packet_bytes (set_timestamp (set_packet_number enc num) ts) p0 in
    pm_send_packet clock id enc p = Ok (p', enc') ∧ peer_at id p' ∧
    num = cn_send_pkt_num (mc_conn mc) ∧ is_u32 ts ∧
    p_transport p' = (t_send_to (p_transport p) pkt (cn_remote (mc_conn mc))).1 ∧
    steady p p' ∧ p_state p' = p_state p ∧ p_update_log p' = p_update_log p ∧
    p_clock_reads p' = S (S (p_clock_reads p)).
Proof.
  intros He Emc Hmc Hp.
  assert (peer_at id p) as Hat by (split; [done|by exists mc]).
  destruct (keeps_send_packet clock id enc p0 He p Hat) as (p' & enc' & E & Hp' & _).
  exists p', enc', (cn_send_pkt_num (mc_conn mc)),
    (cn_elapsed_us (cn_next_send_packet_number (mc_conn mc)).1 (clock (p_clock_reads p))).
  split; [done|]. split; [done|]. split; [done|]. split; [apply elapsed_is_u|].
  revert E. unfold pm_send_packet, pm_conn, pm_put_conn, pm_mc, pm_lift, pm_now, pm_send_to,
    pm_put_mc, pm_modify, pm_get, mbind, PM_bind, mret, PM_ret. cbn [res_bind]. rewrite Emc. cbn [res_bind].
  unfold cn_next_send_packet_number. cbn [res_bind fst]. rewrite Emc. cbn [res_bind].
  rewrite finalize_Ok with (p := p0) by (by apply enc_ok_set_ts, enc_ok_set_num). cbn [res_bind].
  cbn [p_transport p_set_clock_reads p_set_conn_mgr p_clock_reads].
  destruct (t_send_to _ _ _) as [t k]. cbn [res_bind fst].
  cbn [p_conn_mgr p_set_clock_reads p_set_transport p_set_conn_mgr]. rewrite cm_get_put. cbn [res_bind].
  intros E. simplify_eq. split; [done|]. split; [|done]. simpl.
  eapply steady_put; [done|exact Emc| |simpl; by rewrite insert_insert_eq].
  split; [done|]. apply cn_bump_ok.
Qed.

(** ** Receiver *)
Lemma sdf_decode_signed keys node d :
  pending_ok d → is_u16 node →
  StateDeltaFrame_decode (signed_delta keys node d) =
    Ok {| sdf_path_hash := pd_path_hash d; sdf_crdt_type := pd_crdt_type d;
          sdf_reliability := pd_reliability d; sdf_author_node_id := node |}.
Proof.
  intros (Hh & Ht & Hr & _) Hn. unfold signed_delta, delta_content. rewrite <-app_assoc.
  set (sdf := {| sdf_path_hash := _ |}). assert (frame_ok sdf) as Hok by (by split_and!).
  exact (frame_decode_bytes (T := StateDeltaFrame) sdf _ Hok).
Qed.
Lemma verify_signed keys node d (ks : gmap Z bytes) :
  kp_valid keys → ks !! node = Some (kp_public_key keys) →
  verify_frame_signature ks (signed_delta keys node d) node StateDeltaFrame_BASE_WIRE_SIZE = Ok true.
Proof.
  intros Hk Hks. unfold verify_frame_signature. rewrite length_signed_delta, Hks.
  rewrite (proj2 (Nat.ltb_ge _ _)) by (sizes; lia).
  replace (72 + length (pd_data d) - StateDeltaFrame_SIGNATURE_SIZE)%nat
    with (length (delta_content node d)) by (rewrite length_delta_content; sizes; lia).
  unfold signed_delta. rewrite slice_app_0, slice_all by (unfold sign; by rewrite ed25519_sign_size).
  cbn [res_bind]. rewrite slice_app_l, slice_all by done. cbn [res_bind]. by rewrite verify_sign.
Qed.
Lemma slice_signed keys node d :
  slice (signed_delta keys node d) StateDeltaFrame_BASE_WIRE_SIZE
    (length (signed_delta keys node d) - StateDeltaFrame_SIGNATURE_SIZE - StateDeltaFrame_BASE_WIRE_SIZE)
  = Ok (pd_data d).
Proof.
  rewrite length_signed_delta. unfold signed_delta, delta_content. rewrite <-app_assoc.
  set (sdf := {| sdf_path_hash := _ |}).
  change StateDeltaFrame_BASE_WIRE_SIZE with (length (frame_bytes sdf)) at 1.
  rewrite slice_app_0, slice_app_l, slice_all by (sizes; lia). done.
Qed.

(** What stays and what is recorded when deltas are applied. *)
Definition applied (id : Z) (q q' : Peer T) (r : StateRegistry) (ev : list UpdateEvent) : Prop :=
  peer_at id q' ∧ p_state q' = r ∧ p_update_log q' = p_update_log q ++ ev ∧
  steady q q' ∧ p_transport q' = p_transport q ∧ p_clock_reads q' = p_clock_reads q.
Lemma steady_keys (q q' : Peer T) :
  steady q q' → p_peer_keys q' = p_peer_keys q ∧ p_access_control q' = p_access_control q.
Proof. intros [[= ? ? ? ? ?] _]. done. Qed.
Lemma on_signed_delta id keys node d (q : Peer T) n :
  peer_at id q → kp_valid keys → p_peer_keys q !! node = Some (kp_public_key keys) →
  p_access_control q = false → pending_ok d → is_u16 node →
  ∃ q' r ch ev, sreg_apply_delta (p_state q) (pd_path_hash d) (pd_data d) = Ok (r, ch, ev) ∧
    on_state_delta clock id (signed_delta keys node d) n q = Ok (q', if ch then n + 1 else n) ∧
    applied id q q' r ev.
Proof.
  intros Hq Hk Hks Hac Hd Hn. unfold on_state_delta. pose proof Hq as [(Ht & Hc & Hs & Hr) Hid].
  rewrite (proj2 (Nat.ltb_ge _ _)) by (rewrite length_signed_delta; sizes; lia).
  unfold mbind, PM_bind, pm_lift, pm_get. rewrite sdf_decode_signed by done. cbn [res_bind].
  cbn [sdf_author_node_id sdf_path_hash]. rewrite verify_signed by done. cbn [res_bind negb].
  rewrite slice_signed. cbn [res_bind]. unfold access_allowed, mbind, PM_bind, pm_get. cbn [res_bind].
  rewrite Hac. cbn [negb]. unfold mret, PM_ret. cbn [res_bind negb].
  destruct (sreg_apply_delta_total (p_state q) (pd_path_hash d) (pd_data d) Hs) as (r & ch & ev & E & Hrok & _);
    [apply Hd|]. rewrite E. cbn [res_bind pm_modify].
  set (q1 := peer_apply q r ev).
  assert (peer_at id q1) as Hq1 by (split; [by split_and!|done]).
  destruct ch; cbn [negb].
  - destruct (at_mc id q1 Hq1) as (mc & Emc & _). rewrite Emc. cbn [res_bind].
    eexists _, r, true, ev. split; [done|]. split; [done|].
    split; [|split_and!; done].
    split; [|done]. split_and!; try done. by apply success_ok.
  - exists q1, r, false, ev. split; [done|]. split; [done|].
    split; [done|]. split_and!; done.
Qed.
Lemma run_signed id keys node ds : ∀ (q : Peer T) n,
  peer_at id q → kp_valid keys → p_peer_keys q !! node = Some (kp_public_key keys) →
  p_access_control q = false → Forall pending_ok ds → is_u16 node →
  ∃ q' r k ev, apply_all (p_state q) ds = Ok (r, k, ev) ∧
    run_frames (data_body clock id) (q, n) ((λ f, mk_frame f.1 f.2) <$> delta_frames keys node ds)
      = Ok (q', n + k) ∧ applied id q q' r ev.
Proof.
  induction ds as [|d ds IH]; intros q n Hq Hk Hks Hac Hds Hn.
  { exists q, (p_state q), 0, []. split; [done|]. split; [by rewrite Z.add_0_r|].
    split; [done|]. rewrite app_nil_r. by split_and!. }
  apply Forall_cons in Hds as [Hd Hds]. unfold delta_frames. rewrite !fmap_cons.
  fold (delta_frames keys node ds). cbn [run_frames apply_all fst snd].
  destruct (on_signed_delta id keys node d q n Hq Hk Hks Hac Hd Hn)
    as (q1 & r1 & ch & ev & E1 & E2 & Hq1 & S1 & L1 & Hst1 & T1 & R1). rewrite E1. cbn [res_bind].
  destruct (steady_keys _ _ Hst1) as [K1 A1].
  unfold data_body at 1, on_data_frame. cbn [mk_frame fr_header fh_type fr_payload].
  rewrite E2. cbn [res_bind].
  destruct (IH q1 (if ch then n + 1 else n) Hq1 Hk) as (q' & r & k & ev' & E3 & E4 & Hq' & S' & L' & Hst' & T' & R');
    [by rewrite K1|by rewrite A1|done|done|].
  rewrite S1 in E3. rewrite E3. cbn [res_bind]. eexists q', r, _, (ev ++ ev'). split; [done|]. split.
  - rewrite E4. f_equal. f_equal. destruct ch; lia.
  - split; [done|]. split; [done|]. split; [by rewrite L', L1, app_assoc|].
    split; [by etrans|]. split; congruence.
Qed.
Lemma note_packet_applied id num (q : Peer T) :
  is_u32 num → peer_at id q → ∃ q', pm_note_packet id num q = Ok (q', ()) ∧ applied id q q' (p_state q) [].
Proof.
  intros Hn Hq. destruct (keeps_note id num Hn q Hq) as (q' & [] & E & Hq' & S). exists q'.
  split; [done|]. split; [done|]. split; [done|]. rewrite app_nil_r.
  revert E. unfold pm_note_packet, mbind, PM_bind, pm_mc, mbind, PM_bind, pm_get, pm_lift. cbn [res_bind].
  destruct (cm_get _ _) as [mc|] eqn:Emc; [|done]. unfold mret, PM_ret. cbn [res_bind].
  destruct (rt_on_packet_received _ _); cbn [res_bind]; try done. intros [= <-].
  split; [done|]. split; [|done]. eapply steady_put; [done|exact Emc| |done].
  destruct (cn_update_recv_fields (mc_conn mc) num) as (E1 & E2 & E3 & E4 & _).
  split; [|intros Hc; by apply cn_update_recv_ok]. unfold conn_core. cbn [mc_conn].
  rewrite E1, E2, E3, E4. unfold cn_update_recv_packet_number. by case_match.
Qed.
(** A data packet whose frames are signed deltas. *)
Lemma on_data_packet e keys node ds (q : Peer T) from id :
  enc_fields_ok e → pe_packet_type e = PT_DATA →
  (wire_size_of (delta_frames keys node ds) ≤ MAX_PAYLOAD_SIZE)%nat →
  peer_ok q → kp_valid keys → p_peer_keys q !! node = Some (kp_public_key keys) →
  p_access_control q = false → Forall pending_ok ds → is_u16 node →
  find_by_endpoint (p_conn_mgr q) from = Some id →
  ∃ q' r k ev, apply_all (p_state q) ds = Ok (r, k, ev) ∧
    on_datagram clock (packet_bytes e (wires (delta_frames keys node ds))) from q = Ok (q', k) ∧
    applied id q q' r ev.
Proof.
  intros He Hty Hsz Hq Hk Hks Hac Hds Hn Hf.
  set (p := wires (delta_frames keys node ds)).
  assert (length p ≤ MAX_PAYLOAD_SIZE)%nat as Hl by (unfold p; by rewrite length_wires).
  destruct (parse_packet e p He Hl) as (dec & Hp & Hh & Hv & Hpl).
  assert (peer_at id q) as Hat.
  { split; [done|]. apply find_by_endpoint_Some in Hf as (mc & ? & _). by exists mc. }
  unfold on_datagram, mbind, PM_bind, pm_lift, pm_get. rewrite Hp. cbn [res_bind negb]. rewrite Hv.
  cbn [res_bind negb]. rewrite Hf, Hh. cbn [packet_header enc_header ph_packet_type ph_packet_number].
  rewrite Hty. rewrite bool_decide_eq_false_2 by done. cbn [andb].
  destruct (note_packet_applied id (pe_packet_number e) q) as (q1 & E1 & Hq1 & S1 & L1 & Hst1 & T1 & R1);
    [apply He|done|]. rewrite E1. cbn [res_bind]. destruct (steady_keys _ _ Hst1) as [K1 A1].
  unfold process_data_frames. rewrite (while_next_frame_spec (data_body clock id) _ _ _ _ Hp), Hpl.
  unfold p. rewrite parse_frames_wires; [|by apply Forall_fmap, Forall_true|done].
  destruct (run_signed id keys node ds q1 0 Hq1 Hk) as (q' & r & k & ev & E2 & E3 & Hq' & S' & L' & Hst' & T' & R');
    [by rewrite K1|by rewrite A1|done|done|].
  rewrite S1 in E2. exists q', r, k, ev. split; [done|]. split; [exact E3|].
  split; [done|]. split; [done|]. split; [rewrite L', L1; by rewrite app_nil_r|].
  split; [by etrans|]. split; congruence.
Qed.

Lemma wire_size_deltas keys node ds :
  wire_size_of (delta_frames keys node ds) = sum_list ((λ d, 75 + length (pd_data d))%nat <$> ds).
Proof.
  induction ds as [|d ds IH]; [done|]. unfold delta_frames. rewrite fmap_cons, wire_size_of_cons.
  fold (delta_frames keys node ds). rewrite IH, length_signed_delta. done.
Qed.

(** Deltas that fit one packet leave as one packet. *)
Lemma send_deltas_spec id mc ds (p : Peer T) :
  peer_ok p → cm_get (p_conn_mgr p) id = Some mc → cn_ok (mc_conn mc) → ds ≠ [] →
  (wire_size_of (delta_frames (p_keys p) (p_node_id p) ds) ≤ MAX_PAYLOAD_SIZE)%nat →
  ∃ p' e, send_deltas_to clock id ds p = Ok (p', Z.of_nat (length ds)) ∧ peer_ok p' ∧
    enc_fields_ok e ∧ pe_packet_type e = PT_DATA ∧
    p_transport p' = (t_send_to (p_transport p)
      (packet_bytes e (wires (delta_frames (p_keys p) (p_node_id p) ds))) (cn_remote (mc_conn mc))).1 ∧
    steady p p' ∧ p_state p' = p_state p ∧ p_update_log p' = p_update_log p ∧
    p_clock_reads p' = S (S (p_clock_reads p)).
Proof.
  intros Hp Emc (_ & Hrc & _ & Hsn & _) Hds Hsz.
  assert (mc_ok id mc) as Hmc by (by apply (proj1 (proj2 Hp))).
  set (enc := set_connection_id (set_packet_type PacketEncoder_new PT_DATA) (cn_remote_conn_id (mc_conn mc))).
  assert (enc_ok enc []) as He by (by apply enc_ok_set_conn, enc_ok_set_type, enc_ok_new).
  destruct (send_loop_fits id p ds enc [] 0 He) as (buf & c & El & He1);
    [cbn [length]; sizes; lia|]. set (enc1 := with_buffer enc buf c) in *. simpl app in He1.
  destruct (send_packet_spec id p mc enc1 _ He1 Emc Hmc Hp)
    as (p' & enc' & num & ts & Es & [Hp' _] & -> & Hts & Etr & Hrest).
  exists p', (set_timestamp (set_packet_number enc1 (cn_send_pkt_num (mc_conn mc))) ts). split; [|by do 3 (split; [done|])].
  unfold send_deltas_to, mbind, PM_bind, pm_conn, mbind, PM_bind.
  destruct (at_mc id p) as (mc' & Emc' & _ & Emc''); [split; [done|by exists mc]|].
  rewrite Emc'. unfold cm_get in Emc. rewrite Emc in Emc''. injection Emc'' as <-.
  unfold mret, PM_ret. cbn [res_bind]. fold enc. rewrite El. cbn [res_bind].
  rewrite (enc_ok_size _ _ He1), length_wires, wire_size_deltas.
  destruct ds as [|d ds]; [done|]. rewrite (proj2 (Nat.ltb_lt _ _)) by (simpl; lia).
  rewrite Es. done.
Qed.

End Replication.

(** ** End to end *)
Section EndToEnd.
Context `{XxHash} `{Ed25519} `{UnorderedIter} `{StdSort} {T : Type} `{!Transport T}.
Context (clock clock' : nat → Z).

(** C6: End-to-end replication.  Deltas that together fit one packet, sent by
    [send_deltas_to] over a connection, leave the sender as one packet to the
    connection's remote endpoint; a receiver that registered the sender's key and has
    a connection for the packet's source, with access control off, processes it by
    applying exactly these deltas, in order, and nothing else to its registry,
    returns the number of deltas that changed something and makes exactly the
    update callbacks of those applications. *)
Theorem delta_end_to_end (p q : Peer T) id mc ds from rid :
  peer_ok p → cm_get (p_conn_mgr p) id = Some mc → cn_ok (mc_conn mc) → is_u16 (p_node_id p) →
  kp_valid (p_keys p) → ds ≠ [] → Forall pending_ok ds →
  (sum_list ((λ d, 75 + length (pd_data d))%nat <$> ds) ≤ MAX_PAYLOAD_SIZE)%nat →
  peer_ok q → p_peer_keys q !! p_node_id p = Some (kp_public_key (p_keys p)) →
  p_access_control q = false → find_by_endpoint (p_conn_mgr q) from = Some rid →
  ∃ p' pkt q' r k ev,
    send_deltas_to clock id ds p = Ok (p', Z.of_nat (length ds)) ∧ peer_ok p' ∧
    p_transport p' = (t_send_to (p_transport p) pkt (cn_remote (mc_conn mc))).1 ∧
    apply_all (p_state q) ds = Ok (r, k, ev) ∧
    on_datagram clock' pkt from q = Ok (q', k) ∧ peer_ok q' ∧
    p_state q' = r ∧ p_update_log q' = p_update_log q ++ ev.
Proof.
  intros Hp Emc Hcn Hn Hk Hds Hok Hsz Hq Hks Hac Hf.
  rewrite <-(wire_size_deltas (p_keys p) (p_node_id p)) in Hsz.
  destruct (send_deltas_spec clock id mc ds p Hp Emc Hcn Hds Hsz) as (p' & e & Es & Hp' & He & Hty & Etr & _).
  destruct (on_data_packet clock' e (p_keys p) (p_node_id p) ds q from rid)
    as (q' & r & k & ev & Ea & Eo & [Hq' _] & S & L & _); try done.
  by exists p', (packet_bytes e (wires (delta_frames (p_keys p) (p_node_id p) ds))), q', r, k, ev.
Qed.
End EndToEnd.

(** ** Received frames *)
Section Received.
Context `{XxHash} `{Ed25519} `{UnorderedIter} `{StdSort} {T : Type} `{!Transport T}.
Context (clock : nat → Z).

(** C8: State changes only through authenticated frames.  [poll] returns on every
    datagram the transport can deliver, keeps the peer invariant, and a region is
    different afterwards only if the datagram carried a delta or snapshot frame that
    names this region and ends in a signature, by the author it names, that verifies
    under the key registered for that author. *)
Theorem peer_poll_authentic (p : Peer T) timeout :
  peer_ok p →
  ∃ p' n, peer_poll clock timeout p = Ok (p', n) ∧ peer_ok p' ∧ -1 ≤ n ∧
    (∀ h, sreg_get (p_state p') h ≠ sreg_get (p_state p) h →
       ∃ data from f, (t_recv_from (p_transport p) MAX_PACKET_SIZE timeout).2 = Some (data, from) ∧
         f ∈ packet_frames data ∧ authentic (p_peer_keys p) f h).
Proof. apply peer_poll_spec. Qed.

(** C34: Access control confines deltas.  Processing one data frame never faults,
    counts at most one change, changes a region only through an authenticated frame,
    and, with access control on, lets a delta change a region only if a stored
    capability token that is not expired at the connection's current time grants
    write access to the region's path. *)
Theorem access_control_confines id (f : Frame) (p : Peer T) changes :
  peer_at id p → wf_bytes (fr_payload f) →
  ∃ p' n, on_data_frame clock id f changes p = Ok (p', n) ∧ peer_at id p' ∧
    changes ≤ n ≤ changes + 1 ∧ p_access_control p' = p_access_control p ∧
    (∀ h, sreg_get (p_state p') h ≠ sreg_get (p_state p) h →
       authentic (p_peer_keys p) f h ∧
       (p_access_control p = true → fh_type (fr_header f) = FT_STATE_DELTA →
          ∃ g, sreg_get (p_state p) h = Some g ∧ write_granted (p_cap_store p) (rg_path g) (conn_now clock id p))).
Proof.
  intros Hp Hf. destruct (on_data_frame_effect clock id f p changes Hp Hf)
    as (p' & n & E & ? & ? & ? & ? & ?). eauto 8.
Qed.

(** A [ROUTE_ANNOUNCE] payload written by the frame's own encoder is not read back:
    the announcing node the router learns has its two bytes exchanged, because
    [process_data_frames] reads them least significant first. *)
Theorem route_announce_swapped (f : RouteAnnounceFrame) rest (p : Peer T) :
  frame_ok f →
  on_route_announce (frame_bytes f ++ rest) p =
    Ok (p_set_router p (rtr_learn_route (p_router p) (raf_path_hash f)
                          (protocoll_bswap16 (raf_announcing_node_id f))), ()).
Proof.
  intros [Hh Hn]. unfold on_route_announce, mbind, PM_bind, pm_lift. cbn [frame_bytes RouteAnnounceFrame_WireFrame].
  rewrite (proj2 (Nat.ltb_ge _ _)) by (rewrite !length_app, length_be32, length_be16; lia).
  rewrite <-app_assoc, read_u32_head by done. unfold get8. cbn [be32 be16 app lookup list_lookup res_bind].
  assert (u16 (Z.lor (raf_announcing_node_id f / 256 mod 256) (Z.shiftl (raf_announcing_node_id f mod 256) 8))
    = protocoll_bswap16 (raf_announcing_node_id f)) as ->; [|done].
  rewrite (lor_disjoint _ _ 8), bswap16_spec, wrap_id by ulia. ulia.
Qed.
End Received.

(** ** Concrete peers *)
Module Concrete.
Import Scenario.
#[local] Existing Instances toy_xxhash toy_ed25519 insertion_std_sort.
Definition alice : XPeer := linked.1.
Definition bob : XPeer := linked.2.
Definition hit_delta : PendingDelta :=
  {| pd_path_hash := sp_hash path_hits; pd_crdt_type := CT_G_COUNTER; pd_reliability := Rel_RELIABLE;
     pd_data := gc_bytes [{| ge_node_id := 1; ge_count := 5 |}] |}.
(** The managed connection of Alice. *)
Definition alice_mc : ManagedConnection :=
  Eval vm_compute in match cm_get (p_conn_mgr alice) 0 with Some mc => mc | None => mc_new 0 0 end.

Lemma delta_end_to_end_witness :
  ∃ p' pkt q' r k ev,
    send_deltas_to toy_clock 0 [hit_delta] alice = Ok (p', 1) ∧ peer_ok p' ∧
    p_transport p' = (t_send_to (p_transport alice) pkt (cn_remote (mc_conn alice_mc))).1 ∧
    apply_all (p_state bob) [hit_delta] = Ok (r, k, ev) ∧
    on_datagram toy_clock pkt ep_a bob = Ok (q', k) ∧ peer_ok q' ∧
    p_state q' = r ∧ p_update_log q' = p_update_log bob ++ ev.
Proof.
  apply (delta_end_to_end toy_clock toy_clock alice bob 0 alice_mc [hit_delta] ep_a 0).
  - apply linked_ok.
  - vm_compute. reflexivity.
  - by_decide.
  - by_decide.
  - exact (toy_keys_valid 7).
  - discriminate.
  - constructor; [|constructor]. split; [by_decide|]. split; [done|]. split; [done|by_decide].
  - by_decide.
  - apply linked_ok.
  - vm_compute. reflexivity.
  - vm_compute. reflexivity.
  - vm_compute. reflexivity.
Defined.

(** Bob receives Alice's delta from the transport. *)
Definition bob_waiting : XPeer :=
  let t := match send_deltas_to toy_clock 0 [hit_delta] alice with Ok (a, _) => p_transport a | _ => xt_new end in
  p_set_transport bob (foldl (λ t k, xt_push_recv t (xp_data k) ep_a) (p_transport bob) (xt_send_queue t)).
Lemma bob_waiting_ok : peer_ok bob_waiting.
Proof. apply set_transport_ok; [apply linked_ok|]. by_decide. Qed.
Lemma peer_poll_authentic_witness :
  ∃ p' n, peer_poll toy_clock 0 bob_waiting = Ok (p', n) ∧ peer_ok p' ∧ -1 ≤ n ∧
    (∀ h, sreg_get (p_state p') h ≠ sreg_get (p_state bob_waiting) h →
       ∃ data from f, (t_recv_from (p_transport bob_waiting) MAX_PACKET_SIZE 0).2 = Some (data, from) ∧
         f ∈ packet_frames data ∧ authentic (p_peer_keys bob_waiting) f h).
Proof. apply peer_poll_authentic. exact bob_waiting_ok. Defined.

(** Bob with access control on and no tokens. *)
Definition strict_bob : XPeer := p_set_access_control bob true.
Lemma set_access_control_ok (p : XPeer) b : peer_ok p → peer_ok (p_set_access_control p b).
Proof. done. Qed.
Lemma strict_bob_at : peer_at 0 strict_bob.
Proof. split; [apply set_access_control_ok, linked_ok|by_decide]. Qed.
Definition hit_delta_frame : Frame := mk_frame FT_STATE_DELTA (signed_delta (toy_keys 7) 1 hit_delta).
Lemma access_control_confines_witness :
  ∃ p' n, on_data_frame toy_clock 0 hit_delta_frame 0 strict_bob = Ok (p', n) ∧ peer_at 0 p' ∧
    0 ≤ n ≤ 1 ∧ p_access_control p' = true ∧
    (∀ h, sreg_get (p_state p') h ≠ sreg_get (p_state strict_bob) h →
       authentic (p_peer_keys strict_bob) hit_delta_frame h ∧
       (p_access_control strict_bob = true → fh_type (fr_header hit_delta_frame) = FT_STATE_DELTA →
          ∃ g, sreg_get (p_state strict_bob) h = Some g ∧
               write_granted (p_cap_store strict_bob) (rg_path g)
                 (conn_now toy_clock 0 strict_bob))).
Proof.
  apply (access_control_confines toy_clock 0 hit_delta_frame strict_bob 0).
  - exact strict_bob_at.
  - by_decide.
Defined.
Lemma route_announce_swapped_witness :
  on_route_announce (frame_bytes {| raf_path_hash := 7; raf_announcing_node_id := 2 |} ++ []) alice =
    Ok (p_set_router alice (rtr_learn_route (p_router alice) 7 (protocoll_bswap16 2)), ()).
Proof.
  apply (route_announce_swapped {| raf_path_hash := 7; raf_announcing_node_id := 2 |} [] alice).
  split; by_decide.
Defined.

(** The snapshot frame Alice signs for the same counter. *)
Definition hit_snapshot_frame : Frame :=
  let content := frame_bytes {| ssf_path_hash := sp_hash path_hits; ssf_crdt_type := CT_G_COUNTER;
                                ssf_author_node_id := 1 |} ++ pd_data hit_delta in
  mk_frame FT_STATE_SNAPSHOT (content ++ sign (kp_secret_key (toy_keys 7)) content).
Definition hits_after (f : Frame) : option Z :=
  match on_data_frame toy_clock 0 f 0 strict_bob with Ok (b, _) => hits b | _ => None end.
(** A snapshot is not subject to access control.  With access control on and no
    capability at all, the signed delta of a peer is refused but the same value in a
    signed snapshot frame is merged. *)
Theorem snapshot_bypasses_access_control :
  p_access_control strict_bob = true ∧ cs_tokens (p_cap_store strict_bob) = ∅ ∧
  hits strict_bob = Some 0 ∧ hits_after hit_delta_frame = Some 0 ∧
  hits_after hit_snapshot_frame = Some 5.
Proof. split_and!; vm_compute; reflexivity. Qed.
End Concrete.
