(* ===== verification/Streaming.v ===== *)
(** * Streaming state between two peers on one bus

    The composition of all the layers: two peers whose loopback transports share a bus,
    as in [examples/state_streaming_demo.cpp] and in every test of the library.  Writing
    to a region, [flush] on one side and [poll] on the other act on the other side's
    registry as merging, region by region, the deltas of the regions that were dirty.
    From it follows what the library promises: after every frame of a stream of writes
    the other side reads what was written. *)
From S2P Require Import Prelude Platform Frame Codec VersionVector GCounter LwwRegister Crdt.
From S2P Require Import StatePath StateRegistry Resolution Subscription AckTracker Transport.
From S2P Require Import Connection Capability Float64 Routing Peer PeerSafety PeerApi PeerReplication.

(** ** Specification: deltas of different regions commute *)
Definition merge_into (data : bytes) (g : StateRegion) : StateRegion :=
  match cv_merge (rg_crdt g) data with Ok (v, _) => rg_set_crdt g v | _ => g end.
Definition merge_flag (r : StateRegistry) (d : PendingDelta) : bool :=
  match sreg_get r (pd_path_hash d) with
  | Some g => match cv_merge (rg_crdt g) (pd_data d) with Ok (_, ch) => ch | _ => false end
  | None => false
  end.
(** The update callback that merging [d] into [r] makes. *)
Definition merge_event (r : StateRegistry) (d : PendingDelta) : list UpdateEvent :=
  match sreg_get r (pd_path_hash d) with
  | Some g =>
      if merge_flag r d && sr_on_update r then
        match cv_snapshot (rg_crdt (merge_into (pd_data d) g)) with
        | Ok snap => [(rg_path g, snap)] | _ => []
        end
      else []
  | None => []
  end.
(** How many of the deltas change something. *)
Definition changed_count (r : StateRegistry) (ds : list PendingDelta) : Z :=
  Z.of_nat (length (filter (λ d, merge_flag r d = true) ds)).
Definition delta_for (h : Z) (ds : list PendingDelta) : option bytes :=
  pd_data <$> find_key pd_path_hash h ds.
Definition merged (r : StateRegistry) (ds : list PendingDelta) (h : Z) : option StateRegion :=
  match delta_for h ds with
  | Some data => merge_into data <$> sreg_get r h
  | None => sreg_get r h
  end.

Lemma apply_delta_merge r d :
  sreg_ok r → wf_bytes (pd_data d) →
  ∃ r', sreg_apply_delta r (pd_path_hash d) (pd_data d) = Ok (r', merge_flag r d, merge_event r d) ∧
    sreg_ok r' ∧ sr_on_update r' = sr_on_update r ∧
    sreg_get r' (pd_path_hash d) = merge_into (pd_data d) <$> sreg_get r (pd_path_hash d) ∧
    ∀ h, h ≠ pd_path_hash d → sreg_get r' h = sreg_get r h.
Proof.
  intros Hr Hd. destruct (sreg_apply_delta_total r (pd_path_hash d) (pd_data d) Hr Hd)
    as (r' & ch & ev & E & Hr' & Hoth).
  exists r'. revert E. unfold sreg_apply_delta, merge_flag, merge_event, merge_flag, merge_into.
  destruct (sreg_get r (pd_path_hash d)) as [g|] eqn:Eg.
  - destruct (proj2 Hr _ g Eg) as (_ & _ & _ & Hv).
    destruct (cv_merge_total _ _ Hv Hd) as (v & b & Em & Hv' & _). rewrite Em. cbn [res_bind rg_crdt rg_set_crdt].
    destruct (cv_snapshot_total v Hv') as (snap & Es & _). simpl. rewrite Em. simpl. rewrite Es.
    destruct (b && sr_on_update r); cbn [res_bind]; intros [= <- <- <-]; (split; [done|]);
      (split; [done|]); (split; [done|]); (split; [|done]); unfold sreg_get; simpl;
      by rewrite lookup_insert_eq.
  - intros [= <- <- <-]. by rewrite Eg.
Qed.
Lemma merge_flag_ext r r' d :
  sreg_get r' (pd_path_hash d) = sreg_get r (pd_path_hash d) → merge_flag r' d = merge_flag r d.
Proof. intros E. unfold merge_flag. by rewrite E. Qed.
Lemma merge_event_ext r r' d :
  sreg_get r' (pd_path_hash d) = sreg_get r (pd_path_hash d) → sr_on_update r' = sr_on_update r →
  merge_event r' d = merge_event r d.
Proof. intros E Eu. unfold merge_event. by rewrite (merge_flag_ext r r' d E), E, Eu. Qed.
Lemma apply_all_merge ds r :
  sreg_ok r → Forall (λ d, wf_bytes (pd_data d)) ds → NoDup (pd_path_hash <$> ds) →
  ∃ r', apply_all r ds =
      Ok (r', changed_count r ds, concat (merge_event r <$> ds)) ∧
    sreg_ok r' ∧ sr_on_update r' = sr_on_update r ∧ ∀ h, sreg_get r' h = merged r ds h.
Proof.
  revert r. induction ds as [|d ds IH]; intros r Hr Hw Hnd; cbn [apply_all].
  { exists r. by split_and!. }
  apply Forall_cons in Hw as [Hd Hw]. csimpl in Hnd. apply NoDup_cons in Hnd as [Hni Hnd].
  destruct (apply_delta_merge r d Hr Hd) as (r1 & E1 & Hr1 & U1 & G1 & O1). rewrite E1. cbn [res_bind].
  destruct (IH r1 Hr1 Hw Hnd) as (r' & E2 & Hr' & U2 & G2). rewrite E2. cbn [res_bind].
  assert (∀ x, x ∈ ds → sreg_get r1 (pd_path_hash x) = sreg_get r (pd_path_hash x)) as Hx.
  { intros x Hx. apply O1. intros E. apply Hni. rewrite <-E. by apply list_elem_of_fmap_2. }
  assert (changed_count r1 ds = changed_count r ds) as ->.
  { unfold changed_count. do 2 f_equal. apply list_filter_iff', Forall_forall. intros x Hin. by rewrite (merge_flag_ext r r1 x (Hx x Hin)). }
  assert (merge_event r1 <$> ds = merge_event r <$> ds) as ->.
  { apply list_fmap_ext. intros i x Hi%list_elem_of_lookup_2. by apply merge_event_ext; [apply Hx|]. }
  exists r'. split.
  { unfold changed_count. rewrite filter_cons. csimpl. destruct (merge_flag r d); simpl; [|done]. do 3 f_equal. lia. }
  split; [done|]. split; [congruence|]. intros h. rewrite G2. unfold merged, delta_for. cbn [find_key].
  destruct (Z.eqb_spec (pd_path_hash d) h) as [<-|Hne].
  - assert (find_key pd_path_hash (pd_path_hash d) ds = None) as ->; [|exact G1].
    apply find_key_None. intros Hin. by apply Hni.
  - by rewrite O1 by congruence.
Qed.

(** ** The pending deltas of a registry *)
Definition pending_deltas (r : StateRegistry) : list PendingDelta :=
  concat ((λ hg, region_pending hg.1 hg.2) <$> map_to_list (sr_regions r)).
Definition region_bytes (g : StateRegion) : option bytes :=
  match region_delta g with
  | Some (_, d) => if bool_decide (d = []) then None else Some d
  | None => None
  end.
Lemma elem_of_pending r d :
  d ∈ pending_deltas r ↔ ∃ g, sreg_get r (pd_path_hash d) = Some g ∧ region_bytes g = Some (pd_data d) ∧
    pd_crdt_type d = rg_crdt_type g ∧ pd_reliability d = rg_reliability g.
Proof.
  unfold pending_deltas. rewrite elem_of_concat. setoid_rewrite list_elem_of_fmap. split.
  - intros (l & Hd & ([h g] & -> & Hg%elem_of_map_to_list)). cbn [fst snd] in *. exists g.
    unfold region_pending in Hd. unfold region_bytes.
    destruct (region_delta g) as [[v bs]|]; [|set_solver]. case_bool_decide; [set_solver|].
    apply list_elem_of_singleton in Hd as ->. done.
  - intros (g & Hg & Hb & E1 & E2). exists (region_pending (pd_path_hash d) g). split.
    + unfold region_pending. unfold region_bytes in Hb. destruct (region_delta g) as [[v bs]|]; [|done].
      case_bool_decide; [done|]. injection Hb as ->. rewrite <-E1, <-E2. destruct d. simpl. set_solver.
    + exists (pd_path_hash d, g). split; [done|]. by apply elem_of_map_to_list.
Qed.
Lemma NoDup_pending r : NoDup (pd_path_hash <$> pending_deltas r).
Proof.
  unfold pending_deltas. pose proof (NoDup_fst_map_to_list (sr_regions r)) as Hnd. revert Hnd.
  induction (map_to_list (sr_regions r)) as [|[h g] l IH]; csimpl; [constructor|].
  rewrite fmap_app. intros [Hni Hnd]%NoDup_cons. apply NoDup_app. split; [|split; [|by apply IH]].
  - unfold region_pending. destruct (region_delta g) as [[v bs]|]; [case_bool_decide|]; simpl;
      [constructor|apply NoDup_singleton|constructor].
  - intros x Hx Hin. assert (x = h) as ->.
    { unfold region_pending in Hx. destruct (region_delta g) as [[v bs]|]; [case_bool_decide|]; simpl in Hx; set_solver. }
    apply Hni. apply list_elem_of_fmap in Hin as (d & -> & Hd). apply elem_of_concat in Hd as (l' & Hd & Hl').
    apply list_elem_of_fmap in Hl' as ([h' g'] & -> & Hin). cbn [fst snd] in *.
    apply list_elem_of_fmap. exists (h', g'). split; [|done]. unfold region_pending in Hd.
    destruct (region_delta g') as [[v bs]|]; [case_bool_decide|]; simpl in Hd; set_solver.
Qed.
Lemma delta_for_pending r ds h :
  ds ≡ₚ pending_deltas r → delta_for h ds = sreg_get r h ≫= region_bytes.
Proof.
  intros Hp. unfold delta_for. destruct (find_key pd_path_hash h ds) as [d|] eqn:E; simpl.
  - apply find_key_Some in E as [Hin <-]. rewrite Hp in Hin. apply elem_of_pending in Hin as (g & Hg & Hb & _).
    by rewrite Hg.
  - apply find_key_None in E. destruct (sreg_get r h) as [g|] eqn:Hg; [|done]. simpl.
    destruct (region_bytes g) as [bs|] eqn:Hb; [|done]. destruct E. rewrite Hp.
    apply list_elem_of_fmap. exists {| pd_path_hash := h; pd_crdt_type := rg_crdt_type g;
      pd_reliability := rg_reliability g; pd_data := bs |}. split; [done|]. apply elem_of_pending. by exists g.
Qed.
(** Declared with one of the enumerators. *)
Definition reliabilities_ok (r : StateRegistry) : Prop :=
  map_Forall (λ _ g, enum_ok (rg_reliability g)) (sr_regions r).
Lemma pending_wf r : sreg_ok r → Forall (λ d, wf_bytes (pd_data d)) (pending_deltas r).
Proof.
  intros [_ Hr]. apply Forall_forall. intros d (g & Hg & Hb & _)%elem_of_pending.
  destruct (Hr _ g Hg) as (_ & _ & _ & Hv). revert Hb. unfold region_bytes, region_delta.
  destruct (cv_has_pending_delta (rg_crdt g)); [|done].
  destruct (cv_delta_total _ Hv) as (v & bs & -> & _ & Hw & _). case_bool_decide; [done|]. by intros [= <-].
Qed.
Lemma pending_deltas_ok r : sreg_ok r → reliabilities_ok r → Forall pending_ok (pending_deltas r).
Proof.
  intros Hr Hrel. apply Forall_forall. intros d Hd.
  pose proof (proj1 (Forall_forall _ _) (pending_wf r Hr) d Hd) as Hw.
  apply elem_of_pending in Hd as (g & Hg & Hb & E1 & E2).
  destruct (proj2 Hr _ g Hg) as (_ & Hu & Ht & Hv). split_and!; [done| | |done].
  - rewrite E1, Ht. by destruct (rg_crdt g).
  - rewrite E2. by eapply Hrel.
Qed.

Lemma uiter_singleton `{UnorderedIter} {A} (k : Z) (x : A) : uiter ({[k := x]} : gmap Z A) = [(k, x)].
Proof.
  pose proof (uiter_perm ({[k := x]} : gmap Z A)) as Hp. rewrite map_to_list_singleton in Hp.
  by apply Permutation_singleton_r in Hp.
Qed.

Lemma collect_on_update `{UnorderedIter} r r' ds :
  sreg_collect_deltas r = Ok (r', ds) → sr_on_update r' = sr_on_update r.
Proof.
  unfold sreg_collect_deltas. destruct (res_foldl _ _ _) as [[m l]| |]; cbn [res_bind]; [|done..].
  by intros [= <- _].
Qed.

(** ** A peer with one connection *)
Section OneConnection.
Context `{XxHash} `{Ed25519} `{UnorderedIter} `{StdSort} {T : Type} `{!Transport T}.
Context (clock : nat → Z).

(** The only connection is [mc], under node 0, and is up. *)
Definition only_conn (p : Peer T) (mc : ManagedConnection) : Prop :=
  cm_conns (p_conn_mgr p) = {[0 := mc]} ∧ cn_state (mc_conn mc) = CONNECTED ∧ cn_ok (mc_conn mc).
Lemma single_steady (p p' : Peer T) mc :
  cm_conns (p_conn_mgr p) = {[0 := mc]} → steady p p' →
  ∃ mc', cm_conns (p_conn_mgr p') = {[0 := mc']} ∧ conn_same mc mc'.
Proof.
  intros Hc [_ Hst]. pose proof (Hst 0) as H0'. rewrite Hc, lookup_singleton_eq in H0'.
  inversion H0' as [? mc' Hsame E1 E2|]; subst. exists mc'. split; [|done].
  apply map_eq. intros i. destruct (decide (i = 0)) as [->|Hne]; [by rewrite lookup_singleton_eq, <-E2|].
  specialize (Hst i). rewrite Hc, lookup_singleton_ne in Hst by done. rewrite lookup_singleton_ne by done.
  by inversion Hst.
Qed.
Lemma only_conn_steady (p p' : Peer T) mc :
  only_conn p mc → steady p p' → ∃ mc', only_conn p' mc' ∧ conn_same mc mc'.
Proof.
  intros (Hc & Hs & Hok) Hst. destruct (single_steady p p' mc Hc Hst) as (mc' & Hc' & Hsame).
  exists mc'. split; [|done]. pose proof (proj1 Hsame) as Hcore. unfold conn_core in Hcore.
  split_and!; [done|congruence|by apply Hsame].
Qed.
Lemma single_primary (p : Peer T) mc : cm_conns (p_conn_mgr p) = {[0 := mc]} → cm_primary (p_conn_mgr p) = Some (0, mc).
Proof. intros Hc. unfold cm_primary. by rewrite Hc, uiter_singleton. Qed.
Lemma only_conn_primary (p : Peer T) mc : only_conn p mc → cm_primary (p_conn_mgr p) = Some (0, mc).
Proof. intros (Hc & _). by apply single_primary. Qed.
Lemma only_conn_has (p : Peer T) mc : only_conn p mc → cm_has_connections (p_conn_mgr p) = true.
Proof.
  intros (Hc & Hs & _). unfold cm_has_connections. rewrite Hc, uiter_singleton. simpl.
  by rewrite bool_decide_eq_true_2.
Qed.
Lemma only_conn_find (p : Peer T) mc :
  only_conn p mc → find_by_endpoint (p_conn_mgr p) (cn_remote (mc_conn mc)) = Some 0.
Proof.
  intros (Hc & Hs & _). unfold find_by_endpoint. rewrite Hc, uiter_singleton, filter_cons_True; [done|].
  split; [|done]. unfold Endpoint_eqb. simpl. by rewrite bool_decide_eq_true_2, Z.eqb_refl.
Qed.

(** What [flush] does: the registry is drained and, if it had anything pending, one
    packet with the deltas leaves. *)
Lemma flush_only (p : Peer T) mc :
  peer_ok p → only_conn p mc → p_delta_filters p = ∅ →
  (sum_list ((λ d, 75 + length (pd_data d))%nat <$> pending_deltas (p_state p)) ≤ MAX_PAYLOAD_SIZE)%nat →
  ∃ p' ds, peer_flush clock p = Ok (p', Z.of_nat (length ds)) ∧ ds ≡ₚ pending_deltas (p_state p) ∧
    peer_ok p' ∧ steady p p' ∧ p_update_log p' = p_update_log p ∧
    sr_on_update (p_state p') = sr_on_update (p_state p) ∧
    (∀ h, sreg_get (p_state p') h = region_after <$> sreg_get (p_state p) h) ∧
    match ds with
    | [] => p_transport p' = p_transport p ∧ p_clock_reads p' = p_clock_reads p
    | _ => ∃ e, enc_fields_ok e ∧ pe_packet_type e = PT_DATA ∧
        (wire_size_of (delta_frames (p_keys p) (p_node_id p) ds) ≤ MAX_PAYLOAD_SIZE)%nat ∧
        p_transport p' = (t_send_to (p_transport p)
          (packet_bytes e (wires (delta_frames (p_keys p) (p_node_id p) ds))) (cn_remote (mc_conn mc))).1 ∧
        p_clock_reads p' = S (S (p_clock_reads p))
    end.
Proof.
  intros Hp Hc Hf Hsz. pose proof Hp as (Ht & Hcs & Hs & Hr).
  destruct (sreg_collect_spec (p_state p) Hs) as (r & ds & Ec & Hr' & Hg & _ & _ & Hperm).
  fold (pending_deltas (p_state p)) in Hperm. pose proof (collect_on_update _ _ _ Ec) as Hup.
  unfold peer_flush, mbind, PM_bind, pm_get, pm_lift, pm_modify. cbn [res_bind].
  rewrite (only_conn_has p mc Hc). cbn [negb]. rewrite Ec. cbn [res_bind].
  set (p1 := p_set_state p r). assert (peer_ok p1) as Hp1 by (by split_and!).
  destruct ds as [|d ds].
  { exists p1, []. by split_and!. }
  rewrite bool_decide_eq_false_2 by done. destruct Hc as (Hcm & Hst & Hcn).
  rewrite Hcm, uiter_singleton. cbn [fmap list_fmap fst flush_all].
  unfold flush_one, mbind, PM_bind, pm_mc, mbind, PM_bind, pm_get, cm_get.
  assert (cm_conns (p_conn_mgr p1) !! 0 = Some mc) as E1 by (simpl; rewrite Hcm; apply lookup_singleton_eq).
  cbn [res_bind]. rewrite E1. unfold mret, PM_ret. cbn [res_bind]. rewrite bool_decide_eq_true_2 by done.
  cbn [negb]. change (p_delta_filters p1) with (p_delta_filters p). rewrite Hf, lookup_empty.
  destruct (send_deltas_spec clock 0 mc (d :: ds) p1 Hp1 E1 Hcn) as (p' & e & Es & Hp' & He & Hty & Etr & Hst' & S' & L' & R');
    [done|by rewrite wire_size_deltas, Hperm|].
  rewrite Es. cbn [res_bind]. exists p', (d :: ds). split; [done|]. split; [done|]. split; [done|].
  split; [done|]. split; [done|]. split; [by rewrite S'|]. split; [by rewrite S'|]. exists e. split; [done|]. split; [done|].
  split; [by rewrite wire_size_deltas, Hperm|done].
Qed.
End OneConnection.

(** ** What is sent is made of bytes *)
#[local] Ltac bytes_wf :=
  repeat first [done | apply be16_wf | apply be32_wf | apply Forall_app_2 | apply Forall_cons_2].
Section Bytes.
Context `{XxHash} `{Ed25519}.
Lemma version_flags_is_u f : is_u 4 f → is_u8 (make_version_flags PROTOCOL_VERSION f).
Proof. intros Hf. unfold make_version_flags. apply u8_is_u. Qed.
Lemma packet_bytes_wf e p : enc_fields_ok e → wf_bytes p → wf_bytes (packet_bytes e p).
Proof.
  intros ([Ht _] & _ & _ & _ & Hf) Hp. unfold packet_bytes. apply Forall_app_2; [|done].
  unfold packet_header, enc_header. cbn [frame_bytes PacketHeader_WireFrame ph_version ph_flags ph_packet_type].
  bytes_wf. by apply version_flags_is_u.
Qed.
Lemma frame_wire_wf ft p : enum_ok ft → wf_bytes p → wf_bytes (frame_wire (mk_frame ft p)).
Proof. intros [Ht _] Hp. unfold frame_wire, mk_frame. cbn [fr_header fr_payload fh_type]. bytes_wf. Qed.
Lemma signed_delta_wf keys node d : pending_ok d → wf_bytes (signed_delta keys node d).
Proof.
  intros (_ & [Hc _] & [Hr _] & Hd). unfold signed_delta, delta_content.
  cbn [frame_bytes StateDeltaFrame_WireFrame sdf_crdt_type sdf_reliability]. bytes_wf.
  apply ed25519_sign_wf.
Qed.
Lemma delta_wires_wf keys node ds : Forall pending_ok ds → wf_bytes (wires (delta_frames keys node ds)).
Proof.
  intros Hds. unfold wires, delta_frames. apply Forall_concat, Forall_fmap, Forall_fmap.
  eapply Forall_impl; [exact Hds|]. intros d Hd. simpl. apply frame_wire_wf; [done|by apply signed_delta_wf].
Qed.
Lemma u8_id data : wf_bytes data → u8 <$> data = data.
Proof.
  intros Hd. induction Hd as [|x l Hx _ IH]; [done|]. csimpl. rewrite IH. f_equal. by apply wrap_id.
Qed.
End Bytes.

(** ** Two peers on one bus *)
Record Duo := { du_bus : LoopbackBus; du_client : Peer LoopbackPort; du_server : Peer LoopbackPort }.
(** The shared pointer of a transport leads to the bus as it is now. *)
Definition plug (b : LoopbackBus) (p : Peer LoopbackPort) : Peer LoopbackPort :=
  p_set_transport p {| lp_transport := lp_transport (p_transport p); lp_bus := b |}.
Definition on_client {A} (m : PM LoopbackPort A) (w : Duo) : res (Duo * A) :=
  let! (p, a) := m (plug (du_bus w) (du_client w)) in
  Ok ({| du_bus := lp_bus (p_transport p); du_client := p; du_server := du_server w |}, a).
Definition on_server {A} (m : PM LoopbackPort A) (w : Duo) : res (Duo * A) :=
  let! (p, a) := m (plug (du_bus w) (du_server w)) in
  Ok ({| du_bus := lp_bus (p_transport p); du_client := du_client w; du_server := p |}, a).

Section Bus.
Context `{XxHash} `{Ed25519} `{UnorderedIter} `{StdSort}.

(** One end of an established link: bound to [me], connected to [other], whose
    node [node] signs with the key [pk]. *)
Record side (me other : Endpoint) (node : Z) (pk : bytes) (p : Peer LoopbackPort) : Prop := {
  sd_ok : peer_ok p;
  sd_port : lp_transport (p_transport p) = {| lt_local := me; lt_bound := true |};
  sd_conn : ∃ mc, only_conn p mc ∧ cn_remote (mc_conn mc) = other;
  sd_node : is_u16 (p_node_id p);
  sd_keys : kp_valid (p_keys p);
  sd_peer : p_peer_keys p !! node = Some pk;
  sd_open : p_access_control p = false;
  sd_filters : p_delta_filters p = ∅;
  sd_rel : reliabilities_ok (p_state p) }.
Definition idle (b : LoopbackBus) (ep : Endpoint) : Prop := lb_queue b (lb_key ep) = [].

Lemma plug_ok b p : peer_ok p → bus_ok b → peer_ok (plug b p).
Proof. intros (_ & ? & ? & ?) Hb. by split_and!. Qed.
Lemma side_steady me other node pk p p' :
  side me other node pk p → peer_ok p' → steady p p' →
  lp_transport (p_transport p') = lp_transport (p_transport p) → reliabilities_ok (p_state p') →
  side me other node pk p'.
Proof.
  intros [Ho Hp (mc & Hc & Hrem) Hn Hk Hpk Ha Hf Hr] Hok Hst Ht Hrel.
  destruct (only_conn_steady p p' mc Hc Hst) as (mc' & Hc' & Hsame & _).
  destruct Hst as [[= En Ek Ep Ea Ef] _].
  split; rewrite ?Ht, ?En, ?Ek, ?Ep, ?Ea, ?Ef; try done.
  exists mc'. split; [done|]. unfold conn_core in Hsame. congruence.
Qed.
Lemma reliabilities_after r r' :
  reliabilities_ok r → (∀ h, sreg_get r' h = region_after <$> sreg_get r h) → reliabilities_ok r'.
Proof.
  intros Hr Hg h g E. change (sreg_get r' h = Some g) in E. rewrite Hg in E.
  destruct (sreg_get r h) as [g0|] eqn:E0; [|done]. injection E as <-.
  unfold region_after. destruct (region_delta g0) as [[v d]|]; by apply (Hr h g0).
Qed.
Lemma reliabilities_merged r r' ds :
  reliabilities_ok r → (∀ h, sreg_get r' h = merged r ds h) → reliabilities_ok r'.
Proof.
  intros Hr Hg h g E. change (sreg_get r' h = Some g) in E. rewrite Hg in E. unfold merged in E.
  destruct (delta_for h ds) as [bs|]; [|by apply (Hr h g)].
  destruct (sreg_get r h) as [g0|] eqn:E0; [|done]. injection E as <-.
  unfold merge_into. destruct (cv_merge _ _) as [[v b]| |]; by apply (Hr h g0).
Qed.

(** A packet through the bus. *)
Lemma port_send (x : LoopbackPort) me data to :
  lp_transport x = {| lt_local := me; lt_bound := true |} → wf_bytes data →
  (t_send_to x data to).1 =
    {| lp_transport := lp_transport x;
       lp_bus := lb_deliver (lp_bus x) {| pk_data := data; pk_from := me; pk_to := to |} |}.
Proof. intros Hx Hd. simpl. rewrite Hx, u8_id by done. done. Qed.
Lemma port_recv (x : LoopbackPort) me data from rest n timeout :
  lp_transport x = {| lt_local := me; lt_bound := true |} →
  lb_queue (lp_bus x) (lb_key me) = {| pk_data := data; pk_from := from; pk_to := me |} :: rest →
  (length data ≤ n)%nat →
  t_recv_from x n timeout =
    ({| lp_transport := lp_transport x;
        lp_bus := {| lb_queues := <[lb_key me := rest]> (lb_queues (lp_bus x)) |} |}, Some (data, from)).
Proof.
  intros Hx Hq Hl. simpl. unfold lt_recv_from, lb_receive. rewrite Hx. cbn [lt_bound lt_local negb].
  rewrite Hq. cbn [pk_data pk_from]. by rewrite Nat.min_r, firstn_all by done.
Qed.
Lemma port_recv_none (x : LoopbackPort) me n timeout :
  lp_transport x = {| lt_local := me; lt_bound := true |} → idle (lp_bus x) me →
  t_recv_from x n timeout =
    ({| lp_transport := lp_transport x;
        lp_bus := {| lb_queues := <[lb_key me := []]> (lb_queues (lp_bus x)) |} |}, None).
Proof.
  intros Hx Hq. simpl. unfold lt_recv_from, lb_receive. rewrite Hx. cbn [lt_bound lt_local negb].
  unfold idle in Hq. rewrite Hq. by destruct (timeout =? 0).
Qed.

(** [poll] when nothing has arrived and when a data packet has. *)
Lemma lb_queue_take b k k' rest :
  lb_queue {| lb_queues := <[k := rest]> (lb_queues b) |} k' = if decide (k = k') then rest else lb_queue b k'.
Proof. apply lb_queue_insert. Qed.
Lemma bus_ok_take b k rest : bus_ok b → Forall (λ p, wf_bytes (pk_data p)) rest →
  bus_ok {| lb_queues := <[k := rest]> (lb_queues b) |}.
Proof. intros Hb Hr. by apply map_Forall_insert_2. Qed.
Lemma poll_idle cq me other node pk q b timeout :
  side me other node pk q → bus_ok b → idle b me →
  ∃ q', peer_poll cq timeout (plug b q) = Ok (q', 0) ∧ side me other node pk q' ∧ steady q q' ∧
    p_state q' = p_state q ∧ p_update_log q' = p_update_log q ∧ p_clock_reads q' = p_clock_reads q ∧
    bus_ok (lp_bus (p_transport q')) ∧ ∀ k, lb_queue (lp_bus (p_transport q')) k = lb_queue b k.
Proof.
  intros Hq Hb Hi. pose proof Hq as [Hqo Hqt (mq & Hcq & Hremq) _ _ _ _ _ Hrq].
  unfold peer_poll, mbind, PM_bind, pm_get, pm_recv_from. cbn [res_bind].
  rewrite (only_conn_has (plug b q) mq Hcq). cbn [negb].
  rewrite (port_recv_none (p_transport (plug b q)) me MAX_PACKET_SIZE timeout Hqt Hi). cbn [res_bind].
  eexists. split; [done|].
  assert (bus_ok {| lb_queues := <[lb_key me := []]> (lb_queues b) |}) as Hb' by by apply bus_ok_take.
  split; [|split_and!; try done].
  - eapply side_steady; [exact Hq| |by apply steady_conns|done|done]. by apply (plug_ok _ q Hqo).
  - intros k. simpl. rewrite lb_queue_take. case_decide as E; [|done]. subst. symmetry. exact Hi.
Qed.
Lemma poll_packet cq me other node keys q b e ds rest timeout :
  side me other node (kp_public_key keys) q → bus_ok b → kp_valid keys → is_u16 node → Forall pending_ok ds →
  enc_fields_ok e → pe_packet_type e = PT_DATA →
  (wire_size_of (delta_frames keys node ds) ≤ MAX_PAYLOAD_SIZE)%nat →
  lb_queue b (lb_key me) =
    {| pk_data := packet_bytes e (wires (delta_frames keys node ds)); pk_from := other; pk_to := me |} :: rest →
  ∃ q' r k ev, apply_all (p_state q) ds = Ok (r, k, ev) ∧ peer_poll cq timeout (plug b q) = Ok (q', k) ∧
    (reliabilities_ok r → side me other node (kp_public_key keys) q') ∧ steady q q' ∧
    p_state q' = r ∧ p_update_log q' = p_update_log q ++ ev ∧ p_clock_reads q' = p_clock_reads q ∧
    lp_bus (p_transport q') = {| lb_queues := <[lb_key me := rest]> (lb_queues b) |}.
Proof.
  intros Hq Hb Hk Hn Hds He Hty Hsz Hqueue. pose proof Hq as [Hqo Hqt (mq & Hcq & Hremq) _ _ Hpk Hac _ _].
  set (pkt := packet_bytes _ _) in *.
  assert (length pkt ≤ MAX_PACKET_SIZE)%nat as Hlen.
  { unfold pkt, packet_bytes. rewrite length_app, frame_bytes_length, length_wires. revert Hsz. simpl. sizes. lia. }
  pose proof (bus_queue_ok b (lb_key me) Hb) as Hwq. rewrite Hqueue in Hwq. apply Forall_cons in Hwq as [_ Hwr].
  set (b' := {| lb_queues := <[lb_key me := rest]> (lb_queues b) |}).
  assert (bus_ok b') as Hb' by by apply bus_ok_take.
  set (q1 := plug b' q). assert (peer_ok q1) as Hq1 by by apply plug_ok.
  destruct (on_data_packet cq e keys node ds q1 other 0) as (q' & r & k & ev & Ea & Eo & [Hq' _] & S' & L' & Hst & T' & R');
    try done. { rewrite <-Hremq. exact (only_conn_find q1 mq Hcq). }
  exists q', r, k, ev. split; [exact Ea|]. split.
  { unfold peer_poll, mbind, PM_bind, pm_get, pm_recv_from. cbn [res_bind].
    rewrite (only_conn_has (plug b q) mq Hcq). cbn [negb].
    rewrite (port_recv (p_transport (plug b q)) me pkt other rest MAX_PACKET_SIZE timeout Hqt Hqueue Hlen).
    cbn [res_bind]. fold pkt in Eo. destruct pkt eqn:Ep; [|exact Eo]. exfalso. apply (f_equal length) in Ep. revert Ep.
    unfold pkt, packet_bytes. rewrite length_app, frame_bytes_length. simpl. sizes. lia. }
  split; [|split_and!; try done; by rewrite T'].
  intros Hrel. eapply side_steady; [exact Hq|exact Hq'|exact Hst|by rewrite T'|by rewrite S'].
Qed.

(** [flush] on one end and [poll] on the other. *)
Definition pending_fits (r : StateRegistry) : Prop :=
  (sum_list ((λ d, 75 + length (pd_data d))%nat <$> pending_deltas r) ≤ MAX_PAYLOAD_SIZE)%nat.
Lemma flush_poll_link (cp cq : nat → Z) ep eq nq pkq (b : LoopbackBus) (p q : Peer LoopbackPort) timeout :
  side ep eq nq pkq p → side eq ep (p_node_id p) (kp_public_key (p_keys p)) q →
  bus_ok b → idle b eq → pending_fits (p_state p) →
  ∃ p' q' ds r, peer_flush cp (plug b p) = Ok (p', Z.of_nat (length ds)) ∧
    ds ≡ₚ pending_deltas (p_state p) ∧
    peer_poll cq timeout (plug (lp_bus (p_transport p')) q) =
      Ok (q', changed_count (p_state q) ds) ∧
    side ep eq nq pkq p' ∧ side eq ep (p_node_id p) (kp_public_key (p_keys p)) q' ∧
    steady p p' ∧ steady q q' ∧
    (∀ h, sreg_get (p_state p') h = region_after <$> sreg_get (p_state p) h) ∧
    sr_on_update (p_state p') = sr_on_update (p_state p) ∧
    p_state q' = r ∧ sr_on_update r = sr_on_update (p_state q) ∧
    (∀ h, sreg_get r h = merged (p_state q) ds h) ∧
    p_update_log p' = p_update_log p ∧
    p_update_log q' = p_update_log q ++ concat (merge_event (p_state q) <$> ds) ∧
    p_clock_reads p' = (if decide (ds = []) then p_clock_reads p else S (S (p_clock_reads p))) ∧
    p_clock_reads q' = p_clock_reads q ∧
    bus_ok (lp_bus (p_transport q')) ∧
    (∀ k, lb_queue (lp_bus (p_transport q')) k = lb_queue b k).
Proof.
  intros Hp Hq Hb Hidle Hfit. pose proof Hp as [Hpo Hpt (mc & Hc & Hrem) Hn Hk Hpk Ha Hf Hr].
  pose proof Hq as [Hqo Hqt (mq & Hcq & Hremq) Hnq Hkq Hpkq Haq Hfq Hrq].
  destruct (flush_only cp (plug b p) mc (plug_ok b p Hpo Hb) Hc Hf Hfit)
    as (p' & ds & Ef & Hperm & Hp' & Hst & Hlog & Hup & Hg & Hsent).
  change (steady p p') in Hst. change (p_state (plug b p)) with (p_state p) in *.
  change (p_update_log (plug b p)) with (p_update_log p) in *.
  change (p_clock_reads (plug b p)) with (p_clock_reads p) in *.
  change (p_keys (plug b p)) with (p_keys p) in *. change (p_node_id (plug b p)) with (p_node_id p) in *.
  assert (Forall pending_ok ds) as Hds by (rewrite Hperm; apply pending_deltas_ok; [apply Hpo|done]).
  assert (NoDup (pd_path_hash <$> ds)) as Hnd by (rewrite Hperm; apply NoDup_pending).
  destruct (apply_all_merge ds (p_state q)) as (r & Eall & Hrok & Hru & Hrg);
    [apply Hqo|eapply Forall_impl; [exact Hds|]; by intros d (_ & _ & _ & ?)|done|].
  destruct ds as [|d ds].
  - destruct Hsent as [Etr Er].
    destruct (poll_idle cq eq ep _ _ q (lp_bus (p_transport p')) timeout Hq)
      as (q' & Eq & Hq' & Hstq & S' & L' & R' & Hb' & Hqs); [by rewrite Etr|by rewrite Etr|].
    exists p', q', [], (p_state q). rewrite Etr in Hqs.
    split; [done|]. split; [done|]. split; [exact Eq|].
    split; [eapply side_steady; [exact Hp|done|done|by rewrite Etr|exact (reliabilities_after _ _ Hr Hg)]|].
    split_and!; try done. by rewrite app_nil_r.
  - destruct Hsent as (e & He & Hty & Hsz & Etr & Er).
    rewrite (port_send (p_transport (plug b p)) ep _ _ Hpt) in Etr
      by (apply packet_bytes_wf; [done|by apply delta_wires_wf]). rewrite Hrem in Etr.
    set (pkt := {| pk_data := _ |}) in Etr.
    assert (lp_bus (p_transport p') = lb_deliver b pkt) as Ebus by by rewrite Etr.
    assert (bus_ok (lb_deliver b pkt)) as Hb1 by (rewrite <-Ebus; apply Hp').
    destruct (poll_packet cq eq ep (p_node_id p) (p_keys p) q (lb_deliver b pkt) e (d :: ds) [] timeout)
      as (q' & r' & k & ev & Ea & Eq & Hq' & Hstq & S' & L' & R' & Eb); try done.
    { unfold lb_deliver. rewrite lb_queue_insert. cbn [pk_to pkt]. rewrite decide_True by done.
      unfold idle in Hidle. by rewrite Hidle. }
    rewrite Eall in Ea. injection Ea as <- <- <-. exists p', q', (d :: ds), r.
    split; [done|]. split; [done|]. split; [by rewrite Ebus|].
    split; [eapply side_steady; [exact Hp|done|done|by rewrite Etr|exact (reliabilities_after _ _ Hr Hg)]|].
    split; [by apply Hq', (reliabilities_merged (p_state q) r (d :: ds))|].
    do 9 (split; [done|]). split; [by rewrite decide_False by done|]. split; [done|]. rewrite Eb. split.
    + by apply bus_ok_take.
    + intros k. rewrite lb_queue_take. unfold lb_deliver. rewrite lb_queue_insert. cbn [pk_to pkt].
      unfold idle in Hidle. by case_decide; subst.
Qed.
End Bus.

(** ** Regions that hold a register or a counter *)
Definition lww_at (r : StateRegistry) (path : StatePath) : option LwwRegister :=
  g ← sreg_get r (sp_hash path); match rg_crdt g with CV_Lww v => Some v | _ => None end.
Definition counter_at (r : StateRegistry) (path : StatePath) : option GCounter :=
  g ← sreg_get r (sp_hash path); match rg_crdt g with CV_GCounter v => Some v | _ => None end.
Definition calm (r : StateRegistry) : Prop :=
  map_Forall (λ _ g, cv_has_pending_delta (rg_crdt g) = false) (sr_regions r).
Definition lww_clean (v : LwwRegister) : LwwRegister :=
  {| lww_value := lww_value v; lww_timestamp := lww_timestamp v; lww_node_id := lww_node_id v;
     lww_dirty := false |}.
Lemma lww_at_Some r path v :
  lww_at r path = Some v ↔ ∃ g, sreg_get r (sp_hash path) = Some g ∧ rg_crdt g = CV_Lww v.
Proof.
  unfold lww_at. split.
  - intros (g & Hg & Hv)%bind_Some. exists g. split; [done|]. by destruct (rg_crdt g); simplify_eq.
  - intros (g & Hg & Hv). rewrite Hg. simpl. by rewrite Hv.
Qed.
Lemma counter_at_Some r path v :
  counter_at r path = Some v ↔ ∃ g, sreg_get r (sp_hash path) = Some g ∧ rg_crdt g = CV_GCounter v.
Proof.
  unfold counter_at. split.
  - intros (g & Hg & Hv)%bind_Some. exists g. split; [done|]. by destruct (rg_crdt g); simplify_eq.
  - intros (g & Hg & Hv). rewrite Hg. simpl. by rewrite Hv.
Qed.
Lemma lww_at_ok r path v : sreg_ok r → lww_at r path = Some v → lww_ok v.
Proof.
  intros [_ Hok] (g & Hg & Hv)%lww_at_Some. destruct (Hok _ g Hg) as (_ & _ & _ & H). by rewrite Hv in H.
Qed.
Lemma counter_at_ok r path v : sreg_ok r → counter_at r path = Some v → gc_ok v.
Proof.
  intros [_ Hok] (g & Hg & Hv)%counter_at_Some. destruct (Hok _ g Hg) as (_ & _ & _ & H). by rewrite Hv in H.
Qed.
Lemma calm_region g :
  cv_has_pending_delta (rg_crdt g) = false → region_bytes g = None ∧ region_after g = g.
Proof. intros E. unfold region_bytes, region_after, region_delta. by rewrite E. Qed.
Lemma region_after_calm g : cv_ok (rg_crdt g) → cv_has_pending_delta (rg_crdt (region_after g)) = false.
Proof.
  intros Hv. unfold region_after, region_delta. destruct (cv_has_pending_delta (rg_crdt g)) eqn:E; [|done].
  by destruct (cv_delta_total _ Hv) as (v & d & -> & _ & _ & ? & _).
Qed.
Lemma lww_region g v :
  rg_crdt g = CV_Lww v → lww_dirty v = true →
  region_bytes g = Some (lww_bytes v) ∧ rg_crdt (region_after g) = CV_Lww (lww_clean v).
Proof.
  intros E Hd. unfold region_bytes, region_after, region_delta. rewrite E. simpl.
  unfold lww_has_pending_delta, lww_delta. rewrite Hd. simpl. rewrite lww_encode_state_Ok. simpl.
  done.
Qed.
Lemma counter_region g c e :
  rg_crdt g = CV_GCounter c → gc_dirty c = true → gc_find c (gc_node_id c) = Some e →
  region_bytes g = Some (gc_bytes [e]) ∧ rg_crdt (region_after g) = CV_GCounter (gc_clean c).
Proof.
  intros E Hd He. unfold region_bytes, region_after, region_delta. rewrite E. simpl.
  unfold gc_has_pending_delta. rewrite gc_delta_Ok, Hd, He. simpl. split; done.
Qed.
(** Merging a register whose stamp is newer, and one entry of a counter. *)
Lemma merge_into_lww g s v :
  rg_crdt g = CV_Lww s → lww_ok v → stamp_lt (lww_view s) (lww_view v) = true →
  ∃ s', cv_merge (rg_crdt g) (lww_bytes v) = Ok (CV_Lww s', true) ∧
        rg_crdt (merge_into (lww_bytes v) g) = CV_Lww s' ∧ lww_view s' = lww_view v.
Proof.
  intros E Hv Hlt. unfold merge_into. rewrite E. simpl.
  destruct (lww_merge_view s (lww_bytes v)) as (s' & ch & -> & Hview & Hd & Hch).
  rewrite lww_wire_bytes in Hview, Hch by done. rewrite Hlt in Hch. subst ch. exists s'. simpl.
  split; [done|]. split; [done|]. rewrite Hview. simpl. unfold stamp_max. by rewrite Hlt.
Qed.
Lemma merge_into_counter g s e :
  rg_crdt g = CV_GCounter s → gc_ok s → gc_entry_ok e →
  ∃ s' ch, cv_merge (rg_crdt g) (gc_bytes [e]) = Ok (CV_GCounter s', ch) ∧
    rg_crdt (merge_into (gc_bytes [e]) g) = CV_GCounter s' ∧
    (∀ n, gc_get s' n = if n =? ge_node_id e then omax (gc_get s n) (Some (ge_count e)) else gc_get s n) ∧
    (gc_get s' (ge_node_id e) ≠ gc_get s (ge_node_id e) → ch = true).
Proof.
  intros E Hs He. unfold merge_into. rewrite E. cbn [cv_merge]. rewrite gc_merge_wire, <-(app_nil_r (gc_bytes [e])).
  rewrite gc_wire_bytes by first [by apply Forall_singleton | simpl; lia].
  pose proof (gc_merge_entries_spec [e] s false Hs ltac:(by constructor)) as Hm.
  destruct (foldl _ _ _) as [s' ch]. destruct Hm as (_ & Hi & Hd & Hg & Hch). simpl. exists s', ch.
  split_and!; try done.
  - intros n. rewrite Hg, entries_get_cons, Z.eqb_sym. by destruct (n =? ge_node_id e); rewrite !omax_None_r.
  - intros Hne. apply Hch. right. by eexists.
Qed.
(** Merging leaves alone what the application has not sent yet and where regions live. *)
Lemma merged_region r r' ds h g :
  (∀ h, sreg_get r' h = merged r ds h) → sreg_get r' h = Some g →
  ∃ g0, sreg_get r h = Some g0 ∧ rg_path g = rg_path g0 ∧
    (g = g0 ∨ ∃ data, delta_for h ds = Some data ∧ g = merge_into data g0).
Proof.
  intros Hr. rewrite Hr. unfold merged. destruct (delta_for h ds) as [data|]; [|by eauto].
  intros (g0 & E & ->)%fmap_Some_1. exists g0. split; [done|]. split; [|by eauto].
  unfold merge_into. by destruct (cv_merge _ _) as [[v b]| |].
Qed.
Lemma merged_calm r r' ds :
  sreg_ok r → calm r → Forall (λ d, wf_bytes (pd_data d)) ds → (∀ h, sreg_get r' h = merged r ds h) → calm r'.
Proof.
  intros [_ Hok] Hc Hw Hr h g Hg. destruct (merged_region r r' ds h g Hr Hg) as (g0 & Hg0 & _ & [->|(data & Hd & ->)]);
    [by apply (Hc h g0)|].
  unfold delta_for in Hd. destruct (find_key pd_path_hash h ds) as [d|] eqn:Ef; [|done]. injection Hd as <-.
  apply find_key_Some in Ef as [Hin _]. rewrite Forall_forall in Hw.
  destruct (Hok h g0 Hg0) as (_ & _ & _ & Hv).
  destruct (cv_merge_total _ _ Hv (Hw d Hin)) as (v & b & Em & _ & Ep). unfold merge_into. rewrite Em. simpl.
  rewrite Ep. by apply (Hc h g0).
Qed.
Lemma merged_path r r' ds h :
  (∀ h, sreg_get r' h = merged r ds h) → rg_path <$> sreg_get r' h = rg_path <$> sreg_get r h.
Proof.
  intros Hr. rewrite Hr. unfold merged. destruct (delta_for h ds) as [data|]; [|done].
  destruct (sreg_get r h) as [g|]; [|done]. simpl. f_equal. unfold merge_into.
  by destruct (cv_merge _ _) as [[v b]| |].
Qed.
(** The class of a region's CRDT survives merging and sending. *)
Lemma merged_lww r r' ds path :
  (∀ h, sreg_get r' h = merged r ds h) → is_Some (lww_at r path) → is_Some (lww_at r' path).
Proof.
  intros Hr [v (g & Hg & Cg)%lww_at_Some]. unfold lww_at. rewrite Hr. unfold merged. rewrite Hg.
  destruct (delta_for _ ds) as [data|]; simpl; [|by rewrite Cg]. unfold merge_into. rewrite Cg. simpl.
  destruct (lww_merge v data) as [[v' b]| |]; simpl; rewrite ?Cg; by eexists.
Qed.
Lemma after_lww r r' path :
  (∀ h, sreg_get r' h = region_after <$> sreg_get r h) → is_Some (lww_at r path) → is_Some (lww_at r' path).
Proof.
  intros Hr [v (g & Hg & Cg)%lww_at_Some]. unfold lww_at. rewrite Hr, Hg. simpl.
  unfold region_after, region_delta. rewrite Cg. cbn [cv_has_pending_delta cv_delta].
  destruct (lww_has_pending_delta v); [destruct (lww_delta v) as [[v' d]| |]|]; simpl; rewrite ?Cg; by eexists.
Qed.
(** A merge that changes the region calls back, if a callback is set. *)
Lemma merge_event_fires r d g v :
  sreg_ok r → sr_on_update r = true → sreg_get r (pd_path_hash d) = Some g → wf_bytes (pd_data d) →
  cv_merge (rg_crdt g) (pd_data d) = Ok (v, true) → ∃ snap, merge_event r d = [(rg_path g, snap)].
Proof.
  intros [_ Hok] Hu Hg Hw Em. destruct (Hok _ g Hg) as (_ & _ & _ & Hv).
  destruct (cv_merge_total _ _ Hv Hw) as (v' & b & Em' & Hv' & _). rewrite Em in Em'. injection Em' as <- <-.
  destruct (cv_snapshot_total v Hv') as (snap & Es & _). exists snap.
  unfold merge_event, merge_flag, merge_into. rewrite Hg, Em, Hu. simpl. by rewrite Es.
Qed.

(** ** Local writes of a connected peer *)
Section Writes.
Context `{XxHash} `{Ed25519} `{UnorderedIter} `{StdSort} {T : Type} `{!Transport T}.
Context (clock : nat → Z).

(** The region at [path] now holds [v], and nothing else happened. *)
Definition wrote (p p' : Peer T) (path : StatePath) (v : CrdtValue) : Prop :=
  peer_ok p' ∧ steady p p' ∧ p_transport p' = p_transport p ∧ p_update_log p' = p_update_log p ∧
  sr_on_update (p_state p') = sr_on_update (p_state p) ∧
  (∃ g, sreg_get (p_state p) (sp_hash path) = Some g ∧
        sreg_get (p_state p') (sp_hash path) = Some (rg_bump_version (p_node_id p) (rg_set_crdt g v))) ∧
  (∀ h, h ≠ sp_hash path → sreg_get (p_state p') h = sreg_get (p_state p) h).
Lemma put_region_wrote (p p' : Peer T) path g v :
  peer_ok p' → sreg_get (p_state p) (sp_hash path) = Some g →
  (p_node_id p', p_keys p', p_peer_keys p', p_access_control p', p_delta_filters p') =
  (p_node_id p, p_keys p, p_peer_keys p, p_access_control p, p_delta_filters p) →
  cm_conns (p_conn_mgr p') = cm_conns (p_conn_mgr p) →
  p_transport p' = p_transport p → p_update_log p' = p_update_log p →
  p_state p' = sreg_set_regions (p_state p)
    (<[sp_hash path := rg_bump_version (p_node_id p) (rg_set_crdt g v)]> (sr_regions (p_state p))) →
  wrote p p' path v.
Proof.
  intros Hok Hg E Hc Ht Hl Hs. split; [done|]. split; [by apply steady_conns|]. split; [done|].
  split; [done|]. rewrite Hs. unfold sreg_get. simpl. split; [done|]. split.
  - exists g. split; [done|]. by rewrite lookup_insert_eq.
  - intros h Hne. by rewrite lookup_insert_ne.
Qed.
Lemma set_lww_wrote (p : Peer T) mc path data v :
  peer_ok p → cm_primary (p_conn_mgr p) = Some (0, mc) → lww_at (p_state p) path = Some v → wf_bytes data →
  ∃ p', peer_set_lww clock path data p = Ok (p', true) ∧
    wrote p p' path (CV_Lww (lww_set v data (cn_elapsed_us (mc_conn mc) (clock (p_clock_reads p))))) ∧
    p_clock_reads p' = S (p_clock_reads p).
Proof.
  intros Hp Hc (g & Hg & Hv)%lww_at_Some Hd.
  destruct (total_set_lww clock path data Hd p Hp) as (p' & b & E & Hok).
  destruct (proj2 (proj1 (proj2 (proj2 Hp))) _ g Hg) as (_ & _ & Hty & _). rewrite Hv in Hty.
  revert E. unfold peer_set_lww, mbind, PM_bind, pm_get. cbn [res_bind]. rewrite Hg.
  rewrite bool_decide_eq_true_2 by done. cbn [negb]. rewrite Hv, Hc.
  unfold pm_now, pm_put_region, pm_modify, mret, PM_ret. cbn [res_bind]. intros E. injection E as <- <-.
  eexists. split; [done|]. split; [|done]. by eapply put_region_wrote.
Qed.
Lemma increment_wrote (p : Peer T) path amount c :
  peer_ok p → counter_at (p_state p) path = Some c → is_u64 amount →
  ∃ p', peer_increment_counter path amount p = Ok (p', true) ∧
    wrote p p' path (CV_GCounter (gc_increment c amount)) ∧ p_clock_reads p' = p_clock_reads p.
Proof.
  intros Hp (g & Hg & Hv)%counter_at_Some Ha.
  destruct (total_increment path amount Ha p Hp) as (p' & b & E & Hok).
  destruct (proj2 (proj1 (proj2 (proj2 Hp))) _ g Hg) as (_ & _ & Hty & _). rewrite Hv in Hty.
  revert E. unfold peer_increment_counter, mbind, PM_bind, pm_get. cbn [res_bind]. rewrite Hg.
  rewrite bool_decide_eq_true_2 by done. cbn [negb]. rewrite Hv.
  unfold pm_put_region, pm_modify, mret, PM_ret. cbn [res_bind]. intros E. injection E as <- <-.
  eexists. split; [done|]. split; [|done]. by eapply put_region_wrote.
Qed.
Lemma wrote_reliabilities (p p' : Peer T) path v :
  wrote p p' path v → reliabilities_ok (p_state p) → reliabilities_ok (p_state p').
Proof.
  intros (_ & _ & _ & _ & _ & (g & Hg & Hg') & Ho) Hr h x Hx. change (sreg_get (p_state p') h = Some x) in Hx.
  destruct (decide (h = sp_hash path)) as [->|Hne]; [|rewrite Ho in Hx by done; by apply (Hr h x)].
  rewrite Hg' in Hx. injection Hx as <-. by apply (Hr _ g Hg).
Qed.
End Writes.

(** ** An established link *)
Section Linked.
Context `{XxHash} `{Ed25519} `{UnorderedIter} `{StdSort}.

Record linked (ec es : Endpoint) (w : Duo) : Prop := {
  lk_client : side ec es (p_node_id (du_server w)) (kp_public_key (p_keys (du_server w))) (du_client w);
  lk_server : side es ec (p_node_id (du_client w)) (kp_public_key (p_keys (du_client w))) (du_server w);
  lk_bus : bus_ok (du_bus w);
  lk_idle_client : idle (du_bus w) ec;
  lk_idle_server : idle (du_bus w) es }.

Lemma linked_regs ec es w : linked ec es w → sreg_ok (p_state (du_client w)) ∧ sreg_ok (p_state (du_server w)).
Proof. intros [Hc Hs _ _ _]. split; [apply (sd_ok _ _ _ _ _ Hc)|apply (sd_ok _ _ _ _ _ Hs)]. Qed.
Lemma side_plug me other node pk b p : side me other node pk p → bus_ok b → side me other node pk (plug b p).
Proof.
  intros Hs Hb. eapply side_steady; [exact Hs|by apply plug_ok, Hb; apply Hs|by apply steady_conns|done|apply Hs].
Qed.
Lemma plug_id b p : lp_bus (p_transport p) = b → plug b p = p.
Proof. destruct p as [? [t b'] ?]. simpl. by intros <-. Qed.
Lemma side_wrote me other node pk (p p' : Peer LoopbackPort) path v :
  side me other node pk p → wrote p p' path v → side me other node pk p'.
Proof.
  intros Hs Hw. pose proof Hw as (Hok & Hst & Ht & _). eapply side_steady; [exact Hs|done|done|by rewrite Ht|].
  eapply wrote_reliabilities; [exact Hw|apply Hs].
Qed.
Lemma steady_ids (p p' : Peer LoopbackPort) :
  steady p p' → p_node_id p' = p_node_id p ∧ p_keys p' = p_keys p.
Proof. intros [[= ? ? ? ? ?] _]. done. Qed.

(** The same world seen from the other end. *)
Definition swap (w : Duo) : Duo :=
  {| du_bus := du_bus w; du_client := du_server w; du_server := du_client w |}.
Lemma linked_swap ec es w : linked ec es w → linked es ec (swap w).
Proof. intros [? ? ? ? ?]. by split. Qed.
Lemma on_client_swap {A} (m : PM LoopbackPort A) w :
  on_client m (swap w) = let! (w', a) := on_server m w in Ok (swap w', a).
Proof.
  unfold on_client, on_server. destruct w as [b c s]. simpl. by destruct (m (plug b s)) as [[p a]| |].
Qed.
Lemma on_server_swap {A} (m : PM LoopbackPort A) w :
  on_server m (swap w) = let! (w', a) := on_client m w in Ok (swap w', a).
Proof.
  unfold on_client, on_server. destruct w as [b c s]. simpl. by destruct (m (plug b c)) as [[p a]| |].
Qed.

(** What [flush] at the client and [poll] at the server make of the world. *)
Definition replicated (w w' : Duo) (ds : list PendingDelta) : Prop :=
  ds ≡ₚ pending_deltas (p_state (du_client w)) ∧
  steady (du_client w) (du_client w') ∧ steady (du_server w) (du_server w') ∧
  (∀ h, sreg_get (p_state (du_client w')) h = region_after <$> sreg_get (p_state (du_client w)) h) ∧
  (∀ h, sreg_get (p_state (du_server w')) h = merged (p_state (du_server w)) ds h) ∧
  sr_on_update (p_state (du_client w')) = sr_on_update (p_state (du_client w)) ∧
  sr_on_update (p_state (du_server w')) = sr_on_update (p_state (du_server w)) ∧
  p_update_log (du_client w') = p_update_log (du_client w) ∧
  p_update_log (du_server w') =
    p_update_log (du_server w) ++ concat (merge_event (p_state (du_server w)) <$> ds) ∧
  p_clock_reads (du_client w') =
    (if decide (ds = []) then p_clock_reads (du_client w) else S (S (p_clock_reads (du_client w)))) ∧
  p_clock_reads (du_server w') = p_clock_reads (du_server w).
Lemma flush_poll_duo (cc cs : nat → Z) ec es w timeout :
  linked ec es w → pending_fits (p_state (du_client w)) →
  ∃ w1 w2 ds, on_client (peer_flush cc) w = Ok (w1, Z.of_nat (length ds)) ∧
    on_server (peer_poll cs timeout) w1 =
      Ok (w2, changed_count (p_state (du_server w)) ds) ∧
    linked ec es w2 ∧ replicated w w2 ds.
Proof.
  intros [Hc Hs Hb Hic His] Hfit.
  destruct (flush_poll_link cc cs ec es _ _ (du_bus w) (du_client w) (du_server w) timeout Hc Hs Hb His Hfit)
    as (p' & q' & ds & r & Ef & Hperm & Ep & Hp' & Hq' & Hstp & Hstq & Hg & Hup & Hr & Hur & Hm & Lp & Lq & Rp & Rq & Hbq & Hqs).
  unfold on_client. rewrite Ef. cbn [res_bind]. eexists _, _, ds. split; [done|].
  unfold on_server. cbn [du_bus du_server du_client]. rewrite Ep. cbn [res_bind]. split; [done|].
  destruct (steady_ids _ _ Hstp) as [En1 Ek1], (steady_ids _ _ Hstq) as [En2 Ek2]. split.
  - split; cbn [du_bus du_server du_client]; rewrite ?En1, ?Ek1, ?En2, ?Ek2; try done; unfold idle; by rewrite Hqs.
  - unfold replicated. cbn [du_bus du_server du_client]. rewrite Hr. by split_and!.
Qed.
End Linked.

(** ** A stream of frames

    One turn of the loop of [examples/state_streaming_demo.cpp]: the client writes its
    position and its points and flushes, the server polls. *)
Section Stream.
Context `{XxHash} `{Ed25519} `{UnorderedIter} `{StdSort}.
Context (cc cs : nat → Z) (ec es : Endpoint) (pos_path score_path : StatePath).
Context (Hpaths : sp_hash pos_path ≠ sp_hash score_path).

Definition stream_frame (w : Duo) (f : bytes * Z) : res Duo :=
  let! (w, _) := on_client (peer_set_lww cc pos_path f.1) w in
  let! (w, _) := on_client (peer_increment_counter score_path f.2) w in
  let! (w, _) := on_client (peer_flush cc) w in
  let! (w, _) := on_server (peer_poll cs 100) w in
  Ok w.
Definition stream (w : Duo) (fs : list (bytes * Z)) : res Duo := res_foldl stream_frame w fs.

(** What the two local writes leave pending. *)
Lemma pending_two r gp gs v c e :
  sreg_get r (sp_hash pos_path) = Some gp → sreg_get r (sp_hash score_path) = Some gs →
  rg_crdt gp = CV_Lww v → lww_dirty v = true →
  rg_crdt gs = CV_GCounter c → gc_dirty c = true → gc_find c (gc_node_id c) = Some e →
  (∀ h g, h ≠ sp_hash pos_path → h ≠ sp_hash score_path → sreg_get r h = Some g →
     cv_has_pending_delta (rg_crdt g) = false) →
  pending_deltas r ≡ₚ
    [{| pd_path_hash := sp_hash pos_path; pd_crdt_type := rg_crdt_type gp;
        pd_reliability := rg_reliability gp; pd_data := lww_bytes v |};
     {| pd_path_hash := sp_hash score_path; pd_crdt_type := rg_crdt_type gs;
        pd_reliability := rg_reliability gs; pd_data := gc_bytes [e] |}].
Proof.
  intros Hp Hs Ev Dv Ec Dc He Hcalm.
  destruct (lww_region gp v Ev Dv) as [Bp _], (counter_region gs c e Ec Dc He) as [Bs _].
  apply NoDup_Permutation.
  - eapply NoDup_fmap_1, NoDup_pending.
  - apply NoDup_cons. split; [|apply NoDup_singleton]. intros Hin%list_elem_of_singleton.
    injection Hin as E _ _ _. done.
  - intros d. rewrite elem_of_pending, elem_of_cons, list_elem_of_singleton. split.
    + intros (g & Hg & Hb & E1 & E2). destruct d as [h t rel data]; simpl in *.
      destruct (decide (h = sp_hash pos_path)) as [->|N1]; [left; by simplify_eq|].
      destruct (decide (h = sp_hash score_path)) as [->|N2]; [right; by simplify_eq|].
      by rewrite (proj1 (calm_region g (Hcalm h g N1 N2 Hg))) in Hb.
    + intros [->| ->]; simpl; [exists gp|exists gs]; by split_and!.
Qed.

(** The register of the server is behind the next write of the client. *)
Definition behind (w : Duo) (mc : ManagedConnection) (rc rs : LwwRegister) : Prop :=
  stamp_lt (lww_view rs) (cn_elapsed_us (mc_conn mc) (cc (p_clock_reads (du_client w))), lww_node_id rc, []) = true.
Lemma stamp_lt_value a t n v v' : stamp_lt a (t, n, v) = stamp_lt a (t, n, v').
Proof. by destruct a as [[??]?]. Qed.

(** A local write at the client. *)
Lemma on_client_write {A} (m : PM LoopbackPort A) w p' a path v :
  linked ec es w → m (plug (du_bus w) (du_client w)) = Ok (p', a) →
  wrote (plug (du_bus w) (du_client w)) p' path v →
  let w' := {| du_bus := du_bus w; du_client := p'; du_server := du_server w |} in
  on_client m w = Ok (w', a) ∧ linked ec es w' ∧ steady (du_client w) p' ∧ plug (du_bus w) p' = p'.
Proof.
  intros Hl Em Hw w'. pose proof Hl as [Hsc Hss Hb Hic His]. pose proof Hw as (Hok & Hst & Ht & _).
  assert (lp_bus (p_transport p') = du_bus w) as Ebus by by rewrite Ht.
  unfold on_client. rewrite Em. cbn [res_bind]. rewrite Ebus. split; [done|]. split; [|split; [done|by apply plug_id]].
  destruct (steady_ids _ _ Hst) as [En Ek]. split; simpl; try done.
  - eapply side_wrote; [|exact Hw]. by apply side_plug.
  - rewrite En, Ek. exact Hss.
Qed.

Lemma client_writes w pos pts mc rc c :
  linked ec es w → only_conn (du_client w) mc →
  lww_at (p_state (du_client w)) pos_path = Some rc →
  counter_at (p_state (du_client w)) score_path = Some c → wf_bytes pos → is_u64 pts →
  let ts := cn_elapsed_us (mc_conn mc) (cc (p_clock_reads (du_client w))) in
  ∃ w1 w2 gp gs, on_client (peer_set_lww cc pos_path pos) w = Ok (w1, true) ∧
    on_client (peer_increment_counter score_path pts) w1 = Ok (w2, true) ∧ linked ec es w2 ∧
    du_server w2 = du_server w ∧ steady (du_client w) (du_client w2) ∧
    p_clock_reads (du_client w2) = S (p_clock_reads (du_client w)) ∧
    p_update_log (du_client w2) = p_update_log (du_client w) ∧
    sr_on_update (p_state (du_client w2)) = sr_on_update (p_state (du_client w)) ∧
    sreg_get (p_state (du_client w2)) (sp_hash pos_path) = Some gp ∧
    sreg_get (p_state (du_client w2)) (sp_hash score_path) = Some gs ∧
    rg_crdt gp = CV_Lww (lww_set rc pos ts) ∧ rg_crdt gs = CV_GCounter (gc_increment c pts) ∧
    ∀ h, h ≠ sp_hash pos_path → h ≠ sp_hash score_path →
      sreg_get (p_state (du_client w2)) h = sreg_get (p_state (du_client w)) h.
Proof.
  intros Hl Hmc Hrc Hc Hpos Hpts ts. pose proof Hl as [Hsc Hss Hb Hic His].
  destruct (set_lww_wrote cc (plug (du_bus w) (du_client w)) mc pos_path pos rc) as (p1 & E1 & W1 & R1);
    [by apply plug_ok; [apply Hsc|]|exact (only_conn_primary (du_client w) mc Hmc)|done..|].
  destruct (on_client_write _ w p1 true pos_path _ Hl E1 W1) as (F1 & Hl1 & St1 & Pl1).
  set (w1 := {| du_client := p1 |}) in *.
  pose proof W1 as (Hok1 & _ & _ & L1 & U1 & (g1 & Hg1 & Hg1') & Ho1).
  assert (counter_at (p_state p1) score_path = Some c) as Hc1.
  { unfold counter_at. rewrite Ho1 by congruence. exact Hc. }
  destruct (increment_wrote p1 score_path pts c Hok1 Hc1 Hpts) as (p2 & E2 & W2 & R2).
  destruct (on_client_write (peer_increment_counter score_path pts) w1 p2 true score_path
    (CV_GCounter (gc_increment c pts)) Hl1) as (F2 & Hl2 & St2 & Pl2);
    [simpl; by rewrite Pl1..|]. set (w2 := {| du_client := p2 |}) in *.
  pose proof W2 as (Hok2 & _ & _ & L2 & U2 & (g2 & Hg2 & Hg2') & Ho2).
  eexists w1, w2, _, _. split; [exact F1|]. split; [exact F2|]. split; [done|]. split; [done|].
  split; [by etrans|]. split; [simpl; rewrite R2; exact R1|]. split; [simpl; rewrite L2; exact L1|].
  split; [simpl; rewrite U2; exact U1|].
  split; [simpl; rewrite Ho2 by done; exact Hg1'|]. split; [exact Hg2'|]. split; [done|]. split; [done|].
  intros h N1 N2. simpl. rewrite Ho2, Ho1 by done. done.
Qed.

(** A frame whose two deltas fit in a packet. *)
Definition frame_fits (f : bytes * Z) : Prop := wf_bytes f.1 ∧ is_u64 f.2 ∧ (length f.1 ≤ 1200)%nat.
(** The frame up to the merge: what the client has written and sent. *)
Lemma frame_runs w pos pts mc rc c :
  linked ec es w → only_conn (du_client w) mc → calm (p_state (du_client w)) →
  lww_at (p_state (du_client w)) pos_path = Some rc →
  counter_at (p_state (du_client w)) score_path = Some c → frame_fits (pos, pts) →
  let ts := cn_elapsed_us (mc_conn mc) (cc (p_clock_reads (du_client w))) in
  let e := {| ge_node_id := gc_node_id c; ge_count := u64 (gc_local_count c + pts) |} in
  ∃ w2 w' gp gs ds, stream_frame w (pos, pts) = Ok w' ∧ linked ec es w' ∧ replicated w2 w' ds ∧
    du_server w2 = du_server w ∧ steady (du_client w) (du_client w2) ∧ sreg_ok (p_state (du_client w2)) ∧
    p_clock_reads (du_client w2) = S (p_clock_reads (du_client w)) ∧
    sreg_get (p_state (du_client w2)) (sp_hash pos_path) = Some gp ∧
    sreg_get (p_state (du_client w2)) (sp_hash score_path) = Some gs ∧
    rg_crdt gp = CV_Lww (lww_set rc pos ts) ∧ rg_crdt gs = CV_GCounter (gc_increment c pts) ∧
    gc_find (gc_increment c pts) (gc_node_id c) = Some e ∧
    ds ≡ₚ [{| pd_path_hash := sp_hash pos_path; pd_crdt_type := rg_crdt_type gp;
              pd_reliability := rg_reliability gp; pd_data := lww_bytes (lww_set rc pos ts) |};
           {| pd_path_hash := sp_hash score_path; pd_crdt_type := rg_crdt_type gs;
              pd_reliability := rg_reliability gs; pd_data := gc_bytes [e] |}] ∧
    p_update_log (du_client w2) = p_update_log (du_client w) ∧
    sr_on_update (p_state (du_client w2)) = sr_on_update (p_state (du_client w)) ∧
    ∀ h, h ≠ sp_hash pos_path → h ≠ sp_hash score_path →
      sreg_get (p_state (du_client w2)) h = sreg_get (p_state (du_client w)) h.
Proof.
  intros Hl Hmc Hcalm Hrc Hc (Hpos & Hpts & Hlen) ts e.
  destruct (client_writes w pos pts mc rc c Hl Hmc Hrc Hc Hpos Hpts)
    as (w1 & w2 & gp & gs & F1 & F2 & Hl2 & Es & St & R & L & U & Hgp & Hgs & Cp & Cs & Ho).
  pose proof (counter_at_ok _ _ _ (proj1 (linked_regs _ _ _ Hl)) Hc) as Hcok.
  pose proof (gc_increment_find c pts Hcok Hpts) as Hfind. fold e in Hfind.
  pose proof (pending_two _ gp gs _ _ e Hgp Hgs Cp eq_refl Cs eq_refl Hfind) as Hperm.
  specialize (Hperm ltac:(intros h g N1 N2 Hg; rewrite Ho in Hg by done; by apply (Hcalm h g))).
  destruct (flush_poll_duo cc cs ec es w2 100 Hl2) as (w3 & w4 & ds & F3 & F4 & Hl4 & Hrep).
  { unfold pending_fits. rewrite Hperm. simpl in *. unfold MAX_PAYLOAD_SIZE, MAX_PACKET_SIZE, PACKET_HEADER_SIZE.
    rewrite ?length_app. simpl. lia. }
  exists w2, w4, gp, gs, ds. split.
  { unfold stream_frame. cbn [fst snd]. rewrite F1. cbn [res_bind]. rewrite F2. cbn [res_bind].
    rewrite F3. cbn [res_bind]. by rewrite F4. }
  split_and!; try done; [apply (linked_regs _ _ _ Hl2)|]. by rewrite (proj1 Hrep).
Qed.

(** What one frame does to both ends. *)
Record frame_done (w w' : Duo) (mc : ManagedConnection) (rc : LwwRegister) (c s : GCounter) (pos : bytes) (pts : Z)
    : Prop := {
  fd_linked : linked ec es w';
  fd_client : steady (du_client w) (du_client w') ∧ calm (p_state (du_client w')) ∧
    p_clock_reads (du_client w') = (3 + p_clock_reads (du_client w))%nat ∧
    p_update_log (du_client w') = p_update_log (du_client w) ∧
    sr_on_update (p_state (du_client w')) = sr_on_update (p_state (du_client w));
  fd_server : steady (du_server w) (du_server w') ∧
    (calm (p_state (du_server w)) → calm (p_state (du_server w'))) ∧
    p_clock_reads (du_server w') = p_clock_reads (du_server w) ∧
    sr_on_update (p_state (du_server w')) = sr_on_update (p_state (du_server w)) ∧
    ∀ h, rg_path <$> sreg_get (p_state (du_server w')) h = rg_path <$> sreg_get (p_state (du_server w)) h;
  fd_register : let v := lww_set rc pos (cn_elapsed_us (mc_conn mc) (cc (p_clock_reads (du_client w)))) in
    lww_at (p_state (du_client w')) pos_path = Some (lww_clean v) ∧
    ∃ rs', lww_at (p_state (du_server w')) pos_path = Some rs' ∧ lww_view rs' = lww_view v;
  fd_counter : let c' := gc_increment c pts in
    counter_at (p_state (du_client w')) score_path = Some (gc_clean c') ∧
    ∃ s', counter_at (p_state (du_server w')) score_path = Some s' ∧
      ∀ n, gc_get s' n = if n =? gc_node_id c then omax (gc_get s n) (Some (gc_local_count c')) else gc_get s n;
  fd_others : ∀ h, h ≠ sp_hash pos_path → h ≠ sp_hash score_path →
    sreg_get (p_state (du_client w')) h = sreg_get (p_state (du_client w)) h ∧
    sreg_get (p_state (du_server w')) h = sreg_get (p_state (du_server w)) h;
  fd_events : ∃ evs, p_update_log (du_server w') = p_update_log (du_server w) ++ evs ∧
    (sr_on_update (p_state (du_server w)) = true →
     rg_path <$> sreg_get (p_state (du_server w)) (sp_hash pos_path) = Some pos_path →
     rg_path <$> sreg_get (p_state (du_server w)) (sp_hash score_path) = Some score_path →
     omax (gc_get s (gc_node_id c)) (Some (gc_local_count (gc_increment c pts))) ≠ gc_get s (gc_node_id c) →
     evs.*1 ≡ₚ [pos_path; score_path]) }.
Lemma replicated_calm w w' ds : sreg_ok (p_state (du_client w)) → replicated w w' ds → calm (p_state (du_client w')).
Proof.
  intros Hok (_ & _ & _ & Gc & _) h g Hg. change (sreg_get (p_state (du_client w')) h = Some g) in Hg.
  rewrite Gc in Hg. apply fmap_Some in Hg as (g0 & E0 & ->). apply region_after_calm. by apply (proj2 Hok h g0).
Qed.
Lemma frame_events (r : StateRegistry) ds d1 d2 gp gs v1 v2 :
  sreg_ok r → sr_on_update r = true → ds ≡ₚ [d1; d2] → wf_bytes (pd_data d1) → wf_bytes (pd_data d2) →
  sreg_get r (pd_path_hash d1) = Some gp → sreg_get r (pd_path_hash d2) = Some gs →
  cv_merge (rg_crdt gp) (pd_data d1) = Ok (v1, true) → cv_merge (rg_crdt gs) (pd_data d2) = Ok (v2, true) →
  (concat (merge_event r <$> ds)).*1 ≡ₚ [rg_path gp; rg_path gs].
Proof.
  intros Hr Hu Hds Hw1 Hw2 Hg1 Hg2 E1 E2.
  destruct (merge_event_fires r d1 gp v1 Hr Hu Hg1 Hw1 E1) as [s1 F1].
  destruct (merge_event_fires r d2 gs v2 Hr Hu Hg2 Hw2 E2) as [s2 F2].
  rewrite <-flat_map_concat_map, Hds. simpl. by rewrite F1, F2.
Qed.
Lemma stream_frame_spec w pos pts mc rc rs c s :
  linked ec es w → only_conn (du_client w) mc → calm (p_state (du_client w)) →
  lww_at (p_state (du_client w)) pos_path = Some rc → lww_at (p_state (du_server w)) pos_path = Some rs →
  counter_at (p_state (du_client w)) score_path = Some c →
  counter_at (p_state (du_server w)) score_path = Some s →
  behind w mc rc rs → frame_fits (pos, pts) →
  ∃ w', stream_frame w (pos, pts) = Ok w' ∧ frame_done w w' mc rc c s pos pts.
Proof.
  intros Hl Hmc Hcalm Hrc Hrs Hc Hs Hbeh Hfit. pose proof Hfit as (Hpos & Hpts & _). cbn [fst snd] in Hpos, Hpts.
  destruct (frame_runs w pos pts mc rc c Hl Hmc Hcalm Hrc Hc Hfit)
    as (w2 & w' & gp & gs & ds & F & Hl' & Hrep & Es & St & Hok2 & R & Hgp & Hgs & Cp & Cs & Hfind & Hperm & L & U & Ho).
  set (v := lww_set rc pos _) in *. set (e := {| ge_node_id := gc_node_id c |}) in *.
  pose proof (replicated_calm _ _ _ Hok2 Hrep) as Hcalm'.
  destruct Hrep as (Hds & Stc & Sts & Gc & Gs & Uc & Us & Lc & Ls & Rc & Rs). rewrite Es in *.
  destruct (linked_regs _ _ _ Hl) as [Hcok Hsok].
  assert (∀ h, delta_for h ds = sreg_get (p_state (du_client w2)) h ≫= region_bytes) as Hdf
    by (intros h; by apply delta_for_pending).
  destruct (lww_region gp v Cp eq_refl) as [Bp Ap], (counter_region gs _ e Cs eq_refl Hfind) as [Bs As].
  pose proof (counter_at_ok _ _ _ Hcok Hc) as Hc0. pose proof (lww_at_ok _ _ _ Hcok Hrc) as (_ & Hn & _).
  assert (Forall (λ d, wf_bytes (pd_data d)) ds) as Hwf by (rewrite Hds; by apply pending_wf).
  pose proof Hrs as (hp & Hhp & Chp)%lww_at_Some. pose proof Hs as (hs & Hhs & Chs)%counter_at_Some.
  destruct (merge_into_lww hp rs v Chp) as (rs' & Mp & Crs & Vrs);
    [split_and!; [apply elapsed_is_u|done|done]|rewrite <-Hbeh; apply stamp_lt_value|].
  destruct (merge_into_counter hs s e Chs) as (s' & ch & Ms & Cs' & Gs' & Hch);
    [by eapply counter_at_ok|split; [apply Hc0|apply u64_is_u]|].
  exists w'. split; [exact F|]. split.
  - exact Hl'.
  - split; [by etrans|]. split; [done|].
    split; [|split; congruence]. rewrite Rc, R, decide_False; [done|]. intros ->. by apply Permutation_nil_l in Hperm.
  - split; [done|]. split; [intros Hsc; by eapply merged_calm|]. split; [done|]. split; [done|].
    intros h. by eapply merged_path.
  - split; [apply lww_at_Some; exists (region_after gp); by rewrite Gc, Hgp|].
    exists rs'. split; [|exact Vrs]. apply lww_at_Some. exists (merge_into (lww_bytes v) hp). split; [|done].
    rewrite Gs. unfold merged. rewrite Hdf, Hgp. simpl. by rewrite Bp, Hhp.
  - split; [apply counter_at_Some; exists (region_after gs); by rewrite Gc, Hgs|].
    exists s'. split.
    + apply counter_at_Some. exists (merge_into (gc_bytes [e]) hs). split; [|done].
      rewrite Gs. unfold merged. rewrite Hdf, Hgs. simpl. by rewrite Bs, Hhs.
    + intros n. rewrite Gs'. by rewrite gc_increment_local.
  - intros h N1 N2. rewrite Gc, Gs. unfold merged. rewrite Hdf, (Ho h N1 N2).
    destruct (sreg_get (p_state (du_client w)) h) as [g|] eqn:Eg; [|done]. simpl.
    destruct (calm_region g (Hcalm h g Eg)) as [-> ->]. done.
  - eexists. split; [exact Ls|]. intros Hu Pp Ps Hnew. rewrite Hhp in Pp. rewrite Hhs in Ps.
    injection Pp as Pp. injection Ps as Ps.
    assert (ch = true) as -> by (apply Hch; rewrite Gs'; simpl; by rewrite Z.eqb_refl, <-gc_increment_local).
    rewrite Hperm in Hwf. apply Forall_cons in Hwf as [W1 W2]. apply Forall_cons in W2 as [W2 _].
    rewrite (frame_events _ _ _ _ hp hs _ _ Hsok Hu Hperm W1 W2 Hhp Hhs Mp Ms). by rewrite Pp, Ps.
Qed.

Lemma elapsed_epoch c c' t : cn_epoch c' = cn_epoch c → cn_elapsed_us c' t = cn_elapsed_us c t.
Proof. intros E. unfold cn_elapsed_us. by rewrite E. Qed.
Lemma omax_le x l l' : omax x (Some l) = Some l → l ≤ l' → omax x (Some l') = Some l'.
Proof. destruct x as [x|]; simpl; [|done]. intros [= E] Hl. f_equal. lia. Qed.
Lemma omax_new x l l' : omax x (Some l) = Some l → l < l' → omax x (Some l') ≠ x.
Proof. destruct x as [x|]; simpl; [|done]. intros [= E] Hl [= E']. lia. Qed.
Lemma gc_local_count_nonneg c : gc_ok c → 0 ≤ gc_local_count c.
Proof.
  intros (_ & _ & Hc). unfold gc_local_count. destruct (gc_find c _) as [e|] eqn:E; [|done].
  apply find_key_Some in E as [Hin _]. rewrite Forall_forall in Hc. by destruct (Hc e Hin) as [_ [? _]].
Qed.

(** The state of a stream: the server has seen everything the client has flushed. *)
Record streaming (w : Duo) (mc : ManagedConnection) (rc rs : LwwRegister) (c s : GCounter) : Prop := {
  sg_linked : linked ec es w;
  sg_conn : only_conn (du_client w) mc;
  sg_calm : calm (p_state (du_client w));
  sg_rc : lww_at (p_state (du_client w)) pos_path = Some rc;
  sg_rs : lww_at (p_state (du_server w)) pos_path = Some rs;
  sg_c : counter_at (p_state (du_client w)) score_path = Some c;
  sg_s : counter_at (p_state (du_server w)) score_path = Some s;
  sg_seen : omax (gc_get s (gc_node_id c)) (Some (gc_local_count c)) = Some (gc_local_count c) }.
(** The server's callback is set, and the regions were declared with these paths. *)
Definition listening (w : Duo) : Prop :=
  sr_on_update (p_state (du_server w)) = true ∧
  rg_path <$> sreg_get (p_state (du_server w)) (sp_hash pos_path) = Some pos_path ∧
  rg_path <$> sreg_get (p_state (du_server w)) (sp_hash score_path) = Some score_path.
(** The timestamp has advanced from each frame to the next: three clock readings later. *)
Definition paced (mc : ManagedConnection) (k n : nat) : Prop :=
  ∀ i, (S i < n)%nat →
    cn_elapsed_us (mc_conn mc) (cc (k + 3 * i)) < cn_elapsed_us (mc_conn mc) (cc (k + 3 * S i)).
Definition points (fs : list (bytes * Z)) : Z := foldr Z.add 0 (snd <$> fs).

(** The parts of the world a stream leaves alone, and what it calls back. *)
Record undisturbed (w w' : Duo) (n : nat) : Prop := {
  ud_client : steady (du_client w) (du_client w');
  ud_server : steady (du_server w) (du_server w');
  ud_client_reads : p_clock_reads (du_client w') = (3 * n + p_clock_reads (du_client w))%nat;
  ud_server_reads : p_clock_reads (du_server w') = p_clock_reads (du_server w);
  ud_client_log : p_update_log (du_client w') = p_update_log (du_client w);
  ud_client_hears : sr_on_update (p_state (du_client w')) = sr_on_update (p_state (du_client w));
  ud_calm : calm (p_state (du_server w)) → calm (p_state (du_server w'));
  ud_listening : listening w → listening w';
  ud_others : ∀ h, h ≠ sp_hash pos_path → h ≠ sp_hash score_path →
    sreg_get (p_state (du_client w')) h = sreg_get (p_state (du_client w)) h ∧
    sreg_get (p_state (du_server w')) h = sreg_get (p_state (du_server w)) h }.
Lemma undisturbed_refl w : undisturbed w w 0.
Proof. by split. Qed.
Lemma undisturbed_trans w1 w2 w3 n m : undisturbed w1 w2 n → undisturbed w2 w3 m → undisturbed w1 w3 (n + m).
Proof.
  intros [A1 A2 A3 A4 A5 A6 A7 A8 A9] [B1 B2 B3 B4 B5 B6 B7 B8 B9].
  split; [by etrans|by etrans|lia|congruence|congruence|congruence|auto|auto|].
  intros h N1 N2. destruct (A9 h N1 N2), (B9 h N1 N2). split; congruence.
Qed.
Definition called_back (w w' : Duo) (fs : list (bytes * Z)) (evss : list (list UpdateEvent)) : Prop :=
  length evss = length fs ∧
  p_update_log (du_server w') = p_update_log (du_server w) ++ concat evss ∧
  (listening w → Forall (λ f, 0 < f.2) fs → Forall (λ evs, evs.*1 ≡ₚ [pos_path; score_path]) evss).

Lemma stream_step w mc rc rs c s pos pts :
  streaming w mc rc rs c s → behind w mc rc rs → frame_fits (pos, pts) →
  gc_local_count c + pts < 2 ^ 64 →
  ∃ w' mc' rc' rs' c' s' evs, stream_frame w (pos, pts) = Ok w' ∧ streaming w' mc' rc' rs' c' s' ∧
    undisturbed w w' 1 ∧ called_back w w' [(pos, pts)] [evs] ∧
    cn_epoch (mc_conn mc') = cn_epoch (mc_conn mc) ∧
    lww_node_id rc' = lww_node_id rc ∧
    lww_view rs' = (cn_elapsed_us (mc_conn mc) (cc (p_clock_reads (du_client w))), lww_node_id rc, pos) ∧
    gc_node_id c' = gc_node_id c ∧ gc_local_count c' = gc_local_count c + pts ∧
    (∀ n, gc_get s' n = if n =? gc_node_id c then Some (gc_local_count c + pts) else gc_get s n).
Proof.
  intros [Hl Hmc Hcalm Hrc Hrs Hc Hs Hseen] Hbeh Hfit Hov. pose proof Hfit as (_ & Hpts & _).
  cbn [snd] in Hpts. pose proof (proj1 Hpts) as Hp0.
  destruct (stream_frame_spec w pos pts mc rc rs c s Hl Hmc Hcalm Hrc Hrs Hc Hs Hbeh Hfit)
    as (w' & E & [Hl' (Stc & Hcalm' & Rc & Lc & Uc) (Sts & Hsc & Rs & Us & Ps) (Hrc' & rs' & Hrs' & Vrs')
                  (Hc' & s' & Hs' & Gs') Hoth (evs & Hlog & Hevs)]).
  destruct (only_conn_steady _ _ _ Hmc Stc) as (mc' & Hmc' & Hsame & _).
  pose proof (counter_at_ok _ _ _ (proj1 (linked_regs _ _ _ Hl)) Hc) as Hcok.
  pose proof (gc_local_count_nonneg c Hcok) as Hnn.
  assert (gc_local_count (gc_increment c pts) = gc_local_count c + pts) as Hloc
    by (rewrite gc_increment_local by done; apply wrap_id; split; lia).
  assert (∀ n, gc_get s' n = if n =? gc_node_id c then Some (gc_local_count c + pts) else gc_get s n) as Hget.
  { intros n. rewrite Gs', Hloc. destruct (Z.eqb_spec n (gc_node_id c)) as [->|]; [|done].
    eapply omax_le; [exact Hseen|lia]. }
  eexists w', mc', _, rs', _, s', evs. split; [done|].
  split; [split; try done|].
  { change (gc_node_id (gc_clean (gc_increment c pts))) with (gc_node_id c).
    change (gc_local_count (gc_clean (gc_increment c pts))) with (gc_local_count (gc_increment c pts)).
    rewrite Hget, Z.eqb_refl, Hloc. simpl. f_equal. lia. }
  split; [split; try done; unfold listening; by rewrite Us, !Ps|].
  split. { split; [done|]. split; [by rewrite Hlog; simpl; rewrite app_nil_r|].
    intros (Hu & Pp & Psc) [Hpos _]%Forall_cons. constructor; [|done]. simpl in Hpos. apply Hevs; [done..|]. rewrite Hloc. eapply omax_new; [exact Hseen|lia]. }
  unfold conn_core in Hsame. split; [congruence|]. by split_and!.
Qed.

(** A stream from where it stands, frame by frame. *)
Lemma stream_all fs : ∀ w mc rc rs c s,
  streaming w mc rc rs c s → (fs ≠ [] → behind w mc rc rs) → Forall frame_fits fs →
  gc_local_count c + points fs < 2 ^ 64 → paced mc (p_clock_reads (du_client w)) (length fs) →
  ∃ w' mc' rc' rs' c' s' evss, stream w fs = Ok w' ∧ streaming w' mc' rc' rs' c' s' ∧
    undisturbed w w' (length fs) ∧ called_back w w' fs evss ∧
    lww_value rs' = default (lww_value rs) (fst <$> last fs) ∧
    gc_local_count c' = gc_local_count c + points fs ∧
    ∀ n, gc_get s' n = if bool_decide (fs ≠ []) && (n =? gc_node_id c)
                       then Some (gc_local_count c + points fs) else gc_get s n.
Proof.
  induction fs as [|[pos pts] fs IH]; intros w mc rc rs c s Hw Hbeh Hfits Hov Hpace.
  { exists w, mc, rc, rs, c, s, []. unfold stream. simpl. rewrite Z.add_0_r.
    split; [done|]. split; [done|]. split; [apply undisturbed_refl|]. split; [|by split_and!].
    split; [done|]. split; [|by constructor]. by rewrite app_nil_r. }
  apply Forall_cons in Hfits as [Hf Hfits]. change (points ((pos, pts) :: fs)) with (pts + points fs) in *.
  assert (0 ≤ points fs) as Hnn.
  { clear -Hfits. induction Hfits as [|[? z] fs [_ [[? _] _]] _ IH]; [done|]. unfold points in *. csimpl in *. lia. }
  destruct (stream_step w mc rc rs c s pos pts Hw)
    as (w1 & mc1 & rc1 & rs1 & c1 & s1 & evs & E1 & Hw1 & U1 & (_ & L1 & C1) & Hep & N1 & V1 & I1 & K1 & G1);
    [by apply Hbeh|done|lia|].
  pose proof (ud_client_reads _ _ _ U1) as R1. set (k := p_clock_reads (du_client w)) in *.
  destruct (IH w1 mc1 rc1 rs1 c1 s1 Hw1)
    as (w' & mc' & rc' & rs' & c' & s' & evss & E2 & Hw' & U2 & (Len & L2 & C2) & V2 & K2 & G2).
  { intros Hne. unfold behind. rewrite V1, N1. simpl. apply orb_true_iff. left. apply Z.ltb_lt.
    rewrite (elapsed_epoch _ _ _ Hep), R1. specialize (Hpace 0%nat). destruct fs as [|f fs]; [done|].
    rewrite !(Nat.add_comm k) in Hpace. apply Hpace. simpl. lia. }
  { done. }
  { rewrite K1. lia. }
  { intros i Hi. rewrite !(elapsed_epoch _ _ _ Hep), R1.
    replace (3 * 1 + k + 3 * i)%nat with (k + 3 * S i)%nat by lia.
    replace (3 * 1 + k + 3 * S i)%nat with (k + 3 * S (S i))%nat by lia. apply Hpace. simpl. lia. }
  exists w', mc', rc', rs', c', s', (evs :: evss). unfold stream. cbn [res_foldl]. rewrite E1. cbn [res_bind].
  split; [exact E2|]. split; [done|]. split; [exact (undisturbed_trans _ _ _ 1 _ U1 U2)|]. split.
  { split; [by simpl; rewrite Len|]. split; [by rewrite L2, L1; simpl; rewrite app_nil_r, app_assoc|].
    intros Hls [Hp Hps]%Forall_cons. assert (Forall (λ f : bytes * Z, 0 < f.2) [(pos, pts)]) as Hp1 by by apply Forall_singleton.
    pose proof (C1 Hls Hp1) as He. apply Forall_cons in He as [He _]. constructor; [done|]. apply C2; [|done]. by apply (ud_listening _ _ _ U1). }
  split. { rewrite V2. injection V1 as _ _ Ev. rewrite Ev. destruct fs as [|f fs]; [done|].
    change (last ((pos, pts) :: f :: fs)) with (last (f :: fs)). destruct (last (f :: fs)) eqn:El; [done|].
    by apply last_None in El. }
  split; [rewrite K2, K1; lia|]. intros n. rewrite G2, G1, I1, K1. rewrite (bool_decide_eq_true_2 (_ :: _ ≠ [])) by done.
  destruct (n =? gc_node_id c); [|by rewrite andb_false_r]. rewrite andb_true_r. simpl.
  case_bool_decide; [f_equal; lia|]. destruct fs; [|done]. f_equal. unfold points. simpl. lia.
Qed.

Lemma points_take fs n : Forall frame_fits fs → points (take n fs) ≤ points fs.
Proof.
  intros Hf. revert n. induction Hf as [|[p z] fs [_ [[Hz _] _]] Hf IH]; intros [|n]; try done.
  - unfold points. simpl. clear IH. induction Hf as [|[? y] fs [_ [[Hy _] _]] _ IH]; simpl in *; [lia|]. lia.
  - specialize (IH n). unfold points in *. csimpl in *. lia.
Qed.
End Stream.

(** ** One register pushed to the other end *)
Section Push.
Context `{XxHash} `{Ed25519} `{UnorderedIter} `{StdSort}.
Context (cc cs : nat → Z) (ec es : Endpoint) (path : StatePath).

Lemma pending_one r g v :
  sreg_get r (sp_hash path) = Some g → rg_crdt g = CV_Lww v → lww_dirty v = true →
  (∀ h g, h ≠ sp_hash path → sreg_get r h = Some g → cv_has_pending_delta (rg_crdt g) = false) →
  pending_deltas r ≡ₚ
    [{| pd_path_hash := sp_hash path; pd_crdt_type := rg_crdt_type g;
        pd_reliability := rg_reliability g; pd_data := lww_bytes v |}].
Proof.
  intros Hg Ev Dv Hcalm. destruct (lww_region g v Ev Dv) as [Bg _].
  apply NoDup_Permutation; [eapply NoDup_fmap_1, NoDup_pending|apply NoDup_singleton|].
  intros d. rewrite elem_of_pending, list_elem_of_singleton. split.
  - intros (g' & Hg' & Hb & E1 & E2). destruct d as [h t rel data]; simpl in *.
    destruct (decide (h = sp_hash path)) as [->|N1]; [by simplify_eq|].
    by rewrite (proj1 (calm_region g' (Hcalm h g' N1 Hg'))) in Hb.
  - intros ->. simpl. by exists g.
Qed.
Lemma register_event r d hp v :
  sreg_ok r → sreg_get r (pd_path_hash d) = Some hp → wf_bytes (pd_data d) →
  cv_merge (rg_crdt hp) (pd_data d) = Ok (v, true) → sr_on_update r = true → rg_path hp = path →
  (concat (merge_event r <$> [d])).*1 = [path].
Proof.
  intros Hr Hhp Hw Mp Hu Hp. destruct (merge_event_fires r d hp _ Hr Hu Hhp Hw Mp) as [snap Ev]. simpl.
  rewrite Ev. simpl. by rewrite Hp.
Qed.
(** The write and its way to the other end, whatever the clocks show. *)
Lemma push_runs w data mc rc timeout :
  linked ec es w → only_conn (du_client w) mc → calm (p_state (du_client w)) →
  lww_at (p_state (du_client w)) path = Some rc → wf_bytes data → (length data ≤ 1200)%nat →
  let v := lww_set rc data (cn_elapsed_us (mc_conn mc) (cc (p_clock_reads (du_client w)))) in
  ∃ w1 w2 w3 d, on_client (peer_set_lww cc path data) w = Ok (w1, true) ∧
    on_client (peer_flush cc) w1 = Ok (w2, 1) ∧
    on_server (peer_poll cs timeout) w2 = Ok (w3, changed_count (p_state (du_server w)) [d]) ∧
    linked ec es w3 ∧ replicated w1 w3 [d] ∧ du_server w1 = du_server w ∧
    p_update_log (du_client w1) = p_update_log (du_client w) ∧
    pd_path_hash d = sp_hash path ∧ pd_data d = lww_bytes v ∧ wf_bytes (pd_data d).
Proof.
  intros Hl Hmc Hcalm Hrc Hd Hlen v. pose proof Hl as [Hsc Hss Hb _ _].
  destruct (set_lww_wrote cc (plug (du_bus w) (du_client w)) mc path data rc) as (p1 & E1 & W1 & R1);
    [by apply plug_ok; [apply Hsc|]|exact (only_conn_primary (du_client w) mc Hmc)|done..|].
  destruct (on_client_write ec es _ w p1 true path _ Hl E1 W1) as (F1 & Hl1 & _ & _).
  set (w1 := {| du_client := p1 |}) in *.
  destruct W1 as (_ & _ & _ & L1 & _ & (g & Hg & Hg') & Ho1). set (g1 := rg_bump_version _ _) in Hg'.
  assert (pending_deltas (p_state p1) ≡ₚ
    [{| pd_path_hash := sp_hash path; pd_crdt_type := rg_crdt_type g1;
        pd_reliability := rg_reliability g1; pd_data := lww_bytes v |}]) as Hperm.
  { apply (pending_one _ _ v Hg'); [done..|]. intros h x Hne Hx. rewrite Ho1 in Hx by done. by apply (Hcalm h x). }
  destruct (flush_poll_duo cc cs ec es w1 timeout Hl1) as (w2 & w3 & ds & F2 & F3 & Hl3 & Hrep).
  { unfold pending_fits. simpl. rewrite Hperm. simpl. unfold MAX_PAYLOAD_SIZE, MAX_PACKET_SIZE, PACKET_HEADER_SIZE.
    rewrite ?length_app. simpl. lia. }
  pose proof (proj1 Hrep) as Hds. cbn [w1 du_client] in Hds. rewrite Hperm in Hds.
  apply Permutation_singleton_r in Hds as ->.
  pose proof (pending_wf (p_state p1) (proj1 (linked_regs _ _ _ Hl1))) as Hw.
  rewrite Hperm in Hw. apply Forall_cons in Hw as [Hwd _].
  eexists w1, w2, w3, _. by split_and!.
Qed.
Lemma push_register w data mc rc rs timeout :
  linked ec es w → only_conn (du_client w) mc → calm (p_state (du_client w)) →
  lww_at (p_state (du_client w)) path = Some rc → lww_at (p_state (du_server w)) path = Some rs →
  behind cc w mc rc rs → wf_bytes data → (length data ≤ 1200)%nat →
  ∃ w1 w2 w3 rs' evs, on_client (peer_set_lww cc path data) w = Ok (w1, true) ∧
    on_client (peer_flush cc) w1 = Ok (w2, 1) ∧ on_server (peer_poll cs timeout) w2 = Ok (w3, 1) ∧
    linked ec es w3 ∧ lww_at (p_state (du_server w3)) path = Some rs' ∧ lww_value rs' = data ∧
    p_update_log (du_client w3) = p_update_log (du_client w) ∧
    p_update_log (du_server w3) = p_update_log (du_server w) ++ evs ∧
    (sr_on_update (p_state (du_server w)) = true →
     rg_path <$> sreg_get (p_state (du_server w)) (sp_hash path) = Some path → evs.*1 = [path]).
Proof.
  intros Hl Hmc Hcalm Hrc Hrs Hbeh Hd Hlen.
  destruct (push_runs w data mc rc timeout Hl Hmc Hcalm Hrc Hd Hlen)
    as (w1 & w2 & w3 & d & F1 & F2 & F3 & Hl3 & Hrep & Es & L1 & Ph & Pd & Hwd).
  destruct Hrep as (_ & _ & _ & _ & Gs & _ & _ & Lc & Ls & _). rewrite Es in *. set (v := lww_set _ _ _) in *.
  pose proof Hrs as (hp & Hhp & Chp)%lww_at_Some.
  destruct (linked_regs _ _ _ Hl) as [Hcok Hsok]. pose proof (lww_at_ok _ _ _ Hcok Hrc) as (_ & Hn & _).
  destruct (merge_into_lww hp rs v Chp) as (rs' & Mp & Crs & Vrs);
    [split_and!; [apply elapsed_is_u|done|done]|rewrite <-Hbeh; apply stamp_lt_value|].
  rewrite <-Pd in Mp. rewrite <-Ph in Hhp.
  assert (merge_flag (p_state (du_server w)) d = true) as Hflag.
  { unfold merge_flag. rewrite Hhp. by rewrite Mp. }
  exists w1, w2, w3, rs', (concat (merge_event (p_state (du_server w)) <$> [d])).
  split; [exact F1|]. split; [exact F2|]. split; [by rewrite F3; unfold changed_count; rewrite filter_cons_True|]. split; [done|]. split.
  { apply lww_at_Some. exists (merge_into (lww_bytes v) hp). split; [|done]. rewrite Gs. unfold merged, delta_for.
    simpl. rewrite Ph, Z.eqb_refl. simpl. by rewrite Pd, <-Ph, Hhp. }
  split; [by injection Vrs|]. split; [by rewrite Lc, L1|]. split; [done|]. intros Hu Hp.
  rewrite <-Ph, Hhp in Hp. injection Hp as Hp. by eapply register_event.
Qed.
End Push.

(** ** The theorems *)
Section Theorems.
Context `{XxHash} `{Ed25519} `{UnorderedIter} `{StdSort}.
Context (cc cs : nat → Z) (ec es : Endpoint).

(** C3: Refinement of replication, on an established link: two peers on one loopback bus,
    each bound and with one connection, CONNECTED, to the other under node 0, each knowing
    the other's key, access control off, no resolution filters, nothing queued for either
    ([linked]).  If the deltas of all dirty regions of one peer fit in one packet together
    ([pending_fits]; one that does not fit into an empty packet is dropped by the code),
    then [flush] at it and [poll] at the other send exactly these deltas, each once and in
    some order, and act on the receiver's registry as merging every such delta into the
    region with the same path hash, and on the rest of it as nothing; the receiver's update
    callbacks are those of the merges that changed something, and their number is what
    [poll] returns.  The sender's regions are left clean, and the link is as before. *)
Theorem flush_poll_replicates w timeout :
  linked ec es w → pending_fits (p_state (du_client w)) →
  ∃ w1 w2 ds, on_client (peer_flush cc) w = Ok (w1, Z.of_nat (length ds)) ∧
    on_server (peer_poll cs timeout) w1 =
      Ok (w2, changed_count (p_state (du_server w)) ds) ∧
    linked ec es w2 ∧ replicated w w2 ds.
Proof. apply flush_poll_duo. Qed.

(** C2: What the library is for: over an established link ([linked], as in C3) whose client
    has no unsent change, a client that keeps writing a position and counting points,
    flushing after each frame while the server polls, is followed frame by frame.  After any
    number of frames the server's register holds the last position written and the server's
    count for the client is everything the client has counted.  This needs that the two paths
    have different hashes; that the client's timestamp, in microseconds, is above the stamp of
    the server's register at the first frame ([behind]) and advances strictly from frame to
    frame ([paced]: an equal stamp loses); that a position is at most 1200 bytes, so that a
    frame fits in a packet; that the count does not overflow 64 bits.  If the server listens
    and every frame has at least one point, every frame makes exactly the two callbacks, in
    some order. *)
Theorem stream_tracks pos_path score_path w mc rc rs c s fs n :
  sp_hash pos_path ≠ sp_hash score_path →
  streaming ec es pos_path score_path w mc rc rs c s → behind cc w mc rc rs → Forall frame_fits fs →
  gc_local_count c + points fs < 2 ^ 64 → paced cc mc (p_clock_reads (du_client w)) (length fs) →
  (0 < n ≤ length fs)%nat →
  ∃ w' rs' s' evss f, stream cc cs pos_path score_path w (take n fs) = Ok w' ∧ linked ec es w' ∧
    fs !! pred n = Some f ∧ lww_at (p_state (du_server w')) pos_path = Some rs' ∧ lww_value rs' = f.1 ∧
    counter_at (p_state (du_server w')) score_path = Some s' ∧
    gc_get s' (gc_node_id c) = Some (gc_local_count c + points (take n fs)) ∧
    called_back pos_path score_path w w' (take n fs) evss.
Proof.
  intros Hp Hw Hb Hf Hov Hpace Hn. pose proof (points_take fs n Hf) as Hle.
  destruct (stream_all cc cs ec es pos_path score_path Hp (take n fs) w mc rc rs c s Hw)
    as (w' & mc' & rc' & rs' & c' & s' & evss & E & Hw' & _ & Hcb & Hv & _ & Hg);
    [done|by apply Forall_take|lia|intros i Hi; apply Hpace; rewrite length_take in Hi; lia|].
  destruct (lookup_lt_is_Some_2 fs (pred n)) as [f Hl]; [lia|].
  assert (last (take n fs) = Some f) as El.
  { rewrite last_lookup, length_take, Nat.min_l by lia. by rewrite lookup_take_lt by lia. }
  exists w', rs', s', evss, f. destruct Hw' as [Hl' _ _ _ Hrs' _ Hs' _].
  split_and!; try done; [by rewrite Hv, El|]. rewrite Hg, Z.eqb_refl, bool_decide_eq_true_2; [done|].
  intros En. by rewrite En in El.
Qed.
End Theorems.
