(* ===== verification/Rendezvous.v ===== *)
(** * Two threads connect two peers

    The handshake of [examples/state_streaming_demo.cpp] (and of the tests of the
    library): one thread runs [Peer::accept_from] while the other runs [Peer::connect],
    both over the same loopback bus.  The blocking receive splits each method in two;
    between the pieces the threads interleave.  A receive that waits is a step that is
    not enabled until a packet is there, or a step of its own when the timeout passes. *)
From S2P Require Import Prelude Platform Frame Codec VersionVector GCounter LwwRegister Crdt.
From S2P Require Import StatePath StateRegistry Resolution Subscription AckTracker Transport.
From S2P Require Import Connection Capability Float64 Routing Peer PeerSafety PeerApi PeerReplication.
From S2P Require Import Streaming.

(** ** The methods around their receive *)
Section Pieces.
Context `{XxHash} `{Ed25519} `{UnorderedIter} `{StdSort} {T : Type} `{!Transport T}.
Context (clock : nat → Z).

(** [connect] up to [recv_from]: the timeout of the receive, or nothing if it
    has returned false already. *)
Definition connect_begin (remote : Endpoint) : PM T (option Z) :=
  _ ← pm_add_conn clock 0;
  cid ← pm_next_conn_id;
  ok ← pm_initiate clock 0 cid remote;
  if negb ok then mret None else
  sent ← pm_send_connect clock 0 remote;
  if sent <=? 0 then mret None else
  c ← pm_conn 0;
  mret (Some (i32 (cc_connect_timeout_ms (cn_config c)))).
Definition connect_end (r : option (bytes * Endpoint)) : PM T bool :=
  match r with
  | None => mret false
  | Some (data, from) =>
      event ← pm_process_packet 0 data;
      mret (match he_result event with ACCEPT_RECEIVED => true | _ => false end)
  end.
Definition accept_begin : PM T () := _ ← pm_add_conn clock 0; mret ().
Definition accept_end (r : option (bytes * Endpoint)) : PM T bool :=
  match r with
  | None => mret false
  | Some (data, from) => pm_accept_packet clock 0 data from
  end.

(** The pieces make up the methods. *)
Lemma peer_connect_pieces remote (p : Peer T) :
  peer_connect clock remote p =
    (t ← connect_begin remote;
     match t with None => mret false | Some t => r ← pm_recv_from t; connect_end r end) p.
Proof.
  unfold peer_connect, connect_begin, connect_end, mbind, PM_bind.
  destruct (pm_add_conn clock 0 p) as [[p1 b]| |]; cbn [res_bind]; try done.
  destruct (pm_next_conn_id p1) as [[p2 cid]| |]; cbn [res_bind]; try done.
  destruct (pm_initiate clock 0 cid remote p2) as [[p3 ok]| |]; cbn [res_bind]; try done.
  destruct ok; cbn [negb]; [|done].
  destruct (pm_send_connect clock 0 remote p3) as [[p4 sent]| |]; cbn [res_bind]; try done.
  destruct (sent <=? 0); [done|].
  destruct (pm_conn 0 p4) as [[p5 c]| |]; cbn [res_bind]; try done.
Qed.
Lemma peer_accept_pieces timeout (p : Peer T) :
  peer_accept_from clock timeout p = (_ ← accept_begin; r ← pm_recv_from timeout; accept_end r) p.
Proof.
  unfold peer_accept_from, accept_begin, accept_end, mbind, PM_bind.
  destruct (pm_add_conn clock 0 p) as [[p1 b]| |]; cbn [res_bind]; try done.
Qed.

(** Each piece is defined and keeps the peer well formed. *)
Lemma connect_begin_at remote : triple peer_ok (connect_begin remote) (λ _, peer_at (T := T) 0).
Proof.
  unfold connect_begin. eapply triple_bind; [apply add_conn_triple|]. intros b. cbv beta.
  do 2 (apply at_bind; [solve [eauto with rom]|intros ?]).
  case_match; [by apply triple_ret|].
  apply at_bind; [solve [eauto with rom]|intros ?]. case_match; [by apply triple_ret|].
  apply at_bind; [solve [eauto with rom]|intros ?]. by apply triple_ret.
Qed.
Lemma accept_begin_at : triple peer_ok accept_begin (λ _, peer_at (T := T) 0).
Proof. unfold accept_begin. eapply triple_bind; [apply add_conn_triple|]. intros b. by apply triple_ret. Qed.
Lemma connect_end_at r : keeps_at (T := T) 0 (connect_end r).
Proof.
  destruct r as [[data from]|]; simpl; [|apply keeps_ret].
  apply keeps_bind; [eauto with rom|]. intros e. apply keeps_ret.
Qed.
Lemma accept_end_at r : keeps_at (T := T) 0 (accept_end r).
Proof. destruct r as [[data from]|]; simpl; [apply keeps_accept_packet|apply keeps_ret]. Qed.
End Pieces.

(** ** What the pieces do *)
Section Effects.
Context `{XxHash} `{Ed25519} `{UnorderedIter} `{StdSort}.

(** The connection stored under node 0 is the only one. *)
Definition conn0 (c : Connection) : ManagedConnection :=
  {| mc_remote_node_id := 0; mc_conn := c; mc_send_tracker := st_new; mc_recv_tracker := rt_new |}.
Definition bound_to (me : Endpoint) (p : Peer LoopbackPort) : Prop :=
  lp_transport (p_transport p) = {| lt_local := me; lt_bound := true |}.

Definition connecting (cc : nat → Z) (k : nat) (remote : Endpoint) : Connection :=
  (cn_initiate (cn_new (cc k)) (cc (S k)) 1 remote).1.
Lemma connecting_ok cc k remote : cn_ok (connecting cc k remote).
Proof. unfold connecting, cn_initiate, cn_new. simpl. split_and!; by_decide. Qed.

Lemma hs_packet_wf {T} `{WireFrame T} c t conn_id now ft (f : T) :
  enum_ok t → is_u16 conn_id → is_u32 (cn_send_pkt_num c) → enum_ok ft → wf_bytes (frame_bytes f) →
  wf_bytes (hs_packet t conn_id now c ft f).
Proof.
  intros Ht Hc Hn Hft Hf. unfold hs_packet. apply packet_bytes_wf.
  - split_and!; try done; apply elapsed_is_u.
  - by apply frame_wire_wf.
Qed.

#[local] Ltac bytes_wf :=
  repeat first [done | apply be16_wf | apply be32_wf | apply Forall_app_2 | apply Forall_cons_2].
Lemma connect_packet_wf c now : cn_ok c → wf_bytes (connect_packet c now).
Proof.
  intros (_ & _ & _ & Hn & _). unfold connect_packet.
  apply hs_packet_wf; [split; by_decide|by_decide|exact Hn|split; by_decide|].
  cbn [frame_bytes ConnectFrame_WireFrame]. bytes_wf; by_decide.
Qed.
Lemma accept_packet_wf c now now' : cn_ok c → wf_bytes (accept_packet c now now').
Proof.
  intros (_ & Hr & _ & Hn & _). unfold accept_packet.
  apply hs_packet_wf; [split; by_decide|exact Hr|exact Hn|split; by_decide|].
  cbn [frame_bytes AcceptFrame_WireFrame]. bytes_wf.
Qed.
Lemma connect_packet_length c now : length (connect_packet c now) = 26%nat.
Proof. done. Qed.

(** Running a method step by step. *)
Lemma bind_step {T A B} (m : PM T A) (f : A → PM T B) (p p1 : Peer T) a :
  m p = Ok (p1, a) → (m ≫= f) p = f a p1.
Proof. unfold mbind, PM_bind. by intros ->. Qed.
(** The peer with this connection, this next identifier and this many clock readings. *)
Definition with_conn (p : Peer LoopbackPort) (c : Connection) (id : Z) (k : nat) : Peer LoopbackPort :=
  p_set_conn_mgr (p_set_clock_reads p k)
    {| cm_conns := {[0 := conn0 c]}; cm_id_alloc := {| ca_next_id := id |} |}.
Lemma add_conn_step cc (p : Peer LoopbackPort) :
  p_conn_mgr p = cm_new →
  pm_add_conn cc 0 p = Ok (with_conn p (cn_new (cc (p_clock_reads p))) 1 (S (p_clock_reads p)), true).
Proof.
  intros Hc. unfold pm_add_conn, mbind, PM_bind, pm_get, pm_now, pm_modify, mret, PM_ret. cbn [res_bind].
  rewrite Hc. unfold cm_get. cbn [cm_conns cm_new]. rewrite lookup_empty. cbn [res_bind].
  unfold with_conn, cm_add. cbn [p_conn_mgr p_set_clock_reads]. rewrite Hc. cbn [cm_conns cm_new].
  by rewrite lookup_empty.
Qed.
Lemma next_id_step p c k : pm_next_conn_id (with_conn p c 1 k) = Ok (with_conn p c 2 k, 1).
Proof. done. Qed.
Lemma conn_step p c id k : pm_conn 0 (with_conn p c id k) = Ok (with_conn p c id k, c).
Proof.
  unfold pm_conn, pm_mc, mbind, PM_bind, pm_get, mret, PM_ret, cm_get. cbn [res_bind].
  change (cm_conns (p_conn_mgr (with_conn p c id k))) with ({[0 := conn0 c]} : gmap Z ManagedConnection).
  by rewrite lookup_singleton_eq.
Qed.
Lemma put_conn_step p c c' id k : pm_put_conn 0 c' (with_conn p c id k) = Ok (with_conn p c' id k, ()).
Proof.
  unfold pm_put_conn, pm_mc, pm_put_mc, pm_modify, mbind, PM_bind, pm_get, mret, PM_ret, cm_get. cbn [res_bind].
  change (cm_conns (p_conn_mgr (with_conn p c id k))) with ({[0 := conn0 c]} : gmap Z ManagedConnection).
  rewrite lookup_singleton_eq. cbn [res_bind]. unfold with_conn, cm_put. cbn [p_conn_mgr p_set_conn_mgr cm_conns cm_id_alloc].
  by rewrite insert_singleton_eq.
Qed.
Lemma now_step cc p c id k : pm_now cc (with_conn p c id k) = Ok (with_conn p c id (S k), cc k).
Proof. done. Qed.
#[local] Ltac run_step :=
  cbv beta iota;
  first [erewrite bind_step by (apply add_conn_step; eassumption)
        |erewrite bind_step by apply next_id_step|erewrite bind_step by apply conn_step
        |erewrite bind_step by apply put_conn_step|erewrite bind_step by apply now_step].
Lemma initiate_step cc p c cid id k remote :
  cn_state c = IDLE →
  pm_initiate cc 0 cid remote (with_conn p c id k) =
    Ok (with_conn p (cn_initiate c (cc k) cid remote).1 id (S k), true).
Proof.
  intros Hi. unfold pm_initiate. do 2 run_step. unfold cn_initiate. rewrite bool_decide_eq_true_2 by done.
  cbn [negb]. by run_step.
Qed.
Lemma accept_step cc p c cid id k from :
  pm_accept cc 0 cid from (with_conn p c id k) =
    Ok (with_conn p (cn_accept c (cc k) cid 0 from).1 id (S k), ()).
Proof. unfold pm_accept. do 2 run_step. apply put_conn_step. Qed.
Lemma process_step p c c' e id k data :
  process_packet c data = Ok (c', e) →
  pm_process_packet 0 data (with_conn p c id k) = Ok (with_conn p c' id k, e).
Proof.
  intros E. unfold pm_process_packet. run_step. erewrite bind_step by (unfold pm_lift; rewrite E; reflexivity).
  by run_step.
Qed.
Lemma send_step p c id k me data to :
  bound_to me p → wf_bytes data →
  pm_send_to data to (with_conn p c id k) =
    Ok (with_conn (plug (lb_deliver (lp_bus (p_transport p)) {| pk_data := data; pk_from := me; pk_to := to |}) p) c id k,
        i32 (Z.of_nat (length data))).
Proof.
  intros Hb Hd. unfold pm_send_to. simpl. unfold bound_to in Hb. rewrite Hb, u8_id by done. simpl.
  unfold with_conn, plug. simpl. by rewrite Hb.
Qed.
Lemma send_connect_step cc p c id k me to :
  bound_to me p → wf_bytes (connect_packet c (cc k)) →
  pm_send_connect cc 0 to (with_conn p c id k) =
    Ok (with_conn (plug (lb_deliver (lp_bus (p_transport p))
          {| pk_data := connect_packet c (cc k); pk_from := me; pk_to := to |}) p) (cn_bump c) id (S k),
        i32 (Z.of_nat (length (connect_packet c (cc k))))).
Proof.
  intros Hb Hw. unfold pm_send_connect. do 2 run_step.
  erewrite bind_step by (unfold pm_lift; rewrite build_connect_spec; reflexivity). run_step.
  by apply send_step.
Qed.
Lemma send_accept_step cc p c id k me to :
  bound_to me p → wf_bytes (accept_packet c (cc k) (cc (S k))) →
  pm_send_accept cc 0 to (with_conn p c id k) =
    Ok (with_conn (plug (lb_deliver (lp_bus (p_transport p))
          {| pk_data := accept_packet c (cc k) (cc (S k)); pk_from := me; pk_to := to |}) p) (cn_bump c) id (S (S k)),
        i32 (Z.of_nat (length (accept_packet c (cc k) (cc (S k)))))).
Proof.
  intros Hb Hw. unfold pm_send_accept. do 3 run_step.
  erewrite bind_step by (unfold pm_lift; rewrite build_accept_spec; reflexivity). run_step.
  by apply send_step.
Qed.

(** The four pieces on peers that meet for the first time. *)
Lemma connect_begin_fresh cc (p : Peer LoopbackPort) me remote :
  bound_to me p → p_conn_mgr p = cm_new →
  let k := p_clock_reads p in
  let c := connecting cc k remote in
  connect_begin cc remote p =
    Ok (with_conn (plug (lb_deliver (lp_bus (p_transport p))
          {| pk_data := connect_packet c (cc (S (S k))); pk_from := me; pk_to := remote |}) p)
          (cn_bump c) 2 (S (S (S k))), Some 5000).
Proof.
  intros Hb Hc k c. unfold connect_begin. run_step. run_step.
  erewrite bind_step by (by apply initiate_step). cbv beta iota. cbn [negb].
  erewrite bind_step by (by apply (send_connect_step cc p c 2 _ me); [done|apply connect_packet_wf, connecting_ok]).
  cbv beta. rewrite connect_packet_length.
  change (i32 (Z.of_nat 26) <=? 0) with false. by run_step.
Qed.
Lemma accept_begin_fresh cs (q : Peer LoopbackPort) :
  p_conn_mgr q = cm_new →
  accept_begin cs q = Ok (with_conn q (cn_new (cs (p_clock_reads q))) 1 (S (p_clock_reads q)), ()).
Proof. intros Hc. unfold accept_begin. by run_step. Qed.

(** The connection of the server after it has accepted [c]. *)
Definition accepting (cs : nat → Z) (l : nat) (c : Connection) (from : Endpoint) : Connection :=
  (cn_accept (cn_on_connect (cn_update_recv_packet_number (cn_new (cs l)) (cn_send_pkt_num c)) PROTOCOL_VERSION
     (cc_max_frame_size (cn_config c))).1 (cs (S l)) 1 0 from).1.
Lemma accepting_ok cs l c from : cn_ok c → cn_ok (accepting cs l c from).
Proof.
  intros (? & ? & ? & ? & ?). unfold accepting, cn_accept, cn_on_connect, cn_update_recv_packet_number. simpl.
  case_match; simpl; split_and!; simpl; try done; by_decide.
Qed.
Lemma accept_end_connect cs (q : Peer LoopbackPort) me from c now :
  bound_to me q → cn_ok c →
  let l := p_clock_reads q in
  let s := accepting cs l c from in
  accept_end cs (Some (connect_packet c now, from)) (with_conn q (cn_new (cs l)) 1 (S l)) =
    Ok (with_conn (plug (lb_deliver (lp_bus (p_transport q))
          {| pk_data := accept_packet s (cs (S (S l))) (cs (S (S (S l)))); pk_from := me; pk_to := from |}) q)
          (cn_bump s) 2 (S (S (S (S l)))), true).
Proof.
  intros Hb Hc l s. unfold accept_end, pm_accept_packet.
  destruct (process_connect_packet (cn_new (cs l)) c now Hc) as (e & Ee & He).
  erewrite bind_step by (apply process_step; exact Ee). cbv beta. rewrite He. run_step.
  erewrite bind_step by apply accept_step. cbv beta.
  erewrite bind_step by (apply (send_accept_step cs q s 2 _ me); [done|by apply accept_packet_wf, accepting_ok]).
  unfold pm_is_connected. by run_step.
Qed.
(** The connection of the client after the reply of [s]. *)
Definition connected (c s : Connection) (t : Z) : Connection :=
  (cn_on_accept (cn_update_recv_packet_number (cn_bump c) (cn_send_pkt_num s)) (cn_local_conn_id s)
     (cn_elapsed_us s t)).1.
Lemma connect_end_accept (p : Peer LoopbackPort) c s now now' from k :
  cn_ok s →
  connect_end (Some (accept_packet s now now', from)) (with_conn p (cn_bump c) 2 k) =
    Ok (with_conn p (connected c s now') 2 k, true).
Proof.
  intros Hs. unfold connect_end. destruct (process_accept_packet (cn_bump c) s now now' Hs) as (e & Ee & He).
  erewrite bind_step by (apply process_step; exact Ee). cbv beta. by rewrite He.
Qed.
End Effects.

(** ** The two threads *)
Inductive Caller :=
| T_Start | T_Waiting (timeout : Z) | T_Received (r : option (bytes * Endpoint)) | T_Done (ok : bool).
Record Rdv := { rv_duo : Duo; rv_connect : Caller; rv_accept : Caller }.

Section Threads.
Context `{XxHash} `{Ed25519} `{UnorderedIter} `{StdSort}.
Context (cc cs : nat → Z) (es : Endpoint) (timeout : Z).

(** A step of one thread; the flag says that a receive gave up. *)
Inductive rdv_step : bool → Rdv → Rdv → Prop :=
| connect_begins w d r :
    rv_connect w = T_Start → on_client (connect_begin cc es) (rv_duo w) = Ok (d, r) →
    rdv_step false w {| rv_duo := d; rv_accept := rv_accept w;
                        rv_connect := match r with Some t => T_Waiting t | None => T_Done false end |}
| connect_receives w d t x :
    rv_connect w = T_Waiting t → on_client (pm_recv_from t) (rv_duo w) = Ok (d, Some x) →
    rdv_step false w {| rv_duo := d; rv_connect := T_Received (Some x); rv_accept := rv_accept w |}
| connect_gives_up w d t :
    rv_connect w = T_Waiting t → on_client (pm_recv_from t) (rv_duo w) = Ok (d, None) →
    rdv_step true w {| rv_duo := d; rv_connect := T_Received None; rv_accept := rv_accept w |}
| connect_ends w d r ok :
    rv_connect w = T_Received r → on_client (connect_end r) (rv_duo w) = Ok (d, ok) →
    rdv_step false w {| rv_duo := d; rv_connect := T_Done ok; rv_accept := rv_accept w |}
| accept_begins w d u :
    rv_accept w = T_Start → on_server (accept_begin cs) (rv_duo w) = Ok (d, u) →
    rdv_step false w {| rv_duo := d; rv_connect := rv_connect w; rv_accept := T_Waiting timeout |}
| accept_receives w d t x :
    rv_accept w = T_Waiting t → on_server (pm_recv_from t) (rv_duo w) = Ok (d, Some x) →
    rdv_step false w {| rv_duo := d; rv_connect := rv_connect w; rv_accept := T_Received (Some x) |}
| accept_gives_up w d t :
    rv_accept w = T_Waiting t → on_server (pm_recv_from t) (rv_duo w) = Ok (d, None) →
    rdv_step true w {| rv_duo := d; rv_connect := rv_connect w; rv_accept := T_Received None |}
| accept_ends w d r ok :
    rv_accept w = T_Received r → on_server (accept_end cs r) (rv_duo w) = Ok (d, ok) →
    rdv_step false w {| rv_duo := d; rv_connect := rv_connect w; rv_accept := T_Done ok |}.
Definition any_step (w w' : Rdv) : Prop := ∃ b, rdv_step b w w'.
Definition start (d : Duo) : Rdv := {| rv_duo := d; rv_connect := T_Start; rv_accept := T_Start |}.
Definition is_done (t : Caller) : bool := match t with T_Done _ => true | _ => false end.
Definition finished (w : Rdv) : Prop := is_done (rv_connect w) = true ∧ is_done (rv_accept w) = true.

(** The steps can be run: [true] stands for the thread of [connect]. *)
Definition rdv_next (client : bool) (w : Rdv) : option (bool * Rdv) :=
  let out {A} (r : res (Duo * A)) (k : Duo → A → bool * Rdv) := match r with Ok (d, a) => Some (k d a) | _ => None end in
  if client then
    let go d t := {| rv_duo := d; rv_connect := t; rv_accept := rv_accept w |} in
    match rv_connect w with
    | T_Start => out (on_client (connect_begin cc es) (rv_duo w)) (λ d r,
        (false, go d (match r with Some t => T_Waiting t | None => T_Done false end)))
    | T_Waiting t => out (on_client (pm_recv_from t) (rv_duo w)) (λ d r, (bool_decide (r = None), go d (T_Received r)))
    | T_Received r => out (on_client (connect_end r) (rv_duo w)) (λ d ok, (false, go d (T_Done ok)))
    | T_Done _ => None
    end
  else
    let go d t := {| rv_duo := d; rv_connect := rv_connect w; rv_accept := t |} in
    match rv_accept w with
    | T_Start => out (on_server (accept_begin cs) (rv_duo w)) (λ d _, (false, go d (T_Waiting timeout)))
    | T_Waiting t => out (on_server (pm_recv_from t) (rv_duo w)) (λ d r, (bool_decide (r = None), go d (T_Received r)))
    | T_Received r => out (on_server (accept_end cs r) (rv_duo w)) (λ d ok, (false, go d (T_Done ok)))
    | T_Done _ => None
    end.
Lemma rdv_next_step client w b w' : rdv_next client w = Some (b, w') → rdv_step b w w'.
Proof.
  unfold rdv_next. destruct client.
  - destruct (rv_connect w) as [|t|r|] eqn:E; [| | |done].
    + destruct (on_client _ _) as [[d r]| |] eqn:F; [|done..]. intros [= <- <-]. by eapply connect_begins.
    + destruct (on_client _ _) as [[d [x|]]| |] eqn:F; [| |done..]; intros [= <- <-];
        [by eapply connect_receives|by eapply connect_gives_up].
    + destruct (on_client _ _) as [[d ok]| |] eqn:F; [|done..]. intros [= <- <-]. by eapply connect_ends.
  - destruct (rv_accept w) as [|t|r|] eqn:E; [| | |done].
    + destruct (on_server _ _) as [[d r]| |] eqn:F; [|done..]. intros [= <- <-]. by eapply accept_begins.
    + destruct (on_server _ _) as [[d [x|]]| |] eqn:F; [| |done..]; intros [= <- <-];
        [by eapply accept_receives|by eapply accept_gives_up].
    + destruct (on_server _ _) as [[d ok]| |] eqn:F; [|done..]. intros [= <- <-]. by eapply accept_ends.
Qed.
Fixpoint rdv_run (schedule : list bool) (w : Rdv) : option (bool * Rdv) :=
  match schedule with
  | [] => Some (false, w)
  | client :: schedule =>
      '(b, w) ← rdv_next client w; '(late, w) ← rdv_run schedule w; Some (b || late, w)
  end.
Lemma rdv_run_steps schedule w late w' :
  rdv_run schedule w = Some (late, w') →
  rtc (λ w w', ∃ b, rdv_step b w w' ∧ (b = true → late = true)) w w'.
Proof.
  revert w late. induction schedule as [|client l IH]; intros w late; simpl; [by intros [= <- <-]|].
  destruct (rdv_next client w) as [[b w1]|] eqn:E; [|done]. simpl.
  destruct (rdv_run l w1) as [[b' w2]|] eqn:E2; [|done]. simpl. intros [= <- <-].
  eapply rtc_l; [exists b; split; [by eapply rdv_next_step|by intros ->]|].
  eapply rtc_subrel; [|by eapply IH]. intros x y (c & Hs & Hc). exists c. split; [done|].
  intros ->. by rewrite Hc, orb_true_r.
Qed.
Lemma quick_run_steps schedule w w' : rdv_run schedule w = Some (false, w') → rtc (rdv_step false) w w'.
Proof.
  intros Hr%rdv_run_steps. eapply rtc_subrel; [|exact Hr]. intros x y ([|] & Hs & Hb); [|done].
  by specialize (Hb eq_refl).
Qed.

(** Every step uses one thread up. *)
Definition left_to_do (t : Caller) : nat :=
  match t with T_Start => 3 | T_Waiting _ => 2 | T_Received _ => 1 | T_Done _ => 0 end.
Definition work (w : Rdv) : nat := left_to_do (rv_connect w) + left_to_do (rv_accept w).
Lemma step_work w w' : any_step w w' → (work w' < work w)%nat.
Proof.
  intros [b Hs]. unfold work. destruct Hs as [w d r E| | | | | | |];
    repeat match goal with E : rv_connect _ = _ |- _ => rewrite E | E : rv_accept _ = _ |- _ => rewrite E end;
    simpl; try lia. destruct r; simpl; lia.
Qed.

(** Whatever happens, both peers stay well formed, and a thread that has begun has a
    connection. *)
Definition good (t : Caller) (p : Peer LoopbackPort) : Prop :=
  match t with T_Start => peer_ok p | _ => peer_at 0 p end.
Definition rdv_ok (w : Rdv) : Prop :=
  good (rv_connect w) (du_client (rv_duo w)) ∧ good (rv_accept w) (du_server (rv_duo w)) ∧
  bus_ok (du_bus (rv_duo w)).
Lemma plug_at b p : peer_at 0 p → bus_ok b → peer_at 0 (plug b p).
Proof. intros [Hp ?] Hb. split; [by apply plug_ok|done]. Qed.
Lemma good_weaken t p : peer_at 0 p → good t p.
Proof. intros [? ?]. by destruct t. Qed.
Lemma client_total {A} (m : PM LoopbackPort A) (P : Peer LoopbackPort → Prop) d :
  triple P m (λ _, peer_at 0) → P (plug (du_bus d) (du_client d)) →
  ∃ d' a, on_client m d = Ok (d', a) ∧ peer_at 0 (du_client d') ∧ du_server d' = du_server d ∧ bus_ok (du_bus d').
Proof.
  intros Hm HP. destruct (Hm _ HP) as (p' & a & E & Hp'). unfold on_client. rewrite E. cbn [res_bind].
  eexists _, a. split; [done|]. split; [done|]. split; [done|]. exact (proj1 (proj1 Hp')).
Qed.
Lemma server_total {A} (m : PM LoopbackPort A) (P : Peer LoopbackPort → Prop) d :
  triple P m (λ _, peer_at 0) → P (plug (du_bus d) (du_server d)) →
  ∃ d' a, on_server m d = Ok (d', a) ∧ peer_at 0 (du_server d') ∧ du_client d' = du_client d ∧ bus_ok (du_bus d').
Proof.
  intros Hm HP. destruct (Hm _ HP) as (p' & a & E & Hp'). unfold on_server. rewrite E. cbn [res_bind].
  eexists _, a. split; [done|]. split; [done|]. split; [done|]. exact (proj1 (proj1 Hp')).
Qed.
(** The piece a thread runs next is defined where it stands. *)
Lemma connect_piece w : rdv_ok w →
  match rv_connect w with
  | T_Start => ∃ d r, on_client (connect_begin cc es) (rv_duo w) = Ok (d, r)
  | T_Waiting t => ∃ d r, on_client (pm_recv_from t) (rv_duo w) = Ok (d, r)
  | T_Received r => ∃ d ok, on_client (connect_end r) (rv_duo w) = Ok (d, ok)
  | T_Done _ => True
  end.
Proof.
  intros (Hc & _ & Hb). destruct (rv_connect w) as [|t|r|]; [..|done].
  - destruct (client_total _ _ (rv_duo w) (connect_begin_at cc es)) as (d & r & F & _); [by apply plug_ok|eauto].
  - destruct (client_total _ _ (rv_duo w) (keeps_triple _ _ (keeps_recv 0 t))) as (d & r & F & _);
      [by apply plug_at|eauto].
  - destruct (client_total _ _ (rv_duo w) (keeps_triple _ _ (connect_end_at r))) as (d & ok & F & _);
      [by apply plug_at|eauto].
Qed.
Lemma accept_piece w : rdv_ok w →
  match rv_accept w with
  | T_Start => ∃ d r, on_server (accept_begin cs) (rv_duo w) = Ok (d, r)
  | T_Waiting t => ∃ d r, on_server (pm_recv_from t) (rv_duo w) = Ok (d, r)
  | T_Received r => ∃ d ok, on_server (accept_end cs r) (rv_duo w) = Ok (d, ok)
  | T_Done _ => True
  end.
Proof.
  intros (_ & Hs & Hb). destruct (rv_accept w) as [|t|r|]; [..|done].
  - destruct (server_total _ _ (rv_duo w) (accept_begin_at cs)) as (d & r & F & _); [by apply plug_ok|eauto].
  - destruct (server_total _ _ (rv_duo w) (keeps_triple _ _ (keeps_recv 0 t))) as (d & r & F & _);
      [by apply plug_at|eauto].
  - destruct (server_total _ _ (rv_duo w) (keeps_triple _ _ (accept_end_at cs r))) as (d & ok & F & _);
      [by apply plug_at|eauto].
Qed.
(** A thread that has not returned can go on, whatever the other one does. *)
Definition connect_enabled (w : Rdv) : Prop :=
  ∃ b w', rdv_step b w w' ∧ (left_to_do (rv_connect w') < left_to_do (rv_connect w))%nat.
Definition accept_enabled (w : Rdv) : Prop :=
  ∃ b w', rdv_step b w w' ∧ (left_to_do (rv_accept w') < left_to_do (rv_accept w))%nat.
Lemma connect_progress w : rdv_ok w → is_done (rv_connect w) = true ∨ connect_enabled w.
Proof.
  intros Hw%connect_piece. unfold connect_enabled. destruct (rv_connect w) as [|t|r|ok] eqn:E; [right..|by left].
  - destruct Hw as (d & r & F). eexists _, _. split; [by eapply connect_begins|]. simpl. destruct r; simpl; lia.
  - destruct Hw as (d & [x|] & F); eexists _, _;
      (split; [first [by eapply connect_receives|by eapply connect_gives_up]|simpl; lia]).
  - destruct Hw as (d & ok & F). eexists _, _. split; [by eapply connect_ends|]. simpl. lia.
Qed.
Lemma accept_progress w : rdv_ok w → is_done (rv_accept w) = true ∨ accept_enabled w.
Proof.
  intros Hw%accept_piece. unfold accept_enabled. destruct (rv_accept w) as [|t|r|ok] eqn:E; [right..|by left].
  - destruct Hw as (d & r & F). eexists _, _. split; [by eapply accept_begins|]. simpl. lia.
  - destruct Hw as (d & [x|] & F); eexists _, _;
      (split; [first [by eapply accept_receives|by eapply accept_gives_up]|simpl; lia]).
  - destruct Hw as (d & ok & F). eexists _, _. split; [by eapply accept_ends|]. simpl. lia.
Qed.
Lemma client_good {A} (m : PM LoopbackPort A) (P : Peer LoopbackPort → Prop) w d a t :
  rdv_ok w → triple P m (λ _, peer_at 0) → P (plug (du_bus (rv_duo w)) (du_client (rv_duo w))) →
  on_client m (rv_duo w) = Ok (d, a) →
  rdv_ok {| rv_duo := d; rv_connect := t; rv_accept := rv_accept w |}.
Proof.
  intros (_ & Hs & _) Hm HP F. destruct (client_total m P _ Hm HP) as (d' & a' & F' & Hc & Es & Hb).
  rewrite F in F'. injection F' as <- <-. split_and!; simpl; [by apply good_weaken|by rewrite Es|done].
Qed.
Lemma server_good {A} (m : PM LoopbackPort A) (P : Peer LoopbackPort → Prop) w d a t :
  rdv_ok w → triple P m (λ _, peer_at 0) → P (plug (du_bus (rv_duo w)) (du_server (rv_duo w))) →
  on_server m (rv_duo w) = Ok (d, a) →
  rdv_ok {| rv_duo := d; rv_connect := rv_connect w; rv_accept := t |}.
Proof.
  intros (Hc & _ & _) Hm HP F. destruct (server_total m P _ Hm HP) as (d' & a' & F' & Hs & Es & Hb).
  rewrite F in F'. injection F' as <- <-. split_and!; simpl; [by rewrite Es|by apply good_weaken|done].
Qed.
Lemma rdv_ok_step w w' : rdv_ok w → any_step w w' → rdv_ok w'.
Proof.
  intros Hw [b Hs]. pose proof Hw as (Hc & Hsv & Hb).
  destruct Hs as [w d r E F|w d t x E F|w d t E F|w d r ok E F|w d u E F|w d t x E F|w d t E F|w d r ok E F];
    rewrite E in *.
  - eapply client_good; [done|apply connect_begin_at|by apply plug_ok|done].
  - eapply client_good; [done|apply keeps_triple, keeps_recv|by apply plug_at|done].
  - eapply client_good; [done|apply keeps_triple, keeps_recv|by apply plug_at|done].
  - eapply client_good; [done|apply keeps_triple, connect_end_at|by apply plug_at|done].
  - eapply server_good; [done|apply accept_begin_at|by apply plug_ok|done].
  - eapply server_good; [done|apply keeps_triple, keeps_recv|by apply plug_at|done].
  - eapply server_good; [done|apply keeps_triple, keeps_recv|by apply plug_at|done].
  - eapply server_good; [done|apply keeps_triple, accept_end_at|by apply plug_at|done].
Qed.
(** Every run is short, and stops only when both methods have returned. *)
Lemma run_work n w w' : nsteps any_step n w w' → (n + work w' ≤ work w)%nat.
Proof. induction 1 as [|n x y z Hs _ IH]; [simpl; lia|]. pose proof (step_work _ _ Hs). lia. Qed.
Lemma run_ok n w w' : rdv_ok w → nsteps any_step n w w' → rdv_ok w'.
Proof. intros Hw Hr. induction Hr as [|n x y z Hs _ IH]; [done|]. by eapply IH, rdv_ok_step. Qed.
End Threads.

(** ** Where a run can be *)
Section Meeting.
Context `{XxHash} `{Ed25519} `{UnorderedIter} `{StdSort}.
Context (cc cs : nat → Z) (ec es : Endpoint) (timeout : Z) (Hkeys : lb_key ec ≠ lb_key es).
Context (p0 q0 : Peer LoopbackPort).
Context (Hpc : p_conn_mgr p0 = cm_new) (Hqc : p_conn_mgr q0 = cm_new).
Context (Hpb : bound_to ec p0) (Hqb : bound_to es q0).

#[local] Abbreviation k := (p_clock_reads p0).
#[local] Abbreviation l := (p_clock_reads q0).
Definition met_client : Connection := connecting cc k es.
Definition met_server : Connection := accepting cs l met_client ec.
Definition connect_pkt : Packet :=
  {| pk_data := connect_packet met_client (cc (S (S k))); pk_from := ec; pk_to := es |}.
Definition accept_pkt : Packet :=
  {| pk_data := accept_packet met_server (cs (S (S l))) (cs (S (S (S l)))); pk_from := es; pk_to := ec |}.
(** The client waiting and connected, the server waiting and connected. *)
Definition client_waiting : Peer LoopbackPort := with_conn p0 (cn_bump met_client) 2 (S (S (S k))).
Definition client_met : Peer LoopbackPort :=
  with_conn p0 (connected met_client met_server (cs (S (S (S l))))) 2 (S (S (S k))).
Definition server_waiting : Peer LoopbackPort := with_conn q0 (cn_new (cs l)) 1 (S l).
Definition server_met : Peer LoopbackPort := with_conn q0 (cn_bump met_server) 2 (S (S (S (S l)))).

(** A thread in its receive, or, when receives may give up, after it gave up. *)
Inductive waits (late : bool) (t : Z) : Caller → Prop :=
| w_waiting : waits late t (T_Waiting t)
| w_late : late = true → waits late t (T_Received None)
| w_failed : late = true → waits late t (T_Done false).
(** Where the two threads can be, and what is then in the queues of the server and
    of the client. *)
Inductive phase (late : bool) :
    Caller → Caller → Peer LoopbackPort → Peer LoopbackPort → list Packet → list Packet → Prop :=
| ph_none : phase late T_Start T_Start p0 q0 [] []
| ph_accepting s : waits late timeout s → phase late T_Start s p0 server_waiting [] []
| ph_sent c : waits late 5000 c → phase late c T_Start client_waiting q0 [connect_pkt] []
| ph_both c s :
    waits late 5000 c → waits late timeout s → phase late c s client_waiting server_waiting [connect_pkt] []
| ph_taken c :
    waits late 5000 c →
    phase late c (T_Received (Some (pk_data connect_pkt, ec))) client_waiting server_waiting [] []
| ph_accepted c : waits late 5000 c → phase late c (T_Done true) client_waiting server_met [] [accept_pkt]
| ph_replied :
    phase late (T_Received (Some (pk_data accept_pkt, es))) (T_Done true) client_waiting server_met [] []
| ph_met : phase late (T_Done true) (T_Done true) client_met server_met [] [].
#[local] Hint Constructors waits phase : core.
Definition in_phase (late : bool) (w : Rdv) : Prop :=
  ∃ p q, phase late (rv_connect w) (rv_accept w) p q
           (lb_queue (du_bus (rv_duo w)) (lb_key es)) (lb_queue (du_bus (rv_duo w)) (lb_key ec)) ∧
    (∀ b, plug b (du_client (rv_duo w)) = plug b p) ∧ (∀ b, plug b (du_server (rv_duo w)) = plug b q).

Lemma with_conn_plug b p c id n : with_conn (plug b p) c id n = plug b (with_conn p c id n).
Proof. done. Qed.
Lemma plug_plug b b' p : plug b (plug b' p) = plug b p.
Proof. done. Qed.
(** The pieces, from phase to phase. *)
Lemma met_client_ok : cn_ok met_client.
Proof. apply connecting_ok. Qed.
Lemma met_server_ok : cn_ok met_server.
Proof. apply accepting_ok, met_client_ok. Qed.
Lemma begin_connect b : connect_begin cc es (plug b p0) = Ok (plug (lb_deliver b connect_pkt) client_waiting, Some 5000).
Proof. exact (connect_begin_fresh cc (plug b p0) ec es Hpb Hpc). Qed.
Lemma begin_accept b : accept_begin cs (plug b q0) = Ok (plug b server_waiting, ()).
Proof. exact (accept_begin_fresh cs (plug b q0) Hqc). Qed.
Lemma end_accept b :
  accept_end cs (Some (pk_data connect_pkt, ec)) (plug b server_waiting) = Ok (plug (lb_deliver b accept_pkt) server_met, true).
Proof. exact (accept_end_connect cs (plug b q0) es ec met_client _ Hqb met_client_ok). Qed.
Lemma end_connect b :
  connect_end (Some (pk_data accept_pkt, es)) (plug b client_waiting) = Ok (plug b client_met, true).
Proof. exact (connect_end_accept (plug b p0) met_client met_server _ _ es _ met_server_ok). Qed.
Definition took (b : LoopbackBus) (me : Endpoint) (rest : list Packet) : LoopbackBus :=
  {| lb_queues := <[lb_key me := rest]> (lb_queues b) |}.
Lemma recv_some me b p pkt rest t :
  bound_to me p → pk_to pkt = me → lb_queue b (lb_key me) = pkt :: rest →
  (0 < length (pk_data pkt) ≤ MAX_PACKET_SIZE)%nat →
  pm_recv_from t (plug b p) = Ok (plug (took b me rest) p, Some (pk_data pkt, pk_from pkt)).
Proof.
  intros Hb Ht Hq [Hpos Hlen]. unfold pm_recv_from.
  rewrite (port_recv (p_transport (plug b p)) me (pk_data pkt) (pk_from pkt) rest _ t Hb); [|by destruct pkt; simpl in *; subst|done].
  by destruct (pk_data pkt) as [|x d]; [simpl in Hpos; lia|].
Qed.
Lemma recv_none me b p t :
  bound_to me p → idle b me → pm_recv_from t (plug b p) = Ok (plug (took b me []) p, None).
Proof. intros Hb Hq. unfold pm_recv_from. by rewrite (port_recv_none (p_transport (plug b p)) me _ t Hb). Qed.
Lemma run_client {A} (m : PM LoopbackPort A) d p p' b' a :
  (∀ b, plug b (du_client d) = plug b p) → m (plug (du_bus d) p) = Ok (plug b' p', a) →
  on_client m d = Ok ({| du_bus := b'; du_client := plug b' p'; du_server := du_server d |}, a).
Proof. intros Hp Hm. unfold on_client. by rewrite Hp, Hm. Qed.
Lemma run_server {A} (m : PM LoopbackPort A) d q q' b' a :
  (∀ b, plug b (du_server d) = plug b q) → m (plug (du_bus d) q) = Ok (plug b' q', a) →
  on_server m d = Ok ({| du_bus := b'; du_client := du_client d; du_server := plug b' q' |}, a).
Proof. intros Hp Hm. unfold on_server. by rewrite Hp, Hm. Qed.
Lemma connect_pkt_size : (0 < length (pk_data connect_pkt) ≤ MAX_PACKET_SIZE)%nat.
Proof. split; [simpl; lia|]. by apply Nat.leb_le. Qed.
Lemma accept_pkt_size : (0 < length (pk_data accept_pkt) ≤ MAX_PACKET_SIZE)%nat.
Proof. split; [simpl; lia|]. by apply Nat.leb_le. Qed.
Lemma queue_deliver b pkt key :
  lb_queue (lb_deliver b pkt) key =
    if decide (lb_key (pk_to pkt) = key) then lb_queue b key ++ [pkt] else lb_queue b key.
Proof. unfold lb_deliver. rewrite lb_queue_insert. by case_decide; subst. Qed.
Lemma queue_took b me rest key :
  lb_queue (took b me rest) key = if decide (lb_key me = key) then rest else lb_queue b key.
Proof. apply lb_queue_insert. Qed.

#[local] Ltac phases H :=
  let E1 := fresh "E1" in let E2 := fresh "E2" in let E3 := fresh "E3" in let E4 := fresh "E4" in
  let E5 := fresh "E5" in let E6 := fresh "E6" in
  inversion H as [E1 E2 E3 E4 E5 E6|? ? E1 E2 E3 E4 E5 E6|? ? E1 E2 E3 E4 E5 E6|? ? ? ? E1 E2 E3 E4 E5 E6|? ? E1 E2 E3 E4 E5 E6
                 |? ? E1 E2 E3 E4 E5 E6|E1 E2 E3 E4 E5 E6|E1 E2 E3 E4 E5 E6]; subst;
  try match goal with
  | W : waits _ _ T_Start |- _ => by inversion W
  | W : waits _ _ (T_Received (Some _)) |- _ => by inversion W
  | W : waits _ _ (T_Done true) |- _ => by inversion W
  end;
  repeat match goal with W : waits _ _ (T_Waiting _) |- _ => inversion W; subst; clear W end.
#[local] Ltac in_duo := cbn [rv_duo rv_connect rv_accept du_bus du_client du_server].
(** The next phase, whichever thread moves. *)
Lemma meet_connects late w d r :
  in_phase late w → rv_connect w = T_Start → on_client (connect_begin cc es) (rv_duo w) = Ok (d, r) →
  r = Some 5000 ∧ in_phase late {| rv_duo := d; rv_connect := T_Waiting 5000; rv_accept := rv_accept w |}.
Proof.
  intros (p & q & Hph & Hp & Hq) E F. rewrite E in Hph.
  rewrite (run_client _ _ p client_waiting (lb_deliver (du_bus (rv_duo w)) connect_pkt) (Some 5000) Hp) in F
    by (phases Hph; apply begin_connect).
  injection F as <- <-. split; [done|]. exists client_waiting, q. in_duo. split; [|done].
  rewrite !queue_deliver. cbn [pk_to connect_pkt]. rewrite decide_True, decide_False by congruence.
  phases Hph; eauto.
Qed.
Lemma meet_accepts late w d u :
  in_phase late w → rv_accept w = T_Start → on_server (accept_begin cs) (rv_duo w) = Ok (d, u) →
  in_phase late {| rv_duo := d; rv_connect := rv_connect w; rv_accept := T_Waiting timeout |}.
Proof.
  intros (p & q & Hph & Hp & Hq) E F. rewrite E in Hph.
  rewrite (run_server _ _ q server_waiting (du_bus (rv_duo w)) () Hq) in F by (phases Hph; apply begin_accept).
  injection F as <- <-. exists p, server_waiting. split; [|done]. in_duo. phases Hph; eauto.
Qed.
Lemma meet_accept_takes late w d t x :
  in_phase late w → rv_accept w = T_Waiting t → on_server (pm_recv_from t) (rv_duo w) = Ok (d, x) →
  (x = None → late = true) →
  in_phase late {| rv_duo := d; rv_connect := rv_connect w; rv_accept := T_Received x |}.
Proof.
  intros (p & q & Hph & Hp & Hq) E F Hx. rewrite E in Hph.
  destruct (decide (lb_queue (du_bus (rv_duo w)) (lb_key es) = [])) as [En|En].
  - rewrite (run_server _ _ q q (took (du_bus (rv_duo w)) es []) None Hq) in F
      by (apply recv_none; [phases Hph; exact Hqb|exact En]).
    injection F as <- <-. specialize (Hx eq_refl) as ->. exists p, q. split; [|done]. in_duo.
    rewrite !queue_took, decide_True, decide_False by congruence. phases Hph; [eauto|congruence].
  - phases Hph; [congruence|].
    rewrite (run_server _ _ server_waiting server_waiting (took (du_bus (rv_duo w)) es [])
      (Some (pk_data connect_pkt, pk_from connect_pkt)) Hq) in F
      by (apply recv_some; [exact Hqb|done|by rewrite <-E5|apply connect_pkt_size]).
    injection F as <- <-. exists client_waiting, server_waiting. split; [|done]. in_duo.
    rewrite !queue_took, decide_True, decide_False by congruence. rewrite <-E6. by constructor.
Qed.
Lemma meet_accept_ends late w d r ok :
  in_phase late w → rv_accept w = T_Received r → on_server (accept_end cs r) (rv_duo w) = Ok (d, ok) →
  in_phase late {| rv_duo := d; rv_connect := rv_connect w; rv_accept := T_Done ok |}.
Proof.
  intros (p & q & Hph & Hp & Hq) E F. rewrite E in Hph. destruct r as [[data from]|].
  - phases Hph.
    rewrite (run_server _ _ server_waiting server_met (lb_deliver (du_bus (rv_duo w)) accept_pkt) true Hq) in F
      by apply end_accept.
    injection F as <- <-. exists client_waiting, server_met. split; [|done]. in_duo.
    rewrite !queue_deliver. cbn [pk_to accept_pkt].
    rewrite decide_False, decide_True by congruence. rewrite <-E5, <-E6. by constructor.
  - rewrite (run_server _ _ q q (du_bus (rv_duo w)) false Hq) in F by done.
    injection F as <- <-. exists p, q. split; [|done]. in_duo.
    phases Hph; constructor; try done; match goal with W : waits _ _ (T_Received None) |- _ => inversion W end; auto.
Qed.
Lemma meet_connect_takes late w d t x :
  in_phase late w → rv_connect w = T_Waiting t → on_client (pm_recv_from t) (rv_duo w) = Ok (d, x) →
  (x = None → late = true) →
  in_phase late {| rv_duo := d; rv_connect := T_Received x; rv_accept := rv_accept w |}.
Proof.
  intros (p & q & Hph & Hp & Hq) E F Hx. rewrite E in Hph.
  destruct (decide (lb_queue (du_bus (rv_duo w)) (lb_key ec) = [])) as [En|En].
  - rewrite (run_client _ _ p p (took (du_bus (rv_duo w)) ec []) None Hp) in F
      by (apply recv_none; [phases Hph; exact Hpb|exact En]).
    injection F as <- <-. specialize (Hx eq_refl) as ->. exists p, q. split; [|done]. in_duo.
    rewrite !queue_took, decide_False, decide_True by congruence. phases Hph; try congruence; eauto.
  - phases Hph; try congruence.
    rewrite (run_client _ _ client_waiting client_waiting (took (du_bus (rv_duo w)) ec [])
      (Some (pk_data accept_pkt, pk_from accept_pkt)) Hp) in F
      by (apply recv_some; [exact Hpb|done|by rewrite <-E6|apply accept_pkt_size]).
    injection F as <- <-. exists client_waiting, server_met. split; [|done]. in_duo.
    rewrite !queue_took, decide_False, decide_True by congruence. rewrite <-?E2, <-E5. constructor.
Qed.
Lemma meet_connect_ends late w d r ok :
  in_phase late w → rv_connect w = T_Received r → on_client (connect_end r) (rv_duo w) = Ok (d, ok) →
  in_phase late {| rv_duo := d; rv_connect := T_Done ok; rv_accept := rv_accept w |}.
Proof.
  intros (p & q & Hph & Hp & Hq) E F. rewrite E in Hph. destruct r as [[data from]|].
  - phases Hph.
    rewrite (run_client _ _ client_waiting client_met (du_bus (rv_duo w)) true Hp) in F by apply end_connect.
    injection F as <- <-. exists client_met, server_met. split; [|done]. in_duo. rewrite <-?E2, <-E5, <-E6. constructor.
  - rewrite (run_client _ _ p p (du_bus (rv_duo w)) false Hp) in F by done.
    injection F as <- <-. exists p, q. split; [|done]. in_duo.
    phases Hph; constructor; try done; match goal with W : waits _ _ (T_Received None) |- _ => inversion W end; auto.
Qed.
Lemma meet_step late b w w' :
  in_phase late w → rdv_step cc cs es timeout b w w' → (b = true → late = true) → in_phase late w'.
Proof.
  intros Hw Hs Hb.
  inversion Hs as [? d r E F|? d t x E F|? d t E F|? d r ok E F|? d u E F|? d t x E F|? d t E F|? d r ok E F]; subst.
  - destruct (meet_connects late w d r Hw E F) as [-> ?]. done.
  - by eapply meet_connect_takes.
  - eapply meet_connect_takes; [done..|]. by intros _; apply Hb.
  - by eapply meet_connect_ends.
  - by eapply meet_accepts.
  - by eapply meet_accept_takes.
  - eapply meet_accept_takes; [done..|]. by intros _; apply Hb.
  - by eapply meet_accept_ends.
Qed.
Lemma meet_progress w : in_phase false w → finished w ∨ ∃ w', rdv_step cc cs es timeout false w w'.
Proof.
  intros (p & q & Hph & Hp & Hq). unfold finished. phases Hph;
    repeat match goal with W : waits false _ _ |- _ => inversion W; subst; clear W end; try done; [right..|by left].
  - eexists. eapply connect_begins; [done|]. eapply run_client; [exact Hp|apply begin_connect].
  - eexists. eapply connect_begins; [done|]. eapply run_client; [exact Hp|apply begin_connect].
  - eexists. eapply accept_begins; [done|]. eapply run_server; [exact Hq|apply begin_accept].
  - eexists. eapply accept_receives; [done|]. eapply run_server; [exact Hq|].
    apply (recv_some es _ _ connect_pkt []); [exact Hqb|done|by rewrite <-E5|apply connect_pkt_size].
  - eexists. eapply accept_ends; [done|]. eapply run_server; [exact Hq|apply end_accept].
  - eexists. eapply connect_receives; [done|]. eapply run_client; [exact Hp|].
    apply (recv_some ec _ _ accept_pkt []); [exact Hpb|done|by rewrite <-E6|apply accept_pkt_size].
  - eexists. eapply connect_ends; [done|]. eapply run_client; [exact Hp|apply end_connect].
Qed.

(** The connections of the two ends when they have met. *)
Lemma met_client_conn :
  let c := connected met_client met_server (cs (S (S (S l)))) in
  cn_state c = CONNECTED ∧ cn_remote c = es ∧ cn_epoch c = cc (S k) ∧ cn_ok c.
Proof. split_and!; try done; by_decide. Qed.
Lemma met_server_conn :
  let s := cn_bump met_server in
  cn_state s = CONNECTED ∧ cn_remote s = ec ∧ cn_epoch s = cs (S l) ∧ cn_ok s.
Proof. split_and!; try done; by_decide. Qed.
Lemma meet_start d :
  (∀ b, plug b (du_client d) = plug b p0) → (∀ b, plug b (du_server d) = plug b q0) →
  idle (du_bus d) es → idle (du_bus d) ec → in_phase false (start d).
Proof. intros Hp Hq Hs Hc. exists p0, q0. split; [|done]. unfold idle in *. simpl. rewrite Hs, Hc. constructor. Qed.
Lemma meet_run late w w' :
  in_phase late w → rtc (λ w w', ∃ b, rdv_step cc cs es timeout b w w' ∧ (b = true → late = true)) w w' →
  in_phase late w'.
Proof. intros Hw Hr. induction Hr as [|x y z (b & Hs & Hb) _ IH]; [done|]. by eapply IH, meet_step. Qed.
Lemma phase_late w : in_phase false w → in_phase true w.
Proof.
  assert (∀ t c, waits false t c → waits true t c) as Hwt by (by inversion 1; subst; constructor).
  intros (p & q & Hph & Hp & Hq). exists p, q. split; [|done]. phases Hph; constructor; auto.
Qed.
Lemma quick_end w : in_phase false w → finished w → rv_connect w = T_Done true.
Proof.
  intros (p & q & Hph & _). unfold finished. phases Hph;
    repeat match goal with W : waits false _ _ |- _ => inversion W; subst; clear W end; try done;
    repeat match goal with E : _ = rv_connect w |- _ => rewrite <-E | E : _ = rv_accept w |- _ => rewrite <-E end;
    intros [Hc Hs]; try done.
Qed.
Lemma met_end late w :
  in_phase late w → rv_connect w = T_Done true →
  rv_accept w = T_Done true ∧
  (∀ b, plug b (du_client (rv_duo w)) = plug b client_met) ∧ (∀ b, plug b (du_server (rv_duo w)) = plug b server_met) ∧
  idle (du_bus (rv_duo w)) ec ∧ idle (du_bus (rv_duo w)) es.
Proof. intros (p & q & Hph & Hp & Hq) E. rewrite E in Hph. unfold idle. by phases Hph. Qed.
(** If [connect] gave up, the server waited in vain or has answered a client that is gone. *)
Lemma missed_end late w :
  in_phase late w → finished w → rv_connect w = T_Done false →
  (∀ b, plug b (du_client (rv_duo w)) = plug b client_waiting) ∧
  ((∀ b, plug b (du_server (rv_duo w)) = plug b server_waiting) ∨
   (∀ b, plug b (du_server (rv_duo w)) = plug b server_met) ∧ idle (du_bus (rv_duo w)) es).
Proof.
  intros (p & q & Hph & Hp & Hq) [_ Hs] E. rewrite E in Hph. unfold idle. revert Hs.
  phases Hph; repeat match goal with E : _ = rv_accept w |- _ => rewrite <-E end; intros Hs; try done; split; auto.
Qed.
End Meeting.

(** ** From two fresh peers to a link *)
Section Link.
Context `{XxHash} `{Ed25519} `{UnorderedIter} `{StdSort}.

(** One end before the handshake: bound to [me], knowing the key of [node]. *)
Record prepared (me : Endpoint) (node : Z) (pk : bytes) (p : Peer LoopbackPort) : Prop := {
  pr_ok : peer_ok p;
  pr_port : bound_to me p;
  pr_fresh : p_conn_mgr p = cm_new;
  pr_node : is_u16 (p_node_id p);
  pr_keys : kp_valid (p_keys p);
  pr_peer : p_peer_keys p !! node = Some pk;
  pr_open : p_access_control p = false;
  pr_filters : p_delta_filters p = ∅;
  pr_rel : reliabilities_ok (p_state p) }.
Lemma with_conn_side me other node pk p c id n b :
  prepared me node pk p → cn_state c = CONNECTED → cn_remote c = other → cn_ok c → bus_ok b →
  side me other node pk (plug b (with_conn p c id n)).
Proof.
  intros [(Ht & _ & Hs & Hr) Hp Hf Hn Hk Hpk Ha Hfl Hrel] Hst Hrem Hok Hb. split; try done.
  - split_and!; [done| |done|done]. apply map_Forall_singleton. split; [done|apply rt_new_ok].
  - by exists (conn0 c).
Qed.
Lemma side_unplug me other node pk b p : peer_ok p → side me other node pk (plug b p) → side me other node pk p.
Proof. intros Hok [_ ? ? ? ? ? ? ? ?]. by split. Qed.

Context (cc cs : nat → Z) (ec es : Endpoint) (timeout : Z) (Hkeys : lb_key ec ≠ lb_key es).
#[local] Abbreviation thread_step := (any_step cc cs es timeout).
#[local] Abbreviation quick_step := (rdv_step cc cs es timeout false).
(** Two ends that can meet. *)
Record meeting (d : Duo) : Prop := {
  mt_client : prepared ec (p_node_id (du_server d)) (kp_public_key (p_keys (du_server d))) (du_client d);
  mt_server : prepared es (p_node_id (du_client d)) (kp_public_key (p_keys (du_client d))) (du_server d);
  mt_bus : bus_ok (du_bus d);
  mt_idle_client : idle (du_bus d) ec;
  mt_idle_server : idle (du_bus d) es }.
Lemma meeting_ok d : meeting d → rdv_ok (start d).
Proof. intros [Hc Hs Hb _ _]. split_and!; simpl; [apply Hc|apply Hs|done]. Qed.
Lemma meeting_phase d : meeting d → in_phase cc cs ec es timeout (du_client d) (du_server d) false (start d).
Proof. intros [_ _ _ ? ?]. by apply meet_start. Qed.
Lemma run_phase d w :
  meeting d → rtc thread_step (start d) w → in_phase cc cs ec es timeout (du_client d) (du_server d) true w.
Proof.
  intros Hd. intros Hr. eapply meet_run; [done|apply Hd|apply Hd|apply Hd|apply Hd|by apply phase_late, meeting_phase|].
  revert Hr. apply rtc_subrel. intros x y [b Hs]. exists b. by split.
Qed.
Lemma quick_phase d w :
  meeting d → rtc quick_step (start d) w → in_phase cc cs ec es timeout (du_client d) (du_server d) false w.
Proof.
  intros Hd Hr. eapply meet_run; [done|apply Hd|apply Hd|apply Hd|apply Hd|by apply meeting_phase|].
  revert Hr. apply rtc_subrel. intros x y Hs. exists false. by split.
Qed.
Lemma quick_any w w' : rtc quick_step w w' → rtc thread_step w w'.
Proof. apply rtc_subrel. intros x y Hs. by exists false. Qed.
Lemma meeting_run_ok d w : meeting d → rtc thread_step (start d) w → rdv_ok w.
Proof. intros Hd [n Hr]%rtc_nsteps_1. by eapply run_ok, Hr; apply meeting_ok. Qed.

(** What the handshake leaves behind. *)
Definition met_at (clock : nat → Z) (reads : nat) (p p' : Peer LoopbackPort) : Prop :=
  p_state p' = p_state p ∧ p_update_log p' = p_update_log p ∧ p_node_id p' = p_node_id p ∧ p_keys p' = p_keys p ∧
  p_clock_reads p' = (reads + p_clock_reads p)%nat ∧
  ∃ mc, only_conn p' mc ∧ cn_epoch (mc_conn mc) = clock (S (p_clock_reads p)).
Lemma met_at_with_conn clock reads p p' b c id :
  plug b p' = plug b (with_conn p c id (reads + p_clock_reads p)) →
  cn_state c = CONNECTED → cn_ok c → cn_epoch c = clock (S (p_clock_reads p)) → met_at clock reads p p'.
Proof.
  intros E Hs Hok He.
  pose proof (f_equal p_state E) as E1. pose proof (f_equal p_update_log E) as E2.
  pose proof (f_equal p_node_id E) as E3. pose proof (f_equal p_clock_reads E) as E4.
  pose proof (f_equal p_conn_mgr E) as E5. pose proof (f_equal p_keys E) as E6. simpl in *.
  split_and!; try done. exists (conn0 c). split; [|done]. split_and!; try done. by rewrite E5.
Qed.
Lemma met_link d w :
  meeting d → rtc thread_step (start d) w → rv_connect w = T_Done true →
  rv_accept w = T_Done true ∧ linked ec es (rv_duo w) ∧
  met_at cc 3 (du_client d) (du_client (rv_duo w)) ∧ met_at cs 4 (du_server d) (du_server (rv_duo w)).
Proof.
  intros Hd Hr Ec. pose proof (meeting_run_ok d w Hd Hr) as (Gc & Gs & Hb). pose proof Hd as [Hc Hs _ _ _].
  destruct (met_end cc cs ec es timeout _ _ true w (run_phase d w Hd Hr) Ec) as (Es & Pc & Ps & Ic & Is).
  destruct (met_client_conn cc cs ec es (du_client d) (du_server d)) as (S1 & R1 & E1 & O1).
  destruct (met_server_conn cc cs ec es (du_client d) (du_server d)) as (S2 & R2 & E2 & O2).
  split; [done|].
  assert (met_at cc 3 (du_client d) (du_client (rv_duo w))) as Mc by exact (met_at_with_conn _ 3 _ _ _ _ _ (Pc lb_new) S1 O1 E1).
  assert (met_at cs 4 (du_server d) (du_server (rv_duo w))) as Ms by exact (met_at_with_conn _ 4 _ _ _ _ _ (Ps lb_new) S2 O2 E2).
  split; [|done]. rewrite Ec in Gc. rewrite Es in Gs.
  pose proof Mc as (_ & _ & Nc & Kc & _). pose proof Ms as (_ & _ & Ns & Ks & _). split; try done.
  - rewrite Ns, Ks. eapply side_unplug; [apply Gc|]. rewrite (Pc (du_bus (rv_duo w))). by apply with_conn_side.
  - rewrite Nc, Kc. eapply side_unplug; [apply Gs|]. rewrite (Ps (du_bus (rv_duo w))). by apply with_conn_side.
Qed.
(** An end whose connection is not up. *)
Definition unmet (p p' : Peer LoopbackPort) : Prop :=
  p_state p' = p_state p ∧ p_update_log p' = p_update_log p ∧
  ∃ mc, cm_conns (p_conn_mgr p') = {[0 := mc]} ∧ cn_state (mc_conn mc) ≠ CONNECTED.
Lemma unmet_with_conn p p' b c id n :
  plug b p' = plug b (with_conn p c id n) → cn_state c ≠ CONNECTED → unmet p p'.
Proof.
  intros E Hs. pose proof (f_equal p_state E) as E1. pose proof (f_equal p_update_log E) as E2.
  pose proof (f_equal p_conn_mgr E) as E3. simpl in *. split_and!; try done. exists (conn0 c). by rewrite E3.
Qed.
Lemma missed_link d w :
  meeting d → rtc thread_step (start d) w → finished w → rv_connect w = T_Done false →
  unmet (du_client d) (du_client (rv_duo w)) ∧
  (unmet (du_server d) (du_server (rv_duo w)) ∨
   met_at cs 4 (du_server d) (du_server (rv_duo w)) ∧ idle (du_bus (rv_duo w)) es ∧
   side es ec (p_node_id (du_client d)) (kp_public_key (p_keys (du_client d))) (du_server (rv_duo w))).
Proof.
  intros Hd Hr Hf Ec. pose proof (meeting_run_ok d w Hd Hr) as (Gc & Gs & Hb). pose proof Hd as [Hc Hs _ _ _].
  destruct (missed_end cc cs ec es timeout _ _ true w (run_phase d w Hd Hr) Hf Ec) as (Pc & Ps).
  split; [by apply (unmet_with_conn _ _ _ _ _ _ (Pc lb_new))|].
  destruct Ps as [Ps|[Ps Is]]; [left; by apply (unmet_with_conn _ _ _ _ _ _ (Ps lb_new))|right].
  destruct (met_server_conn cc cs ec es (du_client d) (du_server d)) as (S2 & R2 & E2 & O2).
  split; [exact (met_at_with_conn _ 4 _ _ _ _ _ (Ps lb_new) S2 O2 E2)|]. split; [done|].
  destruct Hf as [_ Hf]. eapply (side_unplug _ _ _ _ (du_bus (rv_duo w))).
  - destruct (rv_accept w); [done..|apply Gs].
  - rewrite (Ps (du_bus (rv_duo w))). by apply with_conn_side.
Qed.

(** C4: The handshake of two fresh peers, for every interleaving of the thread that runs
    [connect] with the thread that runs [accept_from].  Whether or not receives give up:
    neither thread ever meets undefined behaviour or gets stuck, both have returned after
    at most six pieces, and when [connect] returns true [accept_from] has returned true
    and the peers are linked: each has the other's endpoint in its only connection, which
    is up, and nothing is left on the bus.  If no receive gives up, some thread can always
    go on without giving up, and in the end [connect] has returned true. *)
Theorem rendezvous d :
  meeting d →
  (∀ n w, nsteps thread_step n (start d) w →
     (n ≤ 6)%nat ∧ (is_done (rv_connect w) = true ∨ connect_enabled cc cs es timeout w) ∧
     (is_done (rv_accept w) = true ∨ accept_enabled cc cs es timeout w) ∧
     (rv_connect w = T_Done true → rv_accept w = T_Done true ∧ linked ec es (rv_duo w))) ∧
  (∀ w, rtc quick_step (start d) w →
     (finished w ∨ ∃ w', quick_step w w') ∧ (finished w → rv_connect w = T_Done true)).
Proof.
  intros Hd. split.
  - intros n w Hr. pose proof (run_ok _ _ _ _ _ _ _ (meeting_ok d Hd) Hr) as Hok.
    pose proof (run_work _ _ _ _ _ _ _ Hr) as Hn. split; [unfold work in Hn; simpl in Hn; lia|].
    split; [by apply connect_progress|]. split; [by apply accept_progress|].
    intros E. destruct (met_link d w Hd (rtc_nsteps_2 _ _ _ Hr) E) as (? & ? & _). done.
  - intros w Hr. split.
    + eapply meet_progress; [..|by apply (quick_phase d)]; apply Hd.
    + intros Hf. eapply quick_end; [|done]. by apply (quick_phase d).
Qed.
End Link.
