(* ===== verification/Demo.v ===== *)
(** * The state streaming demo

    [examples/state_streaming_demo.cpp]: [main] from the two key pairs to the last line it
    prints.  The handshake runs in two threads ([Rendezvous]); everything else is one
    thread.  The theorem gives the whole output; what is left open in it is the order of
    the two callbacks of a frame, which is that of an unordered map. *)
From stdpp Require Import strings.
From S2P Require Import Prelude Platform Frame Codec VersionVector GCounter LwwRegister Crdt.
From S2P Require Import StatePath StateRegistry Resolution Subscription AckTracker Transport.
From S2P Require Import Connection Capability Float64 Routing Peer PeerSafety PeerApi Cli PeerReplication.
From S2P Require Import Streaming Rendezvous.
#[local] Open Scope Z_scope.

(** ** The program *)
Section Program.
Context `{XxHash} `{Ed25519} `{UnorderedIter} `{StdSort}.
(** The clocks the two peers read. *)
Context (cc cs : nat → Z).

Definition client_ep : Endpoint := {| ep_address := txt "loopback"; ep_port := 1 |}.
Definition server_ep : Endpoint := {| ep_address := txt "loopback"; ep_port := 2 |}.
Definition player_pos : StatePath := sp_new (txt "/game/player/1/position").
Definition player_hp : StatePath := sp_new (txt "/game/player/1/health").
Definition score : StatePath := sp_new (txt "/game/score").

Definition demo_declare (p : Peer LoopbackPort) : Peer LoopbackPort :=
  let p := (peer_declare p player_pos CT_LWW_REGISTER Rel_RELIABLE).1 in
  let p := (peer_declare p player_hp CT_LWW_REGISTER Rel_RELIABLE).1 in
  (peer_declare p score CT_G_COUNTER Rel_RELIABLE).1.
(** One peer of the demo: bound, constructed, told the other's key, its regions declared
    and its callback set. *)
Definition demo_peer (node : Z) (ep : Endpoint) (keys : KeyPair) (other : Z) (pk : bytes) : Peer LoopbackPort :=
  let transport := {| lp_transport := (lt_bind lt_new ep).1; lp_bus := lb_new |} in
  let p := peer_new node transport keys in
  let p := demo_declare (peer_register_peer_key p other pk) in
  p_set_state p (sreg_set_update_callback (p_state p)).
Definition demo_setup (server_keys client_keys : KeyPair) : Duo :=
  {| du_bus := lb_new;
     du_server := demo_peer 1 server_ep server_keys 2 (kp_public_key client_keys);
     du_client := demo_peer 2 client_ep client_keys 1 (kp_public_key server_keys) |}.

(** What is printed, line by line.  [%s] stops at a zero byte. *)
Fixpoint c_string (s : bytes) : bytes :=
  match s with [] => [] | c :: s => if c =? 0 then [] else c :: c_string s end.
Definition updated (who : string) (path : StatePath) : bytes :=
  txt "  [" ++ txt who ++ txt "] state updated: " ++ c_string (sp_path path).
(** The lines of the callbacks made between two states of a peer. *)
Definition heard (who : string) (p p' : Peer LoopbackPort) : list bytes :=
  (λ ev : UpdateEvent, updated who ev.1) <$> drop (length (p_update_log p)) (p_update_log p').

(** [static_cast] and [->] on what [state().get] returns. *)
Definition read_register (p : Peer LoopbackPort) (path : StatePath) : res bytes :=
  match sreg_get (p_state p) (sp_hash path) with
  | Some g => match rg_crdt g with CV_Lww v => Ok (lww_value v) | _ => Oob end
  | None => Oob
  end.
Definition read_counter (p : Peer LoopbackPort) (path : StatePath) : res Z :=
  match sreg_get (p_state p) (sp_hash path) with
  | Some g => match rg_crdt g with CV_GCounter c => Ok (gc_value c) | _ => Oob end
  | None => Oob
  end.

Definition frame_text (i : nat) : bytes :=
  txt "x:" ++ to_string (Z.of_nat i * 10) ++ txt ",y:" ++ to_string (Z.of_nat i * 5).
(** The loop; only the server's callback prints in it. *)
Definition demo_frames (w : Duo) : res (Duo * list bytes) :=
  let! w' := stream cc cs player_pos score w ((λ i, (frame_text i, 100)) <$> seq 0 10) in
  Ok (w', heard "server" (du_server w) (du_server w')).
Definition demo_health (w : Duo) : res (Duo * list bytes) :=
  let! (w1, _) := on_server (peer_set_lww cs player_hp (txt "hp:85/100")) w in
  let! (w2, _) := on_server (peer_flush cs) w1 in
  let! (w3, _) := on_client (peer_poll cc 100) w2 in
  Ok (w3, heard "client" (du_client w) (du_client w3)).

(** Everything [main] prints, in order. *)
Definition demo_lines (ok : bool) (frames : list bytes) (position : bytes) (points : Z) (health : list bytes)
    (hp : bytes) : list bytes :=
  [txt "=== ProtoCol State Streaming Demo ==="; [];
   txt "1. Connecting...";
   txt "   Connected: " ++ txt (if ok then "yes" else "no"); [];
   txt "2. Streaming position updates (simulating 10 'frames')..."] ++
  frames ++
  [[]; txt "3. Final state on server:";
   txt "   Position: " ++ c_string position;
   txt "   Score: " ++ to_string_loop 20 points [];
   []; txt "4. Server sets player health, client receives:"] ++
  health ++
  [txt "   Client sees health: " ++ c_string hp;
   []; txt "5. Disconnecting..."; txt "   Done.";
   []; txt "=== Demo Complete ===";
   txt "No HTTP. No REST. No JSON. No request/response.";
   txt "Just continuous state streaming with automatic CRDT merge.";
   txt "Every delta is Ed25519-signed. Trust the data, not the channel."].
(** [main] after the two threads are joined. *)
Definition demo_after (r : Rdv) : res (list bytes) :=
  let ok := match rv_connect r with T_Done ok => ok | _ => false end in
  let! (w, frames) := demo_frames (rv_duo r) in
  let! position := read_register (du_server w) player_pos in
  let! points := read_counter (du_server w) score in
  let! (w, health) := demo_health w in
  let! hp := read_register (du_client w) player_hp in
  let! (w, _) := on_client (peer_disconnect cc CR_NORMAL) w in
  Ok (demo_lines ok frames position points health hp).
End Program.

(** ** The peers before the handshake *)
Section Setup.
Context `{XxHash} `{Ed25519} `{UnorderedIter} `{StdSort}.

Definition distinct_paths : Prop :=
  sp_hash player_pos ≠ sp_hash player_hp ∧ sp_hash player_pos ≠ sp_hash score ∧ sp_hash player_hp ≠ sp_hash score.
Definition demo_region (path : StatePath) (type : CrdtType) (v : CrdtValue) : StateRegion :=
  {| rg_path := sp_copy path; rg_crdt_type := type; rg_reliability := Rel_RELIABLE; rg_crdt := v;
     rg_version := vv_empty |}.
Definition demo_regions (node : Z) : gmap Z StateRegion :=
  <[sp_hash score := demo_region score CT_G_COUNTER (CV_GCounter (gc_new node))]>
  (<[sp_hash player_hp := demo_region player_hp CT_LWW_REGISTER (CV_Lww (lww_new node))]>
   (<[sp_hash player_pos := demo_region player_pos CT_LWW_REGISTER (CV_Lww (lww_new node))]> ∅)).
Lemma declare_new (p : Peer LoopbackPort) path type v :
  sr_regions (p_state p) !! sp_hash path = None → sreg_create_crdt (sr_node_id (p_state p)) type = Some v →
  p_state (peer_declare p path type Rel_RELIABLE).1 =
    sreg_set_regions (p_state p) (<[sp_hash path := demo_region path type v]> (sr_regions (p_state p))).
Proof.
  intros Hn Hv. unfold peer_declare, sreg_declare. by rewrite Hn, Hv.
Qed.
(** Declaring a region touches nothing else. *)
Definition rest (p : Peer LoopbackPort) :=
  (p_node_id p, p_transport p, p_conn_mgr p, p_keys p, p_peer_keys p, p_access_control p, p_delta_filters p,
   p_clock_reads p, p_update_log p).
Lemma declare_keeps_rest (p : Peer LoopbackPort) path type rel : rest (peer_declare p path type rel).1 = rest p.
Proof. unfold peer_declare. by destruct (sreg_declare _ _ _ _) as [r []]. Qed.
Lemma set_state_rest (p : Peer LoopbackPort) r : rest (p_set_state p r) = rest p.
Proof. done. Qed.
Lemma path_is_u32 s : is_u32 (sp_hash (sp_new s)).
Proof. apply XXH32_range. Qed.

Context (node : Z) (ep : Endpoint) (keys : KeyPair) (other : Z) (pk : bytes).
#[local] Abbreviation the_peer := (demo_peer node ep keys other pk).
Lemma declare_ok (p : Peer LoopbackPort) path type rel :
  peer_ok p → is_u32 (sp_hash path) → peer_ok (peer_declare p path type rel).1.
Proof.
  intros (Ht & Hc & Hs & Hr) Hp. unfold peer_declare.
  pose proof (sreg_declare_ok (p_state p) path type rel Hs Hp) as Hd.
  destruct (sreg_declare _ _ _ _) as [r [|]]; by split_and!.
Qed.
Lemma demo_peer_rest :
  rest the_peer = (node, {| lp_transport := {| lt_local := ep; lt_bound := true |}; lp_bus := lb_new |}, cm_new, keys,
                   {[other := pk]}, false, ∅, 0%nat, []).
Proof.
  unfold demo_peer, demo_declare. set (p := peer_register_peer_key _ _ _).
  by rewrite set_state_rest, !declare_keeps_rest.
Qed.
Lemma demo_peer_fields :
  p_node_id the_peer = node ∧ p_keys the_peer = keys ∧ p_clock_reads the_peer = 0%nat ∧ p_update_log the_peer = [].
Proof. generalize demo_peer_rest. generalize the_peer. by intros p [= ? ? ? ? ? ? ? ? ?]. Qed.
Lemma demo_peer_state : distinct_paths → p_state the_peer =
  {| sr_node_id := node; sr_regions := demo_regions node; sr_on_update := true |}.
Proof.
  intros (N1 & N2 & N3). unfold demo_peer, demo_declare. set (p := peer_register_peer_key _ _ _).
  set (p1 := (peer_declare p _ _ _).1). set (p2 := (peer_declare p1 _ _ _).1).
  assert (p_state p1 = sreg_set_regions (p_state p) (<[sp_hash player_pos :=
    demo_region player_pos CT_LWW_REGISTER (CV_Lww (lww_new node))]> ∅)) as E1 by by apply declare_new.
  assert (p_state p2 = sreg_set_regions (p_state p1) (<[sp_hash player_hp :=
    demo_region player_hp CT_LWW_REGISTER (CV_Lww (lww_new node))]> (sr_regions (p_state p1)))) as E2.
  { apply declare_new; rewrite E1; [|done]. simpl. by rewrite lookup_insert_ne. }
  cbn [p_set_state p_state]. rewrite (declare_new p2 score CT_G_COUNTER (CV_GCounter (gc_new node))).
  - by rewrite E2, E1.
  - rewrite E2, E1. simpl. by rewrite !lookup_insert_ne by done.
  - by rewrite E2, E1.
Qed.
Lemma rest_prepared p :
  rest p = (node, {| lp_transport := {| lt_local := ep; lt_bound := true |}; lp_bus := lb_new |}, cm_new, keys,
            {[other := pk]}, false, ∅, 0%nat, []) →
  peer_ok p → reliabilities_ok (p_state p) → is_u16 node → kp_valid keys → prepared ep other pk p.
Proof.
  intros [= E1 E2 E3 E4 E5 E6 E7 E8 E9] Hp Hr Hn Hk. split; rewrite ?E1, ?E3, ?E4, ?E5, ?E6, ?E7; try done.
  - unfold bound_to. by rewrite E2.
  - apply lookup_singleton_eq.
Qed.
Lemma set_callback_ok (p : Peer LoopbackPort) :
  peer_ok p → peer_ok (p_set_state p (sreg_set_update_callback (p_state p))).
Proof. intros (? & ? & [? ?] & ?). by split_and!. Qed.
Lemma demo_prepared : distinct_paths → is_u16 node → kp_valid keys → prepared ep other pk the_peer.
Proof.
  intros Hd Hn Hk. apply rest_prepared; [apply demo_peer_rest| | |done|done].
  - apply set_callback_ok. do 3 (apply declare_ok; [|apply path_is_u32]).
    refine (peer_new_ok node _ keys Hn _). apply map_Forall_empty.
  - rewrite (demo_peer_state Hd). by repeat apply map_Forall_insert_2.
Qed.
(** The registry of a peer as [main] leaves it before connecting. *)
Record demo_state (r : StateRegistry) : Prop := {
  ds_calm : calm r;
  ds_hears : sr_on_update r = true;
  ds_pos : lww_at r player_pos = Some (lww_new node);
  ds_hp : lww_at r player_hp = Some (lww_new node);
  ds_score : counter_at r score = Some (gc_new node);
  ds_pos_path : rg_path <$> sreg_get r (sp_hash player_pos) = Some player_pos;
  ds_hp_path : rg_path <$> sreg_get r (sp_hash player_hp) = Some player_hp;
  ds_score_path : rg_path <$> sreg_get r (sp_hash score) = Some score }.
Lemma demo_peer_ready : distinct_paths → demo_state (p_state the_peer).
Proof.
  intros Hd. rewrite (demo_peer_state Hd). destruct Hd as (N1 & N2 & N3).
  set (r := {| sr_regions := demo_regions node |}).
  assert (sreg_get r (sp_hash player_pos) = Some (demo_region player_pos CT_LWW_REGISTER (CV_Lww (lww_new node)))) as E1.
  { unfold sreg_get, r, demo_regions. cbn [sr_regions]. do 2 (rewrite lookup_insert_ne by congruence). apply lookup_insert_eq. }
  assert (sreg_get r (sp_hash player_hp) = Some (demo_region player_hp CT_LWW_REGISTER (CV_Lww (lww_new node)))) as E2.
  { unfold sreg_get, r, demo_regions. cbn [sr_regions]. rewrite lookup_insert_ne by congruence. apply lookup_insert_eq. }
  assert (sreg_get r (sp_hash score) = Some (demo_region score CT_G_COUNTER (CV_GCounter (gc_new node)))) as E3
    by apply lookup_insert_eq.
  split; rewrite ?E1, ?E2, ?E3; try done; [by repeat apply map_Forall_insert_2| | |].
  - apply lww_at_Some. eauto.
  - apply lww_at_Some. eauto.
  - apply counter_at_Some. eauto.
Qed.
End Setup.

(** ** The whole run *)
Section Output.
Context `{XxHash} `{Ed25519} `{UnorderedIter} `{StdSort}.
Context (cc cs : nat → Z) (ks kc : KeyPair).
Context (Hpaths : distinct_paths) (Hks : kp_valid ks) (Hkc : kp_valid kc).

Lemma demo_meeting : meeting client_ep server_ep (demo_setup ks kc).
Proof.
  unfold demo_setup. split; cbn [du_client du_server du_bus]; [| |apply map_Forall_empty|done|done].
  - destruct (demo_peer_fields 1 server_ep ks 2 (kp_public_key kc)) as (-> & -> & _).
    by apply demo_prepared; [|by_decide|].
  - destruct (demo_peer_fields 2 client_ep kc 1 (kp_public_key ks)) as (-> & -> & _).
    by apply demo_prepared; [|by_decide|].
Qed.
Lemma demo_keys : lb_key client_ep ≠ lb_key server_ep.
Proof. by_decide. Qed.

(** The time a peer stamps its [n]-th clock reading with: its connection's epoch is its
    second reading. *)
Definition stamp (clock : nat → Z) (n : nat) : Z := cn_elapsed_us (cn_new (clock 1%nat)) (clock n).
Definition demo_sent : list (bytes * Z) := (λ i, (frame_text i, 100)) <$> seq 0 10.
Lemma demo_sent_fit : Forall frame_fits demo_sent.
Proof. apply (bool_decide_eq_true_1 (Forall (λ f, wf_bytes f.1 ∧ is_u64 f.2 ∧ (length f.1 ≤ 1200)%nat) demo_sent)). by vm_compute. Qed.

(** Both peers once the threads are joined. *)
Record demo_joined (w : Duo) (mc ms : ManagedConnection) : Prop := {
  dj_linked : linked client_ep server_ep w;
  dj_client : only_conn (du_client w) mc ∧ cn_epoch (mc_conn mc) = cc 1%nat;
  dj_server : only_conn (du_server w) ms ∧ cn_epoch (mc_conn ms) = cs 1%nat;
  dj_reads : p_clock_reads (du_client w) = 3%nat ∧ p_clock_reads (du_server w) = 4%nat;
  dj_logs : p_update_log (du_client w) = [] ∧ p_update_log (du_server w) = [];
  dj_client_state : demo_state 2 (p_state (du_client w));
  dj_server_state : demo_state 1 (p_state (du_server w)) }.
Lemma demo_joins w :
  rtc (any_step cc cs server_ep 5000) (start (demo_setup ks kc)) w → rv_connect w = T_Done true →
  ∃ mc ms, demo_joined (rv_duo w) mc ms.
Proof.
  intros Hr Hf.
  destruct (met_link cc cs client_ep server_ep 5000 demo_keys _ w demo_meeting Hr Hf) as (_ & Hl & Mc & Ms).
  destruct Mc as (Sc & Lc & _ & _ & Rc & mc & Hmc & Ec), Ms as (Ss & Ls & _ & _ & Rs & ms & Hms & Es).
  cbn [demo_setup du_client du_server] in *.
  destruct (demo_peer_fields 2 client_ep kc 1 (kp_public_key ks)) as (_ & _ & Dr & Dl).
  destruct (demo_peer_fields 1 server_ep ks 2 (kp_public_key kc)) as (_ & _ & Dr' & Dl').
  rewrite Dr in Rc, Ec. rewrite Dl in Lc. rewrite Dr' in Rs, Es. rewrite Dl' in Ls.
  exists mc, ms. split; try done.
  - rewrite Sc. by apply demo_peer_ready.
  - rewrite Ss. by apply demo_peer_ready.
Qed.

(** The clocks move on: from frame to frame at the client, and by a microsecond between
    the handshake and the health update at the server. *)
Definition demo_clocks : Prop :=
  (∀ i, (i < 9)%nat → stamp cc (3 + 3 * i) < stamp cc (3 + 3 * S i)) ∧ 0 < stamp cs 4.
Lemma demo_streaming w mc ms :
  demo_joined w mc ms →
  streaming client_ep server_ep player_pos score w mc (lww_new 2) (lww_new 1) (gc_new 2) (gc_new 1) ∧
  behind cc w mc (lww_new 2) (lww_new 1) ∧ listening player_pos score w.
Proof.
  intros [Hl [Hmc _] _ _ _ [C1 C2 C3 C4 C5 C6 C7 C8] [S1 S2 S3 S4 S5 S6 S7 S8]].
  split; [by split|]. split; [|by split_and!]. unfold behind. simpl.
  pose proof (elapsed_is_u (mc_conn mc) (cc (p_clock_reads (du_client w)))) as [Hts _].
  destruct (Z.ltb_spec 0 (cn_elapsed_us (mc_conn mc) (cc (p_clock_reads (du_client w))))); [done|].
  by rewrite (proj2 (Z.eqb_eq _ 0)) by lia.
Qed.
Lemma elapsed_stamp (c : Connection) (clock : nat → Z) n : cn_epoch c = clock 1%nat → cn_elapsed_us c (clock n) = stamp clock n.
Proof. intros E. unfold stamp, cn_elapsed_us. by rewrite E. Qed.
(** The score the server prints. *)
Lemma score_value s :
  gc_ok s → (∀ n, gc_get s n = if n =? 2 then Some 1000 else gc_get (gc_new 1) n) → gc_value s = 1000.
Proof.
  intros Hs Hg.
  set (c := {| gc_node_id := 1; gc_entries := [{| ge_node_id := 1; ge_count := 0 |}; {| ge_node_id := 2; ge_count := 1000 |}];
               gc_dirty := false |}).
  rewrite (gc_value_ext s c); [done|done|by_decide|]. intros n. rewrite Hg. unfold gc_get, gc_find, c.
  destruct (Z.eqb_spec n 2) as [->|N2]; [done|]. cbn [gc_new gc_entries find_key ge_node_id].
  by rewrite (proj2 (Z.eqb_neq 2 n)) by congruence.
Qed.
(** The ten frames. *)
Definition frame_lines (ls : list bytes) : Prop := ls ≡ₚ [updated "server" player_pos; updated "server" score].
Lemma demo_frames_run w mc ms :
  demo_joined w mc ms → demo_clocks →
  ∃ w' frames, demo_frames cc cs w = Ok (w', concat frames) ∧ length frames = 10%nat ∧ Forall frame_lines frames ∧
    linked client_ep server_ep w' ∧ calm (p_state (du_server w')) ∧
    read_register (du_server w') player_pos = Ok (frame_text 9) ∧ read_counter (du_server w') score = Ok 1000 ∧
    undisturbed player_pos score w w' 10.
Proof.
  intros Hj [Hcl _]. destruct (demo_streaming w mc ms Hj) as (Hst & Hbeh & Hls).
  pose proof Hj as [_ [_ Ep] _ [Rc _] [_ Ls] _ [Sc _ _ _ _ _ _ _]].
  destruct (stream_all cc cs client_ep server_ep player_pos score (proj1 (proj2 Hpaths)) demo_sent w mc _ _ _ _ Hst)
    as (w' & mc' & rc' & rs' & c' & s' & evss & E & Hst' & Ud & (Len & Log & Cb) & V & _ & G);
    [done|apply demo_sent_fit|by vm_compute| |].
  { intros i Hi. rewrite Rc, !(elapsed_stamp _ _ _ Ep). apply Hcl. simpl in Hi. lia. }
  exists w', ((λ evs : list UpdateEvent, (λ ev, updated "server" ev.1) <$> evs) <$> evss).
  destruct Hst' as [Hl' _ _ _ Hrs' _ Hs' _].
  split. { unfold demo_frames. fold demo_sent. rewrite E. cbn [res_bind]. unfold heard. rewrite Ls in *. simpl.
    rewrite drop_0, Log. simpl. do 2 f_equal. exact (concat_map _ _). }
  split; [by rewrite length_fmap, Len|]. split.
  { apply Forall_fmap. eapply Forall_impl; [apply Cb; [done|by repeat constructor]|]. intros evs Hevs. unfold frame_lines. simpl.
    change (λ ev : UpdateEvent, updated "server" ev.1) with (updated "server" ∘ (fst : UpdateEvent → StatePath)).
    by rewrite list_fmap_compose, Hevs. }
  split; [done|]. split; [by apply (ud_calm _ _ _ _ _ Ud)|].
  apply lww_at_Some in Hrs' as (gp & Hgp & Cp).
  pose proof (counter_at_ok _ _ _ (proj2 (linked_regs _ _ _ Hl')) Hs') as Hok.
  apply counter_at_Some in Hs' as (gs & Hgs & Cs').
  unfold read_register, read_counter. rewrite Hgp, Cp, Hgs, Cs'. split; [by rewrite V|]. split; [|done].
  rewrite score_value; [done|done|]. exact G.
Qed.
(** The health of the player, from the server to the client. *)
Lemma swap_server {A} (m : PM LoopbackPort A) w w1 a : on_client m (swap w) = Ok (w1, a) → on_server m w = Ok (swap w1, a).
Proof.
  rewrite on_client_swap. destruct (on_server m w) as [[w' b]| |]; [|done..]. intros [= <- <-]. by destruct w'.
Qed.
Lemma swap_client {A} (m : PM LoopbackPort A) w w1 a : on_server m w = Ok (w1, a) → on_client m (swap w) = Ok (swap w1, a).
Proof. rewrite on_client_swap. by intros ->. Qed.
Lemma demo_health_run w w' mc ms :
  demo_joined w mc ms → demo_clocks → undisturbed player_pos score w w' 10 →
  linked client_ep server_ep w' → calm (p_state (du_server w')) →
  ∃ w'', demo_health cc cs w' = Ok (w'', [updated "client" player_hp]) ∧ linked client_ep server_ep w'' ∧
    read_register (du_client w'') player_hp = Ok (txt "hp:85/100").
Proof.
  intros Hj [_ Hts] Ud Hl Hcalm. destruct Hpaths as (N1 & N2 & N3).
  pose proof Hj as [_ _ [Hms Es] [_ Rs] _ [_ Hu _ Hc _ _ Hcp _] [_ _ _ Hs _ _ _ _]].
  destruct (only_conn_steady _ _ _ Hms (ud_server _ _ _ _ _ Ud)) as (ms' & Hms' & Hsame & _).
  destruct (ud_others _ _ _ _ _ Ud (sp_hash player_hp)) as [Oc Os]; [congruence..|].
  assert (cn_epoch (mc_conn ms') = cs 1%nat) as Es' by (unfold conn_core in Hsame; congruence).
  destruct (push_register cs cc server_ep client_ep player_hp (swap w') (txt "hp:85/100") ms' (lww_new 1) (lww_new 2) 100)
    as (w1 & w2 & w3 & rs & evs & F1 & F2 & F3 & Hl3 & Hrs & V & _ & Log & Cb);
    [by apply linked_swap|done|done|unfold lww_at in *; cbn [swap du_client]; by rewrite Os
    |unfold lww_at in *; cbn [swap du_server]; by rewrite Oc
    | |by_decide|by_decide|].
  { unfold behind. cbn [swap du_client]. rewrite (ud_server_reads _ _ _ _ _ Ud), Rs, (elapsed_stamp _ _ _ Es'). simpl.
    by rewrite (proj2 (Z.ltb_lt _ _) Hts). }
  exists (swap w3). unfold demo_health.
  rewrite (swap_server _ _ _ _ F1). cbn [res_bind]. rewrite (swap_server _ (swap w1) w2 1) by (by destruct w1). cbn [res_bind].
  rewrite (swap_client _ _ _ _ F3). cbn [res_bind]. split; [|split].
  - do 2 f_equal. unfold heard. cbn [swap du_client du_server] in *. rewrite Log, drop_app_length.
    change (λ ev : UpdateEvent, updated "client" ev.1) with (updated "client" ∘ (fst : UpdateEvent → StatePath)).
    rewrite list_fmap_compose, Cb; [done|by rewrite (ud_client_hears _ _ _ _ _ Ud)|by rewrite Oc].
  - by apply linked_swap.
  - apply lww_at_Some in Hrs as (g & Hg & Cg). unfold read_register. cbn [swap du_client]. by rewrite Hg, Cg, V.
Qed.

(** *** Whatever the clocks show

    Stamps that stand still keep the registers as they are; the calls stay defined, and
    the points arrive. *)
Record going (w : Duo) (k : Z) : Prop := {
  go_linked : linked client_ep server_ep w;
  go_conns : (∃ mc, only_conn (du_client w) mc) ∧ ∃ ms, only_conn (du_server w) ms;
  go_calm : calm (p_state (du_client w)) ∧ calm (p_state (du_server w));
  go_pos : is_Some (lww_at (p_state (du_client w)) player_pos) ∧ is_Some (lww_at (p_state (du_server w)) player_pos);
  go_hp : is_Some (lww_at (p_state (du_client w)) player_hp) ∧ is_Some (lww_at (p_state (du_server w)) player_hp);
  go_score : ∃ c s, counter_at (p_state (du_client w)) score = Some c ∧
    counter_at (p_state (du_server w)) score = Some s ∧ gc_node_id c = 2 ∧ gc_local_count c = k ∧
    ∀ n, gc_get s n = if bool_decide (k ≠ 0) && (n =? 2) then Some k else gc_get (gc_new 1) n }.
Lemma joined_going w mc ms : demo_joined w mc ms → going w 0.
Proof.
  intros [Hl [Hmc _] [Hms _] _ _ [C1 C2 C3 C4 C5 _ _ _] [S1 S2 S3 S4 S5 _ _ _]].
  split; [done|eauto|done|by split; eexists|by split; eexists|]. by exists (gc_new 2), (gc_new 1).
Qed.
Lemma lww_elsewhere r r' path : sreg_get r' (sp_hash path) = sreg_get r (sp_hash path) → lww_at r' path = lww_at r path.
Proof. unfold lww_at. by intros ->. Qed.
Lemma going_frame w k f :
  going w k → frame_fits f → 0 ≤ k → 0 < f.2 → k + f.2 < 2 ^ 64 →
  ∃ w', stream_frame cc cs player_pos score w f = Ok w' ∧ going w' (k + f.2).
Proof.
  intros [Hl [[mc Hmc] [ms Hms]] [Kc Ks] [[rc Hrc] Ps] [Hc Hs] (c & s & Ec & Es & Nc & Lc & Gs)] Hf Hk0 Hpos Hov.
  destruct f as [pos pts]. cbn [fst snd] in *. pose proof Hpaths as (N1 & N2 & N3). pose proof Hf as (_ & Hpts & _).
  destruct (frame_runs cc cs client_ep server_ep player_pos score N2 w pos pts mc rc c Hl Hmc Kc Hrc Ec Hf)
    as (w2 & w' & gp & gs & ds & F & Hl' & Hrep & Sv & St & Hok2 & R & Hgp & Hgs & Cp & Cs' & Hfind & Hperm & L & U & Ho).
  exists w'. split; [done|]. pose proof (replicated_calm _ _ _ Hok2 Hrep) as Kc'.
  destruct Hrep as (Hds & Stc & Sts & Gc & Gm & _). rewrite Sv in *. destruct (linked_regs _ _ _ Hl) as [Hcok Hsok].
  pose proof (counter_at_ok _ _ _ Hcok Ec) as Hcok'. pose proof (counter_at_ok _ _ _ Hsok Es) as Hsok'.
  set (e := {| ge_node_id := gc_node_id c |}) in *.
  assert (gc_local_count (gc_increment c pts) = k + pts) as Hloc
    by (rewrite gc_increment_local, Lc by done; apply wrap_id; split; lia).
  destruct (counter_region gs _ e Cs' eq_refl Hfind) as [Bs As].
  pose proof Es as (hs & Hhs & Chs)%counter_at_Some.
  destruct (merge_into_counter hs s e Chs) as (s' & ch & _ & Cm & Gs' & _);
    [done|split; [apply Hcok'|apply u64_is_u]|].
  split; [done| | | | |].
  - destruct (only_conn_steady _ _ _ Hmc (transitivity St Stc)) as (mc' & ? & _).
    destruct (only_conn_steady _ _ _ Hms Sts) as (ms' & ? & _). eauto.
  - split; [done|]. eapply merged_calm; [exact Hsok|exact Ks| |exact Gm]. rewrite Hds. by apply pending_wf.
  - split; [|by eapply merged_lww]. eapply after_lww; [exact Gc|]. eexists. apply lww_at_Some. eauto.
  - split; [|by eapply merged_lww]. eapply after_lww; [exact Gc|]. by rewrite (lww_elsewhere _ _ _ (Ho _ (not_eq_sym N1) N3)).
  - exists (gc_clean (gc_increment c pts)), s'. split_and!.
    + apply counter_at_Some. exists (region_after gs). by rewrite Gc, Hgs.
    + apply counter_at_Some. exists (merge_into (gc_bytes [e]) hs). split; [|done]. rewrite Gm. unfold merged.
      rewrite (delta_for_pending _ _ _ Hds), Hgs. cbn [mbind option_bind]. by rewrite Bs, Hhs.
    + done.
    + done.
    + intros n. rewrite Gs', Gs. cbn [e ge_node_id ge_count]. rewrite Nc, <-gc_increment_local, Hloc by done.
      rewrite (bool_decide_eq_true_2 (k + pts ≠ 0)) by lia. cbn [andb].
      destruct (Z.eqb_spec n 2) as [->|]; [|by rewrite andb_false_r]. rewrite andb_true_r.
      case_bool_decide; [|done]. simpl. f_equal. lia.
Qed.
Lemma going_stream fs : ∀ w k,
  going w k → Forall frame_fits fs → 0 ≤ k → Forall (λ f : bytes * Z, 0 < f.2) fs → k + points fs < 2 ^ 64 →
  ∃ w', stream cc cs player_pos score w fs = Ok w' ∧ going w' (k + points fs).
Proof.
  induction fs as [|f fs IH]; intros w k Hw Hf Hk Hp Hov; [exists w; by rewrite Z.add_0_r|].
  apply Forall_cons in Hf as [Hf Hfs], Hp as [Hp Hps]. change (points (f :: fs)) with (f.2 + points fs) in *.
  assert (0 ≤ points fs) as Hnn by (clear -Hps; induction Hps; unfold points in *; csimpl in *; lia).
  destruct (going_frame w k f Hw Hf Hk Hp) as (w1 & E1 & Hw1); [lia|].
  destruct (IH w1 (k + f.2) Hw1 Hfs) as (w' & E2 & Hw'); [lia|done|lia|].
  exists w'. split; [unfold stream; cbn [res_foldl]; by rewrite E1|]. by rewrite Z.add_assoc.
Qed.
Lemma going_health w k : going w k →
  ∃ w' lines, demo_health cc cs w = Ok (w', lines) ∧ linked client_ep server_ep w' ∧
    is_Some (lww_at (p_state (du_client w')) player_hp).
Proof.
  intros [Hl [_ [ms Hms]] [_ Ks] _ [Hc [rs Hrs]] _].
  destruct (push_runs cs cc server_ep client_ep player_hp (swap w) (txt "hp:85/100") ms rs 100)
    as (w1 & w2 & w3 & d & F1 & F2 & F3 & Hl3 & Hrep & Es & _); [by apply linked_swap|done..|by_decide|by_decide|].
  destruct Hrep as (_ & _ & _ & _ & Gm & _). eexists (swap w3), _. unfold demo_health.
  rewrite (swap_server _ _ _ _ F1). cbn [res_bind]. rewrite (swap_server _ (swap w1) w2 1) by (by destruct w1). cbn [res_bind].
  rewrite (swap_client _ _ _ _ F3). cbn [res_bind]. split; [done|]. split; [by apply linked_swap|].
  eapply merged_lww; [exact Gm|]. by rewrite Es.
Qed.

(** *** When [connect] gives up *)

(** The client has a connection that is not up: what it writes stays with it. *)
Record away (p : Peer LoopbackPort) : Prop := {
  aw_ok : peer_ok p;
  aw_conn : ∃ mc, cm_conns (p_conn_mgr p) = {[0 := mc]} ∧ cn_state (mc_conn mc) ≠ CONNECTED;
  aw_pos : is_Some (lww_at (p_state p) player_pos);
  aw_score : is_Some (counter_at (p_state p) score);
  aw_hp : read_register p player_hp = Ok [];
  aw_log : p_update_log p = [] }.
Lemma away_has (p : Peer LoopbackPort) mc :
  cm_conns (p_conn_mgr p) = {[0 := mc]} → cn_state (mc_conn mc) ≠ CONNECTED → cm_has_connections (p_conn_mgr p) = false.
Proof.
  intros Hc Hs. unfold cm_has_connections. rewrite Hc, uiter_singleton. simpl. by rewrite bool_decide_eq_false_2.
Qed.
Lemma unconnected_flush clock (p : Peer LoopbackPort) :
  cm_has_connections (p_conn_mgr p) = false → peer_flush clock p = Ok (p, -1).
Proof. intros Hc. unfold peer_flush, mbind, PM_bind, pm_get. cbn [res_bind]. by rewrite Hc. Qed.
Lemma unconnected_poll clock t (p : Peer LoopbackPort) :
  cm_has_connections (p_conn_mgr p) = false → peer_poll clock t p = Ok (p, -1).
Proof. intros Hc. unfold peer_poll, mbind, PM_bind, pm_get. cbn [res_bind]. by rewrite Hc. Qed.
Lemma away_plug b p : away p → bus_ok b → away (plug b p).
Proof. intros [? ? ? ? ? ?] Hb. split; try done. by apply plug_ok. Qed.
Lemma away_wrote p p' path v :
  away p → wrote p p' path v → path = player_pos ∧ (∃ x, v = CV_Lww x) ∨ path = score ∧ (∃ x, v = CV_GCounter x) →
  away p'.
Proof.
  intros [Hok (mc & Hc & Hs) [vp Hp] [vs Hsc] Hh Hl] (Hok' & Hst & _ & L & _ & (g & Hg & Hg') & Ho) Hpath.
  destruct Hpaths as (N1 & N2 & N3). destruct (single_steady p p' mc Hc Hst) as (mc' & Hc' & Hsame & _).
  split; [done|exists mc'; split; [done|]; unfold conn_core in Hsame; congruence| | | |by rewrite L].
  - destruct Hpath as [[-> [x ->]]|[-> _]]; [exists x; apply lww_at_Some; by eexists|].
    exists vp. rewrite <-Hp. unfold lww_at. by rewrite Ho.
  - destruct Hpath as [[-> _]|[-> [x ->]]]; [|exists x; apply counter_at_Some; by eexists].
    exists vs. rewrite <-Hsc. unfold counter_at. by rewrite Ho by congruence.
  - rewrite <-Hh. unfold read_register. rewrite Ho; [done|]. destruct Hpath as [[-> _]|[-> _]]; congruence.
Qed.

(** The server knows nothing of the client, or waits for one that is gone. *)
Record alone (b : LoopbackBus) (q : Peer LoopbackPort) : Prop := {
  al_ok : peer_ok q;
  al_state : demo_state 1 (p_state q);
  al_log : p_update_log q = [];
  al_conn : (∃ ms, cm_conns (p_conn_mgr q) = {[0 := ms]} ∧ cn_state (mc_conn ms) ≠ CONNECTED) ∨
            idle b server_ep ∧ ∃ node pk, side server_ep client_ep node pk q }.
Definition missed (w : Duo) : Prop := away (du_client w) ∧ alone (du_bus w) (du_server w) ∧ bus_ok (du_bus w).
Lemma away_unconnected p : away p → cm_has_connections (p_conn_mgr p) = false.
Proof. intros [_ (mc & Hc & Hs) _ _ _ _]. by eapply away_has. Qed.
(** A frame of the loop, with nobody listening. *)
Lemma away_client_write {A} (m : PM LoopbackPort A) w p' a path v :
  missed w → m (plug (du_bus w) (du_client w)) = Ok (p', a) → wrote (plug (du_bus w) (du_client w)) p' path v →
  path = player_pos ∧ (∃ x, v = CV_Lww x) ∨ path = score ∧ (∃ x, v = CV_GCounter x) →
  let w' := {| du_bus := du_bus w; du_client := p'; du_server := du_server w |} in
  on_client m w = Ok (w', a) ∧ missed w' ∧ plug (du_bus w) p' = p'.
Proof.
  intros (Ha & Hs & Hb) Em Hw Hpath w'. pose proof Hw as (_ & _ & Ht & _).
  assert (lp_bus (p_transport p') = du_bus w) as Ebus by by rewrite Ht.
  unfold on_client. rewrite Em. cbn [res_bind]. rewrite Ebus. split; [done|]. split; [|by apply plug_id].
  split_and!; try done. eapply away_wrote; [|done|done]. by apply away_plug.
Qed.
Lemma alone_poll w t :
  missed w → plug (du_bus w) (du_client w) = du_client w →
  ∃ w' n, on_server (peer_poll cs t) w = Ok (w', n) ∧ missed w'.
Proof.
  intros (Ha & [Hok Hst Hl Hc] & Hb) Hp. unfold on_server. destruct Hc as [(ms & Hm & Hn)|(Hi & node & pk & Hsd)].
  - rewrite unconnected_poll by (by eapply away_has). cbn [res_bind]. eexists _, _. split; [done|].
    split_and!; simpl; [done| |done]. split; simpl; [by apply plug_ok|done|done|]. left. by exists ms.
  - destruct (poll_idle cs _ _ _ _ _ _ t Hsd Hb Hi) as (q' & -> & Hsd' & _ & S' & L' & _ & Hb' & Hq).
    cbn [res_bind]. eexists _, _. split; [done|]. split_and!; simpl; [done| |done].
    split; [apply Hsd'|by rewrite S'|by rewrite L'|]. right. split; [unfold idle; by rewrite Hq|eauto].
Qed.
Lemma missed_frame w f : missed w → frame_fits f → ∃ w', stream_frame cc cs player_pos score w f = Ok w' ∧ missed w'.
Proof.
  intros Hw (Hpos & Hpts & _). pose proof Hw as (Ha & _ & Hb). pose proof (away_plug _ _ Ha Hb) as Ha'.
  destruct Ha' as [Hok (mc & Hc & Hn) [vp Hvp] [vs Hvs] _ _].
  destruct (set_lww_wrote cc _ mc player_pos f.1 vp Hok (single_primary _ _ Hc) Hvp Hpos) as (p1 & E1 & W1 & _).
  destruct (away_client_write _ w p1 true player_pos _ Hw E1 W1) as (F1 & Hw1 & P1); [left; eauto|].
  pose proof Hw1 as ([Hok1 _ _ [vs1 Hvs1] _ _] & _ & _). cbn [du_client] in *.
  destruct (increment_wrote p1 score f.2 vs1 Hok1 Hvs1 Hpts) as (p2 & E2 & W2 & _).
  rewrite <-P1 in E2 at 1. rewrite <-P1 in W2.
  set (w1 := {| du_client := p1 |}) in *.
  destruct (away_client_write _ w1 p2 true score _ Hw1 E2 W2) as (F2 & Hw2 & P2); [right; eauto|].
  set (w2 := {| du_client := p2 |}) in *.
  assert (on_client (peer_flush cc) w2 = Ok (w2, -1)) as F3.
  { unfold on_client. rewrite unconnected_flush by (by apply (away_unconnected p2), Hw2). cbn [res_bind].
    change (plug (du_bus w2) (du_client w2)) with (plug (du_bus w1) p2). rewrite P2.
    assert (lp_bus (p_transport p2) = du_bus w) as -> by (by rewrite <-P2). done. }
  destruct (alone_poll w2 100 Hw2 P2) as (w' & n & F4 & Hw').
  exists w'. split; [|done]. unfold stream_frame. rewrite F1. cbn [res_bind]. rewrite F2. cbn [res_bind].
  rewrite F3. cbn [res_bind]. by rewrite F4.
Qed.
Lemma missed_stream fs : ∀ w,
  missed w → Forall frame_fits fs → ∃ w', stream cc cs player_pos score w fs = Ok w' ∧ missed w'.
Proof.
  induction fs as [|f fs IH]; intros w Hw Hf; [by exists w|]. apply Forall_cons in Hf as [Hf Hfs].
  destruct (missed_frame w f Hw Hf) as (w1 & E1 & Hw1). destruct (IH w1 Hw1 Hfs) as (w' & E2 & Hw').
  exists w'. split; [|done]. unfold stream. cbn [res_foldl]. rewrite E1. exact E2.
Qed.
Lemma missed_health w : missed w →
  ∃ w', demo_health cc cs w = Ok (w', []) ∧ away (du_client w') ∧ bus_ok (du_bus w').
Proof.
  intros (Ha & [Hok _ _ _] & Hb).
  destruct (total_set_lww cs player_hp (txt "hp:85/100") ltac:(by_decide) (plug (du_bus w) (du_server w))) as (q1 & b1 & E1 & Hq1);
    [by apply plug_ok|].
  destruct (total_flush cs q1 Hq1) as (q2 & n2 & E2 & Hq2).
  unfold demo_health, on_server, on_client. rewrite E1. cbn [res_bind du_bus du_server du_client]. rewrite plug_id by done.
  rewrite E2. cbn [res_bind du_bus du_server du_client].
  assert (bus_ok (lp_bus (p_transport q2))) as Hb2 by apply Hq2.
  pose proof (away_plug _ _ Ha Hb2) as Ha2. rewrite unconnected_poll by (by apply away_unconnected). cbn [res_bind].
  exists {| du_bus := lp_bus (p_transport q2); du_client := plug (lp_bus (p_transport q2)) (du_client w); du_server := q2 |}.
  split; [|by split]. unfold heard. cbn [du_client]. by rewrite (aw_log _ Ha), (aw_log _ Ha2).
Qed.
Lemma demo_misses w :
  rtc (any_step cc cs server_ep 5000) (start (demo_setup ks kc)) w → finished w → rv_connect w = T_Done false →
  missed (rv_duo w).
Proof.
  intros Hr Hf E.
  destruct (missed_link cc cs client_ep server_ep 5000 demo_keys _ w demo_meeting Hr Hf E) as [(Sc & Lc & Hmc) Hs].
  destruct (meeting_run_ok cc cs client_ep server_ep 5000 _ w demo_meeting Hr) as (Gc & Gs & Hb).
  rewrite E in Gc. destruct Hf as [_ Hf]. destruct (rv_accept w) as [| | |ok]; [done..|].
  cbn [demo_setup du_client du_server] in *.
  destruct (demo_peer_fields 2 client_ep kc 1 (kp_public_key ks)) as (_ & _ & _ & Dl).
  destruct (demo_peer_fields 1 server_ep ks 2 (kp_public_key kc)) as (_ & _ & _ & Dl').
  pose proof (demo_peer_ready 2 client_ep kc 1 (kp_public_key ks) Hpaths) as Rc.
  pose proof (demo_peer_ready 1 server_ep ks 2 (kp_public_key kc) Hpaths) as Rs.
  rewrite Dl in Lc. rewrite <-Sc in Rc. split; [|split; [|done]].
  - destruct Rc as [_ _ Hp (g & Hg & Cg)%lww_at_Some Hsc _ _ _].
    split; [apply Gc|done|by rewrite Hp|by rewrite Hsc| |done]. unfold read_register. by rewrite Hg, Cg.
  - destruct Hs as [(Ss & Ls & Hms)|((Ss & Ls & _) & Hi & Hsd)]; rewrite Dl' in Ls; rewrite <-Ss in Rs;
      (split; [apply Gs|done|done|]); [by left|right; eauto].
Qed.
(** Nothing arrives, and the program says so. *)
Lemma demo_after_missed w :
  missed (rv_duo w) → rv_connect w = T_Done false →
  demo_after cc cs w = Ok (demo_lines false [] [] 0 [] []).
Proof.
  intros Hm E. unfold demo_after, demo_frames. rewrite E.
  destruct (missed_stream _ _ Hm demo_sent_fit) as (w1 & F1 & Hm1). unfold demo_sent in F1. rewrite F1. cbn [res_bind].
  pose proof Hm as (_ & [_ _ L0 _] & _). pose proof Hm1 as (_ & [_ [_ _ Hp _ Hs _ _ _] L1 _] & _).
  apply lww_at_Some in Hp as (gp & Hgp & Cp). apply counter_at_Some in Hs as (gs & Hgs & Cs').
  unfold heard. rewrite L1, drop_nil. unfold read_register at 1, read_counter. rewrite Hgp, Cp, Hgs, Cs'. cbn [res_bind].
  destruct (missed_health w1 Hm1) as (w2 & F2 & Ha2 & Hb2). rewrite F2. cbn [res_bind]. rewrite (aw_hp _ Ha2). cbn [res_bind].
  destruct (total_disconnect cc CR_NORMAL (plug (du_bus w2) (du_client w2))) as (p & u & Ed & _);
    [apply plug_ok; [apply Ha2|done]|]. unfold on_client. by rewrite Ed.
Qed.
(** Everything arrives. *)
Lemma demo_after_joined w mc ms :
  demo_joined (rv_duo w) mc ms → demo_clocks → rv_connect w = T_Done true →
  ∃ frames, length frames = 10%nat ∧ Forall frame_lines frames ∧
    demo_after cc cs w = Ok (demo_lines true (concat frames) (txt "x:90,y:45") 1000
                               [updated "client" player_hp] (txt "hp:85/100")).
Proof.
  intros Hj Hcl E.
  destruct (demo_frames_run _ mc ms Hj Hcl) as (w1 & frames & F1 & Len & Hfr & Hl1 & Hc1 & P1 & S1 & Ud).
  destruct (demo_health_run _ w1 mc ms Hj Hcl Ud Hl1 Hc1) as (w2 & F2 & Hl2 & R2).
  exists frames. split; [done|]. split; [done|]. unfold demo_after. rewrite E, F1. cbn [res_bind].
  rewrite P1, S1. cbn [res_bind]. rewrite F2. cbn [res_bind]. rewrite R2. cbn [res_bind].
  destruct (total_disconnect cc CR_NORMAL (plug (du_bus w2) (du_client w2))) as (p & u & Ed & _);
    [by apply plug_ok; apply Hl2|]. unfold on_client. by rewrite Ed.
Qed.
(** Connected, with any clocks: the program ends, and the score is right. *)
Lemma demo_after_defined w mc ms :
  demo_joined (rv_duo w) mc ms → rv_connect w = T_Done true →
  ∃ frames position health hp, demo_after cc cs w = Ok (demo_lines true frames position 1000 health hp).
Proof.
  intros Hj E. unfold demo_after, demo_frames. rewrite E.
  destruct (going_stream demo_sent _ 0 (joined_going _ _ _ Hj) demo_sent_fit) as (w1 & F1 & Hg1);
    [done|by repeat constructor|by vm_compute|]. fold demo_sent. rewrite F1. cbn [res_bind].
  pose proof Hg1 as [Hl1 _ _ [_ [rp (gp & Hgp & Cp)%lww_at_Some]] _ (c & s & _ & Hs & _ & _ & Gs)].
  pose proof (counter_at_ok _ _ _ (proj2 (linked_regs _ _ _ Hl1)) Hs) as Hsok.
  apply counter_at_Some in Hs as (gs & Hgs & Cs').
  unfold read_register at 1, read_counter. rewrite Hgp, Cp, Hgs, Cs'. cbn [res_bind]. rewrite (score_value s Hsok Gs).
  destruct (going_health w1 _ Hg1) as (w2 & lines & F2 & Hl2 & [v (g & Hg & Cg)%lww_at_Some]).
  rewrite F2. cbn [res_bind]. unfold read_register. rewrite Hg, Cg. cbn [res_bind].
  destruct (total_disconnect cc CR_NORMAL (plug (du_bus w2) (du_client w2))) as (p & u & Ed & _);
    [by apply plug_ok; apply Hl2|]. unfold on_client. rewrite Ed. by eexists _, _, _, _.
Qed.
End Output.

Section Output_theorem.
Context `{XxHash} `{Ed25519} `{UnorderedIter} `{StdSort}.
Context (cc cs : nat → Z).

(** C5: The demo does what it shows.  For any hash that tells the three paths apart and any
    two keys that [KeyPair::generate] made, any clocks, every interleaving of the connecting
    and the accepting thread and whichever receives give up: the two threads take at most
    six pieces, and one that has not returned can go on, without undefined behaviour.  Once
    both have returned, [main] runs to its end without undefined behaviour.  If [connect]
    gave up it prints that the peers are not connected, no callback, an empty position, no
    points and no health.  If it did not, it prints that they are connected and 1000 points;
    and if, besides, the client's clock advances by a microsecond from frame to frame and the
    server's between the handshake and the health update, then it prints, line by line: for
    each of the ten frames the two server callbacks, in some order; the last position and
    1000 points; the client's callback and the health it was sent; and that it is done.  If
    no receive gives up, [connect] does not fail. *)
Theorem demo_output us uc ks kc n w :
  distinct_paths → kp_generate us = Some ks → kp_generate uc = Some kc →
  nsteps (any_step cc cs server_ep 5000) n (start (demo_setup ks kc)) w →
  (n ≤ 6)%nat ∧
  (is_done (rv_connect w) = true ∨ connect_enabled cc cs server_ep 5000 w) ∧
  (is_done (rv_accept w) = true ∨ accept_enabled cc cs server_ep 5000 w) ∧
  (finished w →
   (rtc (rdv_step cc cs server_ep 5000 false) (start (demo_setup ks kc)) w → rv_connect w = T_Done true) ∧
   (rv_connect w = T_Done false ∧ demo_after cc cs w = Ok (demo_lines false [] [] 0 [] []) ∨
    rv_connect w = T_Done true ∧
    (∃ frames position health hp, demo_after cc cs w = Ok (demo_lines true frames position 1000 health hp)) ∧
    (demo_clocks cc cs →
     ∃ frames, length frames = 10%nat ∧ Forall frame_lines frames ∧
       demo_after cc cs w = Ok (demo_lines true (concat frames) (txt "x:90,y:45") 1000
                                  [updated "client" player_hp] (txt "hp:85/100"))))).
Proof.
  intros Hp Eks Ekc Hn.
  pose proof (kp_generate_spec us) as Hks. pose proof (kp_generate_spec uc) as Hkc. rewrite Eks in Hks. rewrite Ekc in Hkc.
  destruct Hks as [Hks _], Hkc as [Hkc _]. pose proof (demo_meeting ks kc Hp Hks Hkc) as Hm.
  pose proof (rtc_nsteps_2 _ _ _ Hn) as Hr. pose proof (meeting_run_ok _ _ _ _ _ _ _ Hm Hr) as Hok.
  split; [pose proof (run_work _ _ _ _ _ _ _ Hn) as Hw; unfold work in Hw; simpl in Hw; lia|].
  split; [by apply connect_progress|]. split; [by apply accept_progress|]. intros Hf. split.
  - intros Hq. eapply quick_end; [|done]. by eapply quick_phase, Hq; [apply demo_keys|].
  - destruct (rv_connect w) as [| | |[]] eqn:E; [by destruct Hf as [Hf _]; rewrite E in Hf..|right|left]; (split; [done|]).
    + destruct (demo_joins cc cs ks kc Hp Hks Hkc w Hr E) as (mc & ms & Hj).
      split; [by eapply demo_after_defined|]. intros Hcl. by eapply demo_after_joined.
    + apply demo_after_missed; [done| |done]. exact (demo_misses cc cs ks kc Hp Hks Hkc w Hr Hf E).
Qed.
End Output_theorem.

(** ** Runs with concrete instances *)
Module DemoRun.
#[local] Existing Instances toy_xxhash toy_ed25519 insertion_std_sort.
Definition keys_s : KeyPair := toy_keys 7.
Definition keys_c : KeyPair := toy_keys 9.
Definition tick (step : Z) (n : nat) : Z := step * Z.of_nat n.
Definition demo_handshake (step : Z) (schedule : list bool) : option (bool * Rdv) :=
  rdv_run (tick step) (tick step) server_ep 5000 schedule (start (demo_setup keys_s keys_c)).
(** The accepting thread first, as the sleep in [main] arranges. *)
Definition joined (step : Z) : option Rdv := snd <$> demo_handshake step [false; true; false; false; true; true].
Definition output (step : Z) : option (res (list bytes)) := demo_after (tick step) (tick step) <$> joined step.
Definition twenty : list bytes := concat (replicate 10 [updated "server" score; updated "server" player_pos]).
(** Every clock reading a microsecond after the last. *)
Example demo_runs :
  output 1000 = Some (Ok (demo_lines true twenty (txt "x:90,y:45") 1000 [updated "client" player_hp] (txt "hp:85/100"))).
Proof. vm_compute. reflexivity. Qed.
(** If everything happens within one microsecond, the stamps are equal: the server keeps
    the first position, and the client never sees the health. *)
Example demo_stalls :
  output 0 = Some (Ok (demo_lines true ([updated "server" score; updated "server" player_pos] ++ replicate 9 (updated "server" score))
                         (txt "x:0,y:0") 1000 [] [])).
Proof. vm_compute. reflexivity. Qed.
(** A connecting thread that gives up before the server accepts leaves the server
    with an established connection: [accept_from] returns true and [connect] false. *)
Definition gave_up : option Rdv := snd <$> demo_handshake 1000 [true; true; true; false; false; false].
Example half_open :
  (λ r, (rv_connect r, rv_accept r, demo_after (tick 1000) (tick 1000) r)) <$> gave_up =
  Some (T_Done false, T_Done true, Ok (demo_lines false [] [] 0 [] [])).
Proof. vm_compute. reflexivity. Qed.

#[local] Abbreviation clk := (tick 1000).
Lemma paths_differ : distinct_paths.
Proof. split_and!; by_decide. Qed.
Lemma clocks_move : demo_clocks clk clk.
Proof. split; [|by_decide]. intros i Hi. do 9 (destruct i as [|i]; [by_decide|]). lia. Qed.
Definition joined_run : Rdv := default (start (demo_setup keys_s keys_c)) (joined 1000).
Lemma joined_run_steps : rtc (rdv_step clk clk server_ep 5000 false) (start (demo_setup keys_s keys_c)) joined_run.
Proof. apply (quick_run_steps _ _ _ _ [false; true; false; false; true; true]). vm_compute. reflexivity. Qed.
Lemma joined_run_finished : finished joined_run.
Proof. split; vm_compute; reflexivity. Qed.
Lemma joined_run_state : ∃ mc ms, demo_joined clk clk (rv_duo joined_run) mc ms.
Proof.
  apply (demo_joins clk clk keys_s keys_c paths_differ (toy_keys_valid 7) (toy_keys_valid 9)).
  - exact (quick_any _ _ _ _ _ _ joined_run_steps).
  - vm_compute. reflexivity.
Qed.
Definition seed (n : Z) : option bytes := Some (replicate 32 n).
Lemma demo_output_witness :
  finished joined_run ∧ rv_connect joined_run = T_Done true ∧
  ∃ frames, length frames = 10%nat ∧ Forall frame_lines frames ∧
    demo_after clk clk joined_run = Ok (demo_lines true (concat frames) (txt "x:90,y:45") 1000
                                          [updated "client" player_hp] (txt "hp:85/100")).
Proof.
  split; [exact joined_run_finished|].
  destruct (rtc_nsteps_1 _ _ (quick_any _ _ _ _ _ _ joined_run_steps)) as [n Hn].
  destruct (demo_output clk clk (seed 7) (seed 9) keys_s keys_c n joined_run) as (_ & _ & _ & Hf).
  - exact paths_differ.
  - reflexivity.
  - reflexivity.
  - exact Hn.
  - destruct (Hf joined_run_finished) as [_ [[E _]|(E & _ & Hout)]].
    + exfalso. revert E. by vm_compute.
    + split; [exact E|]. exact (Hout clocks_move).
Defined.
Lemma rendezvous_witness :
  let d := demo_setup keys_s keys_c in
  (∀ n w, nsteps (any_step clk clk server_ep 5000) n (start d) w →
     (n ≤ 6)%nat ∧ (is_done (rv_connect w) = true ∨ connect_enabled clk clk server_ep 5000 w) ∧
     (is_done (rv_accept w) = true ∨ accept_enabled clk clk server_ep 5000 w) ∧
     (rv_connect w = T_Done true → rv_accept w = T_Done true ∧ linked client_ep server_ep (rv_duo w))) ∧
  (∀ w, rtc (rdv_step clk clk server_ep 5000 false) (start d) w →
     (finished w ∨ ∃ w', rdv_step clk clk server_ep 5000 false w w') ∧ (finished w → rv_connect w = T_Done true)).
Proof.
  intros d. apply (rendezvous clk clk client_ep server_ep 5000 demo_keys d).
  exact (demo_meeting keys_s keys_c paths_differ (toy_keys_valid 7) (toy_keys_valid 9)).
Defined.
Lemma stream_tracks_witness :
  ∃ w' rs' s' evss f,
    stream clk clk player_pos score (rv_duo joined_run) (take 7 demo_sent) = Ok w' ∧ linked client_ep server_ep w' ∧
    demo_sent !! pred 7 = Some f ∧ lww_at (p_state (du_server w')) player_pos = Some rs' ∧ lww_value rs' = f.1 ∧
    counter_at (p_state (du_server w')) score = Some s' ∧ gc_get s' 2 = Some (0 + points (take 7 demo_sent)) ∧
    called_back player_pos score (rv_duo joined_run) w' (take 7 demo_sent) evss.
Proof.
  destruct joined_run_state as (mc & ms & Hj). destruct (demo_streaming clk clk _ mc ms Hj) as (Hst & Hb & _).
  pose proof Hj as [_ [_ Ep] _ [Rc _] _ _ _].
  apply (stream_tracks clk clk client_ep server_ep player_pos score (rv_duo joined_run) mc (lww_new 2) (lww_new 1)
           (gc_new 2) (gc_new 1) demo_sent 7).
  - exact (proj1 (proj2 paths_differ)).
  - exact Hst.
  - exact Hb.
  - exact demo_sent_fit.
  - vm_compute. reflexivity.
  - intros i Hi. rewrite Rc, !(elapsed_stamp _ _ _ Ep). apply clocks_move. simpl in Hi. lia.
  - simpl. lia.
Defined.
(** The client has moved and scored, and not flushed yet. *)
Definition dirty : Duo :=
  match on_client (peer_set_lww clk player_pos (frame_text 3)) (rv_duo joined_run) with
  | Ok (w, _) => match on_client (peer_increment_counter score 100) w with Ok (w, _) => w | _ => w end
  | _ => rv_duo joined_run
  end.
Lemma dirty_linked : linked client_ep server_ep dirty.
Proof.
  destruct joined_run_state as (mc & ms & [Hl [Hmc _] _ _ _ [_ _ Hp _ Hs _ _ _] _]).
  destruct (client_writes clk client_ep server_ep player_pos score (proj1 (proj2 paths_differ)) _ (frame_text 3) 100
    mc _ _ Hl Hmc Hp Hs) as (w1 & w2 & gp & gs & F1 & F2 & Hl2 & _); [by_decide..|].
  unfold dirty. rewrite F1, F2. exact Hl2.
Qed.
Lemma flush_poll_replicates_witness :
  length (pending_deltas (p_state (du_client dirty))) = 2%nat ∧
  ∃ w1 w2 ds, on_client (peer_flush clk) dirty = Ok (w1, Z.of_nat (length ds)) ∧
    on_server (peer_poll clk 100) w1 =
      Ok (w2, changed_count (p_state (du_server dirty)) ds) ∧
    linked client_ep server_ep w2 ∧ replicated dirty w2 ds.
Proof.
  split; [vm_compute; reflexivity|]. apply (flush_poll_replicates clk clk client_ep server_ep dirty 100).
  - exact dirty_linked.
  - unfold pending_fits. by_decide.
Defined.
End DemoRun.
